(* ===== verification/_CoqProject ===== *)
-Q . S2P
Prelude.v
Proto.v
Codec.v
CodecProps.v
Env.v
RecordDB.v
Store.v
StoreRefinement.v
StoreSpec.v
NoFault.v
Skip.v
StoreProps.v
Dag.v
DagProps.v
Heartbeat.v
HeartbeatProps.v
Coordinator.v
CoordinatorRefinement.v
Invariant.v
CoordinatorInv.v
Requeue.v
Submission.v
Failure.v
Dashboard.v
TaskChanges.v
Service.v
Steady.v
Total.v
System.v
Room.v
Progress.v
Completions.v
Concurrent.v
LockDiscipline.v
ConcurrentProps.v
Rely.v
RelyHandlers.v
RelySubmit.v
Frame.v
Submitted.v
Stuck.v
Executions.v
Sample.v
RecoveryGaps.v
Races.v
StoreWitness.v
SystemProps.v
InterleavingProps.v
DashboardProps.v
HandlerProps.v
HandlerWitness.v
Cli.v
CliProps.v
Agent.v
AgentProps.v
Cluster.v
ClusterProps.v
ProgressProps.v
Main.v
Page.v
PageText.v
PageProps.v
PageRun.v
PageWitness.v
