(* ===== verification/Prelude.v ===== *)
(** * dag-scheduler: a verification development

    The repository is a distributed task scheduler in Go. Clients submit workflows
    (directed acyclic graphs of shell commands) to a coordinator; worker agents open
    a stream to it, ask for tasks, run their commands, send heartbeats and report
    results; the coordinator keeps every task record in a bbolt database and
    recovers from it after a crash; a dashboard and a command line client show and
    control it. This development models these programs, the coordinator down to the
    bytes of its database, and proves what they promise.

    ** The parts and the files that model them

    Foundations:
    - [Prelude]: Go's integers, byte slices and errors, the monad [M] of stateful
      code that may die ([Crashed]), loops ([foldM], [forEach]), iteration over Go
      maps in an arbitrary order ([range_map] with a [seed]), the program logic
      [wp], code that stays in a preorder at every point where it may die
      ([respects]), the simulation relation [refines], and lemmas on lists, maps
      and sums.
    - [Proto]: the enums, messages and database records
      (src/internal/proto/scheduler, src/internal/store/store.go).
    - [Env]: what the program uses and does not define, as classes of operations
      with classes of laws: bbolt buckets ([Bolt], [BoltLaws]), protobuf
      ([Protobuf], [ProtobufLaws]), the clock, UUIDs, map orders and the fate of
      each transaction ([Env]). Models of them show that the laws can be met.

    The store (src/internal/store):
    - [Codec], [CodecProps]: serialization.go, byte by byte.
    - [RecordDB]: the interface between the operations of the store and what holds
      the records, with its two implementations: bbolt buckets of bytes ([BoltDB])
      and maps of records ([AbsDB]). [RecordDBCore] is what an implementation
      promises, and [bolt_core] discharges it for bbolt by the codec's round trips.
      [RecordDBLaws] adds what [CancelWorkflowTasks] takes for granted: writing to the
      visited keys does not disturb [ForEach]. bbolt's documentation leaves that
      undefined, so it is an assumption of its own ([ForEachPutStable] of [Env]).
    - [Store]: every operation of [StateStore], each a transaction over a
      [RecordDB]. [StoreRefinement] shows that the operations over bbolt simulate
      those over maps; [StoreSpec] describes the latter by their effect, [NoFault]
      and [Skip] when no transaction fails; [TaskChanges] says how they move the
      task records along a preorder; [StoreProps] has the theorems and
      [StoreWitness] their concrete instances.

    The coordinator (src/internal/coordinator, src/internal/worker,
    src/cmd/coordinator):
    - [Dag], [DagProps]: dag.go.
    - [Heartbeat], [HeartbeatProps]: heartbeat.go and the gauges and counters of
      src/internal/metrics.
    - [Coordinator]: the state of [coordinator.Coordinator] ([Mem] over a store) and
      every handler of coordinator.go, recovery.go and watchdog.go, named as in the
      source. [CoordinatorRefinement] lifts the refinement of the store to them.
    - [Invariant], [CoordinatorInv]: the invariant of the task records ([dbinv]), of
      the memory over them ([meminv]), what may happen to records ([advances]), and
      that every handler keeps all three at every point where it can die ([keeps]).
    - [Submission], [Failure], [Requeue]: what submissions, failures, dead workers
      and restarts do, exactly. [Steady]: states from which no transaction fails any
      more, whatever failed before. [Total]: no handler panics, whatever fails; it can
      only be killed inside a transaction of its own.
    - [Dashboard], [DashboardProps]: the handlers of dashboard.go over the store.
      [Page]: the script of its page, on the variables and the elements it writes;
      [PageText]: how a browser reads the HTML it builds; [PageProps], [PageRun],
      [PageWitness]: what the page shows.
    - [Service]: the methods of the gRPC service (main.go), the worker streams
      (worker.go) and the two background loops.
    - [System]: a process that serves events (RPCs, stream messages, timer ticks,
      HTTP requests), one handler at a time, is killed at any moment and is restarted
      on its database ([exec]); the states it can reach ([reachable]), what comes
      later ([later]).
    - [Completions], [Executions], [Frame], [Submitted], [Stuck]: what a run of the
      system does to final records, to execution ids, to the buckets the handlers
      leave alone, to cached specifications, and to tasks that wait for nothing.
    - [Room], [Progress]: records that bbolt has room for, and the rounds of request
      and success by which a worker completes a workflow.
    - [SystemProps], [HandlerProps], [RecoveryGaps], [ProgressProps]: the theorems
      about the running system; [Sample], [HandlerWitness]: runs on which they are
      instantiated.

    Interleavings of the handlers:
    - [Concurrent]: the handlers again, as threads of atomic actions (taking and
      releasing [c.mu], an access to the memory, a transaction), in any number at a
      time, and the process they run in. [LockDiscipline], [ConcurrentProps]: which
      accesses are made under the lock, absence of deadlock, and that a thread alone
      takes the state where the sequential handler takes it. [Rely], [RelyHandlers],
      [RelySubmit]: a rely-guarantee logic over them; [InterleavingProps] its
      conclusion; [Races]: the interleavings that break more.

    The other programs:
    - [Main]: the main functions of coordinator and agent, from the flags to the
      shutdown after a signal; which calls gRPC's [GracefulStop] still serves, and when
      it returns, are parameters ([GracefulServer]).
    - [Agent], [AgentProps]: src/cmd/worker/main.go, its goroutines as steps over the
      shared map of running tasks, its sessions and its reconnecting loop.
    - [Cli], [CliProps]: src/cmd/cli/main.go.
    - [Cluster], [ClusterProps]: the coordinator, any number of agents and the
      streams between them, composed: messages travel in order, streams break,
      agents and the coordinator die at any moment.

    ** How the state corresponds to the code

    A handler is a function of type [M (Coordinator D) A]: it takes the state of the
    process and returns the next state and the result, or the state in which the
    process died. [D] is the database, a [RecordDB]. Fields of [Mem] are the fields
    of the Go struct, with the counters that say how many UUIDs and map orders were
    used. [onStore] runs an operation of the store. A transaction ([Update], [View])
    takes its fate from [fault]: it may fail to begin, fail to commit, or be the
    moment at which the process is killed; a failing body is rolled back. Integers
    that Go keeps at 32 or 64 bits are wrapped where the code computes with them.
    Protobuf enums are open: any [int32] may occur.

    Recursion that is not structural has fuel: [hasCycle] gives the search one more
    than the number of tasks (each active call has its own gray task), and
    [SkipDownstreamTasks] gives its loop the number of stored edges and more (each
    pass removes an entry of the queue, and a task's edges are added once); theorems
    C16 and C28 show that the fuel is never exhausted, and [skip_ends] of
    [RelyHandlers] that it is enough when other threads interfere. Loops that wait for the
    outside (streams, timers, sessions, the watch of the client) are recursive over
    the list of what they meet.

    ** What the theorems show

    - Interleavings (C1, C13, C14): dependencies are complete before a task is
      scheduled, in every interleaving in which no transaction overwrites a COMPLETE or
      FAILED record; mutual exclusion; no deadlock. [Races] shows that the condition
      is needed: a result stored while the tick requeues its task is undone
      ([result_race]), and a task can be queued twice ([queued_twice]).
    - The running system (C2, C5 to C8, C20, C26, C27), handlers one at a time:
      dependencies are complete before a task is scheduled; results are final; one
      execution of a task wins and superseded ones are refused; the queue and the
      assignments agree with the database; no panic; the records keep their types.
      These hold for every sequence of events, kills and failing transactions.
      In interleaved runs C2, C5 to C8 and C20 can fail (see [Races]).
    - The cluster (C3, C4, C21), handlers one at a time: a final record comes from a
      command that an agent ran, no command runs before its dependencies are complete,
      and agents run what was submitted.
    - Completion (C9): without faults, a worker that succeeds completes an accepted
      workflow.
    - Crashes (C10 to C12): what restarts and dead workers requeue, when no transaction
      fails from their start on, and what recovery does not take up.
    - The store (C15, C18, C28) and the codec (C29): refinement of maps of records by
      bbolt under its documented behaviour, the effect of completing a task, and the
      end of the loop that skips.
    - Validation (C16, C17, C30): it ends and is exact, accepted workflows cannot
      deadlock, and the outcome does not depend on map order.
    - The handlers (C19, C22 to C25, C31 to C33): skipping, submissions, failures and
      retries, requests for work, the worker streams, the search for dead workers.
    - The agent (C34 to C36) and the client (C40).
    - The page of the dashboard (C37 to C39): no stored text can change its markup,
      a panel belongs to its workflow whatever the order of the answers, and the
      counters count the stored workflows.

    ** Assumptions

    Theorems about [reachable] states (handlers one at a time) assume that task ids are
    not reused by another submission and that a task has fewer than 2^31 dependencies
    ([fresh_ids], [allowed]); the code checks neither. They also assume [RecordDBLaws]
    of the store, for the cancellations by clients and by FAIL_FAST; C15, C18 and C28
    do without. Faults are part of the model: [NoFaults] is a hypothesis of C9 only,
    and [steady] (no transaction fails from this state on) of C10, C12, C19 and C31.
    C20 assumes distinct UUIDs. C40 is about a connection that serves every call, and
    C37 about the part of HTML that the templates use ([lex]).

    ** What is not modelled

    Log output, the registration of metrics and the two histograms nothing observes,
    the pprof endpoints; the style sheet and the static markup of the page, its clock
    and the indicator of a refresh; generated code beyond the enums and messages.
    Opening files, listening and dialling are inputs of [Main]. The text of an error
    is represented by the error. In the composition with agents handlers run one at a
    time; their interleavings are the subject of [Concurrent], for a coordinator
    alone. Completion is shown for a coordinator and the messages of one worker; not
    for the cluster under fair delivery. *)

From stdpp Require Export base tactics list gmap strings sorting relations.
From stdpp Require pretty.
From Stdlib Require Export ZArith Lia.
From Stdlib Require Export Strings.Byte.

Open Scope Z_scope.

(** ** Go machine integers *)

(** Conversion to [int32] and [int64]: two's complement wrap-around. *)
Definition int32 (z : Z) : Z := (z + 2 ^ 31) mod 2 ^ 32 - 2 ^ 31.
Definition int64 (z : Z) : Z := (z + 2 ^ 63) mod 2 ^ 64 - 2 ^ 63.

Definition is_int32 (z : Z) : Prop := - 2 ^ 31 <= z < 2 ^ 31.
Definition is_int64 (z : Z) : Prop := - 2 ^ 63 <= z < 2 ^ 63.

(** ** Go byte slices *)

Abbreviation bytes := (list byte).

#[export] Instance byte_eq_dec : EqDecision byte := Byte.byte_eq_dec.

(** The conversions [[]byte(s)] and [string(b)]: a Go string is a byte sequence. *)
Definition bytes_of (s : string) : bytes := String.list_byte_of_string s.
Definition string_of (b : bytes) : string := String.string_of_list_byte b.

(** ** Go errors *)

(** The sentinel errors of the packages, the errors of the libraries they call,
    and [fmt.Errorf] with a [%w] verb (its format arguments and the wrapped error). *)
Inductive GoError :=
  | ErrNotFound | ErrStaleExecution | ErrInvalidDAG | ErrTaskNotFound | ErrWorkflowNotFound
  | ErrCyclicDAG | ErrMissingDependency | ErrDuplicateTaskID
  | ErrEOF | ErrUnexpectedEOF
  | ErrKeyRequired | ErrKeyTooLarge | ErrValueTooLarge
  | ErrLibrary (msg : string)
  | Errorf (args : list string) (cause : GoError).

(** ** Stateful code: a state monad with process death *)

(** Running a piece of Go code from a state of type [T] either returns a value,
    or the process dies there (a panic, or a kill of the process): [Crashed]
    carries the state at that moment. *)
Inductive outcome (T A : Type) :=
  | Done (t : T) (a : A)
  | Crashed (t : T).
Arguments Done {T A} t a.
Arguments Crashed {T A} t.

Definition M (T A : Type) : Type := T -> outcome T A.

Definition ret {T A} (a : A) : M T A := fun t => Done t a.

Definition bind {T A B} (m : M T A) (k : A -> M T B) : M T B :=
  fun t => match m t with
           | Done t' a => k a t'
           | Crashed t' => Crashed t'
           end.

Definition panic {T A} : M T A := fun t => Crashed t.
Definition get {T} : M T T := fun t => Done t t.
Definition gets {T A} (f : T -> A) : M T A := fun t => Done t (f t).
Definition modify {T} (f : T -> T) : M T unit := fun t => Done (f t) tt.

Declare Scope go_scope.
Delimit Scope go_scope with go.
Notation "'let!' x := m 'in' k" := (bind m (fun x => k))
  (at level 10, x pattern, m at level 100, k at level 200,
   format "'[' 'let!'  x  :=  m  'in' ']' '//' k") : go_scope.
Notation "m ;; k" := (bind m (fun _ => k)) (at level 100, right associativity) : go_scope.
Open Scope go_scope.

(** [for x := range l { a = f a x }]. *)
Fixpoint foldM {T X A} (f : A -> X -> M T A) (a : A) (l : list X) : M T A :=
  match l with
  | [] => ret a
  | x :: l => let! a' := f a x in foldM f a' l
  end.

(** Running a component's code on its part [T] of a bigger state [U]. *)
Definition zoom {U T A} (view : U -> T) (put : T -> U -> U) (m : M T A) : M U A :=
  fun u => match m (view u) with
           | Done t a => Done (put t u) a
           | Crashed t => Crashed (put t u)
           end.

(** [b.ForEach(func(k, v []byte) error)]: the callback may stop the iteration
    with an error; [c] is what the callback captures. *)
Fixpoint forEach {T X C} (f : C -> X -> M T (C * option GoError)) (c : C) (l : list X)
  : M T (C * option GoError) :=
  match l with
  | [] => ret (c, None)
  | x :: l => let! r := f c x in
              match r with
              | (c, None) => forEach f c l
              | (c, Some e) => ret (c, Some e)
              end
  end.

(** ** Iteration order of Go maps *)

(** [for k, v := range m] visits the entries of a map in an unspecified order,
    which may differ from one loop to the next. A loop takes a [seed] which
    selects the permutation it sees; every permutation has a seed. *)
Definition seed : Type := list nat.

Fixpoint remove_nth {A} (n : nat) (x : A) (l : list A) {struct l} : A * list A :=
  match l, n with
  | [], _ => (x, [])
  | y :: l, O => (y, x :: l)
  | y :: l, S n => let '(z, l') := remove_nth n x l in (z, y :: l')
  end.

Fixpoint shuffle {A} (s : seed) (l : list A) : list A :=
  match s, l with
  | n :: s, x :: l =>
      match n with
      | O => x :: shuffle s l
      | S n => let '(y, l') := remove_nth n x l in y :: shuffle s l'
      end
  | _, _ => l
  end.

Definition range_map {A} (s : seed) (m : gmap string A) : list (string * A) :=
  shuffle s (map_to_list m).

(** ** Automation *)

Create HintDb go discriminated.
Create HintDb go_int discriminated.

(** Split on the scrutinee of the [match] or [if] that blocks the goal. *)
Ltac go_case :=
  match goal with
  | |- context [match ?x with _ => _ end] => destruct x eqn:?
  end.

Ltac go_inv :=
  repeat match goal with
  | H : Done _ _ = Done _ _ |- _ => injection H as H; subst
  | H : inl _ = inl _ |- _ => injection H as H; subst
  | H : inr _ = inr _ |- _ => injection H as H; subst
  | H : Some _ = Some _ |- _ => injection H as H; subst
  | H : Done _ _ = Crashed _ |- _ => discriminate H
  | H : Crashed _ = Done _ _ |- _ => discriminate H
  | H : (_, _) = (_, _) |- _ => injection H as H; subst
  end.

(** An equation between closed terms, by evaluation; a test that holds is proved without
    its normal form. *)
Ltac vm_refl :=
  lazymatch goal with
  | |- _ = true => vm_cast_no_check (eq_refl true)
  | |- _ = _ => vm_compute; reflexivity
  end.

(** ** Weakest preconditions *)

(** Running [m] from [t] either returns with [Q], or dies in a state where [E] holds. *)
Definition wp {T A} (m : M T A) (t : T) (Q : A -> T -> Prop) (E : T -> Prop) : Prop :=
  match m t with
  | Done t' a => Q a t'
  | Crashed t' => E t'
  end.

Lemma wp_ret {T A} (a : A) (t : T) (Q : A -> T -> Prop) E : Q a t -> wp (ret a) t Q E.
Proof. done. Qed.

Lemma wp_bind {T A B} (m : M T A) (k : A -> M T B) t Q E :
  wp m t (fun a t' => wp (k a) t' Q E) E -> wp (bind m k) t Q E.
Proof. unfold wp, bind. by destruct (m t). Qed.

Lemma wp_mono {T A} (m : M T A) t (Q Q' : A -> T -> Prop) (E E' : T -> Prop) :
  wp m t Q E -> (forall a t', Q a t' -> Q' a t') -> (forall t', E t' -> E' t') -> wp m t Q' E'.
Proof. unfold wp. destruct (m t); auto. Qed.

Lemma wp_and {T A} (m : M T A) t (Q Q' : A -> T -> Prop) (E E' : T -> Prop) :
  wp m t Q E -> wp m t Q' E' -> wp m t (fun a t' => Q a t' /\ Q' a t') (fun t' => E t' /\ E' t').
Proof. unfold wp. destruct (m t); auto. Qed.

(** A call about which nothing need be known. *)
Lemma wp_any {T A} (m : M T A) t (Q : A -> T -> Prop) (E : T -> Prop) :
  (forall a t', Q a t') -> (forall t', E t') -> wp m t Q E.
Proof. unfold wp. destruct (m t); auto. Qed.

(** A call that is seen to return, and a call that must. *)
Lemma wp_done {T A} (m : M T A) t t' a (Q : A -> T -> Prop) E : wp m t Q E -> m t = Done t' a -> Q a t'.
Proof. unfold wp. intros Hw E1. by rewrite E1 in Hw. Qed.

Lemma wp_returns {T A} (m : M T A) t (Q : A -> T -> Prop) :
  wp m t Q (fun _ => False) -> exists t' a, m t = Done t' a /\ Q a t'.
Proof. unfold wp. destruct (m t); [eauto | done]. Qed.

Lemma wp_gets {T A} (f : T -> A) t Q E : Q (f t) t -> wp (gets f) t Q E.
Proof. done. Qed.

Lemma wp_modify {T} (f : T -> T) t Q E : Q tt (f t) -> wp (modify f) t Q E.
Proof. done. Qed.

Lemma wp_panic {T A} t (Q : A -> T -> Prop) E : E t -> wp panic t Q E.
Proof. done. Qed.

(** A loop keeps an invariant of the accumulator, the state and what is left. *)
Lemma wp_forEach {T X C} (I : list X -> C -> T -> Prop) f c l t (Q : C * option GoError -> T -> Prop) E :
  I l c t ->
  (forall c x l t, I (x :: l) c t ->
     wp (f c x) t (fun r t' => match r.2 with None => I l r.1 t' | Some _ => Q r t' end) E) ->
  (forall c t, I [] c t -> Q (c, None) t) ->
  wp (forEach f c l) t Q E.
Proof.
  intros Hi Hf Hq. revert c t Hi. induction l as [|x l IH]; intros c t Hi; simpl.
  - by apply wp_ret, Hq.
  - apply wp_bind. eapply wp_mono; [by apply Hf | | done].
    intros [c' [e|]] t' H'; simpl in H'; [by apply wp_ret | by apply IH].
Qed.

Lemma wp_foldM {T X A} (I : list X -> T -> Prop) (f : A -> X -> M T A) a l t (Q : A -> T -> Prop) E :
  I l t ->
  (forall a x l t, I (x :: l) t -> wp (f a x) t (fun _ t' => I l t') E) ->
  (forall a t, I [] t -> Q a t) ->
  wp (foldM f a l) t Q E.
Proof.
  intros Hi Hf Hq. revert a t Hi. induction l as [|x l IH]; intros a t Hi; simpl.
  - by apply wp_ret, Hq.
  - apply wp_bind. eapply wp_mono; [by apply Hf | | done]. intros a' t' H'. by apply IH.
Qed.

(** ** Simulation of stateful code *)

(** [m] on states of type [T] behaves like [m'] on their images under [f], from
    every state where [P] holds, and keeps [P]. *)
Section Refines.
Context {T T' : Type} (f : T -> T') (P : T -> Prop).

Definition refines {A} (m : M T A) (m' : M T' A) : Prop :=
  forall t, P t ->
  match m t with
  | Done t1 a => P t1 /\ m' (f t) = Done (f t1) a
  | Crashed t1 => P t1 /\ m' (f t) = Crashed (f t1)
  end.

Lemma refines_ret {A} (a : A) : refines (ret a) (ret a).
Proof. by intros t Ht. Qed.

Lemma refines_panic {A} : refines (panic (A := A)) panic.
Proof. by intros t Ht. Qed.

Lemma refines_bind {A B} (m : M T A) m' (k : A -> M T B) k' :
  refines m m' -> (forall a, refines (k a) (k' a)) -> refines (bind m k) (bind m' k').
Proof.
  intros Hm Hk t Ht. specialize (Hm t Ht). unfold bind.
  destruct (m t) as [t1 a | t1]; destruct Hm as [Ht1 ->]; [by apply Hk | done].
Qed.

Lemma refines_foldM {X A} (b : A -> X -> M T A) b' l a :
  (forall a x, refines (b a x) (b' a x)) -> refines (foldM b a l) (foldM b' a l).
Proof.
  intros Hb. revert a. induction l as [|x l IH]; intros a; [apply refines_ret |].
  apply refines_bind; [apply Hb | done].
Qed.

Lemma refines_forEach {X C} (b : C -> X -> M T (C * option GoError)) b' l c :
  (forall c x, refines (b c x) (b' c x)) -> refines (forEach b c l) (forEach b' c l).
Proof.
  intros Hb. revert c. induction l as [|x l IH]; intros c; [apply refines_ret |].
  apply refines_bind; [apply Hb |]. intros [c' [e|]]; [apply refines_ret | apply IH].
Qed.

Lemma refines_gets {A} (g : T -> A) g' :
  (forall t, P t -> g t = g' (f t)) -> refines (gets g) (gets g').
Proof. intros Hg t Ht. unfold gets. by rewrite (Hg t Ht). Qed.

Lemma refines_modify (g : T -> T) g' :
  (forall t, P t -> P (g t) /\ g' (f t) = f (g t)) -> refines (modify g) (modify g').
Proof. intros Hg t Ht. unfold modify. simpl. by destruct (Hg t Ht) as [? ->]. Qed.

End Refines.

#[export] Hint Resolve refines_ret refines_panic refines_bind refines_foldM refines_forEach : go.

(** Simulation by following the code: both sides have the same shape. *)
Ltac refines_step :=
  match goal with
  | |- refines _ _ (ret _) (ret _) => apply refines_ret
  | |- refines _ _ panic panic => apply refines_panic
  | |- refines _ _ (bind _ _) (bind _ _) => apply refines_bind; [| intros ?]
  | |- refines _ _ (foldM _ _ _) (foldM _ _ _) => apply refines_foldM; intros ? ?
  | |- refines _ _ (forEach _ _ _) (forEach _ _ _) => apply refines_forEach; intros ? ?
  | |- refines _ _ (match ?x with _ => _ end) _ => destruct x
  end.

(** ** Code that moves the state along a relation *)

Section Respects.
Context {T : Type} (R : T -> T -> Prop) `{!PreOrder R}.

(** From [t], running [m] ends in a state related to [t], also when the process dies in it. *)
Definition respects {A} (m : M T A) : Prop := forall t, wp m t (fun _ t' => R t t') (R t).

Lemma respects_ret {A} (a : A) : respects (ret a).
Proof. intros t. apply wp_ret. reflexivity. Qed.

Lemma respects_panic {A} : respects (panic (A := A)).
Proof. intros t. unfold wp, panic. reflexivity. Qed.

Lemma respects_gets {A} (g : T -> A) : respects (gets g).
Proof. intros t. apply wp_gets. reflexivity. Qed.

Lemma respects_modify g : (forall t, R t (g t)) -> respects (modify g).
Proof. intros Hg t. apply wp_modify, Hg. Qed.

Lemma respects_from {A} (m : M T A) t t' : respects m -> R t t' -> wp m t' (fun _ t2 => R t t2) (R t).
Proof. intros Hm E. eapply wp_mono; [apply Hm | |]; simpl; intros; by etrans. Qed.

Lemma respects_bind {A B} (m : M T A) (k : A -> M T B) : respects m -> (forall a, respects (k a)) -> respects (bind m k).
Proof. intros Hm Hk t. apply wp_bind. eapply wp_mono; [apply Hm | | done]. intros a t' E. by apply respects_from. Qed.

Lemma respects_foldM {Y A} (g : A -> Y -> M T A) a l : (forall a y, respects (g a y)) -> respects (foldM g a l).
Proof.
  intros Hg t. apply (wp_foldM (fun _ t' => R t t')); [reflexivity | | done]. intros a' y l' t' E. by apply respects_from.
Qed.

Lemma respects_forEach {Y C} (g : C -> Y -> M T (C * option GoError)) c l :
  (forall c y, respects (g c y)) -> respects (forEach g c l).
Proof.
  intros Hg. revert c. induction l as [|y l IH]; intros c; simpl; [apply respects_ret |].
  apply respects_bind; [apply Hg |]. intros [c' [e|]]; [apply respects_ret | apply IH].
Qed.

End Respects.

Create HintDb respects discriminated.
#[export] Hint Resolve respects_ret respects_panic respects_gets : respects.
#[export] Hint Extern 0 (PreOrder _) => apply _ : respects.

(** One step along the code. *)
Ltac respects_step :=
  first
    [ solve [auto with respects nocore]
    | match goal with
      | |- respects _ (bind _ _) => apply respects_bind; [apply _ | | intros ?]
      | |- respects _ (foldM _ _ _) => apply respects_foldM; [apply _ | intros ? ?]
      | |- respects _ (forEach _ _ _) => apply respects_forEach; [apply _ | intros ? ?]
      | |- respects _ (match ?x with _ => _ end) => destruct x
      end ].

(** *** Code that leaves a part of the state alone *)

Definition agrees {T X} (f : T -> X) (t t' : T) : Prop := f t' = f t.

#[export] Instance agrees_preorder {T X} (f : T -> X) : PreOrder (agrees f).
Proof. split; [by intros t |]. unfold agrees. intros t1 t2 t3 H1 H2. by rewrite H2, H1. Qed.

Abbreviation preserves f := (respects (agrees f)).

(** ** Lemmas on machine integers *)

Lemma int32_range z : is_int32 (int32 z).
Proof.
  unfold is_int32, int32. pose proof (Z.mod_pos_bound (z + 2 ^ 31) (2 ^ 32) ltac:(lia)). lia.
Qed.

Lemma int32_id z : is_int32 z -> int32 z = z.
Proof. unfold is_int32, int32. intros. rewrite Z.mod_small; lia. Qed.

Lemma int64_id z : is_int64 z -> int64 z = z.
Proof. unfold is_int64, int64. intros. rewrite Z.mod_small; lia. Qed.

Lemma int32_idem z : int32 (int32 z) = int32 z.
Proof. apply int32_id, int32_range. Qed.

Lemma int32_mod z : int32 (z mod 2 ^ 32) = int32 z.
Proof. unfold int32. f_equal. by rewrite Z.add_mod_idemp_l by lia. Qed.

Lemma int64_mod z : int64 (z mod 2 ^ 64) = int64 z.
Proof. unfold int64. f_equal. by rewrite Z.add_mod_idemp_l by lia. Qed.

Lemma int32_add_l a b : int32 (int32 a + b) = int32 (a + b).
Proof.
  unfold int32. f_equal.
  replace ((a + 2 ^ 31) mod 2 ^ 32 - 2 ^ 31 + b + 2 ^ 31) with ((a + 2 ^ 31) mod 2 ^ 32 + b) by lia.
  rewrite Z.add_mod_idemp_l by lia. f_equal. lia.
Qed.

#[export] Hint Resolve int32_range int32_id int64_id : go_int.

(** ** Lemmas on byte slices *)

Lemma string_of_bytes_of s : string_of (bytes_of s) = s.
Proof. apply String.string_of_list_byte_of_string. Qed.

Lemma length_bytes_of s : length (bytes_of s) = String.length s.
Proof. unfold bytes_of. induction s; simpl; [done | by f_equal]. Qed.

(** ** Lemmas on map iteration *)

(** Concatenation and the slice [s[:n]]. *)
Lemma length_append s t : String.length (String.append s t) = (String.length s + String.length t)%nat.
Proof. induction s as [|c s IH]; simpl; [done |]. by rewrite IH. Qed.

Lemma length_slice n s : String.length (String.substring 0 n s) = Nat.min n (String.length s).
Proof. revert n. induction s as [|c s IH]; intros [|n]; simpl; [done..|]. by rewrite IH. Qed.

Lemma slice_all n s : (String.length s <= n)%nat -> String.substring 0 n s = s.
Proof. revert n. induction s as [|c s IH]; intros [|n] Hn; simpl in *; try done; [lia |]. f_equal. apply IH. lia. Qed.

Lemma prefix_slice n s : String.prefix (String.substring 0 n s) s = true.
Proof.
  revert n. induction s as [|c s IH]; intros [|n]; simpl; [done..|]. rewrite IH.
  by destruct (Ascii.ascii_dec c c).
Qed.

(** Updating one entry of a list. *)
Lemma insert_Permutation {A} (l : list A) i x y : l !! i = Some x -> <[i := y]> l ≡ₚ y :: delete i l.
Proof.
  intros Hi. rewrite insert_take_drop by (by eapply lookup_lt_Some).
  rewrite delete_take_drop. symmetry. apply Permutation_middle.
Qed.

Lemma remove_nth_perm {A} n (x : A) l y l' : remove_nth n x l = (y, l') -> y :: l' ≡ₚ x :: l.
Proof.
  revert n y l'. induction l as [|z l IH]; intros n y l' H; simpl in H.
  - by simplify_eq.
  - destruct n as [|n]; [simplify_eq; constructor |].
    destruct (remove_nth n x l) as [u l''] eqn:E. simplify_eq.
    rewrite (Permutation_swap z y), (IH _ _ _ E). constructor.
Qed.

Lemma shuffle_perm {A} s (l : list A) : shuffle s l ≡ₚ l.
Proof.
  revert l. induction s as [|n s IH]; intros [|x l]; simpl; try done.
  destruct n as [|n]; [by rewrite IH |].
  destruct (remove_nth n x l) as [y l'] eqn:E.
  rewrite IH. by apply (remove_nth_perm n).
Qed.

Lemma remove_nth_hit {A} (x : A) l1 y l2 :
  exists l', remove_nth (length l1) x (l1 ++ y :: l2) = (y, l') /\ l' ≡ₚ x :: l1 ++ l2.
Proof.
  induction l1 as [|z l1 [l' [E P]]]; simpl; [by eexists |].
  rewrite E. eexists; split; [done |]. rewrite P. constructor.
Qed.

(** Every order a Go runtime may choose is the order of some seed. *)
Lemma shuffle_complete {A} (l l' : list A) : l' ≡ₚ l -> exists s, shuffle s l = l'.
Proof.
  revert l. induction l' as [|y l' IH]; intros l H.
  - apply Permutation_nil_l in H as <-. by exists [].
  - destruct l as [|x l]; [by apply Permutation_nil_r in H |].
    assert (y ∈ x :: l) as Hin by (rewrite <- H; constructor).
    apply elem_of_cons in Hin as [-> | Hin].
    + apply Permutation_cons_inv in H. destruct (IH _ H) as [s <-]. by exists (0%nat :: s).
    + apply list_elem_of_split in Hin as (l1 & l2 & ->).
      destruct (remove_nth_hit x l1 y l2) as (l'' & E & P).
      assert (l' ≡ₚ l'') as Hp.
      { rewrite P. apply (Permutation_cons_inv (a := y)). rewrite H.
        rewrite <- Permutation_middle. constructor. }
      destruct (IH _ Hp) as [s <-]. exists (S (length l1) :: s). simpl. by rewrite E.
Qed.

Lemma range_map_perm {A} s (m : gmap string A) : range_map s m ≡ₚ map_to_list m.
Proof. apply shuffle_perm. Qed.

Lemma elem_of_range_map {A} s (m : gmap string A) k v : (k, v) ∈ range_map s m <-> m !! k = Some v.
Proof. by rewrite range_map_perm, elem_of_map_to_list. Qed.

Lemma range_map_NoDup {A} s (m : gmap string A) : NoDup (range_map s m).*1.
Proof. rewrite range_map_perm. apply NoDup_fst_map_to_list. Qed.

#[export] Hint Resolve range_map_perm range_map_NoDup : go.

Lemma NoDup_filter_fst {A} (P : string * A -> Prop) `{forall p, Decision (P p)} (l : list (string * A)) :
  NoDup l.*1 -> NoDup (filter P l).*1.
Proof. intros Hl. eapply sublist_NoDup; [done |]. apply fmap_sublist, sublist_filter. Qed.

(** ** Maps listed in key order *)

(** Strings are compared bytewise, as [bytes.Compare] does. *)
Definition key_le {A} (p q : string * A) : Prop := String.le p.1 q.1.

#[export] Instance key_le_dec {A} : RelDecision (@key_le A).
Proof. intros p q. apply String.le_dec. Defined.
#[export] Instance key_le_trans {A} : Transitive (@key_le A).
Proof. intros p q r. unfold key_le. apply transitivity. Qed.
#[export] Instance key_le_total {A} : Total (@key_le A).
Proof. intros p q. apply String.le_total. Qed.

Definition sorted_entries {A} (m : gmap string A) : list (string * A) :=
  merge_sort key_le (map_to_list m).

Lemma sorted_entries_perm {A} (m : gmap string A) : sorted_entries m ≡ₚ map_to_list m.
Proof. apply merge_sort_Permutation. Qed.

Lemma elem_of_sorted_entries {A} (m : gmap string A) k v :
  (k, v) ∈ sorted_entries m <-> m !! k = Some v.
Proof. by rewrite sorted_entries_perm, elem_of_map_to_list. Qed.

Lemma sorted_entries_NoDup {A} (m : gmap string A) : NoDup (sorted_entries m).*1.
Proof. rewrite sorted_entries_perm. apply NoDup_fst_map_to_list. Qed.

Lemma sorted_entries_sorted {A} (m : gmap string A) : StronglySorted key_le (sorted_entries m).
Proof. apply StronglySorted_merge_sort; apply _. Qed.

Lemma sorted_entries_unique {A} (m : gmap string A) l :
  StronglySorted key_le l -> NoDup l.*1 -> (forall k v, (k, v) ∈ l <-> m !! k = Some v) ->
  l = sorted_entries m.
Proof.
  intros Hs Hnd Hl.
  assert (l ≡ₚ sorted_entries m) as Hp.
  { apply NoDup_Permutation; [by apply NoDup_fmap_1 in Hnd | |].
    - eapply NoDup_fmap_1, sorted_entries_NoDup.
    - intros [k v]. by rewrite Hl, elem_of_sorted_entries. }
  apply (StronglySorted_unique_strong key_le); [| done | apply sorted_entries_sorted | done].
  intros [k1 v1] [k2 v2] H1 H2 R1 R2. unfold key_le in *. simpl in *.
  assert (k1 = k2) as -> by (by apply (anti_symm String.le)).
  rewrite <- Hp in H2. apply Hl in H1. apply Hl in H2. congruence.
Qed.

Lemma StronglySorted_fst {A} (l : list (string * A)) :
  StronglySorted key_le l <-> StronglySorted String.le l.*1.
Proof.
  induction l as [|p l IH]; [split; constructor |].
  rewrite fmap_cons, !StronglySorted_cons, IH, Forall_fmap. done.
Qed.

(** A map whose values are decoded lists its decoded entries in the same order. *)
Lemma sorted_entries_omap {A B} (f : A -> option B) (m : gmap string A) :
  (forall k a, m !! k = Some a -> is_Some (f a)) ->
  sorted_entries (omap f m) = omap (fun p => (fun b => (p.1, b)) <$> f p.2) (sorted_entries m).
Proof.
  intros Hf. symmetry.
  assert (forall l : list (string * A), (forall k a, (k, a) ∈ l -> is_Some (f a)) ->
    (omap (fun p => (fun b => (p.1, b)) <$> f p.2) l).*1 = l.*1) as Hfst.
  { induction l as [|[k a] l IH]; intros Hl; [done |]. simpl.
    destruct (Hl k a) as [b Hb]; [by left |]. rewrite Hb. simpl. f_equal.
    apply IH. intros; eapply Hl; by right. }
  assert (forall k a, (k, a) ∈ sorted_entries m -> is_Some (f a)) as Hall.
  { intros k a Hin. eapply Hf. by apply elem_of_sorted_entries. }
  apply sorted_entries_unique.
  - apply StronglySorted_fst. rewrite Hfst by done.
    apply StronglySorted_fst, sorted_entries_sorted.
  - rewrite Hfst by done. apply sorted_entries_NoDup.
  - intros k b. rewrite list_elem_of_omap, lookup_omap. split.
    + intros ([k' a] & Hin & E). apply elem_of_sorted_entries in Hin. simpl in E.
      destruct (f a) as [b'|] eqn:Ef; simplify_eq/=. by rewrite Hin.
    + destruct (m !! k) as [a|] eqn:E; [|done]. simpl. intros Ef.
      exists (k, a). rewrite elem_of_sorted_entries. simpl. by rewrite Ef.
Qed.

(** ** Occurrences in a list *)

Definition occ (x : string) (l : list string) : nat := length (filter (fun y => y = x) l).

Lemma occ_app x l1 l2 : occ x (l1 ++ l2) = (occ x l1 + occ x l2)%nat.
Proof. unfold occ. by rewrite filter_app, length_app. Qed.

Lemma occ_cons x y l : occ x (y :: l) = ((if decide (y = x) then 1 else 0) + occ x l)%nat.
Proof. unfold occ. rewrite filter_cons. by case_decide. Qed.

Lemma occ_elem x l : x ∈ l <-> (0 < occ x l)%nat.
Proof.
  induction l as [|y l IH]; [split; [by intros ?%elem_of_nil | unfold occ; simpl; lia] |].
  rewrite elem_of_cons, occ_cons. case_decide as E; [subst; split; [lia | by left] |].
  rewrite <- IH. split; [intros [-> | ?]; [done | done] | by right].
Qed.

Lemma occ_zero x l : occ x l = 0%nat <-> x ∉ l.
Proof. rewrite occ_elem. lia. Qed.

Lemma sum_list_with_ext {A} (f g : A -> nat) (l : list A) :
  (forall x, x ∈ l -> f x = g x) -> sum_list_with f l = sum_list_with g l.
Proof.
  induction l as [|y l IH]; intros H; simpl; [done |]. rewrite (H y) by (by left).
  rewrite IH; [done |]. intros. apply H. by right.
Qed.

Lemma sum_list_with_zero {A} (f : A -> nat) (l : list A) :
  (forall x, x ∈ l -> f x = 0%nat) -> sum_list_with f l = 0%nat.
Proof.
  induction l as [|y l IH]; intros H; simpl; [done |]. rewrite (H y) by (by left).
  rewrite IH; [done |]. intros. apply H. by right.
Qed.

Lemma sum_list_with_perm {A} (f : A -> nat) (l l' : list A) :
  l ≡ₚ l' -> sum_list_with f l = sum_list_with f l'.
Proof. induction 1; simpl; lia. Qed.

(** In a list with distinct elements that covers [l], the occurrences add up. *)
Lemma sum_occ L l : NoDup L -> (forall x, x ∈ l -> x ∈ L) -> sum_list_with (fun x => occ x l) L = length l.
Proof.
  intros HL. revert l. induction HL as [|y L Hy HL IH]; intros l Hl; simpl.
  - destruct l as [|x l]; [done |]. by assert (x ∈ []) as ?%elem_of_nil by (apply Hl; by left).
  - rewrite (sum_list_with_ext _ (fun x => occ x (filter (fun z => z <> y) l))).
    + rewrite IH.
      * clear. unfold occ. induction l as [|z l IHl]; [done |]. rewrite !filter_cons.
        repeat case_decide; simpl; try lia; congruence.
      * intros x [Hne Hx]%list_elem_of_filter. by apply Hl in Hx as [?|?]%elem_of_cons.
    + intros x Hx. unfold occ. rewrite list_filter_filter. f_equal. apply list_filter_iff.
      intros z. split; [|tauto]. intros ->. split; [done |]. congruence.
Qed.

(** Lists with the same occurrences are permutations of each other. *)
Lemma occ_Permutation l l' : (forall x, occ x l = occ x l') -> l ≡ₚ l'.
Proof.
  revert l'. induction l as [|y l IH]; intros l' H.
  - destruct l' as [|x l']; [done |]. specialize (H x). rewrite occ_cons, decide_True in H by done.
    change (occ x []) with 0%nat in H. lia.
  - assert (y ∈ l') as (l1 & l2 & ->)%list_elem_of_split.
    { apply occ_elem. rewrite <- H, occ_cons, decide_True by done. lia. }
    rewrite <- Permutation_middle. constructor. apply IH. intros x. specialize (H x).
    rewrite occ_app, !occ_cons in H. rewrite occ_app. lia.
Qed.

(** ** Sums over maps *)

Definition msum (m : gmap string nat) : nat := map_fold (fun _ n acc => (n + acc)%nat) 0%nat m.

Lemma msum_empty : msum ∅ = 0%nat.
Proof. apply map_fold_empty. Qed.

Lemma msum_insert_None m k n : m !! k = None -> msum (<[k := n]> m) = (n + msum m)%nat.
Proof. intros Hk. unfold msum. apply map_fold_insert_L; [intros; lia | done]. Qed.

Lemma msum_delete m k n : m !! k = Some n -> msum m = (n + msum (delete k m))%nat.
Proof.
  intros Hk. rewrite <- (insert_delete_id m k n Hk) at 1. apply msum_insert_None, lookup_delete_eq.
Qed.

Lemma msum_insert m k a b : m !! k = Some a -> (msum (<[k := b]> m) + a = msum m + b)%nat.
Proof.
  intros Hk. rewrite (msum_delete m k a Hk). rewrite (msum_delete (<[k := b]> m) k b) by apply lookup_insert_eq.
  rewrite delete_insert_eq. lia.
Qed.

Lemma msum_zero m : msum m = 0%nat <-> forall k n, m !! k = Some n -> n = 0%nat.
Proof.
  split.
  - intros H k n Hk. rewrite (msum_delete m k n Hk) in H. lia.
  - induction m as [|k n m Hk IH] using map_ind; [intros _; apply msum_empty |]. intros H.
    rewrite msum_insert_None by done. rewrite (H k n) by apply lookup_insert_eq.
    rewrite IH; [done |]. intros k' n' Hk'. apply (H k'). rewrite lookup_insert_ne; [done | congruence].
Qed.

(** A map that extends another one by the keys of a list. *)
Lemma msum_extend (g : string -> nat) L m m' :
  NoDup L -> (forall x, x ∉ L -> m' !! x = m !! x) ->
  (forall x, x ∈ L -> m !! x = None /\ m' !! x = Some (g x)) ->
  msum m' = (msum m + sum_list_with g L)%nat.
Proof.
  intros HL. revert m. induction HL as [|y L Hy HL IH]; intros m Hout Hin; simpl.
  - assert (m' = m) as -> by (apply map_eq; intros; apply Hout; by intros ?%elem_of_nil). lia.
  - destruct (Hin y) as [Hm Hm']; [by left |].
    rewrite (IH (<[y := g y]> m)).
    + rewrite msum_insert_None by done. lia.
    + intros x Hx. rewrite lookup_insert. case_decide; [by subst |]. apply Hout.
      rewrite not_elem_of_cons. split; congruence.
    + intros x Hx. destruct (Hin x) as [? ?]; [by right |]. rewrite lookup_insert_ne; [done | congruence].
Qed.
