(* ===== verification/Proto.v ===== *)
(** * The message and record types of the system

    The protobuf messages of [proto/scheduler.proto] (as generated in
    [internal/proto/scheduler]) and the records of [internal/store/store.go].
    A protobuf enum is an open [int32] in Go, so an enum value is an integer and
    its constants are named values: a message or a database record may hold any
    other number. *)

From S2P Require Import Prelude.

(** ** Enums *)

Abbreviation TaskState := Z (only parsing).
Definition TASK_PENDING : TaskState := 0.
Definition TASK_QUEUED : TaskState := 1.
Definition TASK_RUNNING : TaskState := 2.
Definition TASK_COMPLETE : TaskState := 3.
Definition TASK_FAILED : TaskState := 4.
Definition TASK_SKIPPED : TaskState := 5.
Definition TASK_UNKNOWN : TaskState := 6.

Abbreviation WorkflowState := Z (only parsing).
Definition WORKFLOW_RUNNING : WorkflowState := 0.
Definition WORKFLOW_COMPLETE : WorkflowState := 1.
Definition WORKFLOW_FAILED : WorkflowState := 2.
Definition WORKFLOW_CANCELLED : WorkflowState := 3.

Abbreviation FailurePolicy := Z (only parsing).
Definition FAIL_FAST : FailurePolicy := 0.
Definition SKIP_DOWNSTREAM : FailurePolicy := 1.
Definition CONTINUE_INDEPENDENT : FailurePolicy := 2.

(** The [case COMPLETE, FAILED, SKIPPED] of the store's switches. *)
Definition is_terminal (s : TaskState) : bool :=
  (s =? TASK_COMPLETE) || (s =? TASK_FAILED) || (s =? TASK_SKIPPED).

(** The [String] methods of the enums: the name of a declared value, the number
    of any other. *)
Definition enumString (names : list string) (n : Z) : string :=
  match (if n <? 0 then None else names !! Z.to_nat n) with
  | Some name => name
  | None => pretty.pretty n
  end.

Definition TaskState_name : list string :=
  ["TASK_PENDING"; "TASK_QUEUED"; "TASK_RUNNING"; "TASK_COMPLETE"; "TASK_FAILED"; "TASK_SKIPPED";
   "TASK_UNKNOWN"]%string.
Definition WorkflowState_name : list string :=
  ["WORKFLOW_RUNNING"; "WORKFLOW_COMPLETE"; "WORKFLOW_FAILED"; "WORKFLOW_CANCELLED"]%string.
Definition FailurePolicy_name : list string := ["FAIL_FAST"; "SKIP_DOWNSTREAM"; "CONTINUE_INDEPENDENT"]%string.

Definition TaskState_String : TaskState -> string := enumString TaskState_name.
Definition WorkflowState_String : WorkflowState -> string := enumString WorkflowState_name.
Definition FailurePolicy_String : FailurePolicy -> string := enumString FailurePolicy_name.

(** The states of tasks have names. *)
Lemma TaskState_named z : 0 <= z <= 6 -> TaskState_name !! Z.to_nat z = Some (TaskState_String z).
Proof. intros Hz. assert (z = 0 \/ z = 1 \/ z = 2 \/ z = 3 \/ z = 4 \/ z = 5 \/ z = 6) as Hc by lia. by destruct_or! Hc; subst. Qed.

(** ** Workflow specifications *)

Module TaskSpec.
Record t := mk {
  TaskId : string;
  Dependencies : list string;
  Command : string;
  Env : gmap string string;
  TimeoutSeconds : Z;
  MaxRetries : Z
}.
End TaskSpec.

Module WorkflowSpec.
Record t := mk {
  WorkflowId : string;
  Tasks : list TaskSpec.t;
  FailurePolicy : Proto.FailurePolicy
}.
End WorkflowSpec.

Module TaskAssignment.
Record t := mk {
  TaskId : string;
  ExecutionId : string;
  Command : string;
  Env : gmap string string;
  TimeoutSeconds : Z
}.
End TaskAssignment.

Module TaskStatus.
Record t := mk {
  TaskId : string;
  State : TaskState;
  AttemptCount : Z;
  Output : string;
  Error : string
}.
End TaskStatus.

(** ** Database records *)

Module TaskStateRecord.
Record t := mk {
  TaskID : string;
  WorkflowID : string;
  State : TaskState;
  ExecutionID : string;
  AttemptCount : Z;
  LastUpdated : Z;
  Output : string;
  Error : string;
  InDegree : Z;
  DownstreamTaskIDs : list string
}.
End TaskStateRecord.

Module WorkflowStateRecord.
Record t := mk {
  WorkflowID : string;
  State : WorkflowState;
  SubmittedAtMs : Z;
  CompletedAtMs : Z
}.
End WorkflowStateRecord.

Module WorkerRecord.
Record t := mk {
  WorkerID : string;
  LastHeartbeat : Z;
  RunningTaskIDs : list string;
  QueuedTaskIDs : list string;
  LastUpdated : Z
}.
End WorkerRecord.

Abbreviation TaskSpec := TaskSpec.t.
Abbreviation WorkflowSpec := WorkflowSpec.t.
Abbreviation TaskAssignment := TaskAssignment.t.
Abbreviation TaskStatus := TaskStatus.t.
Abbreviation TaskStateRecord := TaskStateRecord.t.
Abbreviation WorkflowStateRecord := WorkflowStateRecord.t.
Abbreviation WorkerRecord := WorkerRecord.t.

(** Short names for the record modules, and field assignments [r.F = v]. *)
Module TS := TaskSpec.
Module WF := WorkflowSpec.
Module TR := TaskStateRecord.
Module WR := WorkflowStateRecord.
Module WK := WorkerRecord.

Definition set_State (v : TaskState) (r : TaskStateRecord) : TaskStateRecord :=
  let 'TR.mk a b _ d e f g h i j := r in TR.mk a b v d e f g h i j.
Definition set_ExecutionID (v : string) (r : TaskStateRecord) : TaskStateRecord :=
  let 'TR.mk a b c _ e f g h i j := r in TR.mk a b c v e f g h i j.
Definition set_AttemptCount (v : Z) (r : TaskStateRecord) : TaskStateRecord :=
  let 'TR.mk a b c d _ f g h i j := r in TR.mk a b c d v f g h i j.
Definition set_LastUpdated (v : Z) (r : TaskStateRecord) : TaskStateRecord :=
  let 'TR.mk a b c d e _ g h i j := r in TR.mk a b c d e v g h i j.
Definition set_Output (v : string) (r : TaskStateRecord) : TaskStateRecord :=
  let 'TR.mk a b c d e f _ h i j := r in TR.mk a b c d e f v h i j.
Definition set_Error (v : string) (r : TaskStateRecord) : TaskStateRecord :=
  let 'TR.mk a b c d e f g _ i j := r in TR.mk a b c d e f g v i j.
Definition set_InDegree (v : Z) (r : TaskStateRecord) : TaskStateRecord :=
  let 'TR.mk a b c d e f g h _ j := r in TR.mk a b c d e f g h v j.

Definition set_WfState (v : WorkflowState) (r : WorkflowStateRecord) : WorkflowStateRecord :=
  let 'WR.mk a _ c d := r in WR.mk a v c d.
Definition set_CompletedAtMs (v : Z) (r : WorkflowStateRecord) : WorkflowStateRecord :=
  let 'WR.mk a b c _ := r in WR.mk a b c v.

(** ** Messages of the streams and the service *)

Module TaskResult.
Record t := mk {
  TaskId : string;
  ExecutionId : string;
  Success : bool;
  Output : string;
  Error : string;
  DurationMs : Z
}.
End TaskResult.

(** The payload of a [WorkerMessage]; [NoPayload] is a message whose oneof is unset. *)
Inductive WorkerPayload :=
  | TaskRequest (capacity : Z)
  | Heartbeat (timestampUnixMs : Z) (runningTaskIds : list string)
  | TaskResultMsg (result : TaskResult.t)
  | NoPayload.

Module WorkerMessage.
Record t := mk { WorkerId : string; Payload : WorkerPayload }.
End WorkerMessage.

Inductive CoordinatorMessage :=
  | TaskAssignmentMsg (a : TaskAssignment)
  | NoTask (waitMs : Z)
  | Ping (timestampUnixMs : Z).

(** The [Error] text of a response is represented by the error it is the text of. *)
Module SubmitWorkflowResponse.
Record t := mk { WorkflowId : string; Success : bool; Error : option GoError }.
End SubmitWorkflowResponse.

Module CancelWorkflowResponse.
Record t := mk { Success : bool; Error : option GoError }.
End CancelWorkflowResponse.

Module WorkflowStatus.
Record t := mk {
  WorkflowId : string;
  State : WorkflowState;
  TaskStatuses : list TaskStatus;
  SubmittedAtUnixMs : Z;
  CompletedAtUnixMs : Z
}.
End WorkflowStatus.
