(* ===== verification/Codec.v ===== *)
(** * Binary serialization of the database records

    [internal/store/serialization.go]: the three record types written with
    [encoding/binary] (little endian, strings with an [int32] length prefix)
    and read back through a [bytes.Reader]. *)

From S2P Require Import Prelude Proto.

(** ** [encoding/binary] and [bytes.Reader] *)

Definition byte_of_Z (z : Z) : byte :=
  match Byte.of_N (Z.to_N (z mod 256)) with Some b => b | None => x00 end.
Definition Z_of_byte (b : byte) : Z := Z.of_N (Byte.to_N b).

(** Little-endian bytes of an integer, and back (unsigned). *)
Fixpoint le_enc (n : nat) (z : Z) : bytes :=
  match n with
  | O => []
  | S n => byte_of_Z z :: le_enc n (z / 256)
  end.

Fixpoint le_dec (b : bytes) : Z :=
  match b with
  | [] => 0
  | x :: b => Z_of_byte x + 256 * le_dec b
  end.

(** The result of reading from a [bytes.Reader]: a value, an error, or a panic
    of [make] on a negative length; the first two leave the unread bytes. *)
Inductive rres (A : Type) :=
  | ROk (a : A) (rest : bytes)
  | RErr (e : GoError) (rest : bytes)
  | RPanic.
Arguments ROk {A} a rest.
Arguments RErr {A} e rest.
Arguments RPanic {A}.

Definition rbind {A B} (m : rres A) (k : A -> bytes -> rres B) : rres B :=
  match m with
  | ROk a rest => k a rest
  | RErr e rest => RErr e rest
  | RPanic => RPanic
  end.

Notation "'read' x , buf := m 'in' k" := (rbind m (fun x buf => k))
  (at level 10, x name, buf name, m at level 100, k at level 200,
   format "'[' 'read'  x ,  buf  :=  m  'in' ']' '//' k") : go_scope.

(** [binary.Read] of a fixed-size integer: [io.ReadFull] of its [n] bytes, which
    consumes what is left when there are fewer. *)
Definition read_fixed (n : nat) (conv : Z -> Z) (buf : bytes) : rres Z :=
  if bool_decide (n <= length buf)%nat then ROk (conv (le_dec (take n buf))) (drop n buf)
  else match buf with
       | [] => RErr ErrEOF []
       | _ => RErr ErrUnexpectedEOF []
       end.

Definition read_int32 : bytes -> rres Z := read_fixed 4 int32.
Definition read_int64 : bytes -> rres Z := read_fixed 8 int64.

(** [b := make([]byte, l); buf.Read(b)]: [make] panics on a negative length,
    [Read] fails only at the end of the data, and a short read leaves zeros. *)
Definition read_into (l : Z) (buf : bytes) : rres string :=
  if l <? 0 then RPanic
  else match buf with
       | [] => RErr ErrEOF []
       | _ => ROk (string_of (take (Z.to_nat l) buf ++ replicate (Z.to_nat l - length buf) x00))
                  (drop (Z.to_nat l) buf)
       end.

(** ** Task records *)

(** The [writeString] and [readString] closures. *)
Definition writeString (s : string) : bytes :=
  le_enc 4 (int32 (Z.of_nat (String.length s))) ++ bytes_of s.

Definition readString (buf : bytes) : rres string :=
  read l, buf := read_int32 buf in
  read_into l buf.

(** Writes to a [bytes.Buffer] return no error, so neither does the function. *)
Definition marshalTaskRecord (r : TaskStateRecord) : bytes :=
  writeString (TR.TaskID r) ++
  writeString (TR.WorkflowID r) ++
  le_enc 4 (int32 (TR.State r)) ++
  writeString (TR.ExecutionID r) ++
  le_enc 4 (TR.AttemptCount r) ++
  le_enc 8 (TR.LastUpdated r) ++
  writeString (TR.Output r) ++
  writeString (TR.Error r) ++
  le_enc 4 (TR.InDegree r) ++
  le_enc 4 (int32 (Z.of_nat (length (TR.DownstreamTaskIDs r)))) ++
  concat (writeString <$> TR.DownstreamTaskIDs r).

(** The loop over the downstream ids: [break] at the first error. *)
Fixpoint readIDs (n : nat) (acc : list string) (buf : bytes) : rres (list string) :=
  match n with
  | O => ROk acc buf
  | S n => match readString buf with
           | ROk id buf => readIDs n (acc ++ [id]) buf
           | RErr _ buf => ROk acc buf
           | RPanic => RPanic
           end
  end.

(** Records written before the field existed end early: no downstream ids.
    [make([]string, 0, n)] panics on a negative capacity. *)
Definition readDownstream (buf : bytes) : rres (list string) :=
  match read_int32 buf with
  | ROk downstreamCount buf =>
      if downstreamCount <? 0 then RPanic
      else readIDs (Z.to_nat downstreamCount) [] buf
  | RErr _ buf => ROk [] buf
  | RPanic => RPanic
  end.

Definition unmarshalTaskRecord (data : bytes) : rres TaskStateRecord :=
  read taskID, buf := readString data in
  read workflowID, buf := readString buf in
  read state, buf := read_int32 buf in
  read executionID, buf := readString buf in
  read attemptCount, buf := read_int32 buf in
  read lastUpdated, buf := read_int64 buf in
  read output, buf := readString buf in
  read errStr, buf := readString buf in
  read inDegree, buf := read_int32 buf in
  read downstreamIDs, buf := readDownstream buf in
  ROk (TR.mk taskID workflowID state executionID attemptCount lastUpdated
             output errStr inDegree downstreamIDs) buf.

(** ** Workflow state and worker records *)

Definition marshalWorkflowState (r : WorkflowStateRecord) : bytes :=
  writeString (WR.WorkflowID r) ++
  le_enc 4 (int32 (WR.State r)) ++
  le_enc 8 (WR.SubmittedAtMs r) ++
  le_enc 8 (WR.CompletedAtMs r).

(** These readers ignore every error: a variable that could not be read keeps
    its zero value, and a string that could not be read is a block of zeros. *)
Definition lax (d : Z) (m : rres Z) : Z * bytes :=
  match m with
  | ROk a rest => (a, rest)
  | RErr _ rest => (d, rest)
  | RPanic => (d, [])
  end.

Definition readString_lax (buf : bytes) : option (string * bytes) :=
  let '(l, buf) := lax 0 (read_int32 buf) in
  match read_into l buf with
  | ROk s rest => Some (s, rest)
  | RErr _ rest => Some (string_of (replicate (Z.to_nat l) x00), rest)
  | RPanic => None
  end.

(** [None] is a panic. *)
Definition unmarshalWorkflowState (data : bytes) : option WorkflowStateRecord :=
  '(workflowID, buf) ← readString_lax data;
  let '(state, buf) := lax 0 (read_int32 buf) in
  let '(submittedAt, buf) := lax 0 (read_int64 buf) in
  let '(completedAt, buf) := lax 0 (read_int64 buf) in
  Some (WR.mk workflowID state submittedAt completedAt).

Definition marshalWorkerRecord (r : WorkerRecord) : bytes :=
  writeString (WK.WorkerID r) ++
  le_enc 8 (WK.LastHeartbeat r) ++
  le_enc 4 (int32 (Z.of_nat (length (WK.RunningTaskIDs r)))) ++
  concat (writeString <$> WK.RunningTaskIDs r) ++
  le_enc 4 (int32 (Z.of_nat (length (WK.QueuedTaskIDs r)))) ++
  concat (writeString <$> WK.QueuedTaskIDs r) ++
  le_enc 8 (WK.LastUpdated r).

(** [ids := make([]string, n); for i := range ids { ids[i] = readString() }]. *)
Fixpoint readIDs_lax (n : nat) (buf : bytes) : option (list string * bytes) :=
  match n with
  | O => Some ([], buf)
  | S n => '(id, buf) ← readString_lax buf;
           '(ids, buf) ← readIDs_lax n buf;
           Some (id :: ids, buf)
  end.

Definition readIDList_lax (buf : bytes) : option (list string * bytes) :=
  let '(n, buf) := lax 0 (read_int32 buf) in
  if n <? 0 then None else readIDs_lax (Z.to_nat n) buf.

Definition unmarshalWorkerRecord (data : bytes) : option WorkerRecord :=
  '(workerID, buf) ← readString_lax data;
  let '(lastHeartbeat, buf) := lax 0 (read_int64 buf) in
  '(runningTaskIDs, buf) ← readIDList_lax buf;
  '(queuedTaskIDs, buf) ← readIDList_lax buf;
  let '(lastUpdated, buf) := lax 0 (read_int64 buf) in
  Some (WK.mk workerID lastHeartbeat runningTaskIDs queuedTaskIDs lastUpdated).

(** ** What survives a write and a read *)

(** A string the length prefix can describe. *)
Definition short (s : string) : Prop := (Z.of_nat (String.length s) < 2 ^ 31).

(** [bytes.Reader.Read] reports the end of the data before it looks at the size
    of its buffer, so an empty string that ends the data is not read back: the
    last downstream id is lost when it is empty. *)
Fixpoint canonIDs (ids : list string) : list string :=
  match ids with
  | [] => []
  | [id] => if bool_decide (id = EmptyString) then [] else [id]
  | id :: ids => id :: canonIDs ids
  end.

(** A task record as it is read back. *)
Definition canonTask (r : TaskStateRecord) : TaskStateRecord :=
  TR.mk (TR.TaskID r) (TR.WorkflowID r) (int32 (TR.State r)) (TR.ExecutionID r)
    (int32 (TR.AttemptCount r)) (int64 (TR.LastUpdated r)) (TR.Output r) (TR.Error r)
    (int32 (TR.InDegree r)) (canonIDs (TR.DownstreamTaskIDs r)).

Definition canonWorkflowState (r : WorkflowStateRecord) : WorkflowStateRecord :=
  WR.mk (WR.WorkflowID r) (int32 (WR.State r)) (int64 (WR.SubmittedAtMs r)) (int64 (WR.CompletedAtMs r)).

Definition canonWorker (r : WorkerRecord) : WorkerRecord :=
  WK.mk (WK.WorkerID r) (int64 (WK.LastHeartbeat r)) (WK.RunningTaskIDs r) (WK.QueuedTaskIDs r)
    (int64 (WK.LastUpdated r)).

(** ** Integers *)

Lemma Z_of_byte_of_Z z : Z_of_byte (byte_of_Z z) = z mod 256.
Proof.
  unfold Z_of_byte, byte_of_Z. pose proof (Z.mod_pos_bound z 256 ltac:(lia)).
  destruct (Byte.of_N (Z.to_N (z mod 256))) eqn:E.
  - apply Byte.to_of_N in E. rewrite E. lia.
  - apply Byte.of_N_None_iff in E. lia.
Qed.

Lemma canonIDs_elem x l : x ∈ canonIDs l -> x ∈ l.
Proof.
  induction l as [|y l IH]; [done |]. simpl. destruct l as [|z l]; [case_bool_decide; set_solver |].
  rewrite !elem_of_cons in *. intros [?|?]; auto.
Qed.

Lemma length_le_enc n z : length (le_enc n z) = n.
Proof. revert z. induction n; intros; simpl; [done | by f_equal]. Qed.

Lemma le_dec_enc n z : le_dec (le_enc n z) = z mod 256 ^ Z.of_nat n.
Proof.
  revert z. induction n as [|n IH]; intros z; cbn [le_enc le_dec].
  - by rewrite Z.mod_1_r.
  - rewrite IH, Z_of_byte_of_Z, Nat2Z.inj_succ, Z.pow_succ_r by lia.
    rewrite Z.rem_mul_r by (try lia; apply Z.pow_nonzero; lia). lia.
Qed.

Lemma read_fixed_app n conv b rest :
  length b = n -> read_fixed n conv (b ++ rest) = ROk (conv (le_dec b)) rest.
Proof.
  intros <-. unfold read_fixed. rewrite length_app, bool_decide_eq_true_2 by lia.
  by rewrite take_app_length, drop_app_length.
Qed.

Lemma read_int32_enc z rest : read_int32 (le_enc 4 z ++ rest) = ROk (int32 z) rest.
Proof.
  unfold read_int32. rewrite read_fixed_app, le_dec_enc by apply length_le_enc.
  change (256 ^ Z.of_nat 4) with (2 ^ 32). by rewrite int32_mod.
Qed.

Lemma read_int64_enc z rest : read_int64 (le_enc 8 z ++ rest) = ROk (int64 z) rest.
Proof.
  unfold read_int64. rewrite read_fixed_app, le_dec_enc by apply length_le_enc.
  change (256 ^ Z.of_nat 8) with (2 ^ 64). by rewrite int64_mod.
Qed.

Lemma le_enc_not_nil n z rest : le_enc (S n) z ++ rest <> [].
Proof. done. Qed.

(** ** Strings *)

Lemma length_writeString s : length (writeString s) = (4 + String.length s)%nat.
Proof. unfold writeString. by rewrite length_app, length_le_enc, length_bytes_of. Qed.

Lemma writeString_not_nil s rest : writeString s ++ rest <> [].
Proof. done. Qed.

Lemma read_into_app s rest :
  (s <> EmptyString \/ rest <> []) ->
  read_into (Z.of_nat (String.length s)) (bytes_of s ++ rest) = ROk s rest.
Proof.
  intros H. unfold read_into.
  destruct (Z.ltb_spec (Z.of_nat (String.length s)) 0) as [|_]; [lia |].
  rewrite Nat2Z.id, <- length_bytes_of, take_app_length, drop_app_length, length_app.
  replace (_ - _)%nat with 0%nat by lia. rewrite app_nil_r, string_of_bytes_of.
  destruct (bytes_of s ++ rest) eqn:E; [|done].
  apply app_nil in E as [E ->]. destruct H as [H | []]; [|done].
  by destruct s.
Qed.

Lemma readString_app s rest :
  short s -> (s <> EmptyString \/ rest <> []) -> readString (writeString s ++ rest) = ROk s rest.
Proof.
  unfold short. intros Hs H. unfold readString, writeString.
  rewrite <- app_assoc, read_int32_enc. simpl.
  rewrite int32_idem, int32_id by (unfold is_int32; lia). by apply read_into_app.
Qed.

Lemma readString_last_empty : readString (writeString EmptyString) = RErr ErrEOF [].
Proof. reflexivity. Qed.

Lemma readString_lax_app s rest :
  short s -> rest <> [] -> readString_lax (writeString s ++ rest) = Some (s, rest).
Proof.
  unfold short. intros Hs H. unfold readString_lax, writeString.
  rewrite <- app_assoc, read_int32_enc. simpl.
  rewrite int32_idem, int32_id by (unfold is_int32; lia). by rewrite read_into_app by auto.
Qed.

Lemma length_concat_ids ids :
  (4 * length ids <= length (concat (writeString <$> ids)))%nat.
Proof.
  induction ids as [|s ids IH]; [simpl; lia |].
  rewrite fmap_cons, concat_cons, length_app, length_writeString. simpl. lia.
Qed.

Lemma short_ids ids : Z.of_nat (length (concat (writeString <$> ids))) < 2 ^ 31 -> Forall short ids.
Proof.
  induction ids as [|s ids IH]; [constructor |].
  rewrite fmap_cons, concat_cons, length_app, length_writeString. intros H.
  constructor; [unfold short; lia | apply IH; lia].
Qed.

Lemma readIDs_app ids acc :
  Forall short ids ->
  readIDs (length ids) acc (concat (writeString <$> ids)) = ROk (acc ++ canonIDs ids) [].
Proof.
  intros H. revert acc. induction H as [|s ids Hs H IH]; intros acc.
  - simpl. by rewrite app_nil_r.
  - rewrite fmap_cons, concat_cons. cbn [length readIDs]. destruct ids as [|s' ids].
    + cbn [fmap list_fmap concat]. rewrite app_nil_r. unfold canonIDs. case_bool_decide.
      * subst. rewrite readString_last_empty. by rewrite app_nil_r.
      * rewrite <- (app_nil_r (writeString s)), readString_app by auto. done.
    + rewrite readString_app; [|done | right; done].
      rewrite IH, <- app_assoc. done.
Qed.

Lemma readIDs_lax_app ids rest :
  Forall short ids -> rest <> [] ->
  readIDs_lax (length ids) (concat (writeString <$> ids) ++ rest) = Some (ids, rest).
Proof.
  intros H Hr. induction H as [|s ids Hs H IH]; [done |].
  rewrite fmap_cons, concat_cons, <- app_assoc. cbn [length readIDs_lax].
  rewrite readString_lax_app; [|done | by intros [_ ?]%app_nil].
  simpl. by rewrite IH.
Qed.

Lemma readIDList_lax_app ids rest :
  Z.of_nat (length (concat (writeString <$> ids))) < 2 ^ 31 -> rest <> [] ->
  readIDList_lax (le_enc 4 (int32 (Z.of_nat (length ids))) ++ concat (writeString <$> ids) ++ rest)
  = Some (ids, rest).
Proof.
  intros H Hr. pose proof (length_concat_ids ids). unfold readIDList_lax.
  rewrite read_int32_enc. simpl. rewrite int32_idem, int32_id by (unfold is_int32; lia).
  destruct (Z.ltb_spec (Z.of_nat (length ids)) 0) as [|_]; [lia |].
  rewrite Nat2Z.id. apply readIDs_lax_app; [by apply short_ids | done].
Qed.

Lemma readDownstream_app ids :
  Z.of_nat (length (concat (writeString <$> ids))) < 2 ^ 31 ->
  readDownstream (le_enc 4 (int32 (Z.of_nat (length ids))) ++ concat (writeString <$> ids))
  = ROk (canonIDs ids) [].
Proof.
  intros H. pose proof (length_concat_ids ids). unfold readDownstream.
  rewrite read_int32_enc, int32_idem, int32_id by (unfold is_int32; lia).
  destruct (Z.ltb_spec (Z.of_nat (length ids)) 0) as [|_]; [lia |].
  rewrite Nat2Z.id. rewrite readIDs_app; [done | by apply short_ids].
Qed.

(** ** Round trips *)

Ltac codec_len :=
  repeat match goal with
  | H : context [length (_ ++ _)] |- _ => rewrite length_app in H
  | H : context [length (le_enc _ _)] |- _ => rewrite length_le_enc in H
  | H : context [length (writeString _)] |- _ => rewrite length_writeString in H
  end.

Lemma unmarshal_marshal_task r :
  Z.of_nat (length (marshalTaskRecord r)) < 2 ^ 31 ->
  unmarshalTaskRecord (marshalTaskRecord r) = ROk (canonTask r) [].
Proof.
  intros H. unfold marshalTaskRecord in *. codec_len. unfold unmarshalTaskRecord.
  repeat (first [ rewrite readString_app; [|unfold short; lia | right; done]
                | rewrite read_int32_enc | rewrite read_int64_enc ]; cbn [rbind]).
  rewrite readDownstream_app by lia. simpl. by rewrite int32_idem.
Qed.

Lemma unmarshal_marshal_wfstate r :
  Z.of_nat (length (marshalWorkflowState r)) < 2 ^ 31 ->
  unmarshalWorkflowState (marshalWorkflowState r) = Some (canonWorkflowState r).
Proof.
  intros H. unfold marshalWorkflowState in *. codec_len. unfold unmarshalWorkflowState.
  rewrite readString_lax_app; [|unfold short; lia | done]. cbn [mbind option_bind].
  rewrite read_int32_enc. cbn [lax]. rewrite read_int64_enc. cbn [lax].
  rewrite <- (app_nil_r (le_enc 8 (WR.CompletedAtMs r))), read_int64_enc. simpl.
  by rewrite int32_idem.
Qed.

Lemma unmarshal_marshal_worker r :
  Z.of_nat (length (marshalWorkerRecord r)) < 2 ^ 31 ->
  unmarshalWorkerRecord (marshalWorkerRecord r) = Some (canonWorker r).
Proof.
  intros H. unfold marshalWorkerRecord in *. codec_len. unfold unmarshalWorkerRecord.
  rewrite readString_lax_app; [|unfold short; lia | done]. cbn [mbind option_bind].
  rewrite read_int64_enc. cbn [lax].
  rewrite readIDList_lax_app; [|lia | done]. cbn [mbind option_bind].
  rewrite readIDList_lax_app; [|lia | done]. cbn [mbind option_bind].
  by rewrite <- (app_nil_r (le_enc 8 (WK.LastUpdated r))), read_int64_enc.
Qed.

Lemma canonIDs_id ids : last ids <> Some EmptyString -> canonIDs ids = ids.
Proof.
  induction ids as [|s [|s' ids] IH]; intros H; [done | |].
  - simpl in *. case_bool_decide; [by subst | done].
  - simpl in *. f_equal. by apply IH.
Qed.
