(* ===== verification/CodecProps.v ===== *)
(** * The record formats

    Round trips of the three binary formats of [internal/store/serialization.go]. *)

From S2P Require Import Prelude Proto Codec.

(** ** Records that fit their format *)

(** The fields have the range of their Go types, and the last downstream id is
    not the empty string. *)
Definition task_in_range (r : TaskStateRecord) : Prop :=
  is_int32 (TR.State r) /\ is_int32 (TR.AttemptCount r) /\ is_int64 (TR.LastUpdated r) /\
  is_int32 (TR.InDegree r) /\ last (TR.DownstreamTaskIDs r) <> Some EmptyString.

(** The bytes of a record of the format before [DownstreamTaskIDs] was added. *)
Definition legacyTaskRecord (r : TaskStateRecord) : bytes :=
  writeString (TR.TaskID r) ++ writeString (TR.WorkflowID r) ++ le_enc 4 (int32 (TR.State r)) ++
  writeString (TR.ExecutionID r) ++ le_enc 4 (TR.AttemptCount r) ++ le_enc 8 (TR.LastUpdated r) ++
  writeString (TR.Output r) ++ writeString (TR.Error r) ++ le_enc 4 (TR.InDegree r).

Definition sampleRecord : TaskStateRecord :=
  TR.mk "build" "nightly" TASK_RUNNING "uuid-7" 1 1700000000000 "out" "" 0 ["test"; "deploy"].

Lemma canonTask_id r : task_in_range r -> canonTask r = r.
Proof.
  intros (H1 & H2 & H3 & H4 & H5). destruct r; unfold canonTask; simpl in *.
  by rewrite !int32_id, int64_id, canonIDs_id.
Qed.

Lemma sample_in_range : task_in_range sampleRecord.
Proof. unfold task_in_range, is_int32, is_int64. simpl. split_and!; done || lia. Qed.

(** ** Theorems *)

(** C29. Task records. Reading back the bytes of a task record of less than 2^31
    bytes succeeds, consumes all of them and gives [canonTask] of the record:
    the record itself when its fields have the range of their Go types and its
    last downstream id is not empty (an empty last id is lost). *)
Theorem task_record_roundtrip r :
  Z.of_nat (length (marshalTaskRecord r)) < 2 ^ 31 ->
  unmarshalTaskRecord (marshalTaskRecord r) = ROk (canonTask r) [] /\
  (task_in_range r -> canonTask r = r).
Proof. intros Hr. split; [by apply unmarshal_marshal_task | apply canonTask_id]. Qed.

(** Old task records. A record written before the downstream ids were part of
    the format still decodes, to the same fields with no downstream ids. *)
Theorem legacy_task_record r :
  Z.of_nat (length (legacyTaskRecord r)) < 2 ^ 31 -> task_in_range r ->
  unmarshalTaskRecord (legacyTaskRecord r) =
  ROk (TR.mk (TR.TaskID r) (TR.WorkflowID r) (TR.State r) (TR.ExecutionID r) (TR.AttemptCount r)
         (TR.LastUpdated r) (TR.Output r) (TR.Error r) (TR.InDegree r) []) [].
Proof.
  intros H (H1 & H2 & H3 & H4 & _). unfold legacyTaskRecord in *. codec_len. unfold unmarshalTaskRecord.
  rewrite <- (app_nil_r (le_enc 4 (TR.InDegree r))).
  repeat (first [ rewrite readString_app; [|unfold short; lia | right; done]
                | rewrite read_int32_enc | rewrite read_int64_enc ]; cbn [rbind]).
  simpl. by rewrite int32_idem, !int32_id, int64_id.
Qed.

(** Workflow-state records. Reading back the bytes of a workflow-state record
    gives the record, when its fields have the range of their Go types. *)
Theorem workflow_state_roundtrip r :
  Z.of_nat (length (marshalWorkflowState r)) < 2 ^ 31 ->
  is_int32 (WR.State r) -> is_int64 (WR.SubmittedAtMs r) -> is_int64 (WR.CompletedAtMs r) ->
  unmarshalWorkflowState (marshalWorkflowState r) = Some r.
Proof.
  intros H H1 H2 H3. rewrite unmarshal_marshal_wfstate by done. destruct r; unfold canonWorkflowState; simpl in *.
  by rewrite int32_id, !int64_id.
Qed.

(** Worker records. Reading back the bytes of a worker record gives the
    record, when its fields have the range of their Go types. *)
Theorem worker_record_roundtrip r :
  Z.of_nat (length (marshalWorkerRecord r)) < 2 ^ 31 ->
  is_int64 (WK.LastHeartbeat r) -> is_int64 (WK.LastUpdated r) ->
  unmarshalWorkerRecord (marshalWorkerRecord r) = Some r.
Proof.
  intros H H1 H2. rewrite unmarshal_marshal_worker by done. destruct r; unfold canonWorker; simpl in *.
  by rewrite !int64_id.
Qed.

(** ** Witnesses *)

Lemma task_record_roundtrip_witness : unmarshalTaskRecord (marshalTaskRecord sampleRecord) = ROk sampleRecord [].
Proof.
  destruct (task_record_roundtrip sampleRecord) as [E Hid]; [vm_compute; reflexivity |].
  rewrite E, Hid; [reflexivity | apply sample_in_range].
Defined.

Lemma legacy_task_record_witness :
  unmarshalTaskRecord (legacyTaskRecord sampleRecord) =
  ROk (TR.mk "build" "nightly" TASK_RUNNING "uuid-7" 1 1700000000000 "out" "" 0 []) [].
Proof. apply (legacy_task_record sampleRecord); [vm_compute; reflexivity | apply sample_in_range]. Defined.

Lemma workflow_state_roundtrip_witness :
  let r := WR.mk "nightly" WORKFLOW_FAILED 1700000000000 1700000060000 in
  unmarshalWorkflowState (marshalWorkflowState r) = Some r.
Proof. intros r. apply (workflow_state_roundtrip r); [vm_compute; reflexivity | | |]; unfold is_int32, is_int64, r, WORKFLOW_FAILED; simpl; lia. Defined.

Lemma worker_record_roundtrip_witness :
  let r := WK.mk "worker-1" 1700000000000 ["build"%string] [] 1700000000001 in
  unmarshalWorkerRecord (marshalWorkerRecord r) = Some r.
Proof. intros r. apply (worker_record_roundtrip r); [vm_compute; reflexivity | |]; unfold is_int64, r; simpl; lia. Defined.
