(* ===== verification/Env.v ===== *)
(** * The libraries and the world around the program

    What the code uses and does not define: the embedded key/value store
    [go.etcd.io/bbolt], the protobuf runtime, the clock, the UUID generator and
    the faults a transaction may meet. Each is a class of operations, with the
    documented behaviour the code relies on as a class of laws; the models at the
    end of the file show that the laws can be met. *)

From S2P Require Import Prelude Proto.

(** ** Buckets of bbolt *)

Definition MaxKeySize : Z := 32768.
Definition MaxValueSize : Z := 2 ^ 31 - 2.

(** The documented errors of [Bucket.Put]: blank key, key or value too large. *)
Definition put_error (k : string) (v : bytes) : option GoError :=
  if (String.length k =? 0)%nat then Some ErrKeyRequired
  else if MaxKeySize <? Z.of_nat (String.length k) then Some ErrKeyTooLarge
  else if MaxValueSize <? Z.of_nat (length v) then Some ErrValueTooLarge
  else None.

Class Bolt (B : Type) := {
  b_new : B;
  b_get : B -> string -> option bytes;
  b_put : B -> string -> bytes -> GoError + B;
  b_delete : B -> string -> B;
  (** the pairs [ForEach] hands to a callback that only reads *)
  b_foreach : B -> list (string * bytes);
  (** the pairs [ForEach] hands to a callback that calls [Put] on the bucket for
      the key it was handed; the library leaves this undefined *)
  b_foreach_put : B -> list (string * bytes)
}.

Class BoltLaws (B : Type) `{Bolt B} : Prop := {
  b_get_new : forall k, b_get b_new k = None;
  b_put_ok : forall b k v b', b_put b k v = inr b' ->
    put_error k v = None /\
    forall k', b_get b' k' = if decide (k = k') then Some v else b_get b k';
  b_put_err : forall b k v e, b_put b k v = inl e -> put_error k v = Some e;
  b_get_delete : forall b k k',
    b_get (b_delete b k) k' = if decide (k = k') then None else b_get b k';
  b_foreach_get : forall b k v, (k, v) ∈ b_foreach b <-> b_get b k = Some v;
  b_foreach_NoDup : forall b, NoDup (b_foreach b).*1;
  b_foreach_sorted : forall b, StronglySorted key_le (b_foreach b)
}.

(** The assumption [CancelWorkflowTasks] makes of the library: overwriting the
    visited key during [ForEach] does not disturb the iteration. bbolt does not promise
    this (its documentation leaves modifying the bucket in [ForEach] undefined), so it is
    kept apart from [BoltLaws]; it is needed of bbolt for systems that cancel. *)
Class ForEachPutStable (B : Type) `{Bolt B} : Prop :=
  foreach_put_stable : forall b, b_foreach_put b = b_foreach b.

(** ** The protobuf runtime *)

Class Protobuf := {
  proto_Marshal : WorkflowSpec -> GoError + bytes;
  proto_Unmarshal : bytes -> GoError + WorkflowSpec
}.

Class ProtobufLaws `{Protobuf} : Prop :=
  proto_roundtrip : forall w bs, proto_Marshal w = inr bs -> proto_Unmarshal bs = inr w.

(** ** Clock, UUIDs, map orders and faults *)

(** What may happen to a bbolt transaction besides what its body does: it cannot
    begin, it cannot be committed, or the process is killed before it commits. *)
Inductive txfault := TxOk | TxBeginErr (e : GoError) | TxCommitErr (e : GoError) | TxKill.

(** The [n]-th reading of the clock ([time.Now().UnixMilli()]), the [n]-th result
    of [uuid.New().String()], the order of the [n]-th loop over a map, and the
    fate of the [n]-th transaction. *)
Class Env := {
  clock : nat -> Z;
  uuid : nat -> string;
  order : nat -> seed;
  fault : nat -> txfault
}.

(** No transaction fails and the process is not killed. *)
Class NoFaults `{Env} : Prop := no_faults : forall n, fault n = TxOk.

(** Fresh UUIDs: [uuid.New] returns random (version 4) identifiers. *)
Class FreshUUIDs `{Env} : Prop := fresh_uuids : Inj eq eq uuid.

(** ** Models of the interfaces *)

(** A bucket as a finite map. *)
Module GBolt.

Definition bucket : Type := gmap string bytes.

#[export] Instance bolt : Bolt bucket := {|
  b_new := ∅;
  b_get b k := (b : gmap string bytes) !! k;
  b_put b k v := match put_error k v with
                 | Some e => inl e
                 | None => inr (<[k := v]> (b : gmap string bytes))
                 end;
  b_delete b k := delete k (b : gmap string bytes);
  b_foreach b := sorted_entries b;
  b_foreach_put b := sorted_entries b
|}.

#[export] Instance laws : BoltLaws bucket.
Proof.
  split; simpl.
  - intros k. apply lookup_empty.
  - intros b k v b' H. destruct (put_error k v); simplify_eq. split; [done |].
    intros k'. by rewrite lookup_insert.
  - intros b k v e H. by destruct (put_error k v); simplify_eq.
  - intros b k k'. by rewrite lookup_delete.
  - intros b k v. apply elem_of_sorted_entries.
  - intros b. apply sorted_entries_NoDup.
  - intros b. apply sorted_entries_sorted.
Qed.

#[export] Instance stable : ForEachPutStable bucket.
Proof. done. Qed.

End GBolt.

(** Workflow specifications are countable, which gives an encoding. *)
Module GProto.

#[export] Instance TaskSpec_eq_dec : EqDecision TaskSpec.
Proof. solve_decision. Defined.

#[export] Instance TaskSpec_countable : Countable TaskSpec.
Proof.
  refine (inj_countable'
    (fun t => (TS.TaskId t, TS.Dependencies t, TS.Command t, map_to_list (TS.Env t),
               TS.TimeoutSeconds t, TS.MaxRetries t))
    (fun '(a, b, c, d, e, f) => TS.mk a b c (list_to_map d) e f) _).
  intros []; simpl. by rewrite list_to_map_to_list.
Defined.

#[export] Instance WorkflowSpec_eq_dec : EqDecision WorkflowSpec.
Proof. solve_decision. Defined.

#[export] Instance WorkflowSpec_countable : Countable WorkflowSpec.
Proof.
  refine (inj_countable'
    (fun w => (WF.WorkflowId w, WF.Tasks w, WF.FailurePolicy w))
    (fun '(a, b, c) => WF.mk a b c) _).
  by intros [].
Defined.

Fixpoint bits (p : positive) : bytes :=
  match p with
  | xH => []
  | xO p => x00 :: bits p
  | xI p => x01 :: bits p
  end.

Fixpoint unbits (b : bytes) : positive :=
  match b with
  | [] => xH
  | x00 :: b => xO (unbits b)
  | _ :: b => xI (unbits b)
  end.

Lemma unbits_bits p : unbits (bits p) = p.
Proof. induction p; simpl; by f_equal. Qed.

#[export] Instance protobuf : Protobuf := {|
  proto_Marshal w := inr (bits (encode w));
  proto_Unmarshal b := match decode (unbits b) with
                       | Some w => inr w
                       | None => inl (ErrLibrary "proto: cannot parse invalid wire-format data")
                       end
|}.

#[export] Instance laws : ProtobufLaws.
Proof. intros w bs H. simpl in *. simplify_eq. by rewrite unbits_bits, decode_encode. Qed.

End GProto.

(** A clock that ticks, numbered UUIDs, maps in their stored order, no faults. *)
Module GEnv.

Definition uuid_of (n : nat) : string := ("uuid-" +:+ pretty.pretty n)%string.

#[export] Instance env : Env := {|
  clock n := 1000 + Z.of_nat n;
  uuid := uuid_of;
  order _ := [];
  fault _ := TxOk
|}.

#[export] Instance no_faults : NoFaults.
Proof. done. Qed.

#[export] Instance fresh : FreshUUIDs.
Proof. intros n m. simpl. unfold uuid_of. intros H. by simplify_eq/=. Qed.

End GEnv.
