(* ===== verification/RecordDB.v ===== *)
(** * Typed access to the buckets

    The interface between the store's operations and what holds the records:
    reading a record ([b.Get] and the record's [unmarshal] function), writing one
    (the record's [marshal] function and [b.Put]) and iterating over a bucket
    ([b.ForEach] with [unmarshal] on each value). [BoltDB] implements it on
    bbolt buckets of bytes; [AbsDB] is the specification, a finite map of records
    per bucket. [RecordDBCore] is the promise an implementation makes to the
    operations of the store, [RecordDBLaws] adds what [CancelWorkflowTasks] assumes
    of a loop that writes, and [bolt_core] and [bolt_laws] discharge them for
    [BoltDB]. *)

From S2P Require Import Prelude Proto Codec Env.

(** ** The interface *)

(** What a key holds: nothing, undecodable data (an error or a panic of the
    unmarshal function), or a record. *)
Inductive fetched (A : Type) :=
  | Missing
  | Undecodable (e : GoError)
  | Panicking
  | Found (a : A).
Arguments Missing {A}.
Arguments Undecodable {A} e.
Arguments Panicking {A}.
Arguments Found {A} a.

Class RecordDB (D : Type) := {
  task_get : D -> string -> fetched TaskStateRecord;
  task_put : D -> string -> TaskStateRecord -> GoError + D;
  task_each : D -> list (string * fetched TaskStateRecord);
  task_each_put : D -> list (string * fetched TaskStateRecord);
  wf_get : D -> string -> fetched WorkflowSpec;
  wf_put : D -> string -> WorkflowSpec -> GoError + D;
  wst_get : D -> string -> fetched WorkflowStateRecord;
  wst_put : D -> string -> WorkflowStateRecord -> GoError + D;
  wst_each : D -> list (string * fetched WorkflowStateRecord);
  wk_get : D -> string -> fetched WorkerRecord;
  wk_put : D -> string -> WorkerRecord -> GoError + D;
  wk_del : D -> string -> D;
  wk_each : D -> list (string * fetched WorkerRecord)
}.

(** ** The specification: maps of records *)

Module AbsDB.
Record t := mk {
  workflows : gmap string WorkflowSpec;
  tasks : gmap string TaskStateRecord;
  workers : gmap string WorkerRecord;
  wstates : gmap string WorkflowStateRecord
}.
End AbsDB.
Abbreviation AbsDB := AbsDB.t.

Definition map_get {A} (m : gmap string A) (k : string) : fetched A :=
  match m !! k with Some a => Found a | None => Missing end.

(** A write fails when bbolt refuses the key or the encoded record; otherwise the
    map holds the record as it will be read back. *)
Definition map_put {A} (enc : A -> bytes) (canon : A -> A) (m : gmap string A) (k : string) (a : A)
  : GoError + gmap string A :=
  match put_error k (enc a) with
  | Some e => inl e
  | None => inr (<[k := canon a]> m)
  end.

Definition map_each {A} (m : gmap string A) : list (string * fetched A) :=
  (fun p => (p.1, Found p.2)) <$> sorted_entries m.

Section Spec.
Context `{Protobuf}.

#[export] Instance abs_db : RecordDB AbsDB := {|
  task_get d := map_get (AbsDB.tasks d);
  task_put d k r :=
    match map_put marshalTaskRecord canonTask (AbsDB.tasks d) k r with
    | inl e => inl e
    | inr m => inr (AbsDB.mk (AbsDB.workflows d) m (AbsDB.workers d) (AbsDB.wstates d))
    end;
  task_each d := map_each (AbsDB.tasks d);
  task_each_put d := map_each (AbsDB.tasks d);
  wf_get d := map_get (AbsDB.workflows d);
  wf_put d k w :=
    match proto_Marshal w with
    | inl e => inl e
    | inr data =>
        match map_put (fun _ => data) (fun w => w) (AbsDB.workflows d) k w with
        | inl e => inl e
        | inr m => inr (AbsDB.mk m (AbsDB.tasks d) (AbsDB.workers d) (AbsDB.wstates d))
        end
    end;
  wst_get d := map_get (AbsDB.wstates d);
  wst_put d k r :=
    match map_put marshalWorkflowState canonWorkflowState (AbsDB.wstates d) k r with
    | inl e => inl e
    | inr m => inr (AbsDB.mk (AbsDB.workflows d) (AbsDB.tasks d) (AbsDB.workers d) m)
    end;
  wst_each d := map_each (AbsDB.wstates d);
  wk_get d := map_get (AbsDB.workers d);
  wk_put d k r :=
    match map_put marshalWorkerRecord canonWorker (AbsDB.workers d) k r with
    | inl e => inl e
    | inr m => inr (AbsDB.mk (AbsDB.workflows d) (AbsDB.tasks d) m (AbsDB.wstates d))
    end;
  wk_del d k := AbsDB.mk (AbsDB.workflows d) (AbsDB.tasks d) (delete k (AbsDB.workers d)) (AbsDB.wstates d);
  wk_each d := map_each (AbsDB.workers d)
|}.

End Spec.

(** ** The implementation: buckets of bytes *)

(** The buckets [New] creates. *)
Module BoltDB.
Record t (B : Type) := mk {
  workflows : B;
  task_state : B;
  workers : B;
  meta : B;
  workflow_state : B
}.
Arguments mk {B}.
Arguments workflows {B}.
Arguments task_state {B}.
Arguments workers {B}.
Arguments meta {B}.
Arguments workflow_state {B}.
End BoltDB.
Abbreviation BoltDB := BoltDB.t.

(** The decoded value of a key: the three unmarshal functions and
    [proto.Unmarshal]. *)
Definition fetch_task (data : bytes) : fetched TaskStateRecord :=
  match unmarshalTaskRecord data with
  | ROk r _ => Found r
  | RErr e _ => Undecodable e
  | RPanic => Panicking
  end.

Definition fetch_wfstate (data : bytes) : fetched WorkflowStateRecord :=
  match unmarshalWorkflowState data with Some r => Found r | None => Panicking end.

Definition fetch_worker (data : bytes) : fetched WorkerRecord :=
  match unmarshalWorkerRecord data with Some r => Found r | None => Panicking end.

Definition fetch_wf `{Protobuf} (data : bytes) : fetched WorkflowSpec :=
  match proto_Unmarshal data with inr w => Found w | inl e => Undecodable e end.

Section Impl.
Context {B : Type} `{Bolt B} `{Protobuf}.

Definition bucket_get {A} (fetch : bytes -> fetched A) (b : B) (k : string) : fetched A :=
  match b_get b k with Some data => fetch data | None => Missing end.

Definition bucket_each {A} (fetch : bytes -> fetched A) (l : list (string * bytes))
  : list (string * fetched A) :=
  (fun p => (p.1, fetch p.2)) <$> l.

#[export] Instance bolt_db : RecordDB (BoltDB B) := {|
  task_get d := bucket_get fetch_task (BoltDB.task_state d);
  task_put d k r :=
    match b_put (BoltDB.task_state d) k (marshalTaskRecord r) with
    | inl e => inl e
    | inr b => inr (BoltDB.mk (BoltDB.workflows d) b (BoltDB.workers d) (BoltDB.meta d) (BoltDB.workflow_state d))
    end;
  task_each d := bucket_each fetch_task (b_foreach (BoltDB.task_state d));
  task_each_put d := bucket_each fetch_task (b_foreach_put (BoltDB.task_state d));
  wf_get d := bucket_get fetch_wf (BoltDB.workflows d);
  wf_put d k w :=
    match proto_Marshal w with
    | inl e => inl e
    | inr data =>
        match b_put (BoltDB.workflows d) k data with
        | inl e => inl e
        | inr b => inr (BoltDB.mk b (BoltDB.task_state d) (BoltDB.workers d) (BoltDB.meta d) (BoltDB.workflow_state d))
        end
    end;
  wst_get d := bucket_get fetch_wfstate (BoltDB.workflow_state d);
  wst_put d k r :=
    match b_put (BoltDB.workflow_state d) k (marshalWorkflowState r) with
    | inl e => inl e
    | inr b => inr (BoltDB.mk (BoltDB.workflows d) (BoltDB.task_state d) (BoltDB.workers d) (BoltDB.meta d) b)
    end;
  wst_each d := bucket_each fetch_wfstate (b_foreach (BoltDB.workflow_state d));
  wk_get d := bucket_get fetch_worker (BoltDB.workers d);
  wk_put d k r :=
    match b_put (BoltDB.workers d) k (marshalWorkerRecord r) with
    | inl e => inl e
    | inr b => inr (BoltDB.mk (BoltDB.workflows d) (BoltDB.task_state d) b (BoltDB.meta d) (BoltDB.workflow_state d))
    end;
  wk_del d k := BoltDB.mk (BoltDB.workflows d) (BoltDB.task_state d) (b_delete (BoltDB.workers d) k)
                  (BoltDB.meta d) (BoltDB.workflow_state d);
  wk_each d := bucket_each fetch_worker (b_foreach (BoltDB.workers d))
|}.

End Impl.

(** ** The promise *)

(** A put on the implementation and on the specification give the same answer. *)
Definition put_sim {D} (ok : D -> Prop) (abs : D -> AbsDB) (r : GoError + D) (a : GoError + AbsDB) : Prop :=
  match r with
  | inl e => a = inl e
  | inr d => ok d /\ a = inr (abs d)
  end.

(** What an implementation promises for the calls whose behaviour the library
    documents. *)
Class RecordDBCore (D : Type) `{RecordDB D} `{Protobuf} := {
  db_abs : D -> AbsDB;
  db_ok : D -> Prop;
  task_get_abs d k : db_ok d -> task_get d k = task_get (db_abs d) k;
  task_put_abs d k r : db_ok d -> put_sim db_ok db_abs (task_put d k r) (task_put (db_abs d) k r);
  task_each_abs d : db_ok d -> task_each d = task_each (db_abs d);
  wf_get_abs d k : db_ok d -> wf_get d k = wf_get (db_abs d) k;
  wf_put_abs d k r : db_ok d -> put_sim db_ok db_abs (wf_put d k r) (wf_put (db_abs d) k r);
  wst_get_abs d k : db_ok d -> wst_get d k = wst_get (db_abs d) k;
  wst_put_abs d k r : db_ok d -> put_sim db_ok db_abs (wst_put d k r) (wst_put (db_abs d) k r);
  wst_each_abs d : db_ok d -> wst_each d = wst_each (db_abs d);
  wk_get_abs d k : db_ok d -> wk_get d k = wk_get (db_abs d) k;
  wk_put_abs d k r : db_ok d -> put_sim db_ok db_abs (wk_put d k r) (wk_put (db_abs d) k r);
  wk_del_abs d k : db_ok d -> db_ok (wk_del d k) /\ db_abs (wk_del d k) = wk_del (db_abs d) k;
  wk_each_abs d : db_ok d -> wk_each d = wk_each (db_abs d)
}.

(** The promise with the assumption of [CancelWorkflowTasks] added: a loop that
    overwrites the records it visits visits every record once. *)
Class RecordDBLaws (D : Type) `{RecordDB D} `{Protobuf} := {
  record_core :: RecordDBCore D;
  task_each_put_abs d : db_ok d -> task_each_put d = task_each_put (db_abs d)
}.

(** The specification implements itself. *)
#[export] Instance abs_core `{Protobuf} : RecordDBCore AbsDB.
Proof.
  refine {| db_abs d := d; db_ok _ := True |}; try done;
  intros d k r _; unfold put_sim; go_case; done.
Defined.

#[export] Instance abs_laws `{Protobuf} : RecordDBLaws AbsDB.
Proof. by refine {| record_core := abs_core |}. Defined.

(** ** bbolt buckets keep the promise *)

Section BucketLaws.
Context {B : Type} `{BoltLaws B}.

(** The contents of a bucket as a map of bytes, and as a map of records. *)
Definition raw (b : B) : gmap string bytes := list_to_map (b_foreach b).

Definition found {A} (f : fetched A) : option A :=
  match f with Found a => Some a | _ => None end.

Definition decoded {A} (fetch : bytes -> fetched A) (b : B) : gmap string A :=
  omap (fun data => found (fetch data)) (raw b).

(** Every value of the bucket decodes to a record. *)
Definition bucket_ok {A} (fetch : bytes -> fetched A) (b : B) : Prop :=
  forall k data, b_get b k = Some data -> exists a, fetch data = Found a.

Lemma lookup_raw b k : raw b !! k = b_get b k.
Proof.
  unfold raw. apply option_eq. intros v.
  rewrite <- elem_of_list_to_map by apply b_foreach_NoDup. apply b_foreach_get.
Qed.

Lemma foreach_raw b : b_foreach b = sorted_entries (raw b).
Proof.
  apply sorted_entries_unique; [apply b_foreach_sorted | apply b_foreach_NoDup |].
  intros. by rewrite lookup_raw, b_foreach_get.
Qed.

Lemma bucket_get_decoded {A} (fetch : bytes -> fetched A) b k :
  bucket_ok fetch b -> bucket_get fetch b k = map_get (decoded fetch b) k.
Proof.
  intros Hok. unfold bucket_get, map_get, decoded. rewrite lookup_omap, lookup_raw.
  destruct (b_get b k) as [data|] eqn:E; [|done].
  simpl. by destruct (Hok _ _ E) as [a ->].
Qed.

Lemma bucket_each_decoded {A} (fetch : bytes -> fetched A) b :
  bucket_ok fetch b -> bucket_each fetch (b_foreach b) = map_each (decoded fetch b).
Proof.
  intros Hok. unfold bucket_each, map_each, decoded. rewrite foreach_raw.
  rewrite sorted_entries_omap.
  - assert (forall k data, (k, data) ∈ sorted_entries (raw b) -> exists a, fetch data = Found a) as Hl.
    { intros k data Hin. apply elem_of_sorted_entries in Hin. rewrite lookup_raw in Hin. eauto. }
    induction (sorted_entries (raw b)) as [|[k data] l IH]; [done |].
    simpl. destruct (Hl k data) as [a Ha]; [by left |]. rewrite Ha. simpl. f_equal.
    apply IH. intros; eapply Hl; by right.
  - intros k data. rewrite lookup_raw. intros E. simpl. destruct (Hok _ _ E) as [a ->]. by eexists.
Qed.

Lemma bucket_put_decoded {A} (fetch : bytes -> fetched A) (enc : A -> bytes) (canon : A -> A) b k a :
  bucket_ok fetch b ->
  (Z.of_nat (length (enc a)) <= MaxValueSize -> fetch (enc a) = Found (canon a)) ->
  match b_put b k (enc a) with
  | inl e => map_put enc canon (decoded fetch b) k a = inl e
  | inr b' => bucket_ok fetch b' /\ map_put enc canon (decoded fetch b) k a = inr (decoded fetch b')
  end.
Proof.
  intros Hok Hrt. unfold map_put. destruct (b_put b k (enc a)) as [e | b'] eqn:E.
  { by rewrite (b_put_err _ _ _ _ E). }
  destruct (b_put_ok _ _ _ _ E) as [Hp Hg]. rewrite Hp.
  assert (fetch (enc a) = Found (canon a)) as Hf.
  { apply Hrt. unfold put_error in Hp. repeat case_match; try done. lia. }
  split.
  - intros k' data. rewrite Hg. case_decide; [|apply Hok]. intros [= <-]. eauto.
  - f_equal. apply map_eq. intros k'. unfold decoded.
    rewrite lookup_insert, !lookup_omap, !lookup_raw, Hg. case_decide; [|done].
    simpl. by rewrite Hf.
Qed.

Lemma bucket_delete_decoded {A} (fetch : bytes -> fetched A) b k :
  bucket_ok fetch b ->
  bucket_ok fetch (b_delete b k) /\ decoded fetch (b_delete b k) = delete k (decoded fetch b).
Proof.
  intros Hok. split.
  - intros k' data. rewrite b_get_delete. case_decide; [done | apply Hok].
  - apply map_eq. intros k'. unfold decoded.
    rewrite lookup_delete, !lookup_omap, !lookup_raw, b_get_delete. by case_decide.
Qed.

Lemma bucket_new_ok {A} (fetch : bytes -> fetched A) : bucket_ok fetch b_new.
Proof. intros k data. by rewrite b_get_new. Qed.

Lemma decoded_new {A} (fetch : bytes -> fetched A) : decoded fetch b_new = ∅.
Proof.
  apply map_eq. intros k. unfold decoded. by rewrite lookup_omap, lookup_raw, b_get_new, lookup_empty.
Qed.

End BucketLaws.

Lemma fetch_task_marshal r :
  Z.of_nat (length (marshalTaskRecord r)) <= MaxValueSize ->
  fetch_task (marshalTaskRecord r) = Found (canonTask r).
Proof.
  unfold MaxValueSize, fetch_task. intros. by rewrite unmarshal_marshal_task by lia.
Qed.

Lemma fetch_wfstate_marshal r :
  Z.of_nat (length (marshalWorkflowState r)) <= MaxValueSize ->
  fetch_wfstate (marshalWorkflowState r) = Found (canonWorkflowState r).
Proof.
  unfold MaxValueSize, fetch_wfstate. intros. by rewrite unmarshal_marshal_wfstate by lia.
Qed.

Lemma fetch_worker_marshal r :
  Z.of_nat (length (marshalWorkerRecord r)) <= MaxValueSize ->
  fetch_worker (marshalWorkerRecord r) = Found (canonWorker r).
Proof.
  unfold MaxValueSize, fetch_worker. intros. by rewrite unmarshal_marshal_worker by lia.
Qed.

Section BoltLaws.
Context {B : Type} `{BoltLaws B} `{ProtobufLaws}.

Definition bolt_abs (d : BoltDB B) : AbsDB :=
  AbsDB.mk (decoded fetch_wf (BoltDB.workflows d)) (decoded fetch_task (BoltDB.task_state d))
    (decoded fetch_worker (BoltDB.workers d)) (decoded fetch_wfstate (BoltDB.workflow_state d)).

Definition bolt_ok (d : BoltDB B) : Prop :=
  bucket_ok fetch_wf (BoltDB.workflows d) /\ bucket_ok fetch_task (BoltDB.task_state d) /\
  bucket_ok fetch_worker (BoltDB.workers d) /\ bucket_ok fetch_wfstate (BoltDB.workflow_state d).

Lemma bolt_task_put d k r :
  bolt_ok d -> put_sim bolt_ok bolt_abs (task_put d k r) (task_put (bolt_abs d) k r).
Proof.
  intros (? & Hok & ? & ?). simpl.
  pose proof (bucket_put_decoded fetch_task marshalTaskRecord canonTask _ k r Hok (fetch_task_marshal r)).
  destruct (b_put _ _ _); [by case_match; simplify_eq |].
  destruct_and!. by case_match; simplify_eq.
Qed.

Lemma bolt_wst_put d k r :
  bolt_ok d -> put_sim bolt_ok bolt_abs (wst_put d k r) (wst_put (bolt_abs d) k r).
Proof.
  intros (? & ? & ? & Hok). simpl.
  pose proof (bucket_put_decoded fetch_wfstate marshalWorkflowState canonWorkflowState _ k r Hok
                (fetch_wfstate_marshal r)).
  destruct (b_put _ _ _); [by case_match; simplify_eq |].
  destruct_and!. by case_match; simplify_eq.
Qed.

Lemma bolt_wk_put d k r :
  bolt_ok d -> put_sim bolt_ok bolt_abs (wk_put d k r) (wk_put (bolt_abs d) k r).
Proof.
  intros (? & ? & Hok & ?). simpl.
  pose proof (bucket_put_decoded fetch_worker marshalWorkerRecord canonWorker _ k r Hok
                (fetch_worker_marshal r)).
  destruct (b_put _ _ _); [by case_match; simplify_eq |].
  destruct_and!. by case_match; simplify_eq.
Qed.

Lemma bolt_wf_put d k w :
  bolt_ok d -> put_sim bolt_ok bolt_abs (wf_put d k w) (wf_put (bolt_abs d) k w).
Proof.
  intros (Hok & ? & ? & ?). simpl. destruct (proto_Marshal w) as [e | data] eqn:E; [done |].
  assert (fetch_wf data = Found w) as Hf by (unfold fetch_wf; by rewrite (proto_roundtrip w)).
  pose proof (bucket_put_decoded fetch_wf (fun _ => data) (fun w => w) _ k w Hok (fun _ => Hf)).
  destruct (b_put _ _ _); [by case_match; simplify_eq |].
  destruct_and!. by case_match; simplify_eq.
Qed.

#[export] Instance bolt_core : RecordDBCore (BoltDB B).
Proof.
  refine {| db_abs := bolt_abs; db_ok := bolt_ok |};
  eauto using bolt_task_put, bolt_wst_put, bolt_wk_put, bolt_wf_put; simpl;
  intros; match goal with Hok : bolt_ok _ |- _ => destruct Hok as (? & ? & ? & ?) end.
  all: try by apply bucket_get_decoded.
  all: try by apply bucket_each_decoded.
  split; [by split_and!; try apply bucket_delete_decoded |].
  unfold bolt_abs. simpl. f_equal. by apply bucket_delete_decoded.
Defined.

#[export] Instance bolt_laws `{!ForEachPutStable B} : RecordDBLaws (BoltDB B).
Proof.
  refine {| record_core := bolt_core |}. intros d (? & ? & ? & ?). simpl.
  rewrite foreach_put_stable. by apply bucket_each_decoded.
Defined.

(** A database whose buckets were just created holds nothing. *)
Lemma bolt_new :
  let d := BoltDB.mk b_new b_new b_new b_new b_new in
  bolt_ok d /\ bolt_abs d = AbsDB.mk ∅ ∅ ∅ ∅.
Proof.
  split; [split_and!; apply bucket_new_ok |]. unfold bolt_abs. simpl. by rewrite !decoded_new.
Qed.

End BoltLaws.
