(* ===== verification/Store.v ===== *)
(** * The state store

    [internal/store]: the operations of [StateStore], each a bbolt transaction
    over the typed buckets of [RecordDB]. *)

From S2P Require Import Prelude Proto Codec Env RecordDB.

(** ** State and transactions *)

(** Readings of the clock and transactions begun so far, and the samples of the
    [BoltDBTxDurationMs] histogram. *)
Record Aux := mkAux { x_clock : nat; x_tx : nat; x_durations : list Z }.

(** The [StateStore]: its database, and the counters above. *)
Record St (D : Type) := mkSt { st_db : D; st_aux : Aux }.
Arguments mkSt {D} st_db st_aux.
Arguments st_db {D} s.
Arguments st_aux {D} s.

Definition aux0 : Aux := mkAux 0 0 [].

(** [if err != nil { return err }] on an error value. *)
Definition orElse {T} (e : option GoError) (k : M T (option GoError)) : M T (option GoError) :=
  match e with Some e => ret (Some e) | None => k end.

Section Store.
Context `{Env} {D : Type} `{RecordDB D}.

Definition set_db (d : D) (s : St D) : St D := mkSt d (st_aux s).

(** [time.Now().UnixMilli()]. *)
Definition now : M (St D) Z := fun s =>
  let x := st_aux s in
  Done (mkSt (st_db s) (mkAux (S (x_clock x)) (x_tx x) (x_durations x))) (clock (x_clock x)).

Definition observe_tx (ms : Z) : M (St D) unit :=
  modify (fun s => let x := st_aux s in
                   mkSt (st_db s) (mkAux (x_clock x) (x_tx x) (x_durations x ++ [ms]))).

Definition next_tx (s : St D) : St D :=
  let x := st_aux s in mkSt (st_db s) (mkAux (x_clock x) (S (x_tx x)) (x_durations x)).

(** [db.Update(body)]: the writes of the body reach the database only when the
    body returns no error and the commit succeeds; [c0] is what the variables
    captured by the body hold before it runs. *)
Definition Update {C} (c0 : C) (body : M (St D) (C * option GoError)) : M (St D) (C * option GoError) :=
  fun s =>
  match fault (x_tx (st_aux s)) with
  | TxBeginErr e => Done (next_tx s) (c0, Some e)
  | f =>
      match body (next_tx s) with
      | Crashed s' => Crashed (set_db (st_db s) s')
      | Done s' (c, Some e) => Done (set_db (st_db s) s') (c, Some e)
      | Done s' (c, None) =>
          match f with
          | TxKill => Crashed (set_db (st_db s) s')
          | TxCommitErr e => Done (set_db (st_db s) s') (c, Some e)
          | _ => Done s' (c, None)
          end
      end
  end.

(** [db.View(body)]: a read-only transaction. *)
Definition View {C} (c0 : C) (body : M (St D) (C * option GoError)) : M (St D) (C * option GoError) :=
  fun s =>
  match fault (x_tx (st_aux s)) with
  | TxBeginErr e => Done (next_tx s) (c0, Some e)
  | TxKill => Crashed (next_tx s)
  | _ => body (next_tx s)
  end.

(** Transactions whose function returns only an error. *)
Definition Update_ (body : M (St D) (option GoError)) : M (St D) (option GoError) :=
  let! r := Update tt (let! e := body in ret (tt, e)) in ret r.2.

(** Views that return a pointer or an error. *)
Definition ViewPtr {A} (body : M (St D) (GoError + A)) : M (St D) (GoError + A) :=
  let! r := View None (let! r := body in
                       match r with
                       | inl e => ret (None, Some e)
                       | inr a => ret (Some a, None)
                       end) in
  match r with
  | (_, Some e) => ret (inl e)
  | (Some a, None) => ret (inr a)
  | (None, None) => panic
  end.

(** [b.Put(key, marshal(record))] on the buckets. *)
Definition put (f : D -> GoError + D) : M (St D) (option GoError) := fun s =>
  match f (st_db s) with
  | inl e => Done s (Some e)
  | inr d => Done (set_db d s) None
  end.

Definition putTask (k : string) (r : TaskStateRecord) : M (St D) (option GoError) :=
  put (fun d => task_put d k r).

(** [data := b.Get(k)], [if data == nil { return ErrTaskNotFound }],
    [record, err := s.unmarshalTaskRecord(data)], [if err != nil { return err }]. *)
Definition fetchTask (k : string) : M (St D) (GoError + TaskStateRecord) :=
  let! f := gets (fun s => task_get (st_db s) k) in
  match f with
  | Missing => ret (inl ErrTaskNotFound)
  | Undecodable e => ret (inl e)
  | Panicking => panic
  | Found r => ret (inr r)
  end.

(** The prologue of a [ForEach] callback: unmarshal the value, or return. *)
Definition withRecord {A C} (f : C -> string -> A -> M (St D) (C * option GoError))
  (c : C) (p : string * fetched A) : M (St D) (C * option GoError) :=
  match p.2 with
  | Missing => ret (c, None)
  | Undecodable e => ret (c, Some e)
  | Panicking => panic
  | Found r => f c p.1 r
  end.

(** ** Workflow specifications *)

Definition StoreWorkflow (w : WorkflowSpec) : M (St D) (option GoError) :=
  Update_ (put (fun d => wf_put d (WF.WorkflowId w) w)).

Definition getWorkflowInTx (workflowID : string) : M (St D) (GoError + WorkflowSpec) :=
  let! f := gets (fun s => wf_get (st_db s) workflowID) in
  match f with
  | Missing => ret (inl ErrWorkflowNotFound)
  | Undecodable e => ret (inl e)
  | Panicking => panic
  | Found w => ret (inr w)
  end.

Definition GetWorkflow (workflowID : string) : M (St D) (GoError + WorkflowSpec) :=
  ViewPtr (getWorkflowInTx workflowID).

(** ** Workflow states *)

Definition InitWorkflowState (workflowID : string) : M (St D) (option GoError) :=
  Update_ (
    let! t := now in
    put (fun d => wst_put d workflowID (WR.mk workflowID WORKFLOW_RUNNING t 0))).

Definition UpdateWorkflowState (workflowID : string) (state : WorkflowState) : M (St D) (option GoError) :=
  Update_ (
    let! f := gets (fun s => wst_get (st_db s) workflowID) in
    let! rec := match f with
                | Found r => ret r
                | Missing => let! t := now in ret (WR.mk workflowID WORKFLOW_RUNNING t 0)
                | _ => panic
                end in
    let rec := set_WfState state rec in
    let! rec := if (state =? WORKFLOW_COMPLETE) || (state =? WORKFLOW_FAILED) || (state =? WORKFLOW_CANCELLED)
                then let! t := now in ret (set_CompletedAtMs t rec)
                else ret rec in
    put (fun d => wst_put d workflowID rec)).

Definition GetWorkflowState (workflowID : string) : M (St D) (GoError + WorkflowStateRecord) :=
  ViewPtr (
    let! f := gets (fun s => wst_get (st_db s) workflowID) in
    match f with
    | Missing => ret (inl ErrWorkflowNotFound)
    | Found r => ret (inr r)
    | _ => panic
    end).

Definition GetAllWorkflowStates : M (St D) (list WorkflowStateRecord * option GoError) :=
  View [] (
    let! l := gets (fun s => wst_each (st_db s)) in
    forEach (withRecord (fun result _ r => ret (result ++ [r], None))) [] l).

(** ** Worker records *)

Definition StoreWorker (worker : WorkerRecord) : M (St D) (option GoError) :=
  Update_ (put (fun d => wk_put d (WK.WorkerID worker) worker)).

Definition GetWorker (workerID : string) : M (St D) (GoError + WorkerRecord) :=
  ViewPtr (
    let! f := gets (fun s => wk_get (st_db s) workerID) in
    match f with
    | Missing => ret (inl ErrNotFound)
    | Found r => ret (inr r)
    | _ => panic
    end).

Definition RemoveWorker (workerID : string) : M (St D) (option GoError) :=
  Update_ (put (fun d => inr (wk_del d workerID))).

Definition GetAllWorkers : M (St D) (list WorkerRecord * option GoError) :=
  View [] (
    let! l := gets (fun s => wk_each (st_db s)) in
    forEach (withRecord (fun result _ r => ret (result ++ [r], None))) [] l).

(** ** Task states *)

Definition InitializeTasksForWorkflow (workflowID : string) (tasks : list TaskSpec)
  (inDegrees : gmap string Z) (downstream : gmap string (list string)) : M (St D) (option GoError) :=
  Update_ (
    let! r := forEach (fun _ task =>
      let! t := now in
      let record := TR.mk (TS.TaskId task) workflowID TASK_PENDING EmptyString 0 t EmptyString EmptyString
                      (default 0 (inDegrees !! TS.TaskId task))
                      (default [] (downstream !! TS.TaskId task)) in
      let! e := putTask (TS.TaskId task) record in
      ret (tt, e)) tt tasks in
    ret r.2).

Definition GetTask (taskID : string) : M (St D) (GoError + TaskStateRecord) :=
  ViewPtr (fetchTask taskID).

(** The transactions that read a record, change it and write it back. *)
Definition modifyTask (taskID : string) (upd : Z -> TaskStateRecord -> TaskStateRecord)
  : M (St D) (option GoError) :=
  Update_ (
    let! r := fetchTask taskID in
    match r with
    | inl e => ret (Some e)
    | inr record => let! t := now in putTask taskID (upd t record)
    end).

Definition UpdateTaskState (taskID : string) (newState : TaskState) : M (St D) (option GoError) :=
  modifyTask taskID (fun t r => set_LastUpdated t (set_State newState r)).

Definition AssignTask (taskID executionID : string) : M (St D) (option GoError) :=
  modifyTask taskID (fun t r => set_LastUpdated t (set_ExecutionID executionID (set_State TASK_RUNNING r))).

Definition FailTask (taskID errMsg : string) (attemptCount : Z) : M (St D) (option GoError) :=
  modifyTask taskID (fun t r =>
    set_LastUpdated t (set_AttemptCount attemptCount (set_Error errMsg (set_State TASK_FAILED r)))).

Definition RequeueTask (taskID newExecutionID : string) : M (St D) (option GoError) :=
  modifyTask taskID (fun t r => set_LastUpdated t (set_ExecutionID newExecutionID (set_State TASK_QUEUED r))).

(** The body of the loop over the downstream ids in [CompleteTask]. *)
Definition unblock (downstreamReady : list string) (downstreamID : string)
  : M (St D) (list string * option GoError) :=
  let! f := gets (fun s => task_get (st_db s) downstreamID) in
  match f with
  | Missing => ret (downstreamReady, None)
  | Undecodable _ => ret (downstreamReady, None)
  | Panicking => panic
  | Found ds =>
      if negb (TR.State ds =? TASK_PENDING) then ret (downstreamReady, None)
      else
        let ds := set_InDegree (int32 (TR.InDegree ds - 1)) ds in
        let ds := if TR.InDegree ds <? 0 then set_InDegree 0 ds else ds in
        let '(ds, downstreamReady) :=
          if TR.InDegree ds =? 0
          then (set_State TASK_QUEUED ds, downstreamReady ++ [downstreamID])
          else (ds, downstreamReady) in
        let! t := now in
        let! e := putTask downstreamID (set_LastUpdated t ds) in
        ret (downstreamReady, e)
  end.

Definition CompleteTask (taskID executionID output : string) : M (St D) (list string * option GoError) :=
  let! txStart := now in
  let! r := Update [] (
    let! r := fetchTask taskID in
    match r with
    | inl e => ret ([], Some e)
    | inr task =>
        if negb (String.eqb (TR.ExecutionID task) executionID) then ret ([], Some ErrStaleExecution)
        else if TR.State task =? TASK_COMPLETE then ret ([], None)
        else
          let! t := now in
          let task := set_LastUpdated t (set_Output output (set_State TASK_COMPLETE task)) in
          let! e := putTask taskID task in
          match e with
          | Some e => ret ([], Some e)
          | None => forEach unblock [] (TR.DownstreamTaskIDs task)
          end
    end) in
  let! txEnd := now in
  observe_tx (txEnd - txStart) ;;
  ret r.

Definition GetTasksInState (state : TaskState) : M (St D) (list string * option GoError) :=
  View [] (
    let! l := gets (fun s => task_each (st_db s)) in
    forEach (withRecord (fun result _ r =>
      if TR.State r =? state then ret (result ++ [TR.TaskID r], None) else ret (result, None))) [] l).

Definition GetTasksForWorkflow (workflowID : string) : M (St D) (list string * option GoError) :=
  View [] (
    let! l := gets (fun s => task_each (st_db s)) in
    forEach (withRecord (fun result _ r =>
      if String.eqb (TR.WorkflowID r) workflowID
      then ret (result ++ [TR.TaskID r], None) else ret (result, None))) [] l).

Definition status_of (r : TaskStateRecord) : TaskStatus :=
  TaskStatus.mk (TR.TaskID r) (TR.State r) (TR.AttemptCount r) (TR.Output r) (TR.Error r).

Definition GetTaskStatusesForWorkflow (workflowID : string) : M (St D) (list TaskStatus * option GoError) :=
  View [] (
    let! l := gets (fun s => task_each (st_db s)) in
    forEach (withRecord (fun result _ r =>
      if negb (String.eqb (TR.WorkflowID r) workflowID) then ret (result, None)
      else ret (result ++ [status_of r], None))) [] l).

Definition CancelWorkflowTasks (workflowID : string) : M (St D) (list string * option GoError) :=
  Update [] (
    let! l := gets (fun s => task_each_put (st_db s)) in
    forEach (withRecord (fun cancelled k r =>
      if negb (String.eqb (TR.WorkflowID r) workflowID) then ret (cancelled, None)
      else if is_terminal (TR.State r) then ret (cancelled, None)
      else
        let! t := now in
        let! e := putTask k (set_LastUpdated t (set_State TASK_SKIPPED r)) in
        ret (cancelled ++ [TR.TaskID r], e))) [] l).

(** The breadth-first loop of [SkipDownstreamTasks]; it returns the ids left in
    the queue when the fuel runs out, and the skipped ids. *)
Fixpoint skipLoop (fuel : nat) (visited : gset string) (queue skipped : list string)
  : M (St D) (list string * list string) :=
  match fuel, queue with
  | O, _ | _, [] => ret (queue, skipped)
  | S fuel, taskID :: queue =>
      if bool_decide (taskID ∈ visited) then skipLoop fuel visited queue skipped
      else
        let visited := {[taskID]} ∪ visited in
        let! r := GetTask taskID in
        match r with
        | inl _ => skipLoop fuel visited queue skipped
        | inr task =>
            let queue := queue ++ TR.DownstreamTaskIDs task in
            if is_terminal (TR.State task) then skipLoop fuel visited queue skipped
            else
              let! e := UpdateTaskState taskID TASK_SKIPPED in
              match e with
              | Some _ => skipLoop fuel visited queue skipped
              | None => skipLoop fuel visited queue (skipped ++ [taskID])
              end
        end
  end.

(** The ids all records list as downstream: no id is dequeued more often than it
    is listed. *)
Definition edges (l : list (string * fetched TaskStateRecord)) : nat :=
  sum_list_with (fun p => match p.2 with Found r => length (TR.DownstreamTaskIDs r) | _ => 0%nat end) l.

Definition SkipDownstreamTasks (failedTaskID : string) : M (St D) (list string * option GoError) :=
  let! r := GetTask failedTaskID in
  match r with
  | inl e => ret ([], Some e)
  | inr failedTask =>
      let queue := TR.DownstreamTaskIDs failedTask in
      let! n := gets (fun s => edges (task_each (st_db s))) in
      let! p := skipLoop (S (length queue + n)) ∅ queue [] in
      ret (p.2, None)
  end.

Definition IsWorkflowComplete (workflowID : string) : M (St D) (bool * option GoError) :=
  View true (
    let! l := gets (fun s => task_each (st_db s)) in
    forEach (withRecord (fun complete _ r =>
      if negb (String.eqb (TR.WorkflowID r) workflowID) then ret (complete, None)
      else if is_terminal (TR.State r) then ret (complete, None)
      else ret (false, None))) true l).

End Store.

(** ** Opening the store *)

(** [New]: open the database file (its buckets by name, or an error), and create
    the buckets that are missing in one transaction. *)
Definition BucketNames : list string := ["workflows"; "task_state"; "workers"; "meta"; "workflow_state"]%string.

Definition createBuckets {B} `{Bolt B} (file : gmap string B) : gmap string B :=
  foldl (fun m name => match m !! name with Some _ => m | None => <[name := b_new]> m end) file BucketNames.

Definition NewStore {B} `{Bolt B} (opened : GoError + gmap string B) (committed : option GoError)
  : GoError + St (BoltDB B) :=
  match opened with
  | inl e => inl e
  | inr file =>
      match committed with
      | Some e => inl e
      | None =>
          let m := createBuckets file in
          let bucket name := default b_new (m !! name) in
          inr (mkSt (BoltDB.mk (bucket "workflows"%string) (bucket "task_state"%string)
                      (bucket "workers"%string) (bucket "meta"%string) (bucket "workflow_state"%string)) aux0)
      end
  end.
