(* ===== verification/StoreRefinement.v ===== *)
(** * The store on bbolt refines the store on maps of records

    Every operation of the store, run on an implementation of [RecordDB] that
    keeps its promise, returns what the same operation returns on the
    implementation's abstraction, and leaves the corresponding state: under every
    clock, fault and map order. *)

From S2P Require Import Prelude Proto Codec Env RecordDB Store.

Create HintDb sim discriminated.

Section Refinement.
Context `{Env} {D : Type} `{RecordDBCore D}.

Definition st_abs (s : St D) : St AbsDB := mkSt (db_abs (st_db s)) (st_aux s).
Definition st_ok (s : St D) : Prop := db_ok (st_db s).

Abbreviation sim := (refines st_abs st_ok).

Lemma sim_now : sim now now.
Proof. by intros s Hs. Qed.

Lemma sim_observe_tx ms : sim (observe_tx ms) (observe_tx ms).
Proof. by intros s Hs. Qed.

Lemma sim_Update {C} (c0 : C) b b' : sim b b' -> sim (Update c0 b) (Update c0 b').
Proof.
  intros Hb s Hs. unfold Update. simpl. specialize (Hb (next_tx s) Hs).
  change (next_tx (st_abs s)) with (st_abs (next_tx s)).
  destruct (fault _); try done;
  destruct (b (next_tx s)) as [s' [c [?|]] | s']; destruct Hb as [Hs' Hb]; rewrite Hb; done.
Qed.

Lemma sim_View {C} (c0 : C) b b' : sim b b' -> sim (View c0 b) (View c0 b').
Proof.
  intros Hb s Hs. unfold View. simpl. specialize (Hb (next_tx s) Hs).
  by destruct (fault _).
Qed.

Lemma sim_put f f' :
  (forall d, db_ok d -> put_sim db_ok db_abs (f d) (f' (db_abs d))) -> sim (put f) (put f').
Proof.
  intros Hf s Hs. unfold put. simpl. specialize (Hf _ Hs).
  destruct (f (st_db s)); simpl in Hf; [by rewrite Hf | by destruct Hf as [? ->]].
Qed.

Lemma sim_each {A C} (f : C -> string -> A -> M (St D) (C * option GoError)) f' c p :
  (forall c k a, sim (f c k a) (f' c k a)) -> sim (withRecord f c p) (withRecord f' c p).
Proof. intros Hf. unfold withRecord. destruct p.2; [refines_step..| apply Hf]. Qed.

Ltac sim_law :=
  first [ by apply task_get_abs | by apply task_put_abs | by apply task_each_abs
        | by apply wf_get_abs | by apply wf_put_abs
        | by apply wst_get_abs | by apply wst_put_abs | by apply wst_each_abs
        | by apply wk_get_abs | by apply wk_put_abs | by apply wk_each_abs ].

(** Follow the code; the simulations proved so far and the laws close the rest. *)
Ltac sim_store :=
  repeat first
    [ solve [auto with sim nocore]
    | refines_step
    | apply sim_Update | apply sim_View
    | apply sim_each; intros ? ? ?
    | apply sim_put; intros ? ?
    | apply refines_gets; intros ? ?; simpl
    | sim_law ].

#[local] Hint Resolve sim_now sim_observe_tx : sim.

Lemma sim_fetchTask k : sim (fetchTask k) (fetchTask k).
Proof. unfold fetchTask. sim_store. Qed.
#[local] Hint Resolve sim_fetchTask : sim.

Lemma sim_putTask k r : sim (putTask k r) (putTask k r).
Proof. unfold putTask. sim_store. Qed.
#[local] Hint Resolve sim_putTask : sim.

Lemma sim_modifyTask k u : sim (modifyTask k u) (modifyTask k u).
Proof. unfold modifyTask, Update_. sim_store. Qed.
#[local] Hint Resolve sim_modifyTask : sim.

Lemma sim_GetTask k : sim (GetTask k) (GetTask k).
Proof. unfold GetTask, ViewPtr. sim_store. Qed.
#[local] Hint Resolve sim_GetTask : sim.

Lemma sim_unblock l k : sim (unblock l k) (unblock l k).
Proof.
  unfold unblock. apply refines_bind; [sim_store |]. intros [| | | ds]; [refines_step.. |].
  destruct (negb _); [refines_step |]. cbv zeta.
  match goal with |- context [if ?b then (set_State _ _, _) else _] => destruct b end; sim_store.
Qed.
#[local] Hint Resolve sim_unblock : sim.

Lemma sim_StoreWorkflow w : sim (StoreWorkflow w) (StoreWorkflow w).
Proof. unfold StoreWorkflow, Update_. sim_store. Qed.
#[local] Hint Resolve sim_StoreWorkflow : sim.

Lemma sim_GetWorkflow k : sim (GetWorkflow k) (GetWorkflow k).
Proof. unfold GetWorkflow, ViewPtr, getWorkflowInTx. sim_store. Qed.
#[local] Hint Resolve sim_GetWorkflow : sim.

Lemma sim_InitWorkflowState k : sim (InitWorkflowState k) (InitWorkflowState k).
Proof. unfold InitWorkflowState, Update_. sim_store. Qed.
#[local] Hint Resolve sim_InitWorkflowState : sim.

Lemma sim_UpdateWorkflowState k v : sim (UpdateWorkflowState k v) (UpdateWorkflowState k v).
Proof. unfold UpdateWorkflowState, Update_. sim_store. Qed.
#[local] Hint Resolve sim_UpdateWorkflowState : sim.

Lemma sim_GetWorkflowState k : sim (GetWorkflowState k) (GetWorkflowState k).
Proof. unfold GetWorkflowState, ViewPtr. sim_store. Qed.
#[local] Hint Resolve sim_GetWorkflowState : sim.

Lemma sim_GetAllWorkflowStates : sim GetAllWorkflowStates GetAllWorkflowStates.
Proof. unfold GetAllWorkflowStates. sim_store. Qed.
#[local] Hint Resolve sim_GetAllWorkflowStates : sim.

Lemma sim_StoreWorker r : sim (StoreWorker r) (StoreWorker r).
Proof. unfold StoreWorker, Update_. sim_store. Qed.
#[local] Hint Resolve sim_StoreWorker : sim.

Lemma sim_GetWorker k : sim (GetWorker k) (GetWorker k).
Proof. unfold GetWorker, ViewPtr. sim_store. Qed.
#[local] Hint Resolve sim_GetWorker : sim.

Lemma sim_RemoveWorker k : sim (RemoveWorker k) (RemoveWorker k).
Proof.
  unfold RemoveWorker, Update_. sim_store. destruct (wk_del_abs d k) as [? Heq]; [done |].
  split; [done | by rewrite Heq].
Qed.
#[local] Hint Resolve sim_RemoveWorker : sim.

Lemma sim_GetAllWorkers : sim GetAllWorkers GetAllWorkers.
Proof. unfold GetAllWorkers. sim_store. Qed.
#[local] Hint Resolve sim_GetAllWorkers : sim.

Lemma sim_InitializeTasksForWorkflow w l i d : sim (InitializeTasksForWorkflow w l i d) (InitializeTasksForWorkflow w l i d).
Proof. unfold InitializeTasksForWorkflow, Update_. sim_store. Qed.
#[local] Hint Resolve sim_InitializeTasksForWorkflow : sim.

Lemma sim_CompleteTask k e o : sim (CompleteTask k e o) (CompleteTask k e o).
Proof. unfold CompleteTask. sim_store. Qed.
#[local] Hint Resolve sim_CompleteTask : sim.

Lemma sim_GetTasksInState v : sim (GetTasksInState v) (GetTasksInState v).
Proof. unfold GetTasksInState. sim_store. Qed.
#[local] Hint Resolve sim_GetTasksInState : sim.

Lemma sim_GetTasksForWorkflow k : sim (GetTasksForWorkflow k) (GetTasksForWorkflow k).
Proof. unfold GetTasksForWorkflow. sim_store. Qed.
#[local] Hint Resolve sim_GetTasksForWorkflow : sim.

Lemma sim_GetTaskStatusesForWorkflow k : sim (GetTaskStatusesForWorkflow k) (GetTaskStatusesForWorkflow k).
Proof. unfold GetTaskStatusesForWorkflow. sim_store. Qed.
#[local] Hint Resolve sim_GetTaskStatusesForWorkflow : sim.

Lemma sim_skipLoop n v q l : sim (skipLoop n v q l) (skipLoop n v q l).
Proof.
  revert v q l. induction n as [|n IH]; intros v [|k q] l; simpl; [refines_step.. |].
  destruct (bool_decide _); [apply IH |].
  apply refines_bind; [sim_store |]. intros [|r]; [apply IH |].
  destruct (is_terminal _); [apply IH |].
  apply refines_bind; [apply sim_modifyTask |]. intros [|]; apply IH.
Qed.
#[local] Hint Resolve sim_skipLoop : sim.

Lemma sim_SkipDownstreamTasks k : sim (SkipDownstreamTasks k) (SkipDownstreamTasks k).
Proof.
  unfold SkipDownstreamTasks. sim_store. by rewrite task_each_abs.
Qed.
#[local] Hint Resolve sim_SkipDownstreamTasks : sim.

Lemma sim_IsWorkflowComplete k : sim (IsWorkflowComplete k) (IsWorkflowComplete k).
Proof. unfold IsWorkflowComplete. sim_store. Qed.
#[local] Hint Resolve sim_IsWorkflowComplete : sim.

End Refinement.

#[export] Hint Resolve sim_now sim_observe_tx sim_fetchTask sim_putTask sim_modifyTask sim_GetTask sim_unblock
  sim_StoreWorkflow sim_GetWorkflow sim_InitWorkflowState sim_UpdateWorkflowState
  sim_GetWorkflowState sim_GetAllWorkflowStates sim_StoreWorker sim_GetWorker sim_RemoveWorker
  sim_GetAllWorkers sim_InitializeTasksForWorkflow sim_CompleteTask sim_GetTasksInState
  sim_GetTasksForWorkflow sim_GetTaskStatusesForWorkflow sim_skipLoop
  sim_SkipDownstreamTasks sim_IsWorkflowComplete : sim.

(** [CancelWorkflowTasks] writes while it iterates, which takes the full promise. *)
Section Cancelling.
Context `{Env} {D : Type} `{RecordDBLaws D}.

Lemma sim_CancelWorkflowTasks k : refines st_abs st_ok (CancelWorkflowTasks (D := D) k) (CancelWorkflowTasks k).
Proof.
  unfold CancelWorkflowTasks. apply sim_Update.
  apply refines_bind; [apply refines_gets; intros s Hs; by apply task_each_put_abs |]. intros l.
  apply refines_forEach. intros c p. apply sim_each. intros acc tid r.
  repeat first [ solve [auto with sim nocore] | refines_step ].
Qed.

End Cancelling.

#[export] Hint Resolve sim_CancelWorkflowTasks : sim.
