(* ===== verification/StoreSpec.v ===== *)
(** * What the operations of the store do

    The operations over [AbsDB], described by their effect on the maps: under any
    fault, an operation that reports an error or dies leaves the database as it
    was, and one that succeeds makes exactly the change described here. *)

From S2P Require Import Prelude Proto Codec Env RecordDB Store.

Abbreviation tasks_of s := (AbsDB.tasks (st_db s)).

(** ** Records that are read back as they were written *)

Definition stable (r : TaskStateRecord) : Prop := canonTask r = r.

Lemma int64_range z : is_int64 (int64 z).
Proof.
  unfold is_int64, int64. pose proof (Z.mod_pos_bound (z + 2 ^ 63) (2 ^ 64) ltac:(lia)). lia.
Qed.

Lemma stable_fields r :
  stable r <-> is_int32 (TR.State r) /\ is_int32 (TR.AttemptCount r) /\ is_int64 (TR.LastUpdated r) /\
               is_int32 (TR.InDegree r) /\ canonIDs (TR.DownstreamTaskIDs r) = TR.DownstreamTaskIDs r.
Proof.
  destruct r as [a b c d e f g h i j]; unfold stable, canonTask; simpl. split.
  - intros [= H1 H2 H3 H4 H5]. rewrite H5. split_and!; try done.
    + rewrite <- H1. apply int32_range.
    + rewrite <- H2. apply int32_range.
    + rewrite <- H3. apply int64_range.
    + rewrite <- H4. apply int32_range.
  - intros (? & ? & ? & ? & ->). by rewrite !int32_id, int64_id.
Qed.

(** Writing an updated record: only the timestamp may be truncated. *)
Lemma canon_LastUpdated tm r :
  stable (set_LastUpdated 0 r) -> canonTask (set_LastUpdated tm r) = set_LastUpdated (int64 tm) r.
Proof.
  rewrite stable_fields. destruct r; unfold canonTask; simpl. intros (? & ? & ? & ? & ->).
  by rewrite !int32_id.
Qed.

Lemma stable_LastUpdated tm tm' r :
  is_int64 tm' -> stable (set_LastUpdated tm r) -> stable (set_LastUpdated tm' r).
Proof. rewrite !stable_fields. destruct r; simpl. tauto. Qed.

Section Spec.
Context `{Env} `{Protobuf}.
Abbreviation SA := (St AbsDB).

(** ** Transactions *)

(** The state after a transaction: rolled back, or what the body left. *)
Lemma wp_Update {C} (c0 : C) body (s : SA) (P : C -> AbsDB -> Prop) :
  wp body (next_tx s) (fun r s' => r.2 = None -> P r.1 (st_db s')) (fun _ => True) ->
  wp (Update c0 body) s
    (fun r s' => match r.2 with
                 | Some _ => st_db s' = st_db s
                 | None => P r.1 (st_db s')
                 end)
    (fun s' => st_db s' = st_db s).
Proof.
  unfold wp, Update. intros Hb.
  destruct (fault _); try done;
  destruct (body (next_tx s)) as [s' [c [?|]] | s']; simpl in *; auto.
Qed.

Lemma wp_Update_ body (s : SA) (P : AbsDB -> Prop) :
  wp body (next_tx s) (fun e s' => e = None -> P (st_db s')) (fun _ => True) ->
  wp (Update_ body) s
    (fun e s' => match e with Some _ => st_db s' = st_db s | None => P (st_db s') end)
    (fun s' => st_db s' = st_db s).
Proof.
  intros Hb. unfold Update_. apply wp_bind. eapply wp_mono.
  - apply (wp_Update tt _ s (fun _ => P)). apply wp_bind. eapply wp_mono; [done | | done].
    intros e s' He. by apply wp_ret.
  - intros [[] [e|]] s' H'; by apply wp_ret.
  - done.
Qed.

(** A body that only reads leaves the database alone. *)
Definition readonly {A} (m : M SA A) : Prop :=
  forall s, wp m s (fun _ s' => st_db s' = st_db s) (fun s' => st_db s' = st_db s).

Lemma wp_View {C} (c0 : C) body (s : SA) (P : C * option GoError -> Prop) :
  wp body (next_tx s) (fun r s' => st_db s' = st_db s /\ (r.2 = None -> P r)) (fun s' => st_db s' = st_db s) ->
  wp (View c0 body) s
    (fun r s' => st_db s' = st_db s /\ (r.2 = None -> P r)) (fun s' => st_db s' = st_db s).
Proof. unfold wp, View. intros Hb. by destruct (fault _). Qed.

Lemma wp_ViewPtr {A} body (s : SA) (P : A -> Prop) :
  wp body (next_tx s) (fun r s' => st_db s' = st_db s /\ forall a, r = inr a -> P a)
     (fun s' => st_db s' = st_db s) ->
  wp (ViewPtr body) s
     (fun r s' => st_db s' = st_db s /\ forall a, r = inr a -> P a) (fun s' => st_db s' = st_db s).
Proof.
  intros Hb. unfold ViewPtr. apply wp_bind. eapply wp_mono.
  - apply (wp_View None _ s (fun r => exists a, r.1 = Some a /\ P a)). apply wp_bind.
    eapply wp_mono; [done | | done]. intros [e|a] s' [Hs Ha]; apply wp_ret; split; simpl; eauto; done.
  - intros [[a|] [e|]] s' [Hs Ha].
    + by apply wp_ret.
    + apply wp_ret. split; [done |]. intros a' [= ->]. by destruct (Ha eq_refl) as (a & [= ->] & ?).
    + by apply wp_ret.
    + by apply wp_panic.
  - done.
Qed.

Lemma wp_now (s : SA) (Q : Z -> SA -> Prop) E :
  (forall t s', st_db s' = st_db s -> Q t s') -> wp now s Q E.
Proof. intros HQ. by apply HQ. Qed.

Lemma wp_put f (s : SA) (Q : option GoError -> SA -> Prop) E :
  (forall e, f (st_db s) = inl e -> Q (Some e) s) ->
  (forall d, f (st_db s) = inr d -> Q None (set_db d s)) ->
  wp (put f) s Q E.
Proof. intros H1 H2. unfold wp, put. destruct (f (st_db s)); auto. Qed.

(** ** Single records *)

Definition with_tasks (m : gmap string TaskStateRecord) (d : AbsDB) : AbsDB :=
  AbsDB.mk (AbsDB.workflows d) m (AbsDB.workers d) (AbsDB.wstates d).

Lemma wp_fetchTask k (s : SA) (Q : GoError + TaskStateRecord -> SA -> Prop) E :
  (forall r, tasks_of s !! k = Some r -> Q (inr r) s) ->
  (tasks_of s !! k = None -> Q (inl ErrTaskNotFound) s) ->
  wp (fetchTask k) s Q E.
Proof.
  intros H1 H2. unfold fetchTask. apply wp_bind, wp_gets. simpl. unfold map_get.
  destruct (tasks_of s !! k); apply wp_ret; auto.
Qed.

Lemma wp_putTask k r (s : SA) (Q : option GoError -> SA -> Prop) E :
  (forall e, put_error k (marshalTaskRecord r) = Some e -> Q (Some e) s) ->
  (put_error k (marshalTaskRecord r) = None ->
   Q None (set_db (with_tasks (<[k := canonTask r]> (tasks_of s)) (st_db s)) s)) ->
  wp (putTask k r) s Q E.
Proof.
  intros H1 H2. apply wp_put; simpl; unfold map_put; destruct (put_error k (marshalTaskRecord r)) eqn:Ep;
  intros; simplify_eq; auto.
Qed.

(** What a successful read-modify-write transaction does. *)
Definition modified (k : string) (u : Z -> TaskStateRecord -> TaskStateRecord) (d d' : AbsDB) : Prop :=
  exists r t, AbsDB.tasks d !! k = Some r /\ put_error k (marshalTaskRecord (u t r)) = None /\
              d' = with_tasks (<[k := canonTask (u t r)]> (AbsDB.tasks d)) d.

Lemma modifyTask_spec k u (s : SA) :
  wp (modifyTask k u) s
    (fun e s' => match e with Some _ => st_db s' = st_db s | None => modified k u (st_db s) (st_db s') end)
    (fun s' => st_db s' = st_db s).
Proof.
  apply wp_Update_. apply wp_bind, wp_fetchTask; simpl; [|done]. intros r Hr.
  apply wp_bind, wp_now. intros t s' Hs. apply wp_putTask; [done |]. intros Hp _.
  exists r, t. split_and!; [done | done |]. simpl. by rewrite Hs.
Qed.

Lemma GetTask_spec k (s : SA) :
  wp (GetTask k) s
    (fun r s' => st_db s' = st_db s /\ forall a, r = inr a -> tasks_of s !! k = Some a)
    (fun s' => st_db s' = st_db s).
Proof.
  apply wp_ViewPtr. apply wp_fetchTask; simpl; [|done]. intros r Hr. split; [done |].
  by intros a [= ->].
Qed.

(** ** Iterations *)

Lemma wp_each {A C} (f : C -> string -> A -> M SA (C * option GoError)) (m : gmap string A)
  (I : list (string * A) -> C -> SA -> Prop) c (s : SA) (Q : C * option GoError -> SA -> Prop) E :
  I (sorted_entries m) c s ->
  (forall c k a l s, I ((k, a) :: l) c s ->
     wp (f c k a) s (fun r s' => match r.2 with None => I l r.1 s' | Some _ => Q r s' end) E) ->
  (forall c s, I [] c s -> Q (c, None) s) ->
  wp (forEach (withRecord f) c (map_each m)) s Q E.
Proof.
  intros Hi Hf Hq. unfold map_each.
  apply (wp_forEach (fun l c s => exists l', l = (fun p => (p.1, Found p.2)) <$> l' /\ I l' c s)).
  - eauto.
  - intros c' x l s' ([|[k a] l'] & Hl & Hi'); simplify_eq/=. unfold withRecord. simpl.
    eapply wp_mono; [by apply Hf | | done]. intros [c1 [e|]] s1 H1; simpl in *; eauto.
  - intros c' s' ([|] & Hl & Hi'); simplify_eq/=. auto.
Qed.

(** A [ForEach] whose callback reads: a fold over the entries in key order. *)
Lemma wp_fold {A C} f (g : C -> string -> A -> C) (m : gmap string A) c (s : SA) E :
  (forall c k a, f c k a = ret (g c k a, None)) ->
  wp (forEach (withRecord f) c (map_each m)) s
     (fun r s' => s' = s /\ r = (foldl (fun c p => g c p.1 p.2) c (sorted_entries m), None)) E.
Proof.
  intros Hf. apply (wp_each _ m (fun l c' s' => s' = s /\
    foldl (fun c p => g c p.1 p.2) c' l = foldl (fun c p => g c p.1 p.2) c (sorted_entries m))).
  - done.
  - intros c' k a l s' [-> Hl]. rewrite Hf. apply wp_ret. done.
  - intros c' s' [-> <-]. done.
Qed.

(** The ids a filter selects, in key order. *)
Definition select (P : TaskStateRecord -> bool) (m : gmap string TaskStateRecord) : list TaskStateRecord :=
  filter (fun r => P r = true) (sorted_entries m).*2.

(** The ids of the selected records, when every record is stored under its id. *)
Lemma select_ids P (m : gmap string TaskStateRecord) :
  (forall k r, m !! k = Some r -> TR.TaskID r = k) ->
  NoDup (TR.TaskID <$> select P m) /\
  forall k, k ∈ TR.TaskID <$> select P m <-> exists r, m !! k = Some r /\ P r = true.
Proof.
  intros Hm. unfold select.
  assert (forall p, p ∈ sorted_entries m -> TR.TaskID p.2 = p.1) as Hk.
  { intros [k r] Hp. apply elem_of_sorted_entries in Hp. by apply Hm. }
  assert (TR.TaskID <$> filter (fun r => P r = true) (sorted_entries m).*2
          = (filter (fun p => P p.2 = true) (sorted_entries m)).*1) as ->.
  { induction (sorted_entries m) as [|[k r] l IH]; [done |]. simpl.
    rewrite !filter_cons. assert (TR.TaskID r = k) as E by (apply (Hk (k, r)); by left).
    assert (forall p, p ∈ l -> TR.TaskID p.2 = p.1) as Hl by (intros; apply Hk; by right).
    simpl. destruct (decide (P r = true)); simpl; [rewrite E; f_equal |]; by apply IH. }
  split; [apply NoDup_filter_fst, sorted_entries_NoDup |]. intros k. rewrite list_elem_of_fmap. split.
  - intros ([k' r] & -> & [HP Hin]%list_elem_of_filter). apply elem_of_sorted_entries in Hin. eauto.
  - intros (r & Hr & HP). exists (k, r). split; [done |]. apply list_elem_of_filter.
    by rewrite elem_of_sorted_entries.
Qed.

Lemma foldl_select {A} (P : TaskStateRecord -> bool) (f : TaskStateRecord -> A) acc
  (l : list (string * TaskStateRecord)) :
  foldl (fun c p => if P p.2 then c ++ [f p.2] else c) acc l
  = acc ++ (f <$> filter (fun r => P r = true) l.*2).
Proof.
  revert acc. induction l as [|[k r] l IH]; intros acc; simpl; [by rewrite app_nil_r |].
  rewrite IH, filter_cons. destruct (P r); simpl; [by rewrite <- app_assoc | done].
Qed.

(** The operations that list what a filter selects. *)
Lemma wp_select {A} (P : TaskStateRecord -> bool) (g : TaskStateRecord -> A) f (s : SA) :
  (forall c k r, f c k r = ret (if P r then c ++ [g r] else c, None)) ->
  wp (View [] (let! l := gets (fun s => task_each (st_db s)) in forEach (withRecord f) [] l)) s
    (fun r s' => st_db s' = st_db s /\ (r.2 = None -> r.1 = g <$> select P (tasks_of s)))
    (fun s' => st_db s' = st_db s).
Proof.
  intros Hf. apply (wp_View _ _ s (fun r => r.1 = _)). apply wp_bind, wp_gets. simpl.
  eapply wp_mono; [by apply (wp_fold f (fun c _ r => if P r then c ++ [g r] else c) _ _ _ (fun _ => False)) | | done].
  intros r s' [-> ->]. split; [done |]. intros _. apply (foldl_select P g []).
Qed.

Lemma GetTasksInState_spec v (s : SA) :
  wp (GetTasksInState v) s
    (fun r s' => st_db s' = st_db s /\
       (r.2 = None -> r.1 = TR.TaskID <$> select (fun r => TR.State r =? v) (tasks_of s)))
    (fun s' => st_db s' = st_db s).
Proof. apply (wp_select (fun r => TR.State r =? v)). intros. by go_case. Qed.

Lemma GetTasksForWorkflow_spec w (s : SA) :
  wp (GetTasksForWorkflow w) s
    (fun r s' => st_db s' = st_db s /\
       (r.2 = None -> r.1 = TR.TaskID <$> select (fun r => String.eqb (TR.WorkflowID r) w) (tasks_of s)))
    (fun s' => st_db s' = st_db s).
Proof. apply (wp_select (fun r => String.eqb (TR.WorkflowID r) w)). intros. by go_case. Qed.

Lemma GetTaskStatuses_spec w (s : SA) :
  wp (GetTaskStatusesForWorkflow w) s
    (fun r s' => st_db s' = st_db s /\
       (r.2 = None -> r.1 = status_of <$> select (fun r => String.eqb (TR.WorkflowID r) w) (tasks_of s)))
    (fun s' => st_db s' = st_db s).
Proof.
  apply (wp_select (fun r => String.eqb (TR.WorkflowID r) w)). intros.
  by destruct (String.eqb (TR.WorkflowID r) w).
Qed.

(** The tasks of a workflow that are not finished. *)
Definition unfinished (w : string) (r : TaskStateRecord) : bool :=
  String.eqb (TR.WorkflowID r) w && negb (is_terminal (TR.State r)).

Lemma foldl_unfinished w b (l : list (string * TaskStateRecord)) :
  foldl (fun c p => if unfinished w p.2 then false else c) b l = b && negb (existsb (unfinished w) (l.*2)).
Proof.
  revert b. induction l as [|[k r] l IH]; intros b; simpl; [by rewrite andb_true_r |].
  rewrite IH. destruct (unfinished w r); simpl; by rewrite ?andb_false_r.
Qed.

Lemma IsWorkflowComplete_spec w (s : SA) :
  wp (IsWorkflowComplete w) s
    (fun r s' => st_db s' = st_db s /\
       (r.2 = None -> r.1 = negb (existsb (unfinished w) (sorted_entries (tasks_of s)).*2)))
    (fun s' => st_db s' = st_db s).
Proof.
  apply (wp_View _ _ s (fun r => r.1 = _)). apply wp_bind, wp_gets. simpl.
  eapply wp_mono.
  - apply (wp_fold _ (fun c _ r => if unfinished w r then false else c) _ _ _ (fun _ => False)). intros c k r. unfold unfinished.
    by destruct (String.eqb (TR.WorkflowID r) w), (is_terminal (TR.State r)).
  - intros r s' [-> ->]. split; [done |]. intros _. simpl. by rewrite foldl_unfinished.
  - done.
Qed.

(** ** Workflows *)

(** The change of a workflow-level operation: tasks and workers are untouched. *)
Lemma StoreWorkflow_spec w (s : SA) :
  wp (StoreWorkflow w) s
    (fun e s' => match e with
                 | Some _ => st_db s' = st_db s
                 | None => st_db s' = AbsDB.mk (<[WF.WorkflowId w := w]> (AbsDB.workflows (st_db s)))
                             (tasks_of s) (AbsDB.workers (st_db s)) (AbsDB.wstates (st_db s))
                 end)
    (fun s' => st_db s' = st_db s).
Proof.
  apply (wp_Update_ _ s (fun d => d = _)). apply wp_put; [done |]. simpl. intros d Hd _.
  destruct (proto_Marshal w); [done |]. unfold map_put in Hd. by destruct (put_error _ _); simplify_eq.
Qed.

Definition with_wstates (m : gmap string WorkflowStateRecord) (d : AbsDB) : AbsDB :=
  AbsDB.mk (AbsDB.workflows d) (AbsDB.tasks d) (AbsDB.workers d) m.

Lemma wp_put_wst k r (s : SA) (Q : option GoError -> SA -> Prop) E :
  (forall e, put_error k (marshalWorkflowState r) = Some e -> Q (Some e) s) ->
  (Q None (set_db (with_wstates (<[k := canonWorkflowState r]> (AbsDB.wstates (st_db s))) (st_db s)) s)) ->
  wp (put (fun d => wst_put d k r)) s Q E.
Proof.
  intros H1 H2. apply wp_put; simpl; unfold map_put; destruct (put_error _ _) eqn:Ep; intros; simplify_eq; auto.
Qed.

(** The states that end a workflow set [CompletedAtMs]. *)
Definition ends (v : WorkflowState) : bool :=
  (v =? WORKFLOW_COMPLETE) || (v =? WORKFLOW_FAILED) || (v =? WORKFLOW_CANCELLED).

Lemma InitWorkflowState_spec w (s : SA) :
  wp (InitWorkflowState w) s
    (fun e s' => match e with
                 | Some _ => st_db s' = st_db s
                 | None => exists t, st_db s' = with_wstates
                     (<[w := WR.mk w WORKFLOW_RUNNING (int64 t) 0]> (AbsDB.wstates (st_db s))) (st_db s)
                 end)
    (fun s' => st_db s' = st_db s).
Proof.
  apply (wp_Update_ _ s (fun d => exists t, d = _)). apply wp_bind, wp_now. intros t s' Hs.
  apply wp_put_wst; [done |]. intros _. exists t. simpl. by rewrite Hs.
Qed.

Lemma UpdateWorkflowState_spec w v (s : SA) :
  wp (UpdateWorkflowState w v) s
    (fun e s' => match e with
                 | Some _ => st_db s' = st_db s
                 | None => exists r, WR.State r = int32 v /\
                     st_db s' = with_wstates (<[w := r]> (AbsDB.wstates (st_db s))) (st_db s)
                 end)
    (fun s' => st_db s' = st_db s).
Proof.
  apply (wp_Update_ _ s (fun d => exists r, WR.State r = int32 v /\ d = _)).
  apply wp_bind, wp_gets. simpl. unfold map_get. apply wp_bind.
  apply (wp_mono _ _ (fun _ s' => st_db s' = st_db s) _ (fun _ => False)); [| |done].
  { destruct (AbsDB.wstates (st_db s) !! w); [by apply wp_ret |]. apply wp_bind, wp_now. intros. by apply wp_ret. }
  intros r s' Hs. apply wp_bind.
  apply (wp_mono _ _ (fun r' s' => st_db s' = st_db s /\ WR.State r' = v) _ (fun _ => False)); [| |done].
  { go_case; [apply wp_bind, wp_now; intros |]; apply wp_ret; destruct r; split; congruence || done. }
  intros r' s2 [Hs2 Hr']. apply wp_put_wst; [done |]. intros _.
  exists (canonWorkflowState r'). simpl. by rewrite Hs2, Hr'.
Qed.

Lemma GetWorkflow_spec w (s : SA) :
  wp (GetWorkflow w) s
    (fun r s' => st_db s' = st_db s /\ forall a, r = inr a -> AbsDB.workflows (st_db s) !! w = Some a)
    (fun s' => st_db s' = st_db s).
Proof.
  apply wp_ViewPtr. apply wp_bind, wp_gets. simpl. unfold map_get.
  destruct (AbsDB.workflows (st_db s) !! w); apply wp_ret; (split; [done |]); by intros a [= ->].
Qed.

Lemma GetWorkflowState_spec w (s : SA) :
  wp (GetWorkflowState w) s
    (fun r s' => st_db s' = st_db s /\ forall a, r = inr a -> AbsDB.wstates (st_db s) !! w = Some a)
    (fun s' => st_db s' = st_db s).
Proof.
  apply wp_ViewPtr. apply wp_bind, wp_gets. simpl. unfold map_get.
  destruct (AbsDB.wstates (st_db s) !! w); apply wp_ret; (split; [done |]); by intros a [= ->].
Qed.

Lemma foldl_values {A} (acc : list A) (l : list (string * A)) : foldl (fun c p => c ++ [p.2]) acc l = acc ++ l.*2.
Proof.
  revert acc. induction l as [|p l IH]; intros acc; simpl; [by rewrite app_nil_r |]. by rewrite IH, <- app_assoc.
Qed.

Lemma GetAllWorkflowStates_spec (s : SA) :
  wp GetAllWorkflowStates s
    (fun r s' => st_db s' = st_db s /\ (r.2 = None -> r.1 = (sorted_entries (AbsDB.wstates (st_db s))).*2))
    (fun s' => st_db s' = st_db s).
Proof.
  apply (wp_View _ _ s (fun r => r.1 = _)). apply wp_bind, wp_gets. simpl.
  eapply wp_mono; [apply (wp_fold _ (fun c _ r => c ++ [r]) _ _ _ (fun _ => False)); done | | done].
  intros r s' [-> ->]. split; [done |]. intros _. simpl.
  by rewrite foldl_values.
Qed.

(** ** Initial records *)

Definition initial_record (w : string) (ind : gmap string Z) (ds : gmap string (list string)) (t : TaskSpec) (tm : Z)
  : TaskStateRecord :=
  TR.mk (TS.TaskId t) w TASK_PENDING EmptyString 0 tm EmptyString EmptyString
    (default 0 (ind !! TS.TaskId t)) (default [] (ds !! TS.TaskId t)).

(** The task map after the records of [l] were written. *)
Record initialized w ind ds (l : list TaskSpec) (m m' : gmap string TaskStateRecord) : Prop := {
  init_in t : t ∈ l -> TS.TaskId t <> EmptyString /\
    exists tm, m' !! TS.TaskId t = Some (canonTask (initial_record w ind ds t tm));
  init_out k : k ∉ TS.TaskId <$> l -> m' !! k = m !! k
}.

Lemma put_error_empty v : put_error EmptyString v = Some ErrKeyRequired.
Proof. reflexivity. Qed.

Lemma Initialize_spec w l ind ds (s : SA) :
  NoDup (TS.TaskId <$> l) ->
  wp (InitializeTasksForWorkflow w l ind ds) s
    (fun e s' => match e with
                 | Some _ => st_db s' = st_db s
                 | None => exists m', initialized w ind ds l (tasks_of s) m' /\ st_db s' = with_tasks m' (st_db s)
                 end)
    (fun s' => st_db s' = st_db s).
Proof.
  intros Hnd. apply (wp_Update_ _ s (fun d => exists m', initialized w ind ds l (tasks_of s) m' /\ d = _)).
  apply wp_bind.
  apply (wp_forEach (fun rest (_ : unit) s' => exists p m', l = p ++ rest /\
    initialized w ind ds p (tasks_of s) m' /\ st_db s' = with_tasks m' (st_db s))).
  - exists [], (tasks_of s). split_and!; [done | split; [by intros ? ?%elem_of_nil | done] |]. by destruct s as [[]].
  - intros _ t rest s' (p & m' & -> & [Hin Hout] & Hs). apply wp_bind, wp_now. intros tm s2 Hs2.
    apply wp_bind, wp_putTask; intros; apply wp_ret; [done |]. simpl.
    rewrite fmap_app, NoDup_app in Hnd. destruct Hnd as (_ & Hdis & _).
    exists (p ++ [t]), (<[TS.TaskId t := canonTask (initial_record w ind ds t tm)]> m').
    split_and!; [by rewrite <- app_assoc | | by rewrite Hs2, Hs]. split.
    + intros t' [Ht' | ->%list_elem_of_singleton]%elem_of_app.
      * rewrite lookup_insert_ne; [by apply Hin |]. intros E. apply (Hdis (TS.TaskId t')).
        { by apply list_elem_of_fmap_2. } rewrite <- E. by left.
      * split; [|exists tm; by rewrite lookup_insert_eq].
        intros E. rewrite E, put_error_empty in *. done.
    + intros k Hk. rewrite fmap_app, elem_of_app in Hk. rewrite lookup_insert_ne; [apply Hout; tauto |].
      intros <-. apply Hk. right. by left.
  - intros [] s' (p & m' & -> & Hm & Hs). apply wp_ret. intros _. rewrite app_nil_r. eauto.
Qed.

(** ** Completion *)

(** One pass of the loop over the downstream ids, on a PENDING record. *)
Definition decremented (r : TaskStateRecord) : TaskStateRecord :=
  let d := int32 (TR.InDegree r - 1) in
  let d := if d <? 0 then 0 else d in
  if d =? 0 then set_State TASK_QUEUED (set_InDegree d r) else set_InDegree d r.

Lemma wp_unblock ready k (s : SA) (Q : list string * option GoError -> SA -> Prop) E :
  ((forall r, tasks_of s !! k = Some r -> TR.State r <> TASK_PENDING) -> Q (ready, None) s) ->
  (forall l e r tm s', tasks_of s !! k = Some r -> TR.State r = TASK_PENDING ->
     put_error k (marshalTaskRecord (set_LastUpdated tm (decremented r))) = Some e -> Q (l, Some e) s') ->
  (forall r tm s', tasks_of s !! k = Some r -> TR.State r = TASK_PENDING ->
     st_db s' = with_tasks (<[k := canonTask (set_LastUpdated tm (decremented r))]> (tasks_of s)) (st_db s) ->
     Q (if TR.InDegree (decremented r) =? 0 then ready ++ [k] else ready, None) s') ->
  wp (unblock ready k) s Q E.
Proof.
  intros H1 H2 H3. unfold unblock. apply wp_bind, wp_gets. simpl. unfold map_get.
  destruct (tasks_of s !! k) as [r|] eqn:Er; [|apply wp_ret, H1; congruence].
  destruct (Z.eqb_spec (TR.State r) TASK_PENDING) as [Hp|Hn]; simpl; [|apply wp_ret, H1; congruence].
  specialize (H3 r). specialize (fun l e => H2 l e r). unfold decremented in H2, H3.
  replace (TR.InDegree (set_InDegree (int32 (TR.InDegree r - 1)) r)) with (int32 (TR.InDegree r - 1))
    by (by destruct r).
  set (d := int32 (TR.InDegree r - 1)) in *.
  replace (if d <? 0 then set_InDegree 0 (set_InDegree d r) else set_InDegree d r)
    with (set_InDegree (if d <? 0 then 0 else d) r) by (by destruct r, (d <? 0)).
  set (d' := if d <? 0 then 0 else d) in *.
  replace (TR.InDegree (set_InDegree d' r)) with d' by (by destruct r).
  replace (TR.InDegree (if d' =? 0 then set_State TASK_QUEUED (set_InDegree d' r) else set_InDegree d' r))
    with d' in H3 by (by destruct r, (d' =? 0)).
  destruct (d' =? 0); apply wp_bind, wp_now; intros tm s' Hs;
  apply wp_bind, wp_putTask; intros; apply wp_ret; eauto; (apply (H3 tm); [done.. |]; simpl; by rewrite Hs).
Qed.

(** The record of a PENDING task after [n] of its dependencies were completed. *)
Definition settled (n : nat) (r r' : TaskStateRecord) : Prop :=
  (n = 0%nat /\ r' = r) \/
  (exists tm, (0 < n)%nat /\ is_int64 tm /\
     r' = set_LastUpdated tm
            (if Z.of_nat n <? TR.InDegree r then set_InDegree (TR.InDegree r - Z.of_nat n) r
             else set_InDegree 0 (set_State TASK_QUEUED r))).

Lemma settled_pending n r r' :
  TR.State r = TASK_PENDING -> settled n r r' ->
  TR.State r' = TASK_PENDING <-> (n = 0%nat \/ Z.of_nat n < TR.InDegree r).
Proof.
  intros Hp [[-> ->] | (tm & Hn & _ & ->)]; [tauto |].
  destruct (Z.ltb_spec (Z.of_nat n) (TR.InDegree r)); destruct r; simpl in *; subst;
  unfold TASK_QUEUED, TASK_PENDING; lia.
Qed.

Lemma settled_step n r r' tm :
  TR.State r = TASK_PENDING -> stable r -> 0 <= TR.InDegree r -> settled n r r' ->
  TR.State r' = TASK_PENDING ->
  settled (S n) r (canonTask (set_LastUpdated tm (decremented r'))) /\
  (TR.InDegree (decremented r') = 0 <-> TR.InDegree r <= Z.of_nat (S n)).
Proof.
  intros Hp Hst Hge Hset Hp'. pose proof Hst as (_ & _ & _ & Hd & _)%stable_fields.
  apply (settled_pending _ _ _ Hp Hset) in Hp'.
  assert (TR.InDegree r' = TR.InDegree r - Z.of_nat n /\
          exists tm0, r' = set_LastUpdated tm0 (set_InDegree (TR.InDegree r - Z.of_nat n) r)) as [Hi [tm0 Hr']].
  { destruct Hset as [[-> ->] | (tm0 & Hn & _ & ->)].
    - split; [lia |]. exists (TR.LastUpdated r). rewrite Z.sub_0_r. by destruct r.
    - destruct (Z.ltb_spec (Z.of_nat n) (TR.InDegree r)); [|lia]. split; [by destruct r | by exists tm0]. }
  unfold decremented. rewrite Hi. unfold is_int32 in Hd.
  rewrite int32_id by (unfold is_int32; lia).
  set (d := if TR.InDegree r - Z.of_nat n - 1 <? 0 then 0 else TR.InDegree r - Z.of_nat n - 1).
  assert (d = Z.max 0 (TR.InDegree r - Z.of_nat (S n))) as Hdd.
  { unfold d. destruct (Z.ltb_spec (TR.InDegree r - Z.of_nat n - 1) 0); lia. }
  split.
  - right. exists (int64 tm). split_and!; [lia | apply int64_range |].
    rewrite canon_LastUpdated.
    + subst r'. destruct (Z.eqb_spec d 0) as [E|E], (Z.ltb_spec (Z.of_nat (S n)) (TR.InDegree r)); try lia.
      * rewrite E. by destruct r.
      * replace d with (TR.InDegree r - Z.of_nat (S n)) by lia. by destruct r.
    + subst r'. apply stable_fields. apply stable_fields in Hst.
      destruct (Z.eqb_spec d 0), r; simpl in *; unfold is_int32, is_int64, TASK_QUEUED in *; intuition lia.
  - destruct (Z.eqb_spec d 0); destruct r'; simpl; lia.
Qed.

Lemma settled_done n r r' :
  TR.State r = TASK_PENDING -> settled n r r' -> TR.State r' <> TASK_PENDING -> settled (S n) r r'.
Proof.
  intros Hp Hset Hn. assert ((0 < n)%nat /\ TR.InDegree r <= Z.of_nat n) as [? ?].
  { destruct (decide (n = 0%nat \/ Z.of_nat n < TR.InDegree r)) as [H1|H1].
    - by apply (settled_pending _ _ _ Hp Hset) in H1.
    - lia. }
  right. destruct Hset as [[-> ->] | (tm & _ & ? & ->)]; [lia |]. exists tm. split_and!; [lia | done |].
  destruct (Z.ltb_spec (Z.of_nat n) (TR.InDegree r)), (Z.ltb_spec (Z.of_nat (S n)) (TR.InDegree r)); done || lia.
Qed.

(** The map and the ready list after the downstream ids [ds] were handled. *)
Record unblocked (ds : list string) (m m' : gmap string TaskStateRecord) (ready : list string) : Prop := {
  unb_none k : m !! k = None -> m' !! k = None;
  unb_pending k r : m !! k = Some r -> TR.State r = TASK_PENDING ->
    exists r', m' !! k = Some r' /\ settled (occ k ds) r r';
  unb_other k r : m !! k = Some r -> TR.State r <> TASK_PENDING -> m' !! k = Some r;
  unb_ready k : k ∈ ready <->
    exists r, m !! k = Some r /\ TR.State r = TASK_PENDING /\ (0 < occ k ds)%nat /\ TR.InDegree r <= Z.of_nat (occ k ds);
  unb_NoDup : NoDup ready
}.

(** Where a record comes from. *)
Lemma unb_back ds m m' ready k r' :
  unblocked ds m m' ready -> m' !! k = Some r' -> exists r, m !! k = Some r /\
    ((TR.State r <> TASK_PENDING /\ r' = r) \/ (TR.State r = TASK_PENDING /\ settled (occ k ds) r r')).
Proof.
  intros Hu Hr'. destruct (m !! k) as [r|] eqn:E; [|by rewrite (unb_none _ _ _ _ Hu k E) in Hr']. exists r. split; [done |].
  destruct (decide (TR.State r = TASK_PENDING)) as [Hs|Hs].
  - destruct (unb_pending _ _ _ _ Hu k r E Hs) as (r2 & Hr2 & Hset). simplify_eq. by right.
  - rewrite (unb_other _ _ _ _ Hu k r E Hs) in Hr'. simplify_eq. by left.
Qed.

(** Settling changes the state, the counter and the time only. *)
Lemma settled_same n r r' : settled n r r' ->
  TR.TaskID r' = TR.TaskID r /\ TR.WorkflowID r' = TR.WorkflowID r /\ TR.DownstreamTaskIDs r' = TR.DownstreamTaskIDs r /\
  TR.Output r' = TR.Output r.
Proof. intros [[_ ->] | (tm & _ & _ & ->)]; [done |]. destruct (_ <? _); by destruct r. Qed.

Lemma unblocked_nil m : unblocked [] m m [].
Proof.
  split; try done; try constructor.
  - intros k r Hr Hp. exists r. split; [done |]. by left.
  - by intros ?%elem_of_nil.
  - intros (r & _ & _ & Hc & _). change (occ k []) with 0%nat in Hc. lia.
Qed.

Lemma occ_snoc k x ds : occ k (ds ++ [x]) = (occ k ds + if decide (x = k) then 1 else 0)%nat.
Proof. rewrite occ_app, occ_cons. change (occ k []) with 0%nat. lia. Qed.

Lemma unblocked_skip ds m m' ready x :
  unblocked ds m m' ready -> (forall r, m' !! x = Some r -> TR.State r <> TASK_PENDING) ->
  unblocked (ds ++ [x]) m m' ready.
Proof.
  intros [H1 H2 H3 H4 H5] Hx. split; try done.
  - intros k r Hr Hp. destruct (H2 k r Hr Hp) as (r' & Hr' & Hs). exists r'. split; [done |].
    rewrite occ_snoc. case_decide; [subst | by rewrite Nat.add_0_r].
    rewrite Nat.add_1_r. apply settled_done; [done | done | by apply Hx].
  - intros k. rewrite H4, occ_snoc. case_decide as E; [subst | by rewrite Nat.add_0_r].
    split; intros (r & Hr & Hp & Ho & Hi); exists r.
    { split_and!; [done | done | lia | lia]. }
    destruct (H2 k r Hr Hp) as (r' & Hr' & Hs). apply Hx in Hr'.
    assert (~ (occ k ds = 0%nat \/ Z.of_nat (occ k ds) < TR.InDegree r)) as Hnot.
    { intros Hc. by apply (settled_pending _ _ _ Hp Hs) in Hc. }
    split_and!; [done | done | lia | lia].
Qed.

Lemma unblocked_hit ds m m' ready x r r' tm :
  unblocked ds m m' ready -> m !! x = Some r -> TR.State r = TASK_PENDING -> stable r -> 0 <= TR.InDegree r ->
  m' !! x = Some r' -> TR.State r' = TASK_PENDING ->
  unblocked (ds ++ [x]) m (<[x := canonTask (set_LastUpdated tm (decremented r'))]> m')
    (if TR.InDegree (decremented r') =? 0 then ready ++ [x] else ready).
Proof.
  intros [H1 H2 H3 H4 H5] Hr Hp Hst Hge Hr' Hp'.
  destruct (H2 x r Hr Hp) as (r2 & E & Hset). simplify_eq.
  destruct (settled_step _ _ _ tm Hp Hst Hge Hset Hp') as [Hset' Hz].
  pose proof (proj1 (settled_pending _ _ _ Hp Hset) Hp') as Hocc.
  assert (x ∉ ready) as Hnr.
  { rewrite H4. intros (r0 & E & _ & ? & ?). simplify_eq. lia. }
  split.
  - intros k Hk. rewrite lookup_insert_ne; [by apply H1 | congruence].
  - intros k r0 Hk Hp0. rewrite lookup_insert, occ_snoc. case_decide as E.
    + subst. simplify_eq. rewrite Nat.add_1_r. eauto.
    + rewrite Nat.add_0_r. by apply H2.
  - intros k r0 Hk Hn. rewrite lookup_insert_ne; [by apply H3 | congruence].
  - intros k. rewrite occ_snoc. destruct (decide (x = k)) as [<-|Hne].
    + rewrite Nat.add_1_r. destruct (Z.eqb_spec (TR.InDegree (decremented r')) 0) as [Ez|Ez].
      * rewrite elem_of_app, list_elem_of_singleton. split; [|by right]. intros _.
        exists r. split_and!; [done | done | lia | by apply Hz].
      * split; [done |]. intros (r0 & E & _ & _ & Hle). simplify_eq. by apply Hz in Hle.
    + rewrite Nat.add_0_r, <- H4. destruct (_ =? 0); [|done].
      rewrite elem_of_app, list_elem_of_singleton. split; [intros [?|?]; congruence | by left].
  - destruct (_ =? 0); [|done]. apply NoDup_app. split_and!; [done | | apply NoDup_singleton].
    by intros k Hk ->%list_elem_of_singleton.
Qed.

(** The transaction of [CompleteTask]. *)
Definition completed_record (output : string) (tm : Z) (r : TaskStateRecord) : TaskStateRecord :=
  set_LastUpdated tm (set_Output output (set_State TASK_COMPLETE r)).

Record completed (k e output : string) (d d' : AbsDB) (ready : list string) : Prop := {
  cmp_task : exists r, AbsDB.tasks d !! k = Some r /\ TR.ExecutionID r = e /\
    ((TR.State r = TASK_COMPLETE /\ d' = d /\ ready = []) \/
     (TR.State r <> TASK_COMPLETE /\ exists tm m',
        unblocked (TR.DownstreamTaskIDs r)
          (<[k := canonTask (completed_record output tm r)]> (AbsDB.tasks d)) m' ready /\
        d' = with_tasks m' d))
}.

(** Every record is stable and no in-degree is negative. *)
Definition db_stable (d : AbsDB) : Prop :=
  forall k r, AbsDB.tasks d !! k = Some r -> stable r /\ 0 <= TR.InDegree r.

Lemma stable_completed output tm r : stable r -> stable (canonTask (completed_record output tm r)).
Proof.
  intros Hr. unfold completed_record. rewrite canon_LastUpdated.
  - apply (stable_LastUpdated 0); [apply int64_range |].
    apply stable_fields. apply stable_fields in Hr. destruct r; simpl in *.
    unfold is_int32, is_int64, TASK_COMPLETE in *. intuition lia.
  - apply stable_fields. apply stable_fields in Hr. destruct r; simpl in *.
    unfold is_int32, is_int64, TASK_COMPLETE in *. intuition lia.
Qed.

Lemma unblock_loop ds (s : SA) :
  (forall k r, tasks_of s !! k = Some r -> stable r /\ 0 <= TR.InDegree r) ->
  wp (forEach unblock [] ds) s
    (fun r s' => r.2 = None -> exists m', unblocked ds (tasks_of s) m' r.1 /\ st_db s' = with_tasks m' (st_db s))
    (fun _ => True).
Proof.
  intros Hst.
  apply (wp_forEach (fun rest ready s' => exists p m', ds = p ++ rest /\
    unblocked p (tasks_of s) m' ready /\ st_db s' = with_tasks m' (st_db s))).
  - exists [], (tasks_of s). split_and!; [done | apply unblocked_nil |]. by destruct s as [[]].
  - intros ready k rest s' (p & m' & -> & Hu & Hs).
    assert (tasks_of s' = m') as Hm by (by rewrite Hs).
    apply wp_unblock.
    + rewrite Hm. intros Hk. exists (p ++ [k]), m'.
      split_and!; [by rewrite <- app_assoc | by apply unblocked_skip | done].
    + done.
    + intros r' tm s2 Hr' Hp' Hs2. rewrite Hm in *. simpl.
      destruct (tasks_of s !! k) as [r|] eqn:Er; [|by rewrite (unb_none _ _ _ _ Hu k Er) in Hr'].
      destruct (decide (TR.State r = TASK_PENDING)) as [Hp|Hn].
      2: { rewrite (unb_other _ _ _ _ Hu k r Er Hn) in Hr'. simplify_eq. }
      destruct (Hst k r Er). exists (p ++ [k]), (<[k := canonTask (set_LastUpdated tm (decremented r'))]> m').
      split_and!; [by rewrite <- app_assoc | by eapply unblocked_hit |]. by rewrite Hs2, Hs.
  - intros ready s' (p & m' & -> & Hu & Hs) _. rewrite app_nil_r. eauto.
Qed.

Lemma CompleteTask_spec k e output (s : SA) :
  db_stable (st_db s) ->
  wp (CompleteTask k e output) s
    (fun r s' => match r.2 with
                 | Some _ => st_db s' = st_db s
                 | None => completed k e output (st_db s) (st_db s') r.1
                 end)
    (fun s' => st_db s' = st_db s).
Proof.
  intros Hst. unfold CompleteTask. apply wp_bind, wp_now. intros t0 s0 Hs0. rewrite <- Hs0 in *. clear Hs0 s.
  rename s0 into s. apply wp_bind. eapply wp_mono.
  - apply (wp_Update [] _ s (fun ready d' => completed k e output (st_db s) d' ready)).
    apply wp_bind, wp_fetchTask; simpl; [|done]. intros r Hr.
    destruct (String.eqb_spec (TR.ExecutionID r) e) as [He|]; simpl; [|done].
    destruct (Z.eqb_spec (TR.State r) TASK_COMPLETE) as [Hc|Hc].
    { apply wp_ret. simpl. intros _. split. exists r. split_and!; [done | done |]. by left. }
    apply wp_bind, wp_now. intros tm s1 Hs1.
    apply wp_bind, wp_putTask; intros; [by apply wp_ret |].
    replace (TR.DownstreamTaskIDs (set_LastUpdated tm (set_Output output (set_State TASK_COMPLETE r))))
      with (TR.DownstreamTaskIDs r) by (by destruct r).
    eapply wp_mono; [apply unblock_loop | | done].
    + simpl. rewrite Hs1. simpl. intros k' r'. rewrite lookup_insert. case_decide; [|apply Hst].
      intros [= <-]. destruct (Hst k r Hr) as [Hs Hi]. split; [by apply (stable_completed output tm) |].
      apply stable_fields in Hs as (_ & _ & _ & Hd & _). destruct r; simpl in *. by rewrite int32_id.
    + simpl. rewrite Hs1. simpl. intros [ready e'] s2 H2 E. simpl in *. destruct (H2 E) as (m' & Hu & Hs2).
      split. exists r. split_and!; [done | done |]. right. split; [done |]. exists tm, m'.
      split; [done |]. by rewrite Hs2.
  - intros r s1 Hr. apply wp_bind, wp_now. intros t1 s2 Hs2. apply wp_bind. unfold observe_tx. apply wp_modify.
    apply wp_ret. simpl. rewrite Hs2. done.
  - done.
Qed.

(** ** Cancellation *)

Definition skip_record (tm : Z) (r : TaskStateRecord) : TaskStateRecord :=
  set_LastUpdated tm (set_State TASK_SKIPPED r).

(** The map after the records selected by [P] were marked SKIPPED. *)
Definition skipped_map (P : string -> TaskStateRecord -> Prop) (m m' : gmap string TaskStateRecord) : Prop :=
  forall k, match m !! k with
            | None => m' !! k = None
            | Some r => (P k r /\ exists tm, m' !! k = Some (canonTask (skip_record tm r)))
                        \/ (~ P k r /\ m' !! k = Some r)
            end.

Lemma skipped_ext P P' m m' :
  skipped_map P m m' -> (forall k r, m !! k = Some r -> P k r <-> P' k r) -> skipped_map P' m m'.
Proof.
  intros Hm HP k. specialize (Hm k). destruct (m !! k) as [r|] eqn:E; [|done]. by rewrite <- (HP k r E).
Qed.

Lemma skipped_none P m : (forall k r, m !! k = Some r -> ~ P k r) -> skipped_map P m m.
Proof. intros HP k. destruct (m !! k) as [r|] eqn:E; [|done]. right. auto. Qed.

Lemma skipped_add (P : string -> TaskStateRecord -> Prop) m m' k r tm :
  skipped_map P m m' -> m !! k = Some r ->
  skipped_map (fun k' r' => P k' r' \/ k' = k) m (<[k := canonTask (skip_record tm r)]> m').
Proof.
  intros Hm Hk k'. specialize (Hm k'). rewrite lookup_insert. case_decide as E.
  - subst. rewrite Hk in *. left. eauto.
  - destruct (m !! k') as [r'|] eqn:Ek'; [|done].
    destruct Hm as [[HP Hm] | [HP Hm]]; [left | right]; (split; [|done]); [by left |].
    intros [?|?]; congruence.
Qed.

(** The callback of [CancelWorkflowTasks]. *)
Definition cancelOne (w : string) (cancelled : list string) (k : string) (r : TaskStateRecord)
  : M SA (list string * option GoError) :=
  if unfinished w r
  then let! t := now in
       let! e := putTask k (skip_record t r) in
       ret (cancelled ++ [TR.TaskID r], e)
  else ret (cancelled, None).

Lemma cancelOne_eq w c k r :
  (if negb (String.eqb (TR.WorkflowID r) w) then ret (c, None)
   else if is_terminal (TR.State r) then ret (c, None)
   else let! t := now in
        let! e := putTask k (set_LastUpdated t (set_State TASK_SKIPPED r)) in
        ret (c ++ [TR.TaskID r], e)) = cancelOne w c k r.
Proof.
  unfold cancelOne, unfinished. by destruct (String.eqb _ _), (is_terminal _).
Qed.

(** What the iteration has done after the entries [p]. *)
Definition cancelled_so_far w (d : AbsDB) (p : list (string * TaskStateRecord)) (c : list string) (s' : SA) : Prop :=
  exists m', c = TR.TaskID <$> filter (fun r => unfinished w r = true) p.*2 /\
    st_db s' = with_tasks m' d /\
    skipped_map (fun k r => k ∈ p.*1 /\ unfinished w r = true) (AbsDB.tasks d) m'.

Lemma cancelOne_spec w d p c k r (s' : SA) :
  AbsDB.tasks d !! k = Some r -> cancelled_so_far w d p c s' ->
  wp (cancelOne w c k r) s'
    (fun x s2 => x.2 = None -> cancelled_so_far w d (p ++ [(k, r)]) x.1 s2) (fun _ => True).
Proof.
  intros Hk (m' & -> & Hs & Hm). unfold cancelOne.
  assert (forall k' r', AbsDB.tasks d !! k' = Some r' ->
    (k' ∈ (p ++ [(k, r)]).*1 /\ unfinished w r' = true) <->
    ((k' ∈ p.*1 /\ unfinished w r' = true) \/ (k' = k /\ unfinished w r = true))) as Hsnoc.
  { intros k' r' Hk'. rewrite fmap_app, elem_of_app. simpl. rewrite list_elem_of_singleton.
    split; [intros [[? | ->] ?]; [by left | right; by simplify_eq] | intros [[? ?] | [-> ?]]; simplify_eq; auto]. }
  destruct (unfinished w r) eqn:Eu.
  - apply wp_bind, wp_now. intros tm s2 Hs2. apply wp_bind, wp_putTask; intros; apply wp_ret; [done |].
    intros _. simpl. exists (<[k := canonTask (skip_record tm r)]> m'). rewrite Hs2, Hs.
    split_and!; [|done|].
    + rewrite fmap_app, filter_app, fmap_app. simpl. by rewrite filter_cons, decide_True.
    + eapply skipped_ext; [by apply (skipped_add _ _ _ k r tm Hm) |].
      intros k' r' Hk'. rewrite Hsnoc by done. tauto.
  - apply wp_ret. intros _. exists m'. split_and!; [|done|].
    + rewrite fmap_app, filter_app, fmap_app. simpl.
      rewrite filter_cons, decide_False by congruence. by rewrite app_nil_r.
    + eapply skipped_ext; [done |]. intros k' r' Hk'. rewrite Hsnoc by done.
      split; [by left | intros [?|[_ ?]]; [done | congruence]].
Qed.

Lemma CancelWorkflowTasks_spec w (s : SA) :
  wp (CancelWorkflowTasks w) s
    (fun r s' => match r.2 with
                 | Some _ => st_db s' = st_db s
                 | None => r.1 = TR.TaskID <$> select (unfinished w) (tasks_of s) /\
                           exists m', skipped_map (fun _ r => unfinished w r = true) (tasks_of s) m' /\
                                      st_db s' = with_tasks m' (st_db s)
                 end)
    (fun s' => st_db s' = st_db s).
Proof.
  apply (wp_Update [] _ s (fun c d => c = _ /\ exists m', _ /\ d = with_tasks m' (st_db s))).
  apply wp_bind, wp_gets. simpl.
  apply (wp_each _ (tasks_of s) (fun rest c s' => exists p, sorted_entries (tasks_of s) = p ++ rest /\
    cancelled_so_far w (st_db s) p c s')).
  - exists []. split; [done |]. exists (tasks_of s). split_and!; [done | by destruct s as [[]] |].
    apply skipped_none. by intros k r _ [?%elem_of_nil _].
  - intros c k r rest s' (p & Hp & Hc). rewrite cancelOne_eq.
    assert (tasks_of s !! k = Some r) as Hk.
    { apply elem_of_sorted_entries. rewrite Hp. apply elem_of_app. right. by left. }
    eapply wp_mono; [by apply cancelOne_spec | | done].
    intros [c' [e|]] s2 H2; [done |]. exists (p ++ [(k, r)]). rewrite <- app_assoc. auto.
  - intros c s' (p & Hp & m' & -> & Hs & Hm) _. rewrite app_nil_r in Hp. unfold select. rewrite Hp.
    split; [done |]. exists m'. split; [|done]. eapply skipped_ext; [done |]. intros k r Hk.
    assert (k ∈ p.*1); [|tauto]. rewrite <- Hp. apply list_elem_of_fmap. exists (k, r).
    by rewrite elem_of_sorted_entries.
Qed.

(** ** Skipping downstream tasks *)

(** The loop of [SkipDownstreamTasks] changes only the tasks it reports, which
    were not finished. *)
Definition skip_step (d : AbsDB) (l : list string) (s' : SA) : Prop :=
  exists m', st_db s' = with_tasks m' d /\
    skipped_map (fun k _ => k ∈ l) (AbsDB.tasks d) m' /\
    forall k, k ∈ l -> exists r, AbsDB.tasks d !! k = Some r /\ is_terminal (TR.State r) = false.

Lemma skip_step_db d l (s s' : SA) : st_db s' = st_db s -> skip_step d l s -> skip_step d l s'.
Proof. unfold skip_step. by intros ->. Qed.

Lemma skip_step_more d l k (s s' : SA) r tm :
  skip_step d l s -> k ∉ l -> tasks_of s !! k = Some r -> is_terminal (TR.State r) = false ->
  st_db s' = with_tasks (<[k := canonTask (skip_record tm r)]> (tasks_of s)) (st_db s) ->
  skip_step d (l ++ [k]) s'.
Proof.
  intros (m' & Hs & Hm & Hl) Hk Hr Ht Hs'. rewrite Hs in Hr. simpl in Hr.
  assert (AbsDB.tasks d !! k = Some r) as Hr0.
  { specialize (Hm k). destruct (AbsDB.tasks d !! k) as [r0|]; [|congruence].
    destruct Hm as [[? _] | [_ ?]]; congruence. }
  exists (<[k := canonTask (skip_record tm r)]> m'). split_and!.
  - by rewrite Hs', Hs.
  - eapply skipped_ext; [by apply (skipped_add _ _ _ k r tm Hm) |]. intros k' r' _.
    by rewrite elem_of_app, list_elem_of_singleton.
  - intros k' [Hk' | ->%list_elem_of_singleton]%elem_of_app; eauto.
Qed.

Lemma skipLoop_spec d n visited queue skipped (s : SA) :
  skip_step d skipped s -> (forall k, k ∈ skipped -> k ∈ visited) ->
  wp (skipLoop n visited queue skipped) s
     (fun r s' => skip_step d r.2 s') (fun s' => exists l, skip_step d l s').
Proof.
  revert visited queue skipped s. induction n as [|n IH]; intros visited [|k queue] skipped s Hs Hv;
  simpl; [by apply wp_ret.. |].
  case_bool_decide as Hk; [by apply IH |].
  assert (forall k', k' ∈ skipped -> k' ∈ ({[k]} ∪ visited : gset string)) as Hv' by set_solver.
  apply wp_bind. eapply wp_mono; [apply GetTask_spec | | intros s' Hs'; exists skipped; by apply (skip_step_db _ _ s)].
  intros r s1 [Hs1 Hr]. assert (skip_step d skipped s1) as Hst1 by (by apply (skip_step_db _ _ s)).
  destruct r as [e|r]; [by apply IH |]. specialize (Hr r eq_refl).
  destruct (is_terminal (TR.State r)) eqn:Ht; [by apply IH |].
  apply wp_bind. eapply wp_mono; [apply modifyTask_spec | | intros s' Hs'; exists skipped; by apply (skip_step_db _ _ s1)].
  intros [e|] s2 H2.
  { apply IH; [|done]. by apply (skip_step_db _ _ s1). }
  destruct H2 as (r' & tm & Hr' & _ & Hs2). rewrite Hs1, Hr in Hr'. injection Hr' as <-.
  apply IH.
  - eapply skip_step_more; [apply Hst1 | | | done | done].
    + intros Hin. by apply Hk, Hv.
    + by rewrite Hs1.
  - intros k' [Hk' | ->%list_elem_of_singleton]%elem_of_app; set_solver.
Qed.

Lemma SkipDownstreamTasks_spec k (s : SA) :
  wp (SkipDownstreamTasks k) s
     (fun r s' => skip_step (st_db s) r.1 s') (fun s' => exists l, skip_step (st_db s) l s').
Proof.
  assert (forall s' : SA, st_db s' = st_db s -> skip_step (st_db s) [] s') as H0'.
  { intros s' Hs'. exists (tasks_of s). rewrite Hs'. split_and!; [by destruct s as [[]] | | by intros ? ?%elem_of_nil].
    apply skipped_none. by intros ?? _ ?%elem_of_nil. }
  unfold SkipDownstreamTasks. apply wp_bind.
  eapply wp_mono; [apply GetTask_spec | | intros; exists []; by apply H0'].
  intros [e|r] s1 [Hs1 Hr]; [apply wp_ret, H0', Hs1 |].
  apply wp_bind, wp_gets, wp_bind. eapply wp_mono; [apply (skipLoop_spec (st_db s)) | | done].
  - by apply H0'.
  - by intros ? ?%elem_of_nil.
  - intros [q l] s2 H2. by apply wp_ret.
Qed.

End Spec.
