(* ===== verification/NoFault.v ===== *)
(** * The store when no transaction fails

    Under [NoFaults] every transaction begins and commits and the process is not
    killed: what the operations of the store then return, exactly. *)

From S2P Require Import Prelude Proto Codec Env RecordDB Store StoreSpec.

Section NoFault.
Context `{Env} `{!NoFaults} `{Protobuf}.
Abbreviation SA := (St AbsDB).

Lemma wp_Update_ok {C} (c0 : C) body (s : SA) (Q : C * option GoError -> SA -> Prop) E :
  wp body (next_tx s)
    (fun r s' => Q r (match r.2 with None => s' | Some _ => set_db (st_db s) s' end))
    (fun s' => E (set_db (st_db s) s')) ->
  wp (Update c0 body) s Q E.
Proof.
  unfold wp, Update. rewrite no_faults. by destruct (body (next_tx s)) as [s' [c [e|]] | s'].
Qed.

Lemma wp_Update_ok_ body (s : SA) (Q : option GoError -> SA -> Prop) E :
  wp body (next_tx s)
    (fun e s' => Q e (match e with None => s' | Some _ => set_db (st_db s) s' end))
    (fun s' => E (set_db (st_db s) s')) ->
  wp (Update_ body) s Q E.
Proof.
  intros Hb. unfold Update_. apply wp_bind, wp_Update_ok, wp_bind.
  eapply wp_mono; [exact Hb | | done]. intros e s' Hs. apply wp_ret. simpl. by apply wp_ret.
Qed.

Lemma wp_View_ok {C} (c0 : C) body (s : SA) (Q : C * option GoError -> SA -> Prop) E :
  wp body (next_tx s) Q E -> wp (View c0 body) s Q E.
Proof. unfold wp, View. by rewrite no_faults. Qed.

Lemma wp_ViewPtr_ok {A} body (s : SA) (Q : GoError + A -> SA -> Prop) E :
  wp body (next_tx s) Q E -> wp (ViewPtr body) s Q E.
Proof.
  intros Hb. unfold ViewPtr. apply wp_bind, wp_View_ok, wp_bind. eapply wp_mono; [exact Hb | | done].
  intros [e|a] s' Hs; by apply wp_ret.
Qed.

(** ** Reading *)

Lemma GetTask_ok k (s : SA) (Q : GoError + TaskStateRecord -> SA -> Prop) E :
  (forall s', st_db s' = st_db s ->
     Q (match tasks_of s !! k with Some r => inr r | None => inl ErrTaskNotFound end) s') ->
  wp (GetTask k) s Q E.
Proof.
  intros HQ. apply wp_ViewPtr_ok. specialize (HQ (next_tx s) eq_refl).
  apply wp_fetchTask; simpl in *; intros; by simplify_option_eq.
Qed.

Lemma select_ok {A} (P : TaskStateRecord -> bool) (g : TaskStateRecord -> A) f (s : SA) Q E :
  (forall c k r, f c k r = ret (if P r then c ++ [g r] else c, None)) ->
  (forall s', st_db s' = st_db s -> Q (g <$> select P (tasks_of s), None) s') ->
  wp (View [] (let! l := gets (fun s => task_each (st_db s)) in forEach (withRecord f) [] l)) s Q E.
Proof.
  intros Hf HQ. apply wp_View_ok, wp_bind, wp_gets. simpl.
  eapply wp_mono; [by apply (wp_fold f (fun c _ r => if P r then c ++ [g r] else c) _ _ _ (fun _ => False)) | | done].
  intros r s' [-> ->]. rewrite (foldl_select P g []). by apply HQ.
Qed.

Lemma GetTasksInState_ok v (s : SA) Q E :
  (forall s', st_db s' = st_db s ->
     Q (TR.TaskID <$> select (fun r => TR.State r =? v) (tasks_of s), None) s') ->
  wp (GetTasksInState v) s Q E.
Proof. apply (select_ok (fun r => TR.State r =? v)). intros. by go_case. Qed.

Lemma GetTaskStatuses_ok w (s : SA) Q E :
  (forall s', st_db s' = st_db s ->
     Q (status_of <$> select (fun r => String.eqb (TR.WorkflowID r) w) (tasks_of s), None) s') ->
  wp (GetTaskStatusesForWorkflow w) s Q E.
Proof.
  apply (select_ok (fun r => String.eqb (TR.WorkflowID r) w)). intros. by destruct (String.eqb _ _).
Qed.

Lemma GetWorkflow_ok w (s : SA) (Q : GoError + WorkflowSpec -> SA -> Prop) E :
  (forall s', st_db s' = st_db s ->
     Q (match AbsDB.workflows (st_db s) !! w with Some a => inr a | None => inl ErrWorkflowNotFound end) s') ->
  wp (GetWorkflow w) s Q E.
Proof.
  intros HQ. apply wp_ViewPtr_ok, wp_bind, wp_gets. simpl. unfold map_get. specialize (HQ (next_tx s) eq_refl).
  by destruct (AbsDB.workflows (st_db s) !! w); apply wp_ret.
Qed.

Lemma GetWorkflowState_ok w (s : SA) (Q : GoError + WorkflowStateRecord -> SA -> Prop) E :
  (forall s', st_db s' = st_db s ->
     Q (match AbsDB.wstates (st_db s) !! w with Some a => inr a | None => inl ErrWorkflowNotFound end) s') ->
  wp (GetWorkflowState w) s Q E.
Proof.
  intros HQ. apply wp_ViewPtr_ok, wp_bind, wp_gets. simpl. unfold map_get. specialize (HQ (next_tx s) eq_refl).
  by destruct (AbsDB.wstates (st_db s) !! w); apply wp_ret.
Qed.

Lemma GetAllWorkflowStates_ok (s : SA) (Q : list WorkflowStateRecord * option GoError -> SA -> Prop) E :
  (forall s', st_db s' = st_db s -> Q ((sorted_entries (AbsDB.wstates (st_db s))).*2, None) s') ->
  wp GetAllWorkflowStates s Q E.
Proof.
  intros HQ. apply wp_View_ok, wp_bind, wp_gets. simpl.
  eapply wp_mono; [apply (wp_fold _ (fun c _ r => c ++ [r]) _ _ _ (fun _ => False)); done | | done].
  intros r s' [-> ->]. rewrite foldl_values. by apply HQ.
Qed.

(** ** Read-modify-write *)

Lemma modifyTask_ok k u (s : SA) (Q : option GoError -> SA -> Prop) E :
  (tasks_of s !! k = None -> forall s', st_db s' = st_db s -> Q (Some ErrTaskNotFound) s') ->
  (forall r t e s', tasks_of s !! k = Some r -> put_error k (marshalTaskRecord (u t r)) = Some e ->
     st_db s' = st_db s -> Q (Some e) s') ->
  (forall r t s', tasks_of s !! k = Some r -> put_error k (marshalTaskRecord (u t r)) = None ->
     st_db s' = with_tasks (<[k := canonTask (u t r)]> (tasks_of s)) (st_db s) -> Q None s') ->
  wp (modifyTask k u) s Q E.
Proof.
  intros Hnone Herr Hok. apply wp_Update_ok_, wp_bind, wp_fetchTask; simpl.
  - intros r Hr. apply wp_bind, wp_now. intros t s' Hs. apply wp_putTask.
    + intros e He. by apply (Herr r t).
    + intros He. apply (Hok r t); [done | done |]. simpl. by rewrite Hs.
  - intros Hn. apply wp_ret. by apply Hnone.
Qed.

End NoFault.
