(* ===== verification/Skip.v ===== *)
(** * Skipping downstream tasks

    The breadth-first loop of [SkipDownstreamTasks] ends under every fault, and
    without faults it skips exactly the unfinished tasks that depend on the failed
    one. *)

From S2P Require Import Prelude Proto Codec Env RecordDB Store StoreSpec NoFault.

Abbreviation Tasks := (gmap string TaskStateRecord).

(** ** Termination *)

Definition fanout (r : TaskStateRecord) : nat := length (TR.DownstreamTaskIDs r).

(** The downstream ids of the tasks that were not visited yet. *)
Definition open_edges (visited : gset string) (T : Tasks) : nat :=
  msum (fanout <$> filter (fun p => p.1 ∉ visited) T).

Lemma open_visit (v : gset string) T k r :
  k ∉ v -> T !! k = Some r -> open_edges v T = (fanout r + open_edges ({[k]} ∪ v) T)%nat.
Proof.
  intros Hk Hr. unfold open_edges. rewrite (msum_delete _ k (fanout r)).
  - f_equal. f_equal. apply map_eq. intros x. rewrite lookup_delete. case_decide as E.
    + subst. rewrite lookup_fmap, map_lookup_filter_None_2; [done |]. right. intros ? _ Hx.
      apply Hx. set_solver.
    + rewrite !lookup_fmap. f_equal. apply option_eq. intros y. rewrite !map_lookup_filter_Some. simpl.
      split; intros [? ?]; (split; [done |]); set_solver.
  - rewrite lookup_fmap. apply fmap_Some. exists r. split; [|done]. by apply map_lookup_filter_Some.
Qed.

Lemma open_mono (v : gset string) T k : (open_edges ({[k]} ∪ v) T <= open_edges v T)%nat.
Proof.
  destruct (decide (k ∈ v)) as [Hk|Hk]; [by rewrite subseteq_union_1_L by set_solver |].
  destruct (T !! k) as [r|] eqn:Hr; [rewrite (open_visit v T k r Hk Hr); lia |].
  unfold open_edges. apply Nat.eq_le_incl. f_equal. f_equal. apply map_eq. intros x. apply option_eq. intros y.
  rewrite !map_lookup_filter_Some. simpl. split; intros [Hx ?]; (split; [done |]); [set_solver |].
  apply not_elem_of_union. split; [|done]. intros ->%elem_of_singleton. congruence.
Qed.

Lemma open_insert (v : gset string) T k r : k ∈ v -> open_edges v (<[k := r]> T) = open_edges v T.
Proof.
  intros Hk. unfold open_edges. f_equal. f_equal. apply map_eq. intros x. apply option_eq. intros y.
  rewrite !map_lookup_filter_Some. simpl. rewrite lookup_insert. case_decide; [|done]. subst. by split; intros [? ?].
Qed.

Lemma msum_list {A} (f : A -> nat) (m : gmap string A) :
  msum (f <$> m) = sum_list_with (fun p => f p.2) (map_to_list m).
Proof.
  induction m as [|k a m Hk IH] using map_ind.
  - by rewrite fmap_empty, map_to_list_empty, msum_empty.
  - rewrite fmap_insert, msum_insert_None by (by rewrite lookup_fmap, Hk).
    by rewrite (sum_list_with_perm _ _ _ (map_to_list_insert m k a Hk)), IH.
Qed.

Lemma edges_open `{Protobuf} (d : AbsDB) : edges (task_each d) = open_edges ∅ (AbsDB.tasks d).
Proof.
  unfold open_edges. rewrite map_filter_id by (intros; set_solver). rewrite msum_list.
  rewrite <- (sum_list_with_perm _ _ _ (sorted_entries_perm (AbsDB.tasks d))).
  unfold edges. simpl. unfold map_each. induction (sorted_entries (AbsDB.tasks d)) as [|p l IH]; [done |].
  simpl. unfold fanout at 1. f_equal. exact IH.
Qed.

(** ** The tasks downstream of a task *)

Definition edge (T : Tasks) (x y : string) : Prop :=
  exists r, T !! x = Some r /\ y ∈ TR.DownstreamTaskIDs r.

Section Loop.
Context `{Env} `{Protobuf}.
Abbreviation SA := (St AbsDB).

Lemma skipLoop_terminates n visited queue skipped (s : SA) :
  (length queue + open_edges visited (tasks_of s) <= n)%nat ->
  wp (skipLoop n visited queue skipped) s (fun r _ => r.1 = []) (fun _ => True).
Proof.
  revert visited queue skipped s. induction n as [|n IH]; intros visited [|k queue] skipped s Hn; simpl in *;
  [by apply wp_ret | lia | by apply wp_ret |].
  case_bool_decide as Hk; [apply IH; lia |]. pose proof (open_mono visited (tasks_of s) k) as Hmono.
  apply wp_bind. eapply wp_mono; [apply GetTask_spec | | done].
  intros [e|r] s1 [Hs1 Hr]; [apply IH; rewrite Hs1; lia |]. specialize (Hr r eq_refl).
  assert (length (queue ++ TR.DownstreamTaskIDs r) + open_edges ({[k]} ∪ visited) (tasks_of s) <= n)%nat as Hn'.
  { rewrite length_app. rewrite (open_visit visited (tasks_of s) k r Hk Hr) in Hn. unfold fanout in Hn. lia. }
  destruct (is_terminal (TR.State r)); [apply IH; by rewrite Hs1 |].
  apply wp_bind. eapply wp_mono; [apply modifyTask_spec | | done].
  intros [e|] s2 H2; [apply IH; by rewrite H2, Hs1 |].
  destruct H2 as (r' & tm & _ & _ & Hs2). apply IH. rewrite Hs2. simpl. rewrite open_insert by set_solver.
  by rewrite Hs1.
Qed.

(** *** Exactness without faults *)

Context `{!NoFaults}.

(** What the loop has done from the database [d] and the queue [q0]. *)
Record skipping (d : AbsDB) (q0 : list string) (visited : gset string) (queue skipped : list string) (s : SA)
  : Prop := {
  sk_step : skip_step d skipped s;
  sk_sound k : k ∈ skipped -> k ∈ visited;
  sk_complete k r : k ∈ visited -> AbsDB.tasks d !! k = Some r -> is_terminal (TR.State r) = false -> k ∈ skipped;
  sk_closed k x : k ∈ visited -> edge (AbsDB.tasks d) k x -> x ∈ visited \/ x ∈ queue;
  sk_reached k : k ∈ visited \/ k ∈ queue -> exists x, x ∈ q0 /\ rtc (edge (AbsDB.tasks d)) x k;
  sk_start x : x ∈ q0 -> x ∈ visited \/ x ∈ queue
}.

Lemma skipping_seen d q0 v k queue skipped s :
  skipping d q0 v (k :: queue) skipped s -> k ∈ v -> skipping d q0 v queue skipped s.
Proof.
  intros [K1 K2 K3 K4 K5 K6] Hk. split; try done.
  - intros x y Hx Hy. destruct (K4 x y Hx Hy) as [?|[-> | ?]%elem_of_cons]; auto.
  - intros x Hx. apply K5. destruct Hx; [by left | right; by right].
  - intros x Hx. destruct (K6 x Hx) as [?|[-> | ?]%elem_of_cons]; auto.
Qed.

(** A task is visited: its downstream ids [ds] enter the queue, and it is skipped
    unless it is finished or unknown. *)
Lemma skipping_visit d q0 v k queue ds skipped skipped' s s' :
  skipping d q0 v (k :: queue) skipped s ->
  skip_step d skipped' s' ->
  (forall x, x ∈ ds <-> edge (AbsDB.tasks d) k x) ->
  (forall x, x ∈ skipped -> x ∈ skipped') -> (forall x, x ∈ skipped' -> x ∈ skipped \/ x = k) ->
  (forall r, AbsDB.tasks d !! k = Some r -> is_terminal (TR.State r) = false -> k ∈ skipped') ->
  skipping d q0 ({[k]} ∪ v) (queue ++ ds) skipped' s'.
Proof.
  intros [K1 K2 K3 K4 K5 K6] Hstep Hds Hsub Hsup Hk. split; [done |..].
  - intros x Hx. apply Hsup in Hx as [Hx | ->]; [|set_solver]. apply K2 in Hx. set_solver.
  - intros x r [->%elem_of_singleton | Hx]%elem_of_union Hr Ht; [by eapply Hk | apply Hsub; by eapply K3].
  - intros x y [->%elem_of_singleton | Hx]%elem_of_union Hy.
    + right. apply elem_of_app. right. by apply Hds.
    + destruct (K4 x y Hx Hy) as [?|[-> | ?]%elem_of_cons]; [left | left | right]; set_solver.
  - intros x Hx. assert (x = k \/ x ∈ v \/ x ∈ queue \/ x ∈ ds) as [-> | [Hx' | [Hx' | Hx']]] by set_solver.
    + apply K5. right. by left.
    + apply K5. by left.
    + apply K5. right. by right.
    + destruct (K5 k) as (y & Hy & Hr); [right; by left |]. exists y. split; [done |].
      eapply rtc_r; [done | by apply Hds].
  - intros x Hx. destruct (K6 x Hx) as [?|[-> | ?]%elem_of_cons]; [left | left | right]; set_solver.
Qed.

Definition skippable (T : Tasks) : Prop :=
  forall k r tm, T !! k = Some r -> put_error k (marshalTaskRecord (skip_record tm r)) = None.

(** The state and the timestamp have a fixed width. *)
Lemma skippable_stored (T : Tasks) :
  map_Forall (fun k r => put_error k (marshalTaskRecord r) = None) T -> skippable T.
Proof.
  intros HT k r tm Hr. specialize (HT k r Hr). unfold put_error in *.
  replace (length (marshalTaskRecord (skip_record tm r))) with (length (marshalTaskRecord r)); [done |].
  unfold marshalTaskRecord. rewrite !length_app, !length_le_enc. by destruct r.
Qed.

Lemma skipLoop_exact d q0 n visited queue skipped (s : SA) :
  skippable (AbsDB.tasks d) -> skipping d q0 visited queue skipped s ->
  wp (skipLoop n visited queue skipped) s
    (fun r s' => exists v, skipping d q0 v r.1 r.2 s') (fun _ => False).
Proof.
  intros Hfit. revert visited queue skipped s.
  induction n as [|n IH]; intros visited [|k queue] skipped s Hs; simpl; try (apply wp_ret; by eexists).
  case_bool_decide as Hk; [apply IH; by eapply skipping_seen |].
  assert (k ∉ skipped) as Hks by (intros Hin; by apply Hk, (sk_sound _ _ _ _ _ _ Hs)).
  assert (tasks_of s !! k = AbsDB.tasks d !! k) as HT.
  { destruct (sk_step _ _ _ _ _ _ Hs) as (m' & Hd & Hm & _). rewrite Hd. simpl. specialize (Hm k).
    destruct (AbsDB.tasks d !! k); [|done]. by destruct Hm as [[? _] | [_ ->]]. }
  apply wp_bind, GetTask_ok. intros s1 Hs1. rewrite HT.
  assert (skip_step d skipped s1) as Hst1 by (by eapply skip_step_db, Hs).
  destruct (AbsDB.tasks d !! k) as [r|] eqn:Hr.
  2: { apply IH. rewrite <- (app_nil_r queue). eapply skipping_visit; [done | done | | done | by left | intros; congruence].
       intros x. split; [by intros ?%elem_of_nil | intros (r & ? & _); congruence]. }
  assert (forall x, x ∈ TR.DownstreamTaskIDs r <-> edge (AbsDB.tasks d) k x) as Hds.
  { intros x. split; [by exists r | intros (r' & ? & ?); by simplify_eq]. }
  destruct (is_terminal (TR.State r)) eqn:Ht.
  { apply IH. eapply skipping_visit; [done | done | done | done | by left |]. intros r' Hr' Hf. simplify_eq. congruence. }
  apply wp_bind, modifyTask_ok; rewrite Hs1, HT.
  - intros ?. congruence.
  - intros r' t e s2 [= <-] He. unfold skippable, skip_record in Hfit. by rewrite (Hfit k r t Hr) in He.
  - intros r' t s2 [= <-] _ Hs2. apply IH. eapply skipping_visit; [done | | done | | |].
    + eapply (skip_step_more d skipped k s1 s2 r t); [done | done | by rewrite Hs1, HT | done | by rewrite Hs1].
    + intros x Hx. apply elem_of_app. by left.
    + by intros x [? | ->%list_elem_of_singleton]%elem_of_app; [left | right].
    + intros _ _ _. apply elem_of_app. right. by left.
Qed.

End Loop.
