(* ===== verification/StoreProps.v ===== *)
(** * What the state store guarantees

    The theorems about [internal/store]: atomic transactions, the refinement of
    bbolt by maps of records, and the effect of the task operations. *)

From S2P Require Import Prelude Proto Codec Env RecordDB Store StoreRefinement StoreSpec NoFault Skip.

(** ** The operations as data *)

(** The operations that write, each a single transaction. *)
Inductive write_op :=
  | OpStoreWorkflow (w : WorkflowSpec)
  | OpInitWorkflowState (workflowID : string)
  | OpUpdateWorkflowState (workflowID : string) (v : WorkflowState)
  | OpStoreWorker (r : WorkerRecord)
  | OpRemoveWorker (workerID : string)
  | OpInitializeTasks (workflowID : string) (tasks : list TaskSpec) (inDegrees : gmap string Z)
      (downstream : gmap string (list string))
  | OpUpdateTaskState (taskID : string) (v : TaskState)
  | OpAssignTask (taskID executionID : string)
  | OpCompleteTask (taskID executionID output : string)
  | OpFailTask (taskID errMsg : string) (attemptCount : Z)
  | OpRequeueTask (taskID newExecutionID : string)
  | OpCancelWorkflowTasks (workflowID : string).

(** The operations that read, and [SkipDownstreamTasks], which runs several transactions. *)
Inductive store_op :=
  | OpWrite (op : write_op)
  | OpSkipDownstreamTasks (failedTaskID : string)
  | OpGetWorkflow (workflowID : string)
  | OpGetWorkflowState (workflowID : string)
  | OpGetAllWorkflowStates
  | OpGetWorker (workerID : string)
  | OpGetAllWorkers
  | OpGetTask (taskID : string)
  | OpGetTasksInState (v : TaskState)
  | OpGetTasksForWorkflow (workflowID : string)
  | OpGetTaskStatuses (workflowID : string)
  | OpIsWorkflowComplete (workflowID : string).

Inductive reply :=
  | RWrite (r : list string * option GoError)
  | RWorkflow (r : GoError + WorkflowSpec)
  | RWorkflowState (r : GoError + WorkflowStateRecord)
  | RWorkflowStates (r : list WorkflowStateRecord * option GoError)
  | RWorker (r : GoError + WorkerRecord)
  | RWorkers (r : list WorkerRecord * option GoError)
  | RTask (r : GoError + TaskStateRecord)
  | RStatuses (r : list TaskStatus * option GoError)
  | RBool (r : bool * option GoError).

Section Ops.
Context `{Env} {D : Type} `{RecordDB D}.

Definition quietly (m : M (St D) (option GoError)) : M (St D) (list string * option GoError) :=
  let! e := m in ret ([], e).

Definition run_write (op : write_op) : M (St D) (list string * option GoError) :=
  match op with
  | OpStoreWorkflow w => quietly (StoreWorkflow w)
  | OpInitWorkflowState w => quietly (InitWorkflowState w)
  | OpUpdateWorkflowState w v => quietly (UpdateWorkflowState w v)
  | OpStoreWorker r => quietly (StoreWorker r)
  | OpRemoveWorker k => quietly (RemoveWorker k)
  | OpInitializeTasks w l i d => quietly (InitializeTasksForWorkflow w l i d)
  | OpUpdateTaskState k v => quietly (UpdateTaskState k v)
  | OpAssignTask k e => quietly (AssignTask k e)
  | OpCompleteTask k e o => CompleteTask k e o
  | OpFailTask k msg n => quietly (FailTask k msg n)
  | OpRequeueTask k e => quietly (RequeueTask k e)
  | OpCancelWorkflowTasks w => CancelWorkflowTasks w
  end.

Definition run_op (op : store_op) : M (St D) reply :=
  match op with
  | OpWrite op => let! r := run_write op in ret (RWrite r)
  | OpSkipDownstreamTasks k => let! r := SkipDownstreamTasks k in ret (RWrite r)
  | OpGetWorkflow w => let! r := GetWorkflow w in ret (RWorkflow r)
  | OpGetWorkflowState w => let! r := GetWorkflowState w in ret (RWorkflowState r)
  | OpGetAllWorkflowStates => let! r := GetAllWorkflowStates in ret (RWorkflowStates r)
  | OpGetWorker k => let! r := GetWorker k in ret (RWorker r)
  | OpGetAllWorkers => let! r := GetAllWorkers in ret (RWorkers r)
  | OpGetTask k => let! r := GetTask k in ret (RTask r)
  | OpGetTasksInState v => let! r := GetTasksInState v in ret (RWrite r)
  | OpGetTasksForWorkflow w => let! r := GetTasksForWorkflow w in ret (RWrite r)
  | OpGetTaskStatuses w => let! r := GetTaskStatusesForWorkflow w in ret (RStatuses r)
  | OpIsWorkflowComplete w => let! r := IsWorkflowComplete w in ret (RBool r)
  end.

(** The replies of a sequence of operations. *)
Definition run_ops (ops : list store_op) : M (St D) (list reply) :=
  foldM (fun acc op => let! r := run_op op in ret (acc ++ [r])) [] ops.

(** *** Rollback *)

(** A failed operation, or one the process dies in, leaves the database alone. *)
Definition atomic {A} (failed : A -> Prop) (m : M (St D) A) : Prop :=
  forall s, wp m s (fun r s' => failed r -> st_db s' = st_db s) (fun s' => st_db s' = st_db s).

Lemma atomic_Update {C} (c0 : C) body : atomic (fun r => r.2 <> None) (Update c0 body).
Proof.
  intros s. unfold wp, Update.
  destruct (fault _); try done; destruct (body (next_tx s)) as [s' [c [?|]] | s']; done.
Qed.

Lemma atomic_Update_ body : atomic (fun e => e <> None) (Update_ body).
Proof.
  intros s. unfold Update_. apply wp_bind. eapply wp_mono; [apply atomic_Update | | done].
  intros r s' Hs. by apply wp_ret.
Qed.

Lemma atomic_quietly m : atomic (fun e => e <> None) m -> atomic (fun r => r.2 <> None) (quietly m).
Proof.
  intros Hm s. unfold quietly. apply wp_bind. eapply wp_mono; [apply Hm | | done].
  intros e s' Hs. by apply wp_ret.
Qed.

Lemma atomic_write op : atomic (fun r => r.2 <> None) (run_write op).
Proof.
  destruct op; try (apply atomic_quietly, atomic_Update_); [|apply atomic_Update].
  simpl. intros s. unfold CompleteTask. apply wp_bind. unfold now at 1, wp at 1. cbn beta iota zeta.
  apply wp_bind. eapply wp_mono; [apply atomic_Update | | done].
  intros r s' Hs. apply wp_bind. unfold now, wp at 1. cbn beta iota zeta. apply wp_bind, wp_modify, wp_ret. exact Hs.
Qed.

End Ops.

(** The operation that writes to the bucket it iterates over. *)
Definition is_cancel (op : store_op) : bool :=
  match op with OpWrite (OpCancelWorkflowTasks _) => true | _ => false end.

Lemma sim_run_op `{Env} {D : Type} `{RecordDBCore D} op :
  is_cancel op = false -> refines st_abs st_ok (run_op (D := D) op) (run_op (D := AbsDB) op).
Proof.
  intros Hc. destruct op as [[]| | | | | | | | | | |]; try done; unfold run_op, run_write, quietly,
    UpdateTaskState, AssignTask, FailTask, RequeueTask;
  repeat first [ solve [auto with sim nocore] | refines_step ].
Qed.

Lemma sim_run_ops `{Env} {D : Type} `{RecordDBCore D} ops :
  forallb (fun op => negb (is_cancel op)) ops = true ->
  refines st_abs st_ok (run_ops (D := D) ops) (run_ops (D := AbsDB) ops).
Proof.
  unfold run_ops. generalize (@nil reply) at 2 4 as acc.
  induction ops as [|op ops IH]; intros acc Hc; [apply refines_ret |].
  simpl in Hc. apply andb_prop in Hc as [Hop Hc]. apply refines_bind; [|intros a; by apply IH].
  apply refines_bind; [|intros r; apply refines_ret]. apply sim_run_op. by apply negb_true_iff.
Qed.

(** ** Results of completions, and skipping, over maps *)

Section Specs.
Context `{Env} `{Protobuf}.

Lemma stale_spec k e output (s : St AbsDB) r :
  tasks_of s !! k = Some r -> TR.ExecutionID r <> e ->
  wp (CompleteTask k e output) s
    (fun x _ => x.1 = [] /\ x.2 <> None /\ (NoFaults -> x.2 = Some ErrStaleExecution)) (fun _ => True).
Proof.
  intros Hr He. unfold CompleteTask. apply wp_bind, wp_now. intros t0 s0 Hs0. apply wp_bind.
  apply (wp_mono _ _ (fun x _ => x.1 = [] /\ x.2 <> None /\ (NoFaults -> x.2 = Some ErrStaleExecution)) _
           (fun _ => True)); [| |done].
  - unfold wp, Update, fetchTask, bind, gets. simpl. rewrite Hs0. unfold map_get. rewrite Hr.
    unfold ret. rewrite (proj2 (String.eqb_neq _ _) He). simpl.
    destruct (fault (x_tx (st_aux s0))) eqn:Ef; simpl; try done. split_and!; [done | done |].
    intros Hnf. by rewrite Hnf in Ef.
  - intros x s1 Hx. apply wp_bind, wp_now. intros t1 s2 _. apply wp_bind, wp_modify. by apply wp_ret.
Qed.

Lemma repeated_spec `{!NoFaults} k e output (s : St AbsDB) r :
  tasks_of s !! k = Some r -> TR.ExecutionID r = e -> TR.State r = TASK_COMPLETE ->
  wp (CompleteTask k e output) s (fun x s' => x = ([], None) /\ st_db s' = st_db s) (fun _ => False).
Proof.
  intros Hr He Hc. unfold CompleteTask. apply wp_bind, wp_now. intros t0 s0 Hs0. apply wp_bind, wp_Update_ok.
  apply wp_bind, wp_fetchTask; simpl; rewrite Hs0; [|congruence]. intros r' Hr'. simplify_eq.
  rewrite String.eqb_refl, Hc. simpl. apply wp_ret, wp_bind, wp_now. intros t1 s2 Hs2.
  apply wp_bind, wp_modify, wp_ret. split; [done |]. simpl. by rewrite Hs2.
Qed.

Lemma skip_spec `{!NoFaults} f rf (s : St AbsDB) :
  skippable (tasks_of s) -> tasks_of s !! f = Some rf ->
  wp (SkipDownstreamTasks f) s
    (fun x s' => x.2 = None /\
       (forall k, k ∈ x.1 <-> tc (edge (tasks_of s)) f k /\
          exists r, tasks_of s !! k = Some r /\ is_terminal (TR.State r) = false) /\
       exists T', st_db s' = with_tasks T' (st_db s) /\ skipped_map (fun k _ => k ∈ x.1) (tasks_of s) T')
    (fun _ => False).
Proof.
  intros Hfit Hf. unfold SkipDownstreamTasks. apply wp_bind, GetTask_ok. intros s1 Hs1. rewrite Hf.
  apply wp_bind, wp_gets, wp_bind. rewrite edges_open, Hs1.
  set (q := TR.DownstreamTaskIDs rf).
  assert (skipping (st_db s) q ∅ q [] s1) as Hstart.
  { split; try (intros; set_solver).
    - exists (tasks_of s). rewrite Hs1. split_and!; [by destruct s as [[]] | | by intros ? ?%elem_of_nil].
      apply skipped_none. by intros ? ? _ ?%elem_of_nil. }
  pose proof (skipLoop_exact (st_db s) q (S (length q + open_edges ∅ (tasks_of s))) ∅ q [] s1 Hfit Hstart) as Hx.
  pose proof (skipLoop_terminates (S (length q + open_edges ∅ (tasks_of s))) ∅ q [] s1) as Ht.
  unfold wp in *. rewrite Hs1 in Ht. specialize (Ht ltac:(lia)).
  destruct (skipLoop _ _ _ _ s1) as [s2 [rest l] | s2]; [|done]. simpl in *. subst rest.
  destruct Hx as [v [K1 K2 K3 K4 K5 K6]]. split_and!; [done | |].
  2: { destruct K1 as (T' & Hd & Hm & _). by exists T'. }
  assert (forall x k, rtc (edge (tasks_of s)) x k -> x ∈ v -> k ∈ v) as Hclosed.
  { induction 1 as [|x y k Hxy _ IH]; [done |]. intros Hxv. apply IH.
    destruct (K4 x y Hxv Hxy) as [?|?%elem_of_nil]; done. }
  intros k. split.
  - intros Hk. split; [|destruct K1 as (_ & _ & _ & Hl); by apply Hl].
    destruct (K5 k) as (x & Hxq & Hr); [left; by apply K2 |].
    eapply tc_rtc_r; [|done]. apply tc_once. by exists rf.
  - intros [Htc (r & Hr & Hter)]. eapply K3; [|done|done].
    assert (exists y, y ∈ q /\ rtc (edge (tasks_of s)) y k) as (y & Hy & Hyk).
    { inversion Htc as [? ? (rf' & ? & ?) | ? y ? (rf' & ? & ?) Hyk]; simplify_eq; [by exists k |].
      exists y. split; [done | by apply tc_rtc]. }
    apply (Hclosed y); [done |]. destruct (K6 y Hy) as [?|?%elem_of_nil]; done.
Qed.

End Specs.

(** ** Theorems *)

(** C15. The store refines maps of records. Every sequence of operations of the
    store other than [CancelWorkflowTasks], run on bbolt, gives the replies it gives
    on finite maps of records and leaves a database that represents the resulting
    maps, for every clock and all faults: encoding, decoding and the buckets never
    show. It relies on documented behaviour of bbolt and protobuf only;
    [CancelWorkflowTasks] writes to the bucket it iterates over, which bbolt leaves
    undefined, and is left out. *)
Theorem store_refinement `{Env} {B : Type} `{BoltLaws B} `{ProtobufLaws}
  ops (s : St (BoltDB B)) :
  forallb (fun op => negb (is_cancel op)) ops = true -> bolt_ok (st_db s) ->
  match run_ops ops s with
  | Done s' replies => bolt_ok (st_db s') /\ run_ops (D := AbsDB) ops (st_abs s) = Done (st_abs s') replies
  | Crashed s' => bolt_ok (st_db s') /\ run_ops (D := AbsDB) ops (st_abs s) = Crashed (st_abs s')
  end.
Proof. intros Hc Hs. exact (sim_run_ops ops Hc s Hs). Qed.

Section Effects.
Context `{Env} {D : Type} `{RecordDBCore D}.

Definition atasks (s : St D) : gmap string TaskStateRecord := AbsDB.tasks (db_abs (st_db s)).

Lemma refines_run {A} (m : M (St D) A) m' (s : St D) (Q : A -> St AbsDB -> Prop) E :
  refines st_abs st_ok m m' -> st_ok s -> wp m' (st_abs s) Q E ->
  match m s with Done s' a => Q a (st_abs s') | Crashed s' => E (st_abs s') end.
Proof. intros Hm Hs Hw. specialize (Hm s Hs). unfold wp in Hw. destruct (m s); destruct Hm as [_ E']; by rewrite E' in Hw. Qed.

(** C18. Completion unblocks. A completion that the store accepts and that is not a
    repetition marks the task COMPLETE with its output under the same execution id;
    every PENDING task loses one open dependency for each time the completed task
    lists it downstream, and is QUEUED when none is left; no other record changes;
    and the ids returned are, each once, the tasks that became QUEUED. *)
Theorem complete_unblocks k e output (s s' : St D) ready r :
  st_ok s -> db_stable (db_abs (st_db s)) -> CompleteTask k e output s = Done s' (ready, None) ->
  atasks s !! k = Some r -> TR.State r <> TASK_COMPLETE ->
  (exists r', atasks s' !! k = Some r' /\ TR.State r' = TASK_COMPLETE /\ TR.Output r' = output /\
     TR.ExecutionID r' = e /\ TR.DownstreamTaskIDs r' = TR.DownstreamTaskIDs r) /\
  (forall x rx, x <> k -> atasks s !! x = Some rx -> TR.State rx = TASK_PENDING ->
     exists rx', atasks s' !! x = Some rx' /\ settled (occ x (TR.DownstreamTaskIDs r)) rx rx') /\
  (forall x rx, x <> k -> atasks s !! x = Some rx -> TR.State rx <> TASK_PENDING -> atasks s' !! x = Some rx) /\
  (forall x, x <> k -> atasks s !! x = None -> atasks s' !! x = None) /\
  NoDup ready /\
  (forall x, x ∈ ready <-> exists rx, x <> k /\ atasks s !! x = Some rx /\ TR.State rx = TASK_PENDING /\
     (0 < occ x (TR.DownstreamTaskIDs r))%nat /\ TR.InDegree rx <= Z.of_nat (occ x (TR.DownstreamTaskIDs r))).
Proof.
  intros Hs Hst E Hr Hn.
  pose proof (refines_run _ _ s _ _ (sim_CompleteTask k e output) Hs (CompleteTask_spec k e output (st_abs s) Hst)) as Hw.
  rewrite E in Hw. simpl in Hw. destruct Hw as [(r0 & Hr0 & He & [[Hc _] | (_ & tm & T' & Hu & Hd)])];
  unfold atasks in *; rewrite Hr in Hr0; injection Hr0 as <-; [done |].
  rewrite Hd. simpl. set (r1 := canonTask (completed_record output tm r)) in *.
  assert (TR.State r1 = TASK_COMPLETE) as Hs1 by (by destruct r).
  assert (forall x, x <> k -> (<[k := r1]> (AbsDB.tasks (db_abs (st_db s)))) !! x = AbsDB.tasks (db_abs (st_db s)) !! x)
    as Hne by (intros; by apply lookup_insert_ne).
  split_and!.
  - exists r1. split_and!; [| done | by destruct r | by destruct r |].
    + apply (unb_other _ _ _ _ Hu); [apply lookup_insert_eq | by rewrite Hs1].
    + destruct (Hst k r Hr) as [(_ & _ & _ & _ & Hc)%stable_fields _]. by destruct r.
  - intros x rx Hx Hrx Hp. apply (unb_pending _ _ _ _ Hu); [by rewrite Hne | done].
  - intros x rx Hx Hrx Hp. apply (unb_other _ _ _ _ Hu); [by rewrite Hne | done].
  - intros x Hx Hrx. apply (unb_none _ _ _ _ Hu). by rewrite Hne.
  - apply (unb_NoDup _ _ _ _ Hu).
  - intros x. rewrite (unb_ready _ _ _ _ Hu). split; intros (rx & Hrx); exists rx.
    + destruct (decide (x = k)) as [->|Hx]; [|rewrite Hne in Hrx; tauto].
      destruct Hrx as (Hrx & Hp & _). rewrite lookup_insert_eq in Hrx. injection Hrx as <-. by rewrite Hs1 in Hp.
    + destruct Hrx as (Hx & Hrx & ?). by rewrite Hne.
Qed.

(** Stale completions. A completion under an execution id that is not the
    task's current one is rejected (with [ErrStaleExecution] unless the transaction
    itself fails), unblocks nothing and changes no record. *)
Theorem stale_completion k e output (s : St D) r :
  st_ok s -> atasks s !! k = Some r -> TR.ExecutionID r <> e ->
  match CompleteTask k e output s with
  | Done s' (ready, err) =>
      ready = [] /\ err <> None /\ st_db s' = st_db s /\ (NoFaults -> err = Some ErrStaleExecution)
  | Crashed s' => st_db s' = st_db s
  end.
Proof.
  intros Hs Hr He.
  pose proof (refines_run _ _ s _ _ (sim_CompleteTask k e output) Hs (stale_spec k e output (st_abs s) r Hr He)) as Hw.
  pose proof (atomic_write (OpCompleteTask k e output) s) as Ha. unfold wp in Ha. simpl in Ha.
  destruct (CompleteTask k e output s) as [s' [ready err] | s']; [|done].
  simpl in *. destruct Hw as (-> & Herr & Hnf). split_and!; auto.
Qed.

(** Repeated completions. When no transaction fails, reporting a task that is
    already COMPLETE under the same execution id succeeds, unblocks nothing and
    changes no record. *)
Theorem repeated_completion `{!NoFaults} k e output (s : St D) r :
  st_ok s -> atasks s !! k = Some r -> TR.ExecutionID r = e -> TR.State r = TASK_COMPLETE ->
  exists s', CompleteTask k e output s = Done s' ([], None) /\ atasks s' = atasks s.
Proof.
  intros Hs Hr He Hc.
  pose proof (refines_run _ _ s _ _ (sim_CompleteTask k e output) Hs
    (repeated_spec k e output (st_abs s) r Hr He Hc)) as Hw.
  destruct (CompleteTask k e output s) as [s' x | s']; [|done]. destruct Hw as [-> Hd]. exists s'. split; [done |].
  unfold atasks. change (db_abs (st_db s')) with (st_db (st_abs s')). by rewrite Hd.
Qed.

(** C28. The loop of [SkipDownstreamTasks] ends: with the fuel it is given its queue
    is empty when it returns, whatever transactions fail. *)
Theorem skip_terminates queue (s s' : St D) rest skipped :
  st_ok s -> skipLoop (S (length queue + edges (task_each (st_db s)))) ∅ queue [] s = Done s' (rest, skipped) ->
  rest = [].
Proof.
  intros Hs E.
  assert (task_each (st_db s) = task_each (db_abs (st_db s))) as Ht by (by apply task_each_abs).
  rewrite Ht, edges_open in E.
  pose proof (skipLoop_terminates (S (length queue + open_edges ∅ (atasks s))) ∅ queue [] (st_abs s)) as Hw.
  apply (refines_run _ _ s _ _ (sim_skipLoop _ _ _ _) Hs) in Hw; [|simpl; unfold atasks; lia].
  unfold atasks in Hw. by rewrite E in Hw.
Qed.

(** Completion of a workflow. [IsWorkflowComplete] answers true exactly when
    every task of the workflow is COMPLETE, FAILED or SKIPPED. *)
Theorem workflow_complete_iff w (s s' : St D) b :
  st_ok s -> IsWorkflowComplete w s = Done s' (b, None) ->
  b = true <-> forall k r, atasks s !! k = Some r -> TR.WorkflowID r = w -> is_terminal (TR.State r) = true.
Proof.
  intros Hs E.
  pose proof (refines_run _ _ s _ _ (sim_IsWorkflowComplete w) Hs (IsWorkflowComplete_spec w (st_abs s))) as Hw.
  rewrite E in Hw. simpl in Hw. destruct Hw as [_ Hb]. rewrite (Hb eq_refl), negb_true_iff, <- not_true_iff_false, existsb_exists.
  unfold unfinished. split.
  - intros Hn k r Hr Hw. destruct (is_terminal (TR.State r)) eqn:Ht; [done |]. destruct Hn. exists r. split.
    + apply list_elem_of_In, list_elem_of_fmap. exists (k, r). by rewrite elem_of_sorted_entries.
    + by rewrite Ht, Hw, String.eqb_refl.
  - intros Hall (r & Hin & [Hw%String.eqb_eq Ht%negb_true_iff]%andb_true_iff).
    apply list_elem_of_In, list_elem_of_fmap in Hin as ([k r'] & -> & Hin%elem_of_sorted_entries).
    pose proof (Hall k r' Hin Hw). simpl in *. congruence.
Qed.

End Effects.

(** Cancellation. On a store that keeps [RecordDBLaws], so that the loop that writes
    visits every record once (which bbolt does not promise), a cancellation that
    succeeds skips exactly the unfinished tasks of the workflow and reports each once; a
    skipped record keeps everything but its state and timestamp; no other record
    changes. *)
Theorem cancel_effect `{Env} {D : Type} `{RecordDBLaws D} w (s s' : St D) cancelled :
  st_ok s -> (forall k r, atasks s !! k = Some r -> TR.TaskID r = k) ->
  CancelWorkflowTasks w s = Done s' (cancelled, None) ->
  NoDup cancelled /\
  (forall k, k ∈ cancelled <-> exists r, atasks s !! k = Some r /\ TR.WorkflowID r = w /\
     is_terminal (TR.State r) = false) /\
  forall k, match atasks s !! k with
            | None => atasks s' !! k = None
            | Some r => (k ∈ cancelled /\ exists tm, atasks s' !! k = Some (canonTask (skip_record tm r))) \/
                        ((k ∉ cancelled) /\ atasks s' !! k = Some r)
            end.
Proof.
  intros Hs Hkey E.
  pose proof (refines_run _ _ s _ _ (sim_CancelWorkflowTasks w) Hs (CancelWorkflowTasks_spec w (st_abs s))) as Hw.
  rewrite E in Hw. simpl in Hw. destruct Hw as (-> & T' & Hm & Hd).
  destruct (select_ids (unfinished w) (atasks s) Hkey) as [Hnd Hin]. fold (atasks s) in *.
  assert (forall r, unfinished w r = true <-> TR.WorkflowID r = w /\ is_terminal (TR.State r) = false) as Hun.
  { intros r. unfold unfinished. rewrite andb_true_iff, negb_true_iff. by rewrite String.eqb_eq. }
  split_and!; [done | |].
  - intros k. rewrite Hin. split; intros (r & Hr & Hu); exists r; (split; [done |]); by apply Hun.
  - intros k. specialize (Hm k). unfold atasks in *. rewrite Hd. simpl.
    destruct (AbsDB.tasks (db_abs (st_db s)) !! k) as [r|] eqn:Hr; [|done].
    destruct Hm as [[Hu Hm] | [Hu Hm]]; [left | right]; (split; [|done]).
    + apply Hin. eauto.
    + rewrite Hin. intros (r' & Hr' & ?). congruence.
Qed.
