(* ===== verification/Dag.v ===== *)
(** * DAG validation

    [internal/coordinator/dag.go]: duplicate and missing task ids, the downstream
    adjacency and the in-degrees, and cycle detection by depth-first search. *)

From S2P Require Import Prelude Proto.

(** ** Definitions *)

Module DAG.
Record t := mk {
  tasks : gmap string TaskSpec;
  dependencies : gmap string (list string);
  downstream : gmap string (list string);
  inDegree : gmap string Z
}.
End DAG.
Abbreviation DAG := DAG.t.

(** The loop that builds the maps; [None] is [ErrDuplicateTaskID]. *)
Fixpoint buildTasks (l : list TaskSpec) (d : DAG) : option DAG :=
  match l with
  | [] => Some d
  | task :: l =>
      match DAG.tasks d !! TS.TaskId task with
      | Some _ => None
      | None =>
          buildTasks l (DAG.mk (<[TS.TaskId task := task]> (DAG.tasks d))
                               (<[TS.TaskId task := TS.Dependencies task]> (DAG.dependencies d))
                               (<[TS.TaskId task := []]> (DAG.downstream d))
                               (<[TS.TaskId task := 0]> (DAG.inDegree d)))
      end
  end.

(** The first dependency that is not a task, in the order of the loops. *)
Fixpoint missingIn (tasks : gmap string TaskSpec) (deps : list string) : option string :=
  match deps with
  | [] => None
  | dep :: deps => match tasks !! dep with
                   | Some _ => missingIn tasks deps
                   | None => Some dep
                   end
  end.

Fixpoint missingDependency (tasks : gmap string TaskSpec) (l : list (string * list string)) : option GoError :=
  match l with
  | [] => None
  | (taskID, deps) :: l =>
      match missingIn tasks deps with
      | Some dep => Some (Errorf [taskID; dep] ErrMissingDependency)
      | None => missingDependency tasks l
      end
  end.

(** [downstream[dep] = append(downstream[dep], taskID); inDegree[taskID]++]. *)
Definition addEdge (taskID : string) (g : gmap string (list string) * gmap string Z) (dep : string)
  : gmap string (list string) * gmap string Z :=
  (<[dep := default [] (g.1 !! dep) ++ [taskID]]> g.1,
   <[taskID := int32 (default 0 (g.2 !! taskID) + 1)]> g.2).

Definition addEdges (g : gmap string (list string) * gmap string Z) (l : list (string * list string))
  : gmap string (list string) * gmap string Z :=
  foldl (fun g p => foldl (addEdge p.1) g p.2) g l.

(** The colours of the search: 0 white, 1 gray, 2 black; a missing key reads 0. *)
Definition color (c : gmap string Z) (x : string) : Z := default 0 (c !! x).

(** The loop over the dependencies inside [visit]. *)
Fixpoint visitAll (v : gmap string Z -> string -> option (gmap string Z * option GoError))
  (c : gmap string Z) (l : list string) : option (gmap string Z * option GoError) :=
  match l with
  | [] => Some (c, None)
  | x :: l => match v c x with
              | Some (c', None) => visitAll v c' l
              | r => r
              end
  end.

(** [visit]; [None] when the recursion is deeper than the fuel. *)
Fixpoint visit (fuel : nat) (deps : gmap string (list string)) (c : gmap string Z) (taskID : string)
  : option (gmap string Z * option GoError) :=
  match fuel with
  | O => None
  | S fuel =>
      if color c taskID =? 1 then Some (c, Some (Errorf [taskID] ErrCyclicDAG))
      else if color c taskID =? 2 then Some (c, None)
      else
        match visitAll (visit fuel deps) (<[taskID := 1]> c) (default [] (deps !! taskID)) with
        | Some (c', None) => Some (<[taskID := 2]> c', None)
        | r => r
        end
  end.

(** The loop of [hasCycle] visits the tasks that are still white. *)
Definition visitWhite (fuel : nat) (deps : gmap string (list string)) (c : gmap string Z) (taskID : string)
  : option (gmap string Z * option GoError) :=
  if color c taskID =? 0 then visit fuel deps c taskID else Some (c, None).

(** The recursion is at most as deep as there are tasks, since every active call
    has its own gray task. *)
Definition hasCycle (s : seed) (d : DAG) : option (option GoError) :=
  snd <$> visitAll (visitWhite (S (size (DAG.tasks d))) (DAG.dependencies d))
                   ((fun _ => 0) <$> DAG.tasks d) (range_map s (DAG.tasks d)).*1.

(** [order n] is the order of the [n]-th loop over a map. *)
Definition ValidateAndSort (order : nat -> seed) (workflow : WorkflowSpec) : option (GoError + DAG) :=
  match buildTasks (WF.Tasks workflow) (DAG.mk ∅ ∅ ∅ ∅) with
  | None => Some (inl ErrDuplicateTaskID)
  | Some dag =>
      match missingDependency (DAG.tasks dag) (range_map (order 0%nat) (DAG.dependencies dag)) with
      | Some e => Some (inl e)
      | None =>
          let '(ds, ind) := addEdges (DAG.downstream dag, DAG.inDegree dag)
                              (range_map (order 1%nat) (DAG.dependencies dag)) in
          let dag := DAG.mk (DAG.tasks dag) (DAG.dependencies dag) ds ind in
          match hasCycle (order 2%nat) dag with
          | None => None
          | Some (Some e) => Some (inl e)
          | Some None => Some (inr dag)
          end
      end
  end.

Definition GetInDegree (d : DAG) : gmap string Z := DAG.inDegree d.
Definition GetDownstream (d : DAG) (taskID : string) : list string := default [] (DAG.downstream d !! taskID).
Definition GetDependencies (d : DAG) (taskID : string) : list string := default [] (DAG.dependencies d !! taskID).
Definition GetReadyTasks (s : seed) (d : DAG) : list string :=
  (filter (fun p => p.2 = 0) (range_map s (DAG.inDegree d))).*1.
Definition GetTaskSpec (d : DAG) (taskID : string) : option TaskSpec := DAG.tasks d !! taskID.
Definition GetAllTaskSpecs (d : DAG) : gmap string TaskSpec := DAG.tasks d.
Definition GetAllDownstream (d : DAG) : gmap string (list string) := DAG.downstream d.

(** ** What validation means *)

(** Task [x] lists [y] as a dependency. *)
Definition depends (l : list TaskSpec) (x y : string) : Prop :=
  exists t, t ∈ l /\ TS.TaskId t = x /\ y ∈ TS.Dependencies t.

Definition unique_ids (w : WorkflowSpec) : Prop := NoDup (TS.TaskId <$> WF.Tasks w).

Definition closed (w : WorkflowSpec) : Prop :=
  forall x y, depends (WF.Tasks w) x y -> y ∈ TS.TaskId <$> WF.Tasks w.

Definition cyclic (w : WorkflowSpec) : Prop :=
  exists x, tc (depends (WF.Tasks w)) x x.

(** ** The depth-first search *)

Section Search.
Context (deps : gmap string (list string)).

Definition dep_of (x y : string) : Prop := y ∈ default [] (deps !! x).

(** Every chain of dependencies from [x] ends. *)
Abbreviation grounded := (Acc (flip dep_of)).

Definition black (c : gmap string Z) (x : string) : Prop := color c x = 2.
Definition gray (c : gmap string Z) (x : string) : Prop := color c x = 1.

(** What a search that finds no cycle from the nodes [l] does to the colours. *)
Definition searched (c c' : gmap string Z) (l : list string) : Prop :=
  (forall x, x ∈ l -> black c' x) /\
  (forall x, black c x -> black c' x) /\
  (forall x, gray c' x <-> gray c x) /\
  (forall x, color c' x = color c x \/ black c' x) /\
  ((forall x, black c x -> grounded x) -> forall x, black c' x -> grounded x).

Lemma color_insert c x y v : color (<[x := v]> c) y = if decide (x = y) then v else color c y.
Proof. unfold color. rewrite lookup_insert. by case_decide. Qed.

Lemma searched_nil c : searched c c [].
Proof. split_and!; [by intros ? ?%elem_of_nil | by auto..]. Qed.

Lemma searched_cons c c1 c2 x l : searched c c1 [x] -> searched c1 c2 l -> searched c c2 (x :: l).
Proof.
  intros (Hx & Hb & Hg & Hk & Ha) (Hl & Hb' & Hg' & Hk' & Ha'). split_and!.
  - intros y [-> | Hy]%elem_of_cons; [apply Hb', Hx; by left | by apply Hl].
  - eauto.
  - intros y. by rewrite Hg', Hg.
  - intros y. destruct (Hk' y) as [-> | ?]; [|by right]. destruct (Hk y); [by left | right; by apply Hb'].
  - eauto.
Qed.

Lemma visitAll_searched v l c c' :
  (forall c x c', v c x = Some (c', None) -> searched c c' [x]) ->
  visitAll v c l = Some (c', None) -> searched c c' l.
Proof.
  intros Hv. revert c. induction l as [|x l IH]; intros c E; simpl in E.
  - simplify_eq. apply searched_nil.
  - destruct (v c x) as [[c1 [e|]]|] eqn:Ev; simplify_eq.
    eapply searched_cons; eauto.
Qed.

Lemma visit_searched n c u c' : visit n deps c u = Some (c', None) -> searched c c' [u].
Proof.
  revert c u c'. induction n as [|n IH]; intros c u c' E; simpl in E; [done |].
  destruct (Z.eqb_spec (color c u) 1) as [|Hn1]; [done |].
  destruct (Z.eqb_spec (color c u) 2) as [H2|Hn2].
  { simplify_eq. split_and!; [by intros x ->%list_elem_of_singleton | by auto..]. }
  destruct (visitAll _ _ _) as [[c1 [e|]]|] eqn:Ev; simplify_eq.
  apply visitAll_searched in Ev; [|apply IH]. destruct Ev as (Hl & Hb & Hg & Hk & Ha).
  unfold black, gray in *. split_and!.
  - intros x ->%list_elem_of_singleton. unfold black. rewrite color_insert. by case_decide.
  - intros x Hx. unfold black. rewrite color_insert. case_decide; [done |].
    apply Hb. rewrite color_insert. by case_decide.
  - intros x. unfold gray. rewrite color_insert. case_decide as Hu; [by subst |].
    rewrite Hg, color_insert. by case_decide.
  - intros x. unfold black. rewrite color_insert. case_decide as Hu; [by right |].
    specialize (Hk x). rewrite color_insert in Hk. by case_decide.
  - intros Hg0.
    assert (forall x, color c1 x = 2 -> grounded x) as Hg1.
    { apply Ha. intros x. rewrite color_insert. case_decide; [done | apply Hg0]. }
    intros x. unfold black. rewrite color_insert. case_decide as Hu; [|apply Hg1].
    subst. intros _. constructor. intros y Hy. apply Hg1, Hl, Hy.
Qed.

(** A reported cycle is one: the gray tasks lead to the task being visited. *)
Definition leads (c : gmap string Z) (u : string) : Prop := forall g, gray c g -> tc dep_of g u.

Lemma visit_cycle n c u c' e :
  visit n deps c u = Some (c', Some e) -> leads c u -> exists x, tc dep_of x x.
Proof.
  revert c u c'. induction n as [|n IH]; intros c u c' E Hc; simpl in E; [done |].
  destruct (Z.eqb_spec (color c u) 1) as [H1|Hn1]; [exists u; by apply Hc |].
  destruct (Z.eqb_spec (color c u) 2) as [|Hn2]; [done |].
  destruct (visitAll _ _ _) as [[c1 [e'|]]|] eqn:Ev; simplify_eq.
  assert (forall l c0, visitAll (visit n deps) c0 l = Some (c', Some e) ->
    (forall x, x ∈ l -> dep_of u x) -> (forall g, gray c0 g <-> gray (<[u := 1]> c) g) ->
    exists x, tc dep_of x x) as Hall.
  { clear Ev. induction l as [|x l IHl]; intros c0 Ev Hl Hg; simpl in Ev; [done |].
    destruct (visit n deps c0 x) as [[c2 [e2|]]|] eqn:Ex; simplify_eq.
    - eapply IH; [done |]. intros g Hgr. apply Hg in Hgr. unfold gray in Hgr.
      rewrite color_insert in Hgr. case_decide as Hu.
      + subst. apply tc_once, Hl. by left.
      + eapply tc_r; [by apply Hc | apply Hl; by left].
    - eapply IHl; [done | intros; apply Hl; by right |].
      intros g. apply visit_searched in Ex as (_ & _ & Hgr & _). by rewrite Hgr. }
  eapply Hall; [done | by intros x | done].
Qed.

Lemma visitAll_error v c l c' e :
  (forall c x c' e, v c x = Some (c', Some e) -> exists y, e = Errorf [y] ErrCyclicDAG) ->
  visitAll v c l = Some (c', Some e) -> exists y, e = Errorf [y] ErrCyclicDAG.
Proof.
  intros Hv. revert c. induction l as [|x l IH]; intros c E; simpl in E; [done |].
  destruct (v c x) as [[c1 [e1|]]|] eqn:Ex; simplify_eq; eauto.
Qed.

Lemma visit_error n c u c' e :
  visit n deps c u = Some (c', Some e) -> exists y, e = Errorf [y] ErrCyclicDAG.
Proof.
  revert c u c' e. induction n as [|n IH]; intros c u c' e E; simpl in E; [done |].
  destruct (color c u =? 1); [simplify_eq; eauto |]. destruct (color c u =? 2); [done |].
  destruct (visitAll _ _ _) as [[c1 [e'|]]|] eqn:Ev; simplify_eq.
  by apply visitAll_error in Ev.
Qed.

(** The fuel suffices: each level of the recursion colours a task. *)
Context (T : gset string).

Definition whites (c : gmap string Z) : gset string :=
  filter (fun x => color c x <> 1 /\ color c x <> 2) T.

Lemma searched_whites c c' l : searched c c' l -> whites c' ⊆ whites c.
Proof.
  intros (_ & Hb & Hg & _ & _) x. unfold whites. rewrite !elem_of_filter.
  intros [[H1 H2] Hx]. split_and!; [| |done].
  - intros E. apply H1. by apply Hg.
  - intros E. apply H2. by apply Hb.
Qed.

Lemma visitAll_fuel n v l c :
  (forall c x, x ∈ l -> (size (whites c) < n)%nat -> v c x <> None) ->
  (forall c x c', v c x = Some (c', None) -> searched c c' [x]) ->
  (size (whites c) < n)%nat -> visitAll v c l <> None.
Proof.
  intros Hv Hs. revert c. induction l as [|x l IH]; intros c Hc; simpl; [done |].
  destruct (v c x) as [[c1 [e|]]|] eqn:Ex; [done | |].
  - apply IH; [intros; apply Hv; [by right | done] |].
    apply Hs, searched_whites, subseteq_size in Ex. lia.
  - by destruct (Hv c x ltac:(by left) Hc).
Qed.

Lemma visit_fuel n c u :
  (forall x y, x ∈ T -> dep_of x y -> y ∈ T) ->
  u ∈ T -> (size (whites c) < n)%nat -> visit n deps c u <> None.
Proof.
  intros Hcl. revert c u. induction n as [|n IH]; intros c u Hu Hn; simpl; [lia |].
  destruct (Z.eqb_spec (color c u) 1) as [|Hn1]; [done |].
  destruct (Z.eqb_spec (color c u) 2) as [|Hn2]; [done |].
  assert (whites (<[u := 1]> c) ⊂ whites c) as Hlt.
  { unfold whites. split.
    - intros x. rewrite !elem_of_filter, color_insert. case_decide; [by intros [[] ?] | done].
    - intros Hsub. assert (u ∈ whites (<[u := 1]> c)) as Hw.
      { apply Hsub. unfold whites. by rewrite elem_of_filter. }
      unfold whites in Hw. rewrite elem_of_filter, color_insert in Hw.
      case_decide; [by destruct Hw as [[] ?] | done]. }
  apply subset_size in Hlt.
  destruct (visitAll _ _ _) as [[c1 [e|]]|] eqn:Ev; [done | done |].
  exfalso. revert Ev. apply (visitAll_fuel n); [| apply visit_searched | lia].
  intros c0 x Hx Hc0. apply IH; [by eapply Hcl | done].
Qed.

End Search.

(** ** The maps *)

Abbreviation ids l := (TS.TaskId <$> l).

(** The DAG that the first loop makes of a list of tasks with distinct ids. *)
Record built (l : list TaskSpec) (d d' : DAG) : Prop := {
  built_NoDup : NoDup (ids l);
  built_fresh t : t ∈ l -> DAG.tasks d !! TS.TaskId t = None;
  built_in t : t ∈ l ->
    DAG.tasks d' !! TS.TaskId t = Some t /\
    DAG.dependencies d' !! TS.TaskId t = Some (TS.Dependencies t) /\
    DAG.downstream d' !! TS.TaskId t = Some [] /\
    DAG.inDegree d' !! TS.TaskId t = Some 0;
  built_out x : x ∉ ids l ->
    DAG.tasks d' !! x = DAG.tasks d !! x /\
    DAG.dependencies d' !! x = DAG.dependencies d !! x /\
    DAG.downstream d' !! x = DAG.downstream d !! x /\
    DAG.inDegree d' !! x = DAG.inDegree d !! x
}.

Lemma buildTasks_built l d d' : buildTasks l d = Some d' -> built l d d'.
Proof.
  revert d. induction l as [|t l IH]; intros d E; simpl in E.
  { simplify_eq. split; try by intros ? ?%elem_of_nil. constructor. done. }
  destruct (DAG.tasks d !! TS.TaskId t) eqn:Et; [done |].
  apply IH in E as [Hnd Hfr Hin Hout]. simpl in *.
  assert (TS.TaskId t ∉ ids l) as Hnin.
  { intros (t' & Ht' & Hin')%list_elem_of_fmap. apply Hfr in Hin'. rewrite <- Ht' in Hin'.
    by rewrite lookup_insert_eq in Hin'. }
  split.
  - rewrite fmap_cons. by constructor.
  - intros t' [-> | Ht']%elem_of_cons; [done |]. apply Hfr in Ht' as H'.
    rewrite lookup_insert in H'. by case_decide.
  - intros t' [-> | Ht']%elem_of_cons; [|by apply Hin].
    destruct (Hout _ Hnin) as (-> & -> & -> & ->). by rewrite !lookup_insert_eq.
  - intros x Hx. rewrite fmap_cons, not_elem_of_cons in Hx. destruct Hx as [Hne Hx].
    destruct (Hout _ Hx) as (-> & -> & -> & ->). by rewrite !lookup_insert_ne by done.
Qed.

Lemma buildTasks_dup l d :
  buildTasks l d = None -> (forall t, t ∈ l -> DAG.tasks d !! TS.TaskId t = None) -> ~ NoDup (ids l).
Proof.
  revert d. induction l as [|t l IH]; intros d E Hd; simpl in E; [done |].
  rewrite (Hd t) in E by (by left). rewrite fmap_cons, NoDup_cons. intros [Hnin Hnd].
  apply IH in E; [done |]. simpl. intros t' Ht'. rewrite lookup_insert_ne; [apply Hd; by right |].
  intros Heq. apply Hnin. rewrite Heq. by apply list_elem_of_fmap_2.
Qed.

Section Built.
Context (l : list TaskSpec) (d : DAG) (Hb : built l (DAG.mk ∅ ∅ ∅ ∅) d).

Lemma built_tasks x : is_Some (DAG.tasks d !! x) <-> x ∈ ids l.
Proof.
  split.
  - intros [t Ht]. destruct (decide (x ∈ ids l)) as [|Hn]; [done |].
    destruct (built_out _ _ _ Hb x Hn) as (E & _). by rewrite E in Ht.
  - intros (t & -> & Ht)%list_elem_of_fmap. destruct (built_in _ _ _ Hb t Ht) as (-> & _). by eexists.
Qed.

Lemma built_dom : dom (DAG.tasks d) = list_to_set (ids l).
Proof. apply set_eq. intros x. by rewrite elem_of_dom, elem_of_list_to_set, built_tasks. Qed.

Lemma built_dependencies x deps :
  DAG.dependencies d !! x = Some deps <-> exists t, t ∈ l /\ TS.TaskId t = x /\ TS.Dependencies t = deps.
Proof.
  split.
  - intros E. destruct (decide (x ∈ ids l)) as [(t & -> & Ht)%list_elem_of_fmap|Hn].
    + destruct (built_in _ _ _ Hb t Ht) as (_ & E' & _). rewrite E' in E. simplify_eq. eauto.
    + destruct (built_out _ _ _ Hb x Hn) as (_ & E' & _). by rewrite E' in E.
  - intros (t & Ht & <- & <-). by destruct (built_in _ _ _ Hb t Ht) as (_ & -> & _).
Qed.

Lemma built_dom_dependencies : dom (DAG.dependencies d) = list_to_set (ids l).
Proof.
  apply set_eq. intros x. rewrite elem_of_dom, elem_of_list_to_set. split.
  - intros [deps (t & Ht & <- & _)%built_dependencies]. by apply list_elem_of_fmap_2.
  - intros (t & -> & Ht)%list_elem_of_fmap. exists (TS.Dependencies t). apply built_dependencies. eauto.
Qed.

Lemma built_dep_of x y : dep_of (DAG.dependencies d) x y <-> depends l x y.
Proof.
  unfold dep_of, depends. split.
  - destruct (DAG.dependencies d !! x) as [deps|] eqn:E; simpl; [|by intros ?%elem_of_nil].
    apply built_dependencies in E as (t & Ht & <- & <-). eauto.
  - intros (t & Ht & <- & Hy). assert (DAG.dependencies d !! TS.TaskId t = Some (TS.Dependencies t)) as ->.
    { apply built_dependencies. eauto. }
    done.
Qed.

End Built.

Lemma missingIn_None T deps : missingIn T deps = None <-> forall y, y ∈ deps -> is_Some (T !! y).
Proof.
  induction deps as [|y deps IH]; simpl.
  - split; [by intros _ ? ?%elem_of_nil | done].
  - setoid_rewrite elem_of_cons. destruct (T !! y) as [t|] eqn:E.
    + rewrite IH. split; [intros H y' [-> | H']; [by rewrite E | auto] | auto].
    + split; [done |]. intros H. destruct (H y) as [? H']; [by left | congruence].
Qed.

Lemma missingIn_Some T deps y : missingIn T deps = Some y -> y ∈ deps /\ T !! y = None.
Proof.
  induction deps as [|z deps IH]; simpl; [done |]. destruct (T !! z) eqn:E.
  - intros H. apply IH in H as [H ?]. split; [by right | done].
  - intros [= ->]. split; [by left | done].
Qed.

Lemma missingDependency_None T l :
  missingDependency T l = None <-> forall x deps y, (x, deps) ∈ l -> y ∈ deps -> is_Some (T !! y).
Proof.
  induction l as [|[x deps] l IH]; simpl.
  - split; [by intros _ ??? ?%elem_of_nil | done].
  - destruct (missingIn T deps) as [y|] eqn:E.
    + split; [done |]. intros H. apply missingIn_Some in E as [Hy E].
      destruct (H x deps y) as [? H']; [by left | done | congruence].
    + rewrite IH. rewrite missingIn_None in E. split.
      * intros H x' deps' y [[= -> ->] | Hin]%elem_of_cons Hy; eauto.
      * intros H x' deps' y Hin. eapply H. by right.
Qed.

Lemma missingDependency_Some T l e :
  missingDependency T l = Some e ->
  exists x deps y, e = Errorf [x; y] ErrMissingDependency /\ (x, deps) ∈ l /\ y ∈ deps /\ T !! y = None.
Proof.
  induction l as [|[x deps] l IH]; simpl; [done |]. destruct (missingIn T deps) as [y|] eqn:E.
  - intros [= <-]. apply missingIn_Some in E as [Hy E]. exists x, deps, y.
    split_and!; [done | by left | done | done].
  - intros H. destruct (IH H) as (x' & deps' & y & ? & ? & ? & ?). exists x', deps', y.
    split_and!; [done | by right | done | done].
Qed.

(** ** The search on a whole DAG *)

Lemma Acc_no_cycle {A} (R : relation A) x : Acc (flip R) x -> ~ tc R x x.
Proof.
  intros Hacc. induction Hacc as [x _ IH]. intros Hc.
  inversion Hc as [? ? Hxx | ? y ? Hxy Hyx]; subst.
  - exact (IH x Hxx Hc).
  - exact (IH y Hxy (tc_r _ _ _ Hyx Hxy)).
Qed.

Lemma visitAll_white_err n deps c l c' e :
  visitAll (visitWhite n deps) c l = Some (c', Some e) ->
  (forall x, ~ gray c x) -> (exists x, tc (dep_of deps) x x) /\ exists x, e = Errorf [x] ErrCyclicDAG.
Proof.
  revert c. induction l as [|x l IH]; intros c E Hg; simpl in E; [done |].
  destruct (visitWhite n deps c x) as [[c1 [e1|]]|] eqn:Ex; simplify_eq; unfold visitWhite in Ex.
  - destruct (color c x =? 0); [|done]. split.
    + eapply visit_cycle; [done |]. intros g Hgr. by apply Hg in Hgr.
    + by apply visit_error in Ex.
  - eapply IH; [done |]. intros y Hy. destruct (color c x =? 0); simplify_eq; [|by apply (Hg y)].
    apply visit_searched in Ex as (_ & _ & Hgr & _). by apply Hgr, Hg in Hy.
Qed.

(** The loop over all tasks: it ends, and it reports a cycle exactly when the
    dependencies have one. *)
Section Whole.
Context (l : list TaskSpec) (d : DAG) (Hb : built l (DAG.mk ∅ ∅ ∅ ∅) d).
Context (Hcl : forall x y, depends l x y -> y ∈ ids l).
Context (ds : gmap string (list string)) (ind : gmap string Z) (s : seed).

Abbreviation dag := (DAG.mk (DAG.tasks d) (DAG.dependencies d) ds ind).

Lemma start_white x : color ((fun _ => 0) <$> DAG.tasks d) x = 0.
Proof. unfold color. rewrite lookup_fmap. by destruct (DAG.tasks d !! x). Qed.

Lemma visitWhites_searched n xs c c' :
  visitAll (visitWhite n (DAG.dependencies d)) c xs = Some (c', None) ->
  (forall y, color c y = 0 \/ black c y) -> searched (DAG.dependencies d) c c' xs.
Proof.
  revert c. induction xs as [|x xs IH]; intros c E Hc; simpl in E; [simplify_eq; apply searched_nil |].
  destruct (visitWhite n (DAG.dependencies d) c x) as [[c1 [e1|]]|] eqn:Ex; simplify_eq.
  assert (searched (DAG.dependencies d) c c1 [x]) as Hs.
  { unfold visitWhite in Ex. destruct (Z.eqb_spec (color c x) 0); [by eapply visit_searched |].
    simplify_eq. split_and!; [|by auto..]. intros y ->%list_elem_of_singleton. by destruct (Hc x). }
  eapply searched_cons; [done |]. apply IH; [done |]. intros y.
  destruct Hs as (_ & _ & _ & Hk & _). specialize (Hk y). specialize (Hc y). unfold black in *. lia.
Qed.

(** Without a cycle, every chain of dependencies ends. *)
Lemma hasCycle_no : hasCycle s dag = Some None -> forall x, Acc (flip (depends l)) x.
Proof.
  unfold hasCycle. simpl. destruct (visitAll _ _ _) as [[c e]|] eqn:E; [|done]. intros [= ->].
  apply visitWhites_searched in E as (Hl & _ & _ & _ & Ha); [|left; apply start_white].
  assert (forall x, x ∈ ids l -> Acc (flip (depends l)) x) as Hacc.
  { intros x (t & -> & Ht)%list_elem_of_fmap.
    assert (Acc (flip (dep_of (DAG.dependencies d))) (TS.TaskId t)) as Hx.
    { apply Ha; [unfold black; by intros y; rewrite start_white |]. apply Hl, list_elem_of_fmap.
      exists (TS.TaskId t, t). split; [done |]. apply elem_of_range_map. by apply (built_in _ _ _ Hb). }
    clear Ht. induction Hx as [x _ IH]. constructor. intros y Hy. apply IH. by apply (built_dep_of l d Hb). }
  intros x. constructor. intros y Hy. apply Hacc. by apply (Hcl x).
Qed.

Lemma hasCycle_yes e :
  hasCycle s dag = Some (Some e) ->
  (exists x, tc (depends l) x x) /\ exists x, e = Errorf [x] ErrCyclicDAG.
Proof.
  unfold hasCycle. simpl. destruct (visitAll _ _ _) as [[c e']|] eqn:E; [|done]. intros [= ->].
  apply visitAll_white_err in E as [[x Hx] He]; [|intros x; unfold gray; by rewrite start_white].
  split; [|done]. exists x. eapply (tc_congruence (fun x => x)); [|done].
  intros. by apply (built_dep_of l d Hb).
Qed.

Lemma hasCycle_total : hasCycle s dag <> None.
Proof.
  unfold hasCycle. simpl. intros E. apply fmap_None in E. revert E.
  assert (forall xs c, (forall x, x ∈ xs -> x ∈ dom (DAG.tasks d)) ->
    (forall y, color c y = 0 \/ black c y) ->
    visitAll (visitWhite (S (size (DAG.tasks d))) (DAG.dependencies d)) c xs <> None) as Hall.
  { induction xs as [|x xs IH]; intros c Hxs Hc; simpl; [done |].
    destruct (visitWhite _ _ c x) as [[c1 [e1|]]|] eqn:Ex; [done | |].
    - apply IH; [intros; apply Hxs; by right |]. intros y.
      assert (searched (DAG.dependencies d) c c1 [x]) as (_ & _ & _ & Hk & _).
      { eapply visitWhites_searched; [|done]. simpl. by rewrite Ex. }
      specialize (Hk y). specialize (Hc y). unfold black in *. lia.
    - exfalso. unfold visitWhite in Ex. destruct (color c x =? 0); [|done]. revert Ex.
      apply (visit_fuel _ (dom (DAG.tasks d))); [| apply Hxs; by left |].
      + intros y z _ Hz. apply elem_of_dom, (built_tasks l d Hb), (Hcl y), (built_dep_of l d Hb), Hz.
      + apply Nat.lt_succ_r. rewrite <- size_dom. apply subseteq_size. unfold whites. intros y [_ Hy]%elem_of_filter. done. }
  apply Hall; [|left; apply start_white].
  intros x ([y t] & -> & Ht)%list_elem_of_fmap. apply elem_of_range_map in Ht.
  apply elem_of_dom. by exists t.
Qed.

End Whole.

(** ** Downstream lists and in-degrees *)

(** The entries of a key in a list of pairs with distinct keys. *)
Lemma sum_keyed {A} (f : A -> nat) x v (l : list (string * A)) :
  NoDup l.*1 -> (x, v) ∈ l ->
  sum_list_with (fun p => if decide (p.1 = x) then f p.2 else 0%nat) l = f v.
Proof.
  induction l as [|[y u] l IH]; [by intros _ ?%elem_of_nil |].
  rewrite fmap_cons, NoDup_cons. simpl. intros [Hy Hnd] [[= -> ->] | Hin]%elem_of_cons.
  - case_decide; [|done].
    enough (sum_list_with (fun p => if decide (p.1 = y) then f p.2 else 0%nat) l = 0%nat) by lia.
    clear -Hy. induction l as [|[z w] l IH]; [done |]. simpl. simpl in Hy.
    rewrite not_elem_of_cons in Hy. destruct Hy. case_decide; [by subst | by apply IH].
  - case_decide as E; [|by apply IH]. subst. exfalso. apply Hy.
    apply list_elem_of_fmap. by exists (x, v).
Qed.

Abbreviation at_ g x := (default [] (fst g !! x)).

Lemma addEdge_downstream t dep g x y :
  occ x (at_ (addEdge t g dep) y) =
  (occ x (at_ g y) + if decide (t = x) then if decide (dep = y) then 1 else 0 else 0)%nat.
Proof.
  unfold addEdge. simpl. rewrite lookup_insert. destruct (decide (dep = y)) as [-> |]; simpl.
  - rewrite occ_app, occ_cons. change (occ x []) with 0%nat. lia.
  - case_decide; lia.
Qed.

Lemma addEdges1_downstream t deps g x y :
  occ x (at_ (foldl (addEdge t) g deps) y) =
  (occ x (at_ g y) + if decide (t = x) then occ y deps else 0)%nat.
Proof.
  revert g. induction deps as [|dep deps IH]; intros g; simpl.
  - change (occ y []) with 0%nat. case_decide; lia.
  - rewrite IH, addEdge_downstream, (occ_cons y dep deps). repeat case_decide; lia.
Qed.

Lemma addEdges_downstream l g x y :
  occ x (at_ (addEdges g l) y) =
  (occ x (at_ g y) + sum_list_with (fun p => if decide (p.1 = x) then occ y p.2 else 0%nat) l)%nat.
Proof.
  unfold addEdges. revert g. induction l as [|[t deps] l IH]; intros g; simpl; [lia |].
  rewrite IH, addEdges1_downstream. lia.
Qed.

Abbreviation deg g x := (default 0 (snd g !! x)).

Lemma addEdges1_inDegree t deps g x :
  is_int32 (deg g x) ->
  deg (foldl (addEdge t) g deps) x =
  int32 (deg g x + if decide (t = x) then Z.of_nat (length deps) else 0).
Proof.
  revert g. induction deps as [|dep deps IH]; intros g Hg; simpl.
  - case_decide; by rewrite Z.add_0_r, int32_id.
  - assert (deg (addEdge t g dep) x = if decide (t = x) then int32 (deg g x + 1) else deg g x) as E.
    { unfold addEdge. simpl. rewrite lookup_insert. by case_decide; subst. }
    rewrite IH; rewrite E; case_decide; auto with go_int.
    rewrite int32_add_l. f_equal. lia.
Qed.

Lemma addEdges_inDegree l g x :
  is_int32 (deg g x) ->
  deg (addEdges g l) x =
  int32 (deg g x + Z.of_nat (sum_list_with (fun p => if decide (p.1 = x) then length p.2 else 0%nat) l)).
Proof.
  unfold addEdges. revert g. induction l as [|[t deps] l IH]; intros g Hg; simpl.
  { by rewrite Z.add_0_r, int32_id. }
  rewrite IH; rewrite addEdges1_inDegree by done; [|apply int32_range].
  rewrite int32_add_l. f_equal. case_decide; lia.
Qed.

(** The keys of the maps do not change, since the dependencies are tasks. *)
Lemma addEdges_dom (T : gset string) l g :
  (forall t deps, (t, deps) ∈ l -> t ∈ T /\ forall y, y ∈ deps -> y ∈ T) ->
  dom g.1 = T -> dom g.2 = T -> dom (addEdges g l).1 = T /\ dom (addEdges g l).2 = T.
Proof.
  assert (forall t deps g, t ∈ T -> (forall y, y ∈ deps -> y ∈ T) -> dom g.1 = T -> dom g.2 = T ->
    dom (foldl (addEdge t) g deps).1 = T /\ dom (foldl (addEdge t) g deps).2 = T) as H1.
  { intros t. induction deps as [|y deps IH]; intros g0 Ht Hd E1 E2; simpl; [done |].
    apply IH; [done | intros; apply Hd; by right | |]; unfold addEdge; simpl;
    rewrite dom_insert_L, ?E1, ?E2; apply subseteq_union_1_L, singleton_subseteq_l;
    [apply Hd; by left | done]. }
  unfold addEdges. revert g. induction l as [|[t deps] l IH]; intros g Hl E1 E2; simpl; [done |].
  destruct (Hl t deps) as [Ht Hd]; [by left |].
  destruct (H1 t deps g Ht Hd E1 E2). apply IH; [|done..]. intros; apply Hl. by right.
Qed.

(** ** Validation *)

(** The DAG of a workflow: its tasks, their dependencies, their downstream tasks
    (with multiplicity) and the number of their dependencies. *)
Record dag_of (l : list TaskSpec) (d : DAG) : Prop := {
  dag_task t : t ∈ l ->
    DAG.tasks d !! TS.TaskId t = Some t /\
    DAG.dependencies d !! TS.TaskId t = Some (TS.Dependencies t) /\
    DAG.inDegree d !! TS.TaskId t = Some (int32 (Z.of_nat (length (TS.Dependencies t))));
  dag_downstream t t' : t ∈ l -> t' ∈ l ->
    occ (TS.TaskId t') (GetDownstream d (TS.TaskId t)) = occ (TS.TaskId t) (TS.Dependencies t');
  dag_dom_tasks : dom (DAG.tasks d) = list_to_set (ids l);
  dag_dom_dependencies : dom (DAG.dependencies d) = list_to_set (ids l);
  dag_dom_downstream : dom (DAG.downstream d) = list_to_set (ids l);
  dag_dom_inDegree : dom (DAG.inDegree d) = list_to_set (ids l);
  dag_downstream_ids x y : y ∈ GetDownstream d x -> y ∈ ids l
}.

Section Validate.
Context (l : list TaskSpec) (d : DAG) (Hb : built l (DAG.mk ∅ ∅ ∅ ∅) d).
Context (Hcl : forall x y, depends l x y -> y ∈ ids l) (s : seed).

Abbreviation g' := (addEdges (DAG.downstream d, DAG.inDegree d) (range_map s (DAG.dependencies d))).

Lemma built_start x : default [] (DAG.downstream d !! x) = [] /\ default 0 (DAG.inDegree d !! x) = 0.
Proof.
  destruct (decide (x ∈ ids l)) as [(t & -> & Ht)%list_elem_of_fmap|Hn].
  - by destruct (built_in _ _ _ Hb t Ht) as (_ & _ & -> & ->).
  - by destruct (built_out _ _ _ Hb x Hn) as (_ & _ & -> & ->).
Qed.

Lemma built_doms : dom (DAG.downstream d) = list_to_set (ids l) /\ dom (DAG.inDegree d) = list_to_set (ids l).
Proof.
  split; apply set_eq; intros x; rewrite elem_of_dom, elem_of_list_to_set; split.
  1,3: intros [v Hv]; destruct (decide (x ∈ ids l)) as [|Hn]; [done |];
       destruct (built_out _ _ _ Hb x Hn) as (_ & _ & E1 & E2); by rewrite ?E1, ?E2 in Hv.
  all: intros (t & -> & Ht)%list_elem_of_fmap;
       destruct (built_in _ _ _ Hb t Ht) as (_ & _ & E1 & E2); rewrite ?E1, ?E2; by eexists.
Qed.

Lemma edges_doms : dom g'.1 = list_to_set (ids l) /\ dom g'.2 = list_to_set (ids l).
Proof.
  destruct built_doms as [H1 H2]. apply addEdges_dom; [|done..].
  intros t deps Hin. apply elem_of_range_map, (built_dependencies l d Hb) in Hin as (t' & Ht & <- & <-).
  rewrite elem_of_list_to_set. split; [by apply list_elem_of_fmap_2 |].
  intros y Hy. rewrite elem_of_list_to_set. eapply Hcl. by exists t'.
Qed.

Lemma in_range t : t ∈ l -> (TS.TaskId t, TS.Dependencies t) ∈ range_map s (DAG.dependencies d).
Proof. intros Ht. apply elem_of_range_map, (built_dependencies l d Hb). eauto. Qed.

Lemma edges_occ t' x : t' ∈ l -> occ (TS.TaskId t') (at_ g' x) = occ x (TS.Dependencies t').
Proof.
  intros Ht'. rewrite addEdges_downstream. simpl. destruct (built_start x) as [-> _].
  rewrite (sum_keyed (occ x) _ _ _ (range_map_NoDup _ _) (in_range t' Ht')). done.
Qed.

Lemma edges_degree t : t ∈ l ->
  g'.2 !! TS.TaskId t = Some (int32 (Z.of_nat (length (TS.Dependencies t)))).
Proof.
  intros Ht. assert (is_Some (g'.2 !! TS.TaskId t)) as [v Hv].
  { apply elem_of_dom. destruct edges_doms as [_ ->]. apply elem_of_list_to_set.
    by apply list_elem_of_fmap_2. }
  rewrite Hv. f_equal. change v with (default 0 (Some v)). rewrite <- Hv.
  rewrite addEdges_inDegree; simpl; destruct (built_start (TS.TaskId t)) as [_ ->]; [|by unfold is_int32; lia].
  rewrite (sum_keyed length _ _ _ (range_map_NoDup _ _) (in_range t Ht)). done.
Qed.

Lemma edges_in x y : y ∈ at_ g' x -> y ∈ ids l.
Proof.
  intros Hy. destruct (decide (y ∈ ids l)) as [|Hn]; [done |]. exfalso.
  apply occ_elem in Hy. rewrite addEdges_downstream in Hy. simpl in Hy.
  destruct (built_start x) as [E _]. rewrite E in Hy. change (occ y []) with 0%nat in Hy.
  assert (forall p, p ∈ range_map s (DAG.dependencies d) -> p.1 <> y) as Hne.
  { intros [k v] Hp. apply elem_of_range_map, (built_dependencies l d Hb) in Hp as (t & Ht & <- & _).
    simpl. intros <-. apply Hn. by apply list_elem_of_fmap_2. }
  induction (range_map s (DAG.dependencies d)) as [|p q IH]; simpl in Hy; [lia |].
  rewrite decide_False in Hy by (apply Hne; by left). apply IH; [done |]. intros; apply Hne. by right.
Qed.

Lemma edges_dag_of : dag_of l (DAG.mk (DAG.tasks d) (DAG.dependencies d) g'.1 g'.2).
Proof.
  destruct edges_doms. split; simpl; try done.
  - intros t Ht. destruct (built_in _ _ _ Hb t Ht) as (-> & -> & _). by rewrite edges_degree.
  - intros t t' _ Ht'. by apply edges_occ.
  - by apply built_dom.
  - by apply built_dom_dependencies.
  - intros x y. apply edges_in.
Qed.

End Validate.

(** The three checks, in the order in which they are made. *)
Definition verdict (w : WorkflowSpec) (r : option (GoError + DAG)) : Prop :=
  match r with
  | Some (inl ErrDuplicateTaskID) => ~ unique_ids w
  | Some (inl (Errorf [x; y] ErrMissingDependency)) =>
      unique_ids w /\ depends (WF.Tasks w) x y /\ y ∉ TS.TaskId <$> WF.Tasks w
  | Some (inl (Errorf [_] ErrCyclicDAG)) => unique_ids w /\ closed w /\ cyclic w
  | Some (inr d) => unique_ids w /\ closed w /\ (forall x, Acc (flip (depends (WF.Tasks w))) x) /\ dag_of (WF.Tasks w) d
  | _ => False
  end.

Lemma validate_verdict order w : verdict w (ValidateAndSort order w).
Proof.
  unfold ValidateAndSort. destruct (buildTasks _ _) as [d|] eqn:E.
  2: { eapply buildTasks_dup; [done |]. intros. apply lookup_empty. }
  apply buildTasks_built in E as Hb. pose proof (built_NoDup _ _ _ Hb).
  destruct (missingDependency _ _) as [e|] eqn:Em.
  { apply missingDependency_Some in Em as (x & deps & y & -> & Hin & Hy & Hn). simpl.
    apply elem_of_range_map, (built_dependencies _ d Hb) in Hin as (t & Ht & <- & <-).
    split_and!; [done | by exists t |]. intros Hids. apply (built_tasks _ d Hb) in Hids as [? ?]. congruence. }
  assert (closed w) as Hcl.
  { intros x y (t & Ht & <- & Hy). apply (built_tasks _ d Hb).
    eapply missingDependency_None; [done | | done]. apply (in_range _ d Hb); done. }
  destruct (addEdges _ _) as [ds ind] eqn:Eg.
  destruct (hasCycle _ _) as [[e|]|] eqn:Ec.
  - apply (hasCycle_yes _ _ Hb) in Ec as [Hc [x ->]]. done.
  - simpl. split_and!; [done | done | by eapply hasCycle_no |].
    pose proof (edges_dag_of _ d Hb Hcl (order 1%nat)) as Hd. rewrite Eg in Hd. done.
  - by apply (hasCycle_total _ _ Hb Hcl) in Ec.
Qed.
