(* ===== verification/DagProps.v ===== *)
(** * What DAG validation guarantees

    The theorems about [internal/coordinator/dag.go]. *)

From S2P Require Import Prelude Proto Dag.

(** ** Kinds of errors *)

(** The sentinel error that [errors.Is] finds. *)
Fixpoint sentinel (e : GoError) : GoError :=
  match e with Errorf _ e => sentinel e | e => e end.

(** Two DAGs that differ at most in the order of the downstream lists. *)
Definition same_dag (d d' : DAG) : Prop :=
  DAG.tasks d = DAG.tasks d' /\ DAG.dependencies d = DAG.dependencies d' /\ DAG.inDegree d = DAG.inDegree d' /\
  forall x, GetDownstream d x ≡ₚ GetDownstream d' x.

(** A sample: two tasks between a first and a last one. *)
Definition task (id : string) (deps : list string) : TaskSpec := TS.mk id deps "true" ∅ 0 0.
Definition diamond : WorkflowSpec :=
  WF.mk "diamond" [task "root" []; task "left" ["root"%string]; task "right" ["root"%string];
                   task "join" ["left"; "right"]%string] FAIL_FAST.

Definition diamond_dag : DAG :=
  match ValidateAndSort (fun _ => []) diamond with Some (inr d) => d | _ => DAG.mk ∅ ∅ ∅ ∅ end.

Lemma verdict_cases w r :
  verdict w r ->
  (exists d, r = Some (inr d) /\ unique_ids w /\ closed w /\ ~ cyclic w /\ dag_of (WF.Tasks w) d) \/
  (exists e, r = Some (inl e) /\
     ((sentinel e = ErrDuplicateTaskID /\ ~ unique_ids w) \/
      (sentinel e = ErrMissingDependency /\ unique_ids w /\ ~ closed w) \/
      (sentinel e = ErrCyclicDAG /\ unique_ids w /\ closed w /\ cyclic w))).
Proof.
  unfold verdict. intros Hv. destruct r as [[e|d]|]; [right | left | done].
  - exists e. split; [done |]. destruct e; try done; [auto |].
    destruct args as [|x [|y []]]; try done; destruct e; try done.
    + right; right. done.
    + right; left. split; [done |]. destruct Hv as (? & Hd & Hn). split; [done |]. intros Hcl.
      by apply Hn, (Hcl x).
  - exists d. destruct Hv as (? & ? & Hacc & ?). split_and!; try done.
    intros [x Hx]. by apply (Acc_no_cycle _ _ (Hacc x)).
Qed.

(** Maps with the same keys and the same values on the tasks. *)
Lemma task_map_eq {A} (l : list TaskSpec) (m m' : gmap string A) :
  dom m = list_to_set (ids l) -> dom m' = list_to_set (ids l) ->
  (forall t, t ∈ l -> m !! TS.TaskId t = m' !! TS.TaskId t) -> m = m'.
Proof.
  intros D D' Ht. apply map_eq. intros x.
  destruct (decide (x ∈ ids l)) as [(t & -> & Hx)%list_elem_of_fmap | Hn]; [by apply Ht |].
  rewrite !(not_elem_of_dom_1 (D := gset string)); [done | |]; rewrite ?D, ?D', elem_of_list_to_set; done.
Qed.

Lemma dag_of_same l d d' : dag_of l d -> dag_of l d' -> same_dag d d'.
Proof.
  intros H H'. split_and!.
  1-3: apply (task_map_eq l); try apply H; try apply H'; intros t Ht;
       destruct (dag_task _ _ H t Ht) as (E1 & E2 & E3), (dag_task _ _ H' t Ht) as (F1 & F2 & F3); congruence.
  intros x. apply occ_Permutation. intros y.
  destruct (decide (y ∈ ids l)) as [(ty & -> & Hy)%list_elem_of_fmap | Hn].
  - destruct (decide (x ∈ ids l)) as [(tx & -> & Hx)%list_elem_of_fmap | Hn].
    + by rewrite (dag_downstream _ _ H tx ty Hx Hy), (dag_downstream _ _ H' tx ty Hx Hy).
    + unfold GetDownstream. rewrite !(not_elem_of_dom_1 (D := gset string)); [done | |];
      rewrite ?(dag_dom_downstream _ _ H), ?(dag_dom_downstream _ _ H'), elem_of_list_to_set; done.
  - rewrite !(proj2 (occ_zero y _)); [done | |]; intros Hy; apply Hn;
    first [by apply (dag_downstream_ids _ _ H x) | by apply (dag_downstream_ids _ _ H' x)].
Qed.

(** C16. Validation. On every workflow and for every iteration order of its maps,
    [ValidateAndSort] ends; it accepts exactly the workflows whose task ids are
    distinct, whose dependencies are tasks of the workflow and whose dependencies
    have no cycle; and it reports a duplicate id, else a missing dependency, else
    a cycle exactly when there is one. *)
Theorem validate_correct order w :
  exists r, ValidateAndSort order w = Some r /\
    ((exists d, r = inr d) <-> unique_ids w /\ closed w /\ ~ cyclic w) /\
    ((exists e, r = inl e /\ sentinel e = ErrDuplicateTaskID) <-> ~ unique_ids w) /\
    ((exists e, r = inl e /\ sentinel e = ErrMissingDependency) <-> unique_ids w /\ ~ closed w) /\
    ((exists e, r = inl e /\ sentinel e = ErrCyclicDAG) <-> unique_ids w /\ closed w /\ cyclic w).
Proof.
  destruct (verdict_cases _ _ (validate_verdict order w)) as
    [(d & -> & ? & ? & ? & ?) | (e & -> & Hcase)].
  - exists (inr d). split; [done |]. split_and!.
    + split; [done | eauto].
    + split; [by intros (? & [=] & _) | done].
    + split; [by intros (? & [=] & _) | by intros [? []]].
    + split; [by intros (? & [=] & _) | by intros (_ & _ & ?)].
  - exists (inl e). split; [done |].
    assert (forall s, (exists e', inl (B := DAG) e = inl e' /\ sentinel e' = s) <-> sentinel e = s) as Hs.
    { intros s. split; [by intros (? & [= <-] & ?) | eauto]. }
    rewrite !Hs. split_and!.
    + split; [by intros [? [=]] |]. intros (? & ? & ?). by destruct Hcase as [[_ []] | [(_ & _ & []) | (_ & _ & _ & ?)]].
    + destruct Hcase as [[-> ?] | [(-> & ? & ?) | (-> & ? & ? & ?)]]; split; done.
    + destruct Hcase as [[-> ?] | [(-> & ? & ?) | (-> & ? & ? & ?)]]; split; intros Hx; first [discriminate Hx | tauto].
    + destruct Hcase as [[-> ?] | [(-> & ? & ?) | (-> & ? & ? & ?)]]; split; intros Hx; first [discriminate Hx | tauto].
Qed.

(** C30. Validation does not depend on Go's map order. Whatever orders the loops
    over maps take, two validations of a workflow report the same error kind, or
    make DAGs that differ only in the order of the downstream lists. *)
Theorem validate_order_independent order order' w :
  match ValidateAndSort order w, ValidateAndSort order' w with
  | Some (inl e), Some (inl e') => sentinel e = sentinel e'
  | Some (inr d), Some (inr d') => same_dag d d'
  | _, _ => False
  end.
Proof.
  destruct (verdict_cases _ _ (validate_verdict order w)) as [(d & -> & H1) | (e & -> & H1)],
           (verdict_cases _ _ (validate_verdict order' w)) as [(d' & -> & H2) | (e' & -> & H2)].
  - destruct H1 as (_ & _ & _ & ?), H2 as (_ & _ & _ & ?). by eapply dag_of_same.
  - tauto.
  - tauto.
  - destruct H1 as [[-> ?] | [(-> & ? & ?) | (-> & ? & ? & ?)]],
             H2 as [[-> ?] | [(-> & ? & ?) | (-> & ? & ? & ?)]]; done || tauto.
Qed.

(** The graph. The DAG of an accepted workflow lists each task once for every
    time it names a dependency among that dependency's downstream tasks, and the
    in-degree of a task is the number of the dependencies it names. *)
Theorem validated_graph order w d t t' :
  ValidateAndSort order w = Some (inr d) -> t ∈ WF.Tasks w -> t' ∈ WF.Tasks w ->
  GetTaskSpec d (TS.TaskId t) = Some t /\ GetDependencies d (TS.TaskId t) = TS.Dependencies t /\
  occ (TS.TaskId t') (GetDownstream d (TS.TaskId t)) = occ (TS.TaskId t) (TS.Dependencies t') /\
  GetInDegree d !! TS.TaskId t = Some (int32 (Z.of_nat (length (TS.Dependencies t)))).
Proof.
  intros E Ht Ht'. pose proof (validate_verdict order w) as Hv. rewrite E in Hv. destruct Hv as (_ & _ & _ & Hd).
  destruct (dag_task _ _ Hd t Ht) as (E1 & E2 & E3). unfold GetTaskSpec, GetDependencies, GetInDegree.
  rewrite E1, E2, E3. split_and!; [done | done | by apply (dag_downstream _ _ Hd) | done].
Qed.

(** The ready tasks. The tasks of an accepted workflow that are ready at once
    are, each once, those without dependencies (none has 2^31 of them). *)
Theorem ready_tasks order s w d :
  ValidateAndSort order w = Some (inr d) ->
  (forall t, t ∈ WF.Tasks w -> Z.of_nat (length (TS.Dependencies t)) < 2 ^ 31) ->
  NoDup (GetReadyTasks s d) /\
  forall k, k ∈ GetReadyTasks s d <-> exists t, t ∈ WF.Tasks w /\ TS.TaskId t = k /\ TS.Dependencies t = [].
Proof.
  intros E Hlen. pose proof (validate_verdict order w) as Hv. rewrite E in Hv. destruct Hv as (_ & _ & _ & Hd).
  split; [apply NoDup_filter_fst, range_map_NoDup |]. intros k. unfold GetReadyTasks. rewrite list_elem_of_fmap.
  assert (forall t, t ∈ WF.Tasks w ->
    DAG.inDegree d !! TS.TaskId t = Some (Z.of_nat (length (TS.Dependencies t)))) as Hdeg.
  { intros t Ht. destruct (dag_task _ _ Hd t Ht) as (_ & _ & ->). rewrite int32_id; [done |].
    specialize (Hlen t Ht). unfold is_int32. lia. }
  split.
  - intros ([k' n] & -> & [Hn Hin]%list_elem_of_filter). simpl in *. subst n. apply elem_of_range_map in Hin.
    assert (k' ∈ dom (DAG.inDegree d)) as Hk by (apply elem_of_dom; eauto).
    rewrite (dag_dom_inDegree _ _ Hd), elem_of_list_to_set in Hk. apply list_elem_of_fmap in Hk as (t & -> & Ht).
    exists t. split_and!; [done | done |]. apply length_zero_iff_nil. rewrite (Hdeg t Ht) in Hin. simplify_eq. lia.
  - intros (t & Ht & <- & Hnil). exists (TS.TaskId t, 0). split; [done |]. apply list_elem_of_filter.
    split; [done |]. apply elem_of_range_map. rewrite (Hdeg t Ht), Hnil. done.
Qed.

(** As long as some task is not complete there is one whose dependencies all are. *)
Lemma dag_progress order w d (complete : gset string) t :
  ValidateAndSort order w = Some (inr d) -> t ∈ WF.Tasks w -> TS.TaskId t ∉ complete ->
  exists t', t' ∈ WF.Tasks w /\ (TS.TaskId t' ∉ complete) /\ forall x, x ∈ TS.Dependencies t' -> x ∈ complete.
Proof.
  intros E. pose proof (validate_verdict order w) as Hv. rewrite E in Hv. destruct Hv as (_ & Hcl & Hacc & _).
  specialize (Hacc (TS.TaskId t)). remember (TS.TaskId t) as k eqn:Ek. revert t Ek.
  induction Hacc as [k _ IH]. intros t -> Ht Hn.
  destruct (decide (Forall (fun x => x ∈ complete) (TS.Dependencies t))) as [Hall|Hnot].
  - exists t. rewrite Forall_forall in Hall. auto.
  - apply not_Forall_Exists in Hnot; [|apply _]. apply Exists_exists in Hnot as (x & Hx & Hxn).
    assert (depends (WF.Tasks w) (TS.TaskId t) x) as Hd by (by exists t).
    pose proof (Hcl _ _ Hd) as (tx & -> & Htx)%list_elem_of_fmap. by apply (IH (TS.TaskId tx) Hd tx).
Qed.

(** C17. No deadlock. However far the tasks of an accepted workflow are completed,
    as long as some task is not complete there is one whose dependencies all are:
    the scheduler never waits for a task that can not become ready. *)
Theorem validated_progress order w d (complete : gset string) t :
  ValidateAndSort order w = Some (inr d) -> t ∈ WF.Tasks w -> TS.TaskId t ∉ complete ->
  exists t', t' ∈ WF.Tasks w /\ (TS.TaskId t' ∉ complete) /\ forall x, x ∈ TS.Dependencies t' -> x ∈ complete.
Proof. apply dag_progress. Qed.

(** ** Witnesses *)

Lemma validated_graph_witness :
  GetTaskSpec diamond_dag "left"%string = Some (task "left" ["root"%string]) /\
  GetDependencies diamond_dag "left"%string = ["root"%string] /\
  occ "join"%string (GetDownstream diamond_dag "left"%string) = 1%nat /\
  GetInDegree diamond_dag !! "left"%string = Some 1.
Proof.
  apply (validated_graph (fun _ => []) diamond diamond_dag (task "left" ["root"%string])
           (task "join" ["left"; "right"]%string)).
  - vm_compute. reflexivity.
  - right; left.
  - right; right; right; left.
Defined.

Lemma ready_tasks_witness :
  NoDup (GetReadyTasks [] diamond_dag) /\ "root"%string ∈ GetReadyTasks [] diamond_dag.
Proof.
  destruct (ready_tasks (fun _ => []) [] diamond diamond_dag) as [Hnd Hin].
  - vm_compute. reflexivity.
  - intros t Ht. simpl in Ht. repeat (apply elem_of_cons in Ht as [-> | Ht]; [vm_compute; reflexivity |]).
    by apply elem_of_nil in Ht.
  - split; [exact Hnd |]. apply Hin. exists (task "root" []). split; [left | split; reflexivity].
Defined.

Lemma validated_progress_witness :
  exists t', t' ∈ WF.Tasks diamond /\ (TS.TaskId t' ∉ ({["root"%string; "left"%string]} : gset string)) /\
    forall x, x ∈ TS.Dependencies t' -> x ∈ ({["root"%string; "left"%string]} : gset string).
Proof.
  apply (validated_progress (fun _ => []) diamond diamond_dag _ (task "join" ["left"; "right"]%string)).
  - vm_compute. reflexivity.
  - right; right; right; left.
  - simpl. set_solver.
Defined.
