(* ===== verification/Heartbeat.v ===== *)
(** * The heartbeat monitor

    [internal/coordinator/heartbeat.go]: the last heartbeat of each worker, the
    detection of dead workers, and the gauges of [internal/metrics] it sets. *)

From S2P Require Import Prelude Proto.

(** ** Metrics *)

(** The Prometheus collectors of [internal/metrics/metrics.go] that the code
    sets or increments; a gauge or counter value is an integer. *)
Module Metrics.
Record t := mk {
  QueueDepth : Z;
  ActiveWorkers : Z;
  TasksCompletedTotal : Z;
  TasksFailedTotal : gmap (string * string) Z;
  TasksRequeuedTotal : gmap string Z;
  WorkerDisconnectsTotal : Z
}.
End Metrics.
Abbreviation Metrics := Metrics.t.

Definition metrics0 : Metrics := Metrics.mk 0 0 0 ∅ ∅ 0.

Definition set_QueueDepth (v : Z) (m : Metrics) : Metrics :=
  let 'Metrics.mk _ b c d e f := m in Metrics.mk v b c d e f.
Definition set_ActiveWorkers (v : Z) (m : Metrics) : Metrics :=
  let 'Metrics.mk a _ c d e f := m in Metrics.mk a v c d e f.
Definition inc_TasksCompleted (m : Metrics) : Metrics :=
  let 'Metrics.mk a b c d e f := m in Metrics.mk a b (c + 1) d e f.
Definition inc_TasksFailed (workflowID reason : string) (m : Metrics) : Metrics :=
  let 'Metrics.mk a b c d e f := m in
  Metrics.mk a b c (<[(workflowID, reason) := default 0 (d !! (workflowID, reason)) + 1]> d) e f.
Definition add_TasksRequeued (reason : string) (n : Z) (m : Metrics) : Metrics :=
  let 'Metrics.mk a b c d e f := m in Metrics.mk a b c d (<[reason := default 0 (e !! reason) + n]> e) f.
Definition inc_WorkerDisconnects (m : Metrics) : Metrics :=
  let 'Metrics.mk a b c d e f := m in Metrics.mk a b c d e (f + 1).

(** ** The monitor *)

(** A [time.Duration] is an [int64] of nanoseconds. *)
Definition Millisecond : Z := 1000000.
Definition Second : Z := 1000 * Millisecond.

Module HeartbeatMonitor.
Record t := mk {
  lastHeartbeat : gmap string Z;
  runningTasks : gmap string (list string);
  scanInterval : Z;
  deadThreshold : Z
}.
End HeartbeatMonitor.
Abbreviation HeartbeatMonitor := HeartbeatMonitor.t.
Module HM := HeartbeatMonitor.

Definition NewHeartbeatMonitor (scanInterval deadThreshold : Z) : HeartbeatMonitor :=
  HM.mk ∅ ∅ scanInterval deadThreshold.

Definition UpdateHeartbeat (workerID : string) (timestampMs : Z) (runningTasks : list string)
  (h : HeartbeatMonitor) (m : Metrics) : HeartbeatMonitor * Metrics :=
  let h := HM.mk (<[workerID := timestampMs]> (HM.lastHeartbeat h))
                 (<[workerID := runningTasks]> (HM.runningTasks h))
                 (HM.scanInterval h) (HM.deadThreshold h) in
  (h, set_ActiveWorkers (Z.of_nat (size (HM.lastHeartbeat h))) m).

Definition GetRunningTasks (workerID : string) (h : HeartbeatMonitor) : list string :=
  default [] (HM.runningTasks h !! workerID).

(** [time.Duration(nowMs-lastHeartbeatMs) * time.Millisecond]: both the
    subtraction and the product are [int64]. *)
Definition heartbeatAge (nowMs lastHeartbeatMs : Z) : Z :=
  int64 (int64 (nowMs - lastHeartbeatMs) * Millisecond).

Definition GetDeadWorkers (s : seed) (nowMs : Z) (h : HeartbeatMonitor) : list string :=
  (filter (fun p => HM.deadThreshold h < heartbeatAge nowMs p.2) (range_map s (HM.lastHeartbeat h))).*1.

(** [delete] on both maps, as in [Run] and [RemoveWorker]. *)
Definition forget (workerID : string) (h : HeartbeatMonitor) : HeartbeatMonitor :=
  HM.mk (delete workerID (HM.lastHeartbeat h)) (delete workerID (HM.runningTasks h))
        (HM.scanInterval h) (HM.deadThreshold h).

Definition RemoveWorker (workerID : string) (h : HeartbeatMonitor) (m : Metrics) : HeartbeatMonitor * Metrics :=
  let h := forget workerID h in
  (h, set_ActiveWorkers (Z.of_nat (size (HM.lastHeartbeat h))) m).

Definition GetWorkerCount (h : HeartbeatMonitor) : Z := Z.of_nat (size (HM.lastHeartbeat h)).

Module WorkerHealthSnapshot.
Record t := mk {
  WorkerID : string;
  LastHeartbeatMs : Z;
  AgeMs : Z;
  RunningTaskIDs : list string;
  Healthy : bool
}.
End WorkerHealthSnapshot.
Abbreviation WorkerHealthSnapshot := WorkerHealthSnapshot.t.

Definition Snapshot (s : seed) (nowMs : Z) (h : HeartbeatMonitor) : list WorkerHealthSnapshot :=
  (fun p => WorkerHealthSnapshot.mk p.1 p.2 (int64 (nowMs - p.2)) (GetRunningTasks p.1 h)
              (int64 (int64 (nowMs - p.2) * Millisecond) <=? HM.deadThreshold h))
  <$> range_map s (HM.lastHeartbeat h).

(** ** Lemmas *)

(** Ages below 292 years are exact. *)
Lemma heartbeatAge_exact nowMs last :
  Z.abs (nowMs - last) < 2 ^ 63 / Millisecond -> heartbeatAge nowMs last = (nowMs - last) * Millisecond.
Proof.
  unfold Millisecond. intros H. assert (2 ^ 63 / 1000000 = 9223372036854) as E by reflexivity.
  rewrite E in H. unfold heartbeatAge, Millisecond.
  rewrite (int64_id (nowMs - last)) by (unfold is_int64; lia). apply int64_id. unfold is_int64. lia.
Qed.

Lemma elem_of_GetDeadWorkers s nowMs h w :
  w ∈ GetDeadWorkers s nowMs h <->
  exists last, HM.lastHeartbeat h !! w = Some last /\ HM.deadThreshold h < heartbeatAge nowMs last.
Proof.
  unfold GetDeadWorkers. rewrite list_elem_of_fmap. split.
  - intros ([w' last] & -> & [Hd Hin]%list_elem_of_filter). apply elem_of_range_map in Hin. eauto.
  - intros (last & Hl & Hd). exists (w, last). split; [done |].
    apply list_elem_of_filter. by rewrite elem_of_range_map.
Qed.

Lemma GetDeadWorkers_NoDup s nowMs h : NoDup (GetDeadWorkers s nowMs h).
Proof. apply NoDup_filter_fst, range_map_NoDup. Qed.
