(* ===== verification/HeartbeatProps.v ===== *)
(** * What the heartbeat monitor guarantees

    The theorems about [internal/coordinator/heartbeat.go]. *)

From S2P Require Import Prelude Proto Heartbeat.

(** Ages within which the [int64] arithmetic on nanoseconds is exact (292 years). *)
Definition near (nowMs last : Z) : Prop := Z.abs (nowMs - last) < 2 ^ 63 / Millisecond.

(** One worker heard of 20 s ago, one 1 s ago, with the default threshold. *)
Definition sampleMonitor : HeartbeatMonitor :=
  fst (UpdateHeartbeat "w2" 99000 ["t"%string]
    (fst (UpdateHeartbeat "w1" 80000 [] (NewHeartbeatMonitor (5 * Second) (15 * Second)) metrics0)) metrics0).

(** C33. Dead workers. The workers declared dead are, each once, the tracked
    workers whose last heartbeat is older than the threshold; the comparison in
    nanoseconds does not overflow for timestamps less than 292 years apart. *)
Theorem dead_workers s nowMs h :
  (forall w last, HM.lastHeartbeat h !! w = Some last -> near nowMs last) ->
  NoDup (GetDeadWorkers s nowMs h) /\
  forall w, w ∈ GetDeadWorkers s nowMs h <->
    exists last, HM.lastHeartbeat h !! w = Some last /\ HM.deadThreshold h < (nowMs - last) * Millisecond.
Proof.
  intros Hnear. split; [apply GetDeadWorkers_NoDup |]. intros w. rewrite elem_of_GetDeadWorkers.
  split; intros (last & Hl & Hd); exists last; (split; [done |]);
  rewrite heartbeatAge_exact in * by (by eapply Hnear); done.
Qed.

(** A heartbeat keeps a worker alive. After a heartbeat stamped [ts] is
    recorded, the worker is not declared dead until the threshold has passed, and
    the other workers are tracked as before. *)
Theorem heartbeat_keeps_alive s w ts tasks h m nowMs :
  near nowMs ts -> (nowMs - ts) * Millisecond <= HM.deadThreshold h ->
  let h' := fst (UpdateHeartbeat w ts tasks h m) in
  (w ∉ GetDeadWorkers s nowMs h') /\ GetRunningTasks w h' = tasks /\
  forall w', w' <> w -> w' ∈ GetDeadWorkers s nowMs h' <-> w' ∈ GetDeadWorkers s nowMs h.
Proof.
  intros Hnear Hle h'. unfold h'. simpl. split_and!.
  - rewrite elem_of_GetDeadWorkers. simpl. rewrite lookup_insert_eq. intros (last & [= <-] & Hd).
    rewrite heartbeatAge_exact in Hd by done. lia.
  - unfold GetRunningTasks. simpl. by rewrite lookup_insert_eq.
  - intros w' Hw. rewrite !elem_of_GetDeadWorkers. simpl. by rewrite lookup_insert_ne.
Qed.

(** Health reports agree with dead-worker detection: the snapshot lists every
    tracked worker once, and reports it unhealthy exactly when the detection
    declares it dead at the same time. *)
Theorem snapshot_agrees s s' nowMs h :
  NoDup (WorkerHealthSnapshot.WorkerID <$> Snapshot s nowMs h) /\
  (forall w, w ∈ WorkerHealthSnapshot.WorkerID <$> Snapshot s nowMs h <-> is_Some (HM.lastHeartbeat h !! w)) /\
  forall x, x ∈ Snapshot s nowMs h ->
    WorkerHealthSnapshot.Healthy x = false <-> WorkerHealthSnapshot.WorkerID x ∈ GetDeadWorkers s' nowMs h.
Proof.
  assert (WorkerHealthSnapshot.WorkerID <$> Snapshot s nowMs h = (range_map s (HM.lastHeartbeat h)).*1) as E.
  { unfold Snapshot. rewrite <- list_fmap_compose. by apply list_fmap_ext. }
  rewrite E. split_and!; [apply range_map_NoDup | |].
  - intros w. rewrite list_elem_of_fmap. split.
    + intros ([w' last] & -> & Hin%elem_of_range_map). by exists last.
    + intros [last Hl]. exists (w, last). by rewrite elem_of_range_map.
  - intros x ([w last] & -> & Hin%elem_of_range_map)%list_elem_of_fmap. simpl.
    rewrite elem_of_GetDeadWorkers. change (int64 (int64 (nowMs - last) * Millisecond)) with (heartbeatAge nowMs last).
    rewrite Z.leb_gt. split; [eauto |]. intros (last' & Hl & Hd). by simplify_eq.
Qed.

(** ** Witnesses *)

Lemma dead_workers_witness :
  NoDup (GetDeadWorkers [] 100000 sampleMonitor) /\ "w1"%string ∈ GetDeadWorkers [] 100000 sampleMonitor /\
  ("w2"%string ∉ GetDeadWorkers [] 100000 sampleMonitor).
Proof.
  destruct (dead_workers [] 100000 sampleMonitor) as [Hnd Hin].
  - intros w last Hl. unfold sampleMonitor in Hl. simpl in Hl.
    rewrite !lookup_insert in Hl. repeat case_decide; simplify_eq; vm_compute; reflexivity.
  - split; [exact Hnd |]. rewrite !Hin. split.
    + exists 80000. split; vm_compute; reflexivity.
    + intros (last & Hl & Hd). vm_compute in Hl. injection Hl as <-. vm_compute in Hd. discriminate Hd.
Defined.

Lemma heartbeat_keeps_alive_witness :
  "w1"%string ∉ GetDeadWorkers [] 100000 (fst (UpdateHeartbeat "w1" 99999 [] sampleMonitor metrics0)).
Proof.
  apply (heartbeat_keeps_alive [] "w1" 99999 [] sampleMonitor metrics0 100000).
  - vm_compute. reflexivity.
  - vm_compute. discriminate.
Defined.
