(* ===== verification/Coordinator.v ===== *)
(** * The coordinator

    [internal/coordinator/coordinator.go], [recovery.go] and [watchdog.go]: the
    in-memory scheduler state over the state store, and its handlers. The
    handlers run one at a time here; the process may die at any transaction of a
    handler ([Crashed]). *)

From S2P Require Import Prelude Proto Env RecordDB Store Dag Heartbeat.

(** ** State *)

(** What the process keeps in memory, the counters of [Env] included. *)
Record Mem := mkMem {
  heartbeat : HeartbeatMonitor;
  readyQueue : list string;
  runningTasks : gmap string string;
  assignedTasks : gmap string string;
  taskSpecCache : gmap string TaskSpec;
  taskWorkflowMap : gmap string string;
  workflowFailurePolicy : gmap string FailurePolicy;
  deadWorkersHandled : Z;
  recoveryPrepareCount : Z;
  lastDeadWorkerAtMs : Z;
  lastRecoveryStartedAtMs : Z;
  metrics : Metrics;
  uuids : nat;
  orders : nat
}.

(** [Coordinator]: the store and the memory. *)
Record Coordinator (D : Type) := mkCoordinator { state : St D; mem : Mem }.
Arguments mkCoordinator {D} state mem.
Arguments state {D} c.
Arguments mem {D} c.

Definition set_heartbeat v m := let 'mkMem _ b c d e f g h i j k l n o := m in mkMem v b c d e f g h i j k l n o.
Definition set_readyQueue v m := let 'mkMem a _ c d e f g h i j k l n o := m in mkMem a v c d e f g h i j k l n o.
Definition set_runningTasks v m := let 'mkMem a b _ d e f g h i j k l n o := m in mkMem a b v d e f g h i j k l n o.
Definition set_assignedTasks v m := let 'mkMem a b c _ e f g h i j k l n o := m in mkMem a b c v e f g h i j k l n o.
Definition set_taskSpecCache v m := let 'mkMem a b c d _ f g h i j k l n o := m in mkMem a b c d v f g h i j k l n o.
Definition set_taskWorkflowMap v m := let 'mkMem a b c d e _ g h i j k l n o := m in mkMem a b c d e v g h i j k l n o.
Definition set_workflowFailurePolicy v m := let 'mkMem a b c d e f _ h i j k l n o := m in mkMem a b c d e f v h i j k l n o.
Definition set_deadWorkersHandled v m := let 'mkMem a b c d e f g _ i j k l n o := m in mkMem a b c d e f g v i j k l n o.
Definition set_recoveryPrepareCount v m := let 'mkMem a b c d e f g h _ j k l n o := m in mkMem a b c d e f g h v j k l n o.
Definition set_lastDeadWorkerAtMs v m := let 'mkMem a b c d e f g h i _ k l n o := m in mkMem a b c d e f g h i v k l n o.
Definition set_lastRecoveryStartedAtMs v m := let 'mkMem a b c d e f g h i j _ l n o := m in mkMem a b c d e f g h i j v l n o.
Definition set_metrics v m := let 'mkMem a b c d e f g h i j k _ n o := m in mkMem a b c d e f g h i j k v n o.
Definition set_uuids v m := let 'mkMem a b c d e f g h i j k l _ o := m in mkMem a b c d e f g h i j k l v o.
Definition set_orders v m := let 'mkMem a b c d e f g h i j k l n _ := m in mkMem a b c d e f g h i j k l n v.

(** [NewCoordinator] with [WithHeartbeatConfig(scan, dead)]; a new process goes
    on with the UUIDs and map orders of the world. *)
Definition newMem (scan dead : Z) (uuids orders : nat) : Mem :=
  mkMem (NewHeartbeatMonitor scan dead) [] ∅ ∅ ∅ ∅ ∅ 0 0 0 0 metrics0 uuids orders.

Definition NewCoordinator {D} (st : St D) (scan dead : Z) (uuids orders : nat) : Coordinator D :=
  mkCoordinator st (newMem scan dead uuids orders).

(** ** In-memory steps (the sections under [c.mu]) *)

Definition enqueue (ids : list string) (m : Mem) : Mem := set_readyQueue (readyQueue m ++ ids) m.

(** [filtered := c.readyQueue[:0]; ...; c.readyQueue = filtered]. *)
Definition dequeue_all (ids : list string) (m : Mem) : Mem :=
  set_readyQueue (filter (fun id => id ∉ ids) (readyQueue m)) m.

(** [delete(c.runningTasks, taskID); delete(c.assignedTasks, taskID)]. *)
Definition release (taskID : string) (m : Mem) : Mem :=
  set_assignedTasks (delete taskID (assignedTasks m)) (set_runningTasks (delete taskID (runningTasks m)) m).

Definition assign (taskID workerID executionID : string) (m : Mem) : Mem :=
  set_assignedTasks (<[taskID := executionID]> (assignedTasks m))
    (set_runningTasks (<[taskID := workerID]> (runningTasks m)) m).

(** [metrics.QueueDepth.Set(float64(len(c.readyQueue)))]. *)
Definition gauge_queue (m : Mem) : Mem :=
  set_metrics (set_QueueDepth (Z.of_nat (length (readyQueue m))) (metrics m)) m.

Definition on_metrics (f : Metrics -> Metrics) (m : Mem) : Mem := set_metrics (f (metrics m)) m.

(** The caches of one workflow. *)
Definition cache_task (workflowID : string) (p : string * TaskSpec) (m : Mem) : Mem :=
  set_taskWorkflowMap (<[p.1 := workflowID]> (taskWorkflowMap m))
    (set_taskSpecCache (<[p.1 := p.2]> (taskSpecCache m)) m).

Definition cache_policy (workflowID : string) (policy : FailurePolicy) (m : Mem) : Mem :=
  set_workflowFailurePolicy (<[workflowID := policy]> (workflowFailurePolicy m)) m.

(** The counters [SnapshotMetrics] reports. *)
Module MetricsSnapshot.
Record t := mk {
  ReadyQueueSize : Z;
  RunningTaskCount : Z;
  AssignedTaskCount : Z;
  WorkerCount : Z;
  DeadWorkersHandled : Z;
  RecoveryPrepareCount : Z;
  LastDeadWorkerAtMs : Z
}.
End MetricsSnapshot.

Section Coordinator.
Context `{Env} {D : Type} `{RecordDB D}.
Abbreviation C := (M (Coordinator D)).

Definition set_mem (f : Mem -> Mem) (c : Coordinator D) : Coordinator D := mkCoordinator (state c) (f (mem c)).
Definition modm (f : Mem -> Mem) : C unit := modify (set_mem f).
Definition getm {A} (f : Mem -> A) : C A := gets (fun c => f (mem c)).

(** A call on [c.state]. *)
Definition onStore {A} (m : M (St D) A) : C A :=
  zoom state (fun s c => mkCoordinator s (mem c)) m.

(** [uuid.New().String()]. *)
Definition newUUID : C string :=
  let! n := getm uuids in modm (set_uuids (S n)) ;; ret (uuid n).

(** The orders of the next [k] loops over maps. *)
Definition nextOrders (k : nat) : C (nat -> seed) :=
  let! n := getm orders in modm (set_orders (n + k)%nat) ;; ret (fun i => order (n + i)%nat).

(** ** Submission *)

Definition SubmitWorkflow (workflow : WorkflowSpec) : C (option GoError) :=
  let! ord := nextOrders 5 in
  match ValidateAndSort ord workflow with
  | None => panic
  | Some (inl e) => ret (Some (Errorf ["invalid DAG"%string] e))
  | Some (inr dag) =>
      let! e := onStore (StoreWorkflow workflow) in orElse e (
      let! e := onStore (InitWorkflowState (WF.WorkflowId workflow)) in orElse e (
      let! e := onStore (InitializeTasksForWorkflow (WF.WorkflowId workflow) (WF.Tasks workflow)
                           (GetInDegree dag) (GetAllDownstream dag)) in orElse e (
      modm (fun m => foldl (fun m p => cache_task (WF.WorkflowId workflow) p m) m
                       (range_map (ord 3%nat) (GetAllTaskSpecs dag))) ;;
      modm (cache_policy (WF.WorkflowId workflow) (WF.FailurePolicy workflow)) ;;
      let! r := forEach (fun _ taskID =>
        let! e := onStore (UpdateTaskState taskID TASK_QUEUED) in
        match e with
        | Some e => ret (tt, Some e)
        | None => modm (enqueue [taskID]) ;; ret (tt, None)
        end) tt (GetReadyTasks (ord 4%nat) dag) in
      ret r.2)))
  end.

(** ** Assignment *)

Definition GetReadyTask (workerID : string) : C (option TaskAssignment) :=
  let! q := getm readyQueue in
  match q with
  | [] => ret None
  | taskID :: q =>
      modm (set_readyQueue q) ;;
      let! cache := getm taskSpecCache in
      match cache !! taskID with
      | None => ret None
      | Some taskSpec =>
          let! executionID := newUUID in
          let! e := onStore (AssignTask taskID executionID) in
          match e with
          | Some _ => ret None
          | None =>
              modm (assign taskID workerID executionID) ;;
              modm gauge_queue ;;
              ret (Some (TaskAssignment.mk taskID executionID (TS.Command taskSpec) (TS.Env taskSpec)
                           (TS.TimeoutSeconds taskSpec)))
          end
      end
  end.

(** ** Completion of a workflow *)

(** The final state is FAILED when a task failed, COMPLETE otherwise. *)
Definition finalState (taskStatuses : list TaskStatus) : WorkflowState :=
  if existsb (fun ts => TaskStatus.State ts =? TASK_FAILED) taskStatuses
  then WORKFLOW_FAILED else WORKFLOW_COMPLETE.

Definition checkWorkflowCompletion (workflowID : string) : C unit :=
  let! r := onStore (IsWorkflowComplete workflowID) in
  match r with
  | (_, Some _) => ret tt
  | (false, None) => ret tt
  | (true, None) =>
      let! r := onStore (GetTaskStatusesForWorkflow workflowID) in
      match r with
      | (_, Some _) => ret tt
      | (taskStatuses, None) =>
          let! _ := onStore (UpdateWorkflowState workflowID (finalState taskStatuses)) in
          ret tt
      end
  end.

Definition taskWorkflowID (taskID : string) : C string :=
  getm (fun m => default EmptyString (taskWorkflowMap m !! taskID)).

(** ** Results *)

Definition CompleteTask (taskID executionID output : string) : C (option GoError) :=
  let! assigned := getm assignedTasks in
  match assigned !! taskID with
  | None =>
      let! r := onStore (GetTask taskID) in
      match r with
      | inl e => ret (Some e)
      | inr task =>
          if TR.State task =? TASK_COMPLETE
          then if negb (String.eqb (TR.ExecutionID task) executionID)
               then ret (Some ErrStaleExecution) else ret None
          else ret (Some ErrStaleExecution)
      end
  | Some assignedExecID =>
      if negb (String.eqb assignedExecID executionID) then ret (Some ErrStaleExecution)
      else
        let! r := onStore (Store.CompleteTask taskID executionID output) in
        match r with
        | (_, Some e) => ret (Some e)
        | (downstreamReady, None) =>
            modm (release taskID) ;;
            modm (enqueue downstreamReady) ;;
            modm gauge_queue ;;
            modm (on_metrics inc_TasksCompleted) ;;
            let! workflowID := taskWorkflowID taskID in
            (if negb (String.eqb workflowID EmptyString)
             then checkWorkflowCompletion workflowID else ret tt) ;;
            ret None
        end
  end.

Definition applyFailurePolicy (workflowID failedTaskID : string) (policy : FailurePolicy) : C unit :=
  if policy =? FAIL_FAST then
    let! r := onStore (CancelWorkflowTasks workflowID) in
    match r with
    | (_, Some _) => ret tt
    | (cancelled, None) =>
        modm (dequeue_all cancelled) ;;
        let! _ := onStore (UpdateWorkflowState workflowID WORKFLOW_FAILED) in
        ret tt
    end
  else if (policy =? SKIP_DOWNSTREAM) || (policy =? CONTINUE_INDEPENDENT) then
    let! r := onStore (SkipDownstreamTasks failedTaskID) in
    (if (0 <? length r.1)%nat then modm (dequeue_all r.1) else ret tt) ;;
    checkWorkflowCompletion workflowID
  else ret tt.

(** [maxRetries] from the cached spec: 3 unless the spec gives a positive number. *)
Definition maxRetries (taskID : string) (m : Mem) : Z :=
  match taskSpecCache m !! taskID with
  | Some spec => if 0 <? TS.MaxRetries spec then TS.MaxRetries spec else 3
  | None => 3
  end.

Definition FailTask (taskID executionID errMsg : string) : C (option GoError) :=
  let! assigned := getm assignedTasks in
  if bool_decide (assigned !! taskID = Some executionID) then
    let! r := onStore (GetTask taskID) in
    match r with
    | inl e => ret (Some e)
    | inr task =>
        let! max := getm (maxRetries taskID) in
        let attemptCount := int32 (TR.AttemptCount task + 1) in
        if attemptCount <? max then
          let! execID := newUUID in
          let! e := onStore (RequeueTask taskID execID) in orElse e (
          modm (release taskID) ;;
          modm (enqueue [taskID]) ;;
          modm gauge_queue ;;
          modm (on_metrics (add_TasksRequeued "retry" 1)) ;;
          ret None)
        else
          let! e := onStore (Store.FailTask taskID errMsg attemptCount) in orElse e (
          modm (release taskID) ;;
          let! workflowID := taskWorkflowID taskID in
          let! policy := getm (fun m => default 0 (workflowFailurePolicy m !! workflowID)) in
          modm (on_metrics (inc_TasksFailed workflowID "retries_exhausted")) ;;
          (if negb (String.eqb workflowID EmptyString)
           then applyFailurePolicy workflowID taskID policy else ret tt) ;;
          ret None)
    end
  else ret (Some ErrStaleExecution).

(** ** Cancellation *)

Definition CancelWorkflow (workflowID : string) : C (option GoError) :=
  let! r := onStore (CancelWorkflowTasks workflowID) in
  match r with
  | (_, Some e) => ret (Some e)
  | (cancelled, None) =>
      modm (dequeue_all cancelled) ;;
      onStore (UpdateWorkflowState workflowID WORKFLOW_CANCELLED)
  end.

(** ** Dead workers *)

(** [for taskID, wID := range c.runningTasks { if wID == workerID { ... } }]. *)
Definition tasksOf (workerID : string) (s : seed) (running : gmap string string) : list string :=
  (filter (fun p => p.2 = workerID) (range_map s running)).*1.

(** Requeue one task under a new execution id; a failure is logged and skipped. *)
Definition requeueOne (taskID : string) : C unit :=
  let! execID := newUUID in
  let! e := onStore (RequeueTask taskID execID) in
  match e with
  | Some _ => ret tt
  | None => modm (enqueue [taskID])
  end.

Definition HandleDeadWorker (workerID : string) : C (option GoError) :=
  let! t := onStore now in
  modm (fun m => set_lastDeadWorkerAtMs t (set_deadWorkersHandled (deadWorkersHandled m + 1) m)) ;;
  let! ord := nextOrders 1 in
  let! tasksToRequeue := getm (fun m => tasksOf workerID (ord 0%nat) (runningTasks m)) in
  modm (fun m => foldl (fun m taskID => release taskID m) m tasksToRequeue) ;;
  foldM (fun _ taskID => requeueOne taskID) tt tasksToRequeue ;;
  modm (fun m => let '(h, ms) := Heartbeat.RemoveWorker workerID (heartbeat m) (metrics m) in
                 set_metrics ms (set_heartbeat h m)) ;;
  modm (on_metrics inc_WorkerDisconnects) ;;
  (if (0 <? length tasksToRequeue)%nat
   then modm (on_metrics (add_TasksRequeued "dead_worker" (Z.of_nat (length tasksToRequeue))))
   else ret tt) ;;
  ret None.

Definition UpdateWorkerHeartbeat (workerID : string) (timestampMs : Z) (tasks : list string) : C unit :=
  modm (fun m => let '(h, ms) := UpdateHeartbeat workerID timestampMs tasks (heartbeat m) (metrics m) in
                 set_metrics ms (set_heartbeat h m)).

(** One tick of [HeartbeatMonitor.Run], whose callback is [HandleDeadWorker]. *)
Definition heartbeatTick : C unit :=
  let! nowMs := onStore now in
  let! ord := nextOrders 1 in
  let! deadWorkers := getm (fun m => GetDeadWorkers (ord 0%nat) nowMs (heartbeat m)) in
  foldM (fun _ workerID =>
    let! _ := HandleDeadWorker workerID in
    modm (fun m => set_heartbeat (forget workerID (heartbeat m)) m)) tt deadWorkers.

(** ** Start-up *)

(** The loop of [LoadStateFromDB] over the workflow states. *)
Definition loadWorkflow (wfState : WorkflowStateRecord) : C unit :=
  if negb (WR.State wfState =? WORKFLOW_RUNNING) then ret tt
  else
    let! r := onStore (GetWorkflow (WR.WorkflowID wfState)) in
    match r with
    | inl _ => ret tt
    | inr wfSpec =>
        modm (cache_policy (WF.WorkflowId wfSpec) (WF.FailurePolicy wfSpec)) ;;
        modm (fun m => foldl (fun m task => cache_task (WF.WorkflowId wfSpec) (TS.TaskId task, task) m) m
                         (WF.Tasks wfSpec))
    end.

Definition LoadStateFromDB : C (option GoError) :=
  let! r := onStore GetAllWorkflowStates in
  match r with
  | (_, Some e) => ret (Some e)
  | (workflows, None) =>
      foldM (fun _ wfState => loadWorkflow wfState) tt workflows ;;
      let! r := onStore (GetTasksInState TASK_QUEUED) in
      match r with
      | (_, Some e) => ret (Some e)
      | (queuedTasks, None) => modm (enqueue queuedTasks) ;; ret None
      end
  end.

Definition PrepareRecovery : C (option GoError) :=
  let! t := onStore now in
  modm (fun m => set_lastRecoveryStartedAtMs t (set_recoveryPrepareCount (recoveryPrepareCount m + 1) m)) ;;
  let! r := onStore (GetTasksInState TASK_RUNNING) in
  match r with
  | (_, Some e) => ret (Some e)
  | (running, None) =>
      foldM (fun _ taskID => requeueOne taskID) tt running ;;
      ret None
  end.

(** The start-up sequence of [cmd/coordinator/main.go]: both steps are tried,
    their errors are only logged. *)
Definition startup : C unit :=
  let! _ := LoadStateFromDB in
  let! _ := PrepareRecovery in
  ret tt.

(** ** Observation *)

Definition GetReadyQueueSize : C Z := getm (fun m => Z.of_nat (length (readyQueue m))).

Definition SnapshotMetrics : C MetricsSnapshot.t :=
  getm (fun m => MetricsSnapshot.mk (Z.of_nat (length (readyQueue m))) (Z.of_nat (size (runningTasks m)))
    (Z.of_nat (size (assignedTasks m))) (GetWorkerCount (heartbeat m)) (deadWorkersHandled m)
    (recoveryPrepareCount m) (lastDeadWorkerAtMs m)).

(** [checkHungWorkflows]: the warnings it logs, a workflow id and an age in seconds. *)
Definition watchdogHungThresholdMs : Z := 10 * 60 * 1000.

Definition checkHungWorkflows : C (list (string * Z)) :=
  let! r := onStore GetAllWorkflowStates in
  match r with
  | (_, Some _) => ret []
  | (workflows, None) =>
      let! nowMs := onStore now in
      ret (omap (fun wf =>
        if negb (WR.State wf =? WORKFLOW_RUNNING) then None
        else
          let ageMs := int64 (nowMs - WR.SubmittedAtMs wf) in
          if watchdogHungThresholdMs <? ageMs then Some (WR.WorkflowID wf, Z.quot ageMs 1000) else None)
        workflows)
  end.

End Coordinator.

(** Reading a field leaves the coordinator alone. *)
#[export] Hint Extern 1 (respects _ (getm _)) => (apply respects_gets; apply _) : respects.
