(* ===== verification/CoordinatorRefinement.v ===== *)
(** * The coordinator over bbolt refines the coordinator over maps of records

    The handlers of the coordinator, run over a store that keeps the promise of
    [RecordDBLaws], return what they return over the store's abstraction and
    leave the corresponding state. Facts about the handlers are therefore proved
    once, over [AbsDB]. *)

From S2P Require Import Prelude Proto Env RecordDB Store StoreRefinement Dag Heartbeat Coordinator.

Section Refinement.
Context `{Env} {D : Type} `{RecordDBLaws D}.

Definition coord_abs (c : Coordinator D) : Coordinator AbsDB := mkCoordinator (st_abs (state c)) (mem c).
Definition coord_ok (c : Coordinator D) : Prop := st_ok (state c).

Abbreviation csim := (refines coord_abs coord_ok).

Lemma csim_onStore {A} (m : M (St D) A) m' :
  refines st_abs st_ok m m' -> csim (onStore m) (onStore m').
Proof.
  intros Hm c Hc. specialize (Hm (state c) Hc). unfold onStore, zoom. simpl.
  destruct (m (state c)); destruct Hm as [? ->]; done.
Qed.

Lemma csim_modm f : csim (modm f) (modm f).
Proof. by intros c Hc. Qed.

Lemma csim_getm {A} (f : Mem -> A) : csim (getm f) (getm f).
Proof. by intros c Hc. Qed.

Lemma csim_orElse e (k : M (Coordinator D) (option GoError)) k' :
  csim k k' -> csim (orElse e k) (orElse e k').
Proof. intros. destruct e; [apply refines_ret | done]. Qed.

#[local] Hint Resolve csim_modm csim_getm : sim.

Ltac csim_go :=
  repeat first
    [ solve [auto with sim nocore]
    | refines_step
    | apply csim_onStore
    | apply csim_orElse ].

Lemma csim_newUUID : csim newUUID newUUID.
Proof. unfold newUUID. csim_go. Qed.

Lemma csim_nextOrders k : csim (nextOrders k) (nextOrders k).
Proof. unfold nextOrders. csim_go. Qed.

#[local] Hint Resolve csim_newUUID csim_nextOrders : sim.

Lemma csim_SubmitWorkflow w : csim (SubmitWorkflow w) (SubmitWorkflow w).
Proof. unfold SubmitWorkflow, UpdateTaskState. csim_go. Qed.

Lemma csim_GetReadyTask w : csim (GetReadyTask w) (GetReadyTask w).
Proof. unfold GetReadyTask, AssignTask. csim_go. Qed.

Lemma csim_checkWorkflowCompletion w : csim (checkWorkflowCompletion w) (checkWorkflowCompletion w).
Proof. unfold checkWorkflowCompletion. csim_go. Qed.

#[local] Hint Resolve csim_checkWorkflowCompletion : sim.

Lemma csim_CompleteTask t e o : csim (CompleteTask t e o) (CompleteTask t e o).
Proof. unfold CompleteTask, taskWorkflowID. csim_go. Qed.

Lemma csim_applyFailurePolicy w t p : csim (applyFailurePolicy w t p) (applyFailurePolicy w t p).
Proof. unfold applyFailurePolicy. csim_go. Qed.

#[local] Hint Resolve csim_applyFailurePolicy : sim.

Lemma csim_FailTask t e o : csim (FailTask t e o) (FailTask t e o).
Proof. unfold FailTask, taskWorkflowID, RequeueTask, Store.FailTask. csim_go. Qed.

Lemma csim_CancelWorkflow w : csim (CancelWorkflow w) (CancelWorkflow w).
Proof. unfold CancelWorkflow. csim_go. Qed.

Lemma csim_requeueOne t : csim (requeueOne t) (requeueOne t).
Proof. unfold requeueOne, RequeueTask. csim_go. Qed.

#[local] Hint Resolve csim_requeueOne : sim.

Lemma csim_HandleDeadWorker w : csim (HandleDeadWorker w) (HandleDeadWorker w).
Proof. unfold HandleDeadWorker. csim_go. Qed.

#[local] Hint Resolve csim_HandleDeadWorker : sim.

Lemma csim_UpdateWorkerHeartbeat w t l : csim (UpdateWorkerHeartbeat w t l) (UpdateWorkerHeartbeat w t l).
Proof. apply csim_modm. Qed.

Lemma csim_heartbeatTick : csim heartbeatTick heartbeatTick.
Proof. unfold heartbeatTick. csim_go. Qed.

Lemma csim_LoadStateFromDB : csim LoadStateFromDB LoadStateFromDB.
Proof. unfold LoadStateFromDB, loadWorkflow. csim_go. Qed.

Lemma csim_PrepareRecovery : csim PrepareRecovery PrepareRecovery.
Proof. unfold PrepareRecovery. csim_go. Qed.

#[local] Hint Resolve csim_LoadStateFromDB csim_PrepareRecovery : sim.

Lemma csim_startup : csim startup startup.
Proof. unfold startup. csim_go. Qed.

Lemma csim_checkHungWorkflows : csim checkHungWorkflows checkHungWorkflows.
Proof. unfold checkHungWorkflows. csim_go. Qed.

End Refinement.

#[export] Hint Resolve csim_SubmitWorkflow csim_GetReadyTask csim_CompleteTask csim_FailTask
  csim_CancelWorkflow csim_HandleDeadWorker csim_UpdateWorkerHeartbeat csim_heartbeatTick
  csim_startup csim_checkHungWorkflows : sim.
