(* ===== verification/Invariant.v ===== *)
(** * The scheduling invariant of the database

    What every transaction of the program keeps true of the task records: the
    stored in-degree of a PENDING task counts the dependencies that are not
    COMPLETE yet, and a task that was queued, run or finished has none left.
    [advances] is what a transaction may do to the records at most. *)

From S2P Require Import Prelude Proto Codec Env RecordDB Store StoreSpec Dag.

Abbreviation Tasks := (gmap string TaskStateRecord).

(** ** Outstanding dependencies *)

(** How often [r] still has to complete for [k]. *)
Definition weight (k : string) (r : TaskStateRecord) : nat :=
  if TR.State r =? TASK_COMPLETE then 0%nat else occ k (TR.DownstreamTaskIDs r).

(** The dependencies of [k] that are not COMPLETE, with their multiplicity. *)
Definition blockers (T : Tasks) (k : string) : nat := msum (weight k <$> T).

Definition started (s : TaskState) : bool :=
  (s =? TASK_QUEUED) || (s =? TASK_RUNNING) || (s =? TASK_COMPLETE) || (s =? TASK_FAILED).

(** The task [t] of workflow [w] waits for [x], and the records say so. *)
Definition edges_recorded (d : AbsDB) : Prop :=
  forall w spec t x r,
    AbsDB.workflows d !! w = Some spec -> t ∈ WF.Tasks spec -> x ∈ TS.Dependencies t ->
    AbsDB.tasks d !! TS.TaskId t = Some r -> TR.WorkflowID r = w ->
    exists rx, AbsDB.tasks d !! x = Some rx /\ TS.TaskId t ∈ TR.DownstreamTaskIDs rx.

Record tasks_inv (T : Tasks) : Prop := {
  ti_key k r : T !! k = Some r -> TR.TaskID r = k;
  ti_stable k r : T !! k = Some r -> stable r;
  ti_nonneg k r : T !! k = Some r -> 0 <= TR.InDegree r;
  ti_closed k r : T !! k = Some r -> forall x, x ∈ TR.DownstreamTaskIDs r -> is_Some (T !! x);
  ti_pending k r : T !! k = Some r -> TR.State r = TASK_PENDING -> TR.InDegree r = Z.of_nat (blockers T k);
  ti_started k r : T !! k = Some r -> started (TR.State r) = true -> blockers T k = 0%nat;
  ti_attempts k r : T !! k = Some r -> TR.State r <> TASK_FAILED -> TR.AttemptCount r = 0;
  ti_state k r : T !! k = Some r -> TASK_PENDING <= TR.State r <= TASK_SKIPPED
}.

Record dbinv (d : AbsDB) : Prop := {
  di_tasks : tasks_inv (AbsDB.tasks d);
  di_edges : edges_recorded d
}.

Lemma dbinv_stable d : dbinv d -> db_stable d.
Proof. intros [[]] k r Hr. eauto. Qed.

(** A COMPLETE or FAILED record is final; no record disappears or changes its
    place in the graph; no task gets a new dependency. *)
Record advances (T T' : Tasks) : Prop := {
  adv_record k r : T !! k = Some r -> exists r', T' !! k = Some r' /\
    TR.WorkflowID r' = TR.WorkflowID r /\ TR.DownstreamTaskIDs r' = TR.DownstreamTaskIDs r /\
    (TR.State r = TASK_COMPLETE \/ TR.State r = TASK_FAILED -> r' = r);
  adv_blockers k : is_Some (T !! k) -> (blockers T' k <= blockers T k)%nat
}.

#[export] Instance advances_preorder : PreOrder advances.
Proof.
  split.
  - intros T. split; [|done]. intros k r Hr. exists r. auto.
  - intros T1 T2 T3 [A1 B1] [A2 B2]. split.
    + intros k r Hr. destruct (A1 k r Hr) as (r2 & H2 & W2 & D2 & F2).
      destruct (A2 k r2 H2) as (r3 & H3 & W3 & D3 & F3). exists r3.
      split_and!; [done | congruence | congruence |]. intros F. rewrite <- (F2 F). apply F3.
      by rewrite (F2 F).
    + intros k [r Hr]. destruct (A1 k r Hr) as (r2 & H2 & _).
      specialize (B1 k ltac:(eauto)). specialize (B2 k ltac:(eauto)). lia.
Qed.

(** A task whose record exists and whose dependencies are COMPLETE. *)
Definition unblocked_task (T : Tasks) (k : string) : Prop := is_Some (T !! k) /\ blockers T k = 0%nat.

Lemma unblocked_advances T T' k : advances T T' -> unblocked_task T k -> unblocked_task T' k.
Proof.
  intros [Ha Hb] [[r Hr] Hz]. destruct (Ha k r Hr) as (r' & Hr' & _). specialize (Hb k ltac:(eauto)).
  split; [eauto | lia].
Qed.

Lemma edges_advance d d' :
  AbsDB.workflows d' = AbsDB.workflows d -> dom (AbsDB.tasks d') = dom (AbsDB.tasks d) ->
  advances (AbsDB.tasks d) (AbsDB.tasks d') -> edges_recorded d -> edges_recorded d'.
Proof.
  intros Hw Hdom [Ha _] He w spec t x r Hs Ht Hx Hr HW. rewrite Hw in Hs.
  assert (is_Some (AbsDB.tasks d !! TS.TaskId t)) as [r0 Hr0].
  { apply elem_of_dom. rewrite <- Hdom. apply elem_of_dom. eauto. }
  destruct (Ha _ _ Hr0) as (r' & Hr' & HW' & _). simplify_eq.
  destruct (He _ _ t x r0 Hs Ht Hx Hr0 (eq_sym HW')) as (rx & Hrx & Hin).
  destruct (Ha _ _ Hrx) as (rx' & Hrx' & _ & HD & _). exists rx'. by rewrite HD.
Qed.

(** ** Dependencies are met *)

Lemma blockers_none T k : blockers T k = 0%nat ->
  forall x rx, T !! x = Some rx -> k ∈ TR.DownstreamTaskIDs rx -> TR.State rx = TASK_COMPLETE.
Proof.
  intros Hb x rx Hx Hk. unfold blockers in Hb. rewrite msum_zero in Hb.
  assert (weight k rx = 0%nat) as Hw. { apply (Hb x). by rewrite lookup_fmap, Hx. }
  unfold weight in Hw. destruct (Z.eqb_spec (TR.State rx) TASK_COMPLETE); [done |].
  by apply occ_zero in Hw.
Qed.

Lemma no_blockers T k :
  (forall x rx, T !! x = Some rx -> k ∈ TR.DownstreamTaskIDs rx -> TR.State rx = TASK_COMPLETE) -> blockers T k = 0%nat.
Proof.
  intros Hb. apply msum_zero. intros x n. rewrite lookup_fmap. destruct (T !! x) as [rx|] eqn:E; [|done]. intros [= <-].
  unfold weight. destruct (Z.eqb_spec (TR.State rx) TASK_COMPLETE) as [|Hn]; [done |]. apply occ_zero. intros Hk. by apply Hn, (Hb x).
Qed.

Lemma blockers_le T k x rx : T !! x = Some rx -> (weight k rx <= blockers T k)%nat.
Proof.
  intros Hx. unfold blockers. rewrite (msum_delete _ x (weight k rx)); [lia |].
  by rewrite lookup_fmap, Hx.
Qed.

Lemma unblocked_dependencies d w spec t x r :
  dbinv d -> AbsDB.workflows d !! w = Some spec -> t ∈ WF.Tasks spec -> x ∈ TS.Dependencies t ->
  AbsDB.tasks d !! TS.TaskId t = Some r -> TR.WorkflowID r = w -> blockers (AbsDB.tasks d) (TS.TaskId t) = 0%nat ->
  exists rx, AbsDB.tasks d !! x = Some rx /\ TR.State rx = TASK_COMPLETE.
Proof.
  intros [Hti He] Hs Ht Hx Hr Hw Hb. destruct (He w spec t x r Hs Ht Hx Hr Hw) as (rx & Hrx & Hin).
  exists rx. split; [done |]. by eapply blockers_none.
Qed.

Lemma dependencies_met d w spec t x r :
  dbinv d -> AbsDB.workflows d !! w = Some spec -> t ∈ WF.Tasks spec -> x ∈ TS.Dependencies t ->
  AbsDB.tasks d !! TS.TaskId t = Some r -> TR.WorkflowID r = w -> started (TR.State r) = true ->
  exists rx, AbsDB.tasks d !! x = Some rx /\ TR.State rx = TASK_COMPLETE.
Proof.
  intros Hd Hs Ht Hx Hr Hw Hst. eapply unblocked_dependencies; [done.. |]. by apply (ti_started _ (di_tasks _ Hd) _ r).
Qed.

(** ** Changes of state that complete nothing *)

(** The change of one record, where [b] dependencies of the task are open. *)
Definition moves (b : nat) (r r' : TaskStateRecord) : Prop :=
  r' = r \/
  (stable r' /\ TR.TaskID r' = TR.TaskID r /\ TR.WorkflowID r' = TR.WorkflowID r /\
   TR.InDegree r' = TR.InDegree r /\ TR.DownstreamTaskIDs r' = TR.DownstreamTaskIDs r /\
   TR.State r <> TASK_COMPLETE /\ TR.State r <> TASK_FAILED /\
   (TR.State r' = TASK_SKIPPED \/
    (b = 0%nat /\ (TR.State r' = TASK_QUEUED \/ TR.State r' = TASK_RUNNING \/ TR.State r' = TASK_FAILED))) /\
   (TR.State r' = TASK_FAILED \/ TR.AttemptCount r' = TR.AttemptCount r)).

Definition quiet (T T' : Tasks) : Prop :=
  forall k, option_Forall2 (moves (blockers T k)) (T !! k) (T' !! k).

Ltac states := unfold started, TASK_PENDING, TASK_QUEUED, TASK_RUNNING, TASK_COMPLETE, TASK_FAILED, TASK_SKIPPED in *.

Lemma moves_weight b r r' k : moves b r r' -> weight k r' = weight k r.
Proof.
  intros [-> | (_ & _ & _ & _ & Hd & Hc & _ & Hs & _)]; [done |]. unfold weight. rewrite Hd.
  states. destruct (Z.eqb_spec (TR.State r) 3), (Z.eqb_spec (TR.State r') 3); done || lia.
Qed.

Lemma quiet_blockers T T' k : quiet T T' -> blockers T' k = blockers T k.
Proof.
  intros Hq. unfold blockers. f_equal. apply map_eq. intros x. rewrite !lookup_fmap.
  destruct (Hq x) as [r r' Hm |]; [|done]. simpl. f_equal. by eapply moves_weight.
Qed.

Lemma quiet_dom T T' : quiet T T' -> dom T' = dom T.
Proof.
  intros Hq. apply set_eq. intros k. rewrite !elem_of_dom. destruct (Hq k); split; by eauto.
Qed.

Lemma quiet_lookup T T' k r' : quiet T T' -> T' !! k = Some r' ->
  exists r, T !! k = Some r /\ moves (blockers T k) r r'.
Proof. intros Hq Hr'. pose proof (Hq k) as Hk. rewrite Hr' in Hk. inversion Hk; subst; eauto. Qed.

Lemma quiet_advances T T' : quiet T T' -> advances T T'.
Proof.
  intros Hq. split; [|intros k _; by rewrite (quiet_blockers T T' k Hq)].
  intros k r Hr. pose proof (Hq k) as Hk. rewrite Hr in Hk. inversion Hk as [? r' Hm E |]; subst.
  exists r'. split; [done |]. destruct Hm as [-> | (_ & _ & HW & _ & HD & Hc & Hf & _)]; [done |].
  split_and!; [done | done |]. intros [?|?]; congruence.
Qed.

Lemma quiet_tasks_inv T T' : quiet T T' -> tasks_inv T -> tasks_inv T'.
Proof.
  intros Hq [H1 H2 H3 H4 H5 H6 H7 H8]; split; intros k r' Hr';
  destruct (quiet_lookup _ _ _ _ Hq Hr') as (r & Hr & Hm); rewrite ?(quiet_blockers T T' k Hq).
  - destruct Hm as [-> | (_ & -> & _)]; eauto.
  - destruct Hm as [-> | (? & _)]; eauto.
  - destruct Hm as [-> | (_ & _ & _ & -> & _)]; eauto.
  - intros x Hx. apply elem_of_dom. rewrite (quiet_dom _ _ Hq). apply elem_of_dom.
    eapply (H4 k r); [done |]. by destruct Hm as [-> | (_ & _ & _ & _ & <- & _)].
  - destruct Hm as [-> | (_ & _ & _ & _ & _ & _ & _ & Hs & _)]; [eauto |]. states. intros. lia.
  - destruct Hm as [-> | (_ & _ & _ & _ & _ & _ & _ & [Hs | [? _]] & _)]; [eauto | | done].
    rewrite Hs. by states.
  - destruct Hm as [-> | (_ & _ & _ & _ & _ & _ & Hf & _ & [? | ->])]; [eauto | done |]. intros _. eauto.
  - destruct Hm as [-> | (_ & _ & _ & _ & _ & _ & _ & Hs & _)]; [eauto |]. states. lia.
Qed.

Lemma quiet_dbinv d T' : quiet (AbsDB.tasks d) T' -> dbinv d -> dbinv (with_tasks T' d).
Proof.
  intros Hq [Ht He]. split; [by eapply quiet_tasks_inv |].
  apply (edges_advance d); [done | exact (quiet_dom _ _ Hq) | exact (quiet_advances _ _ Hq) | done].
Qed.

Lemma moves_refl b r : moves b r r.
Proof. by left. Qed.

Lemma quiet_insert T k r r' :
  T !! k = Some r -> moves (blockers T k) r r' -> quiet T (<[k := r']> T).
Proof.
  intros Hr Hm x. rewrite lookup_insert. case_decide; [subst; rewrite Hr; by constructor |].
  destruct (T !! x); constructor. apply moves_refl.
Qed.

(** The state changes of [modifyTask] keep the record's place. *)
Lemma canon_update tm st r r0 :
  stable r -> is_int32 st ->
  TR.TaskID r0 = TR.TaskID r -> TR.WorkflowID r0 = TR.WorkflowID r ->
  TR.InDegree r0 = TR.InDegree r -> TR.DownstreamTaskIDs r0 = TR.DownstreamTaskIDs r ->
  TR.State r0 = st ->
  let r' := canonTask (set_LastUpdated tm r0) in
  stable r' /\ TR.TaskID r' = TR.TaskID r /\ TR.WorkflowID r' = TR.WorkflowID r /\
  TR.InDegree r' = TR.InDegree r /\ TR.DownstreamTaskIDs r' = TR.DownstreamTaskIDs r /\ TR.State r' = st /\
  TR.ExecutionID r' = TR.ExecutionID r0 /\ TR.AttemptCount r' = int32 (TR.AttemptCount r0).
Proof.
  intros (Hs & Ha & Hl & Hi & Hd)%stable_fields Hst E1 E2 E3 E4 E5 r'. subst r'. rewrite stable_fields.
  destruct r0 as [a b c d e f g h i j]; simpl in *; subst. rewrite Hd, (int32_id (TR.InDegree r)), (int32_id st) by done.
  rewrite Hd.
  split_and!; auto using int32_range, int64_range.
Qed.

Lemma skipped_quiet P T T' :
  tasks_inv T -> skipped_map P T T' ->
  (forall k r, T !! k = Some r -> P k r -> is_terminal (TR.State r) = false) -> quiet T T'.
Proof.
  intros Hti Hs Ht k. specialize (Hs k). destruct (T !! k) as [r|] eqn:Hr; [|rewrite Hs; constructor].
  destruct Hs as [[HP [tm ->]] | [_ ->]]; constructor; [|apply moves_refl].
  right. pose proof (Ht k r Hr HP) as Hn. unfold is_terminal in Hn.
  apply orb_false_iff in Hn as [[Hn1 Hn2]%orb_false_iff _].
  destruct (canon_update tm TASK_SKIPPED r (set_State TASK_SKIPPED r)) as (?&?&?&?&?&?&_&Hat);
    [by apply (ti_stable _ Hti k) | done | by destruct r..|]. unfold skip_record.
  split_and!; try done; [lia | lia | by left |]. right. rewrite Hat.
  destruct (proj1 (stable_fields r) (ti_stable _ Hti k r Hr)) as (_ & ? & _). by destruct r; simpl; apply int32_id.
Qed.

(** ** Completion *)

Lemma weight_completed k r r' :
  TR.State r <> TASK_COMPLETE -> TR.State r' = TASK_COMPLETE ->
  (weight k r' + occ k (TR.DownstreamTaskIDs r) = weight k r)%nat.
Proof.
  intros H1 H2. unfold weight. rewrite H2. by destruct (Z.eqb_spec (TR.State r) TASK_COMPLETE).
Qed.

Lemma settled_fields n r r' :
  settled n r r' ->
  TR.TaskID r' = TR.TaskID r /\ TR.WorkflowID r' = TR.WorkflowID r /\ TR.ExecutionID r' = TR.ExecutionID r /\
  TR.DownstreamTaskIDs r' = TR.DownstreamTaskIDs r /\ TR.AttemptCount r' = TR.AttemptCount r /\
  ((n = 0%nat /\ r' = r) \/
   (Z.of_nat n < TR.InDegree r /\ TR.State r' = TR.State r /\ TR.InDegree r' = TR.InDegree r - Z.of_nat n) \/
   (TR.InDegree r <= Z.of_nat n /\ TR.State r' = TASK_QUEUED /\ TR.InDegree r' = 0)).
Proof.
  intros [[-> ->] | (tm & Hn & Ht & ->)]; [split_and!; auto |].
  destruct (Z.ltb_spec (Z.of_nat n) (TR.InDegree r)); destruct r; simpl in *; split_and!; auto.
Qed.

Lemma settled_stable n r r' : stable r -> 0 <= TR.InDegree r -> settled n r r' -> stable r'.
Proof.
  intros Hs Hi [[-> ->] | (tm & Hn & Ht & ->)]; [done |]. apply stable_fields in Hs.
  apply stable_fields. destruct (Z.ltb_spec (Z.of_nat n) (TR.InDegree r)); destruct r; simpl in *;
  unfold is_int32, TASK_QUEUED in *; intuition lia.
Qed.

Section Completed.
Context (T T' : Tasks) (k : string) (r r1 : TaskStateRecord) (ready : list string).
Context (Hti : tasks_inv T) (Hr : T !! k = Some r) (Hb : blockers T k = 0%nat).
Context (Hc : TR.State r <> TASK_COMPLETE) (Hf : TR.State r <> TASK_FAILED) (Hp : TR.State r <> TASK_PENDING).
Context (Hid : TR.TaskID r1 = TR.TaskID r) (Hwf : TR.WorkflowID r1 = TR.WorkflowID r).
Context (Hds : TR.DownstreamTaskIDs r1 = TR.DownstreamTaskIDs r) (Hin : TR.InDegree r1 = TR.InDegree r).
Context (Hst : TR.State r1 = TASK_COMPLETE) (Hstab : stable r1) (Hatt : TR.AttemptCount r1 = TR.AttemptCount r).
Context (Hu : unblocked (TR.DownstreamTaskIDs r) (<[k := r1]> T) T' ready).

Abbreviation ds := (TR.DownstreamTaskIDs r).

(** The record of every task after the transaction. *)
Lemma completed_lookup x : x <> k ->
  match T !! x with
  | None => T' !! x = None
  | Some rx => exists rx', T' !! x = Some rx' /\
      ((TR.State rx = TASK_PENDING /\ settled (occ x ds) rx rx') \/ (TR.State rx <> TASK_PENDING /\ rx' = rx))
  end.
Proof using Hu.
  intros Hx. assert ((<[k := r1]> T : Tasks) !! x = T !! x) as E by (by rewrite lookup_insert_ne).
  destruct (T !! x) as [rx|]; [|by apply (unb_none _ _ _ _ Hu)].
  destruct (decide (TR.State rx = TASK_PENDING)) as [Hpx|Hpx].
  - destruct (unb_pending _ _ _ _ Hu x rx E Hpx) as (rx' & ? & ?). eauto.
  - rewrite (unb_other _ _ _ _ Hu x rx E Hpx). eauto.
Qed.

Lemma completed_self : T' !! k = Some r1.
Proof using Hst Hu.
  apply (unb_other _ _ _ _ Hu); [apply lookup_insert_eq |]. rewrite Hst. done.
Qed.

Lemma completed_inv_lookup x rx' : T' !! x = Some rx' ->
  (x = k /\ rx' = r1) \/
  (x <> k /\ exists rx, T !! x = Some rx /\
     ((TR.State rx = TASK_PENDING /\ settled (occ x ds) rx rx') \/ (TR.State rx <> TASK_PENDING /\ rx' = rx))).
Proof using Hst Hu.
  intros Hx'. destruct (decide (x = k)) as [->|Hx].
  - left. rewrite completed_self in Hx'. split; congruence.
  - right. split; [done |]. pose proof (completed_lookup x Hx) as Hl.
    destruct (T !! x) as [rx|]; [|congruence]. destruct Hl as (rx2 & E & Hl). simplify_eq. eauto.
Qed.

Lemma completed_blockers x : (blockers T' x + occ x ds = blockers T x)%nat.
Proof using Hr Hc Hst Hu.
  unfold blockers. assert (weight x <$> T' = <[k := weight x r1]> (weight x <$> T)) as ->.
  { apply map_eq. intros y. rewrite lookup_fmap, lookup_insert. case_decide as E.
    - by rewrite <- E, completed_self.
    - rewrite lookup_fmap. pose proof (completed_lookup y ltac:(congruence)) as Hl.
      destruct (T !! y) as [ry|]; [|by rewrite Hl]. destruct Hl as (ry' & -> & Hy). simpl. f_equal.
      destruct Hy as [[Hpy Hs] | [_ ->]]; [|done]. unfold weight.
      destruct (settled_fields _ _ _ Hs) as (_ & _ & _ & -> & _ & [[_ ->] | [(_ & -> & _) | (_ & -> & _)]]); [done.. |].
      by rewrite Hpy. }
  pose proof (msum_insert (weight x <$> T) k (weight x r) (weight x r1)) as E.
  rewrite lookup_fmap, Hr in E. specialize (E eq_refl).
  pose proof (weight_completed x r r1 Hc Hst). clear Hb. lia.
Qed.

Lemma completed_tasks_inv : tasks_inv T'.
Proof.
  destruct Hti as [H1 H2 H3 H4 H5 H6 H7 H8]. split; intros x rx' Hx';
  pose proof (completed_blockers x) as Hbx;
  destruct (completed_inv_lookup x rx' Hx') as [[-> ->] | (Hx & rx & Hrx & Hcase)].
  - rewrite Hid. eauto.
  - destruct Hcase as [[_ Hs] | [_ ->]]; [|eauto]. destruct (settled_fields _ _ _ Hs) as (-> & _). eauto.
  - done.
  - destruct Hcase as [[_ Hs] | [_ ->]]; [|eauto]. eapply settled_stable; [by eapply H2 | by eapply H3 | done].
  - rewrite Hin. eauto.
  - destruct Hcase as [[_ Hs] | [_ ->]]; [|eauto]. pose proof (H3 _ _ Hrx).
    destruct (settled_fields _ _ _ Hs) as (_ & _ & _ & _ & _ & [[_ ->] | [(? & _ & ->) | (_ & _ & ->)]]); lia.
  - rewrite Hds. intros x0 Hy. assert (is_Some (T !! x0)) as [ry Hry] by eauto.
    destruct (decide (x0 = k)) as [->|Hne]; [rewrite completed_self; eauto |].
    pose proof (completed_lookup x0 Hne) as Hl. rewrite Hry in Hl. destruct Hl as (? & ? & _). eauto.
  - intros x0 Hy. assert (is_Some (T !! x0)) as [ry Hry].
    { apply (H4 x rx Hrx x0). destruct Hcase as [[_ Hs] | [_ ->]]; [|done].
      by destruct (settled_fields _ _ _ Hs) as (_ & _ & _ & <- & _). }
    destruct (decide (x0 = k)) as [->|Hne]; [rewrite completed_self; eauto |].
    pose proof (completed_lookup x0 Hne) as Hl. rewrite Hry in Hl. destruct Hl as (? & ? & _). eauto.
  - by rewrite Hst.
  - destruct Hcase as [[Hpx Hs] | [Hpx ->]]; [|done]. intros Hpx'. pose proof (H5 _ _ Hrx Hpx).
    destruct (settled_fields _ _ _ Hs) as (_ & _ & _ & _ & _ & [[? ->] | [(? & _ & ->) | (_ & E & _)]]); [lia.. |].
    by rewrite E in Hpx'.
  - intros _. lia.
  - destruct Hcase as [[Hpx Hs] | [Hpx ->]]; intros Hst'; [|pose proof (H6 _ _ Hrx Hst'); lia].
    pose proof (H5 _ _ Hrx Hpx).
    destruct (settled_fields _ _ _ Hs) as (_ & _ & _ & _ & _ & [[? ->] | [(? & E & _) | (? & _ & _)]]); [| |lia];
    exfalso; rewrite ?E, Hpx in Hst'; by states.
  - intros _. rewrite Hatt. eauto.
  - destruct Hcase as [[Hpx Hs] | [_ ->]]; [|eauto]. intros _.
    destruct (settled_fields _ _ _ Hs) as (_ & _ & _ & _ & -> & _). apply (H7 x rx Hrx). by rewrite Hpx.
  - rewrite Hst. by states.
  - destruct Hcase as [[Hpx Hs] | [_ ->]]; [|eauto].
    destruct (settled_fields _ _ _ Hs) as (_ & _ & _ & _ & _ & [[_ ->] | [(_ & -> & _) | (_ & -> & _)]]); rewrite ?Hpx; by states.
Qed.

Lemma completed_advances : advances T T'.
Proof using Hr Hc Hf Hst Hu Hwf Hds.
  clear Hb. split; [|intros x _; pose proof (completed_blockers x); lia].
  intros x rx Hrx. destruct (decide (x = k)) as [->|Hx].
  - rewrite completed_self. simplify_eq. exists r1. split_and!; [done.. |]. by intros [?|?].
  - pose proof (completed_lookup x Hx) as Hl. rewrite Hrx in Hl. destruct Hl as (rx' & Hrx' & Hcase).
    exists rx'. split; [done |]. destruct Hcase as [[Hpx Hs] | [_ ->]]; [|done].
    destruct (settled_fields _ _ _ Hs) as (_ & -> & _ & -> & _). split_and!; [done.. |].
    rewrite Hpx. states. lia.
Qed.

Lemma completed_dom : dom T' = dom T.
Proof using Hr Hc Hf Hst Hu Hwf Hds.
  apply set_eq. intros x. rewrite !elem_of_dom. split; intros [rx Hrx].
  - destruct (completed_inv_lookup x rx Hrx) as [[-> _] | (_ & ? & ? & _)]; eauto.
  - destruct (adv_record _ _ completed_advances x rx Hrx) as (? & ? & _). eauto.
Qed.

End Completed.

(** ** New workflows *)

(** What a caller must grant for a submission to keep the invariant: the task ids
    are not used by another workflow, and no task has 2^31 dependencies. *)
Definition fresh_ids (T : Tasks) (w : WorkflowSpec) : Prop :=
  forall t, t ∈ WF.Tasks w ->
    T !! TS.TaskId t = None /\ Z.of_nat (length (TS.Dependencies t)) < 2 ^ 31.

Lemma store_workflow_inv d w :
  dbinv d -> fresh_ids (AbsDB.tasks d) w ->
  dbinv (AbsDB.mk (<[WF.WorkflowId w := w]> (AbsDB.workflows d)) (AbsDB.tasks d)
                  (AbsDB.workers d) (AbsDB.wstates d)).
Proof.
  intros [Ht He] Hf. split; [done |]. intros w' spec t x r. simpl. rewrite lookup_insert.
  case_decide; [|apply He]. intros [= <-] Hin _ Hr. destruct (Hf t Hin). congruence.
Qed.

Section Initialized.
Context (T T' : Tasks) (w : WorkflowSpec) (dag : DAG).
Context (Hti : tasks_inv T) (Hdag : dag_of (WF.Tasks w) dag).
Context (Huniq : unique_ids w) (Hcl : closed w) (Hfresh : fresh_ids T w).
Context (Hin : initialized (WF.WorkflowId w) (GetInDegree dag) (GetAllDownstream dag) (WF.Tasks w) T T').

Abbreviation l := (WF.Tasks w).

(** The record of a new task. *)
Lemma new_record t : t ∈ l -> exists r, T' !! TS.TaskId t = Some r /\ stable r /\
  TR.TaskID r = TS.TaskId t /\ TR.WorkflowID r = WF.WorkflowId w /\ TR.State r = TASK_PENDING /\
  TR.InDegree r = Z.of_nat (length (TS.Dependencies t)) /\
  TR.DownstreamTaskIDs r = GetDownstream dag (TS.TaskId t) /\ TR.AttemptCount r = 0 /\ TR.Output r = EmptyString.
Proof.
  intros Ht. destruct (init_in _ _ _ _ _ _ Hin t Ht) as (Hne & tm & Hr).
  destruct (Hfresh t Ht) as [_ Hlen].
  assert (is_int32 (Z.of_nat (length (TS.Dependencies t)))) as Hi by (unfold is_int32; lia).
  assert (canonIDs (GetDownstream dag (TS.TaskId t)) = GetDownstream dag (TS.TaskId t)) as Hd.
  { apply canonIDs_id. intros Hl%last_Some. destruct Hl as [l' Hl'].
    assert (EmptyString ∈ GetDownstream dag (TS.TaskId t)) as He by (rewrite Hl', elem_of_app; right; by left).
    apply (dag_downstream_ids _ _ Hdag) in He as (t' & E & Ht')%list_elem_of_fmap.
    by destruct (init_in _ _ _ _ _ _ Hin t' Ht') as (Hne' & _). }
  destruct (dag_task _ _ Hdag t Ht) as (_ & _ & Hdeg).
  eexists. split; [exact Hr |]. unfold GetInDegree, GetDownstream, GetAllDownstream in *.
  rewrite stable_fields. unfold canonTask, initial_record. simpl. rewrite Hdeg. simpl.
  rewrite Hd, Hd. rewrite !(int32_id (Z.of_nat _)) by done.
  split_and!; auto using int32_range, int64_range.
Qed.

Lemma new_lookup x r : T' !! x = Some r ->
  ((x ∉ ids l) /\ T !! x = Some r) \/ (exists t, t ∈ l /\ x = TS.TaskId t).
Proof.
  intros Hr. destruct (decide (x ∈ ids l)) as [(t & -> & Ht)%list_elem_of_fmap | Hn]; [by eauto |].
  left. split; [done |]. by rewrite <- (init_out _ _ _ _ _ _ Hin x Hn).
Qed.

Lemma old_kept x r : T !! x = Some r -> (x ∉ ids l) /\ T' !! x = Some r.
Proof.
  intros Hr. assert (x ∉ ids l) as Hn.
  { intros (t & -> & Ht)%list_elem_of_fmap. destruct (Hfresh t Ht). congruence. }
  split; [done |]. by rewrite (init_out _ _ _ _ _ _ Hin x Hn).
Qed.

Lemma new_blockers_sum k :
  blockers T' k = (blockers T k + sum_list_with (fun x => occ k (GetDownstream dag x)) (ids l))%nat.
Proof.
  apply msum_extend; [done | |].
  - intros x Hx. by rewrite !lookup_fmap, (init_out _ _ _ _ _ _ Hin x Hx).
  - intros x (t & -> & Ht)%list_elem_of_fmap. rewrite !lookup_fmap. destruct (Hfresh t Ht) as [-> _].
    split; [done |]. destruct (new_record t Ht) as (r & -> & _ & _ & _ & Hs & _ & Hd & _). simpl. f_equal.
    unfold weight. by rewrite Hs, Hd.
Qed.

Lemma old_blockers k : is_Some (T !! k) -> blockers T' k = blockers T k.
Proof.
  intros [r Hr]. rewrite new_blockers_sum. destruct (old_kept k r Hr) as [Hn _].
  rewrite sum_list_with_zero; [lia |]. intros x _. apply occ_zero. intros Hx. by apply (dag_downstream_ids _ _ Hdag) in Hx.
Qed.

Lemma new_blockers t : t ∈ l -> blockers T' (TS.TaskId t) = length (TS.Dependencies t).
Proof.
  intros Ht. rewrite new_blockers_sum.
  assert (blockers T (TS.TaskId t) = 0%nat) as ->.
  { apply msum_zero. intros x n. rewrite lookup_fmap. destruct (T !! x) as [r|] eqn:Hr; [|done].
    simpl. intros [= <-]. unfold weight. case_match; [done |]. apply occ_zero. intros Hx.
    destruct (ti_closed _ Hti x r Hr _ Hx) as [? Hy]. destruct (Hfresh t Ht). congruence. }
  simpl. rewrite <- (sum_occ (ids l) (TS.Dependencies t)); [|done|].
  - apply sum_list_with_ext. intros x (t' & -> & Ht')%list_elem_of_fmap.
    by apply (dag_downstream _ _ Hdag).
  - intros x Hx. apply (Hcl (TS.TaskId t)). by exists t.
Qed.

Lemma initialized_advances : advances T T'.
Proof.
  split; [|intros k Hk; by rewrite old_blockers].
  intros k r Hr. destruct (old_kept k r Hr) as [_ Hr']. eauto.
Qed.

Lemma initialized_tasks_inv : tasks_inv T'.
Proof.
  split; intros k r Hr; destruct (new_lookup k r Hr) as [[Hn Ho] | (t & Ht & ->)].
  all: try destruct (new_record t Ht) as (r' & E & H1 & H2 & H3 & H4 & H5 & H6 & H7 & _); simplify_eq.
  all: try rewrite (old_blockers k) by eauto.
  - by eapply ti_key.
  - done.
  - by eapply ti_stable.
  - done.
  - by eapply ti_nonneg.
  - lia.
  - intros x Hx. destruct (ti_closed _ Hti k r Ho x Hx) as [rx Hrx].
    destruct (old_kept x rx Hrx). eauto.
  - rewrite H6. intros x Hx. apply (dag_downstream_ids _ _ Hdag) in Hx as (t' & -> & Ht')%list_elem_of_fmap.
    destruct (new_record t' Ht') as (? & ? & _). eauto.
  - by apply ti_pending.
  - intros _. by rewrite new_blockers.
  - by apply ti_started.
  - by rewrite H4.
  - by apply (ti_attempts _ Hti k).
  - done.
  - by apply (ti_state _ Hti k).
  - rewrite H4. by states.
Qed.

End Initialized.

Lemma initialized_inv d w dag T' :
  dbinv d -> AbsDB.workflows d !! WF.WorkflowId w = Some w -> dag_of (WF.Tasks w) dag ->
  unique_ids w -> closed w -> fresh_ids (AbsDB.tasks d) w ->
  initialized (WF.WorkflowId w) (GetInDegree dag) (GetAllDownstream dag) (WF.Tasks w) (AbsDB.tasks d) T' ->
  dbinv (with_tasks T' d).
Proof.
  intros [Hti He] Hw Hdag Hu Hcl Hf Hin. split; [by eapply initialized_tasks_inv |].
  intros v spec t x r Hs Ht Hx Hr Hv. simpl in *.
  destruct (new_lookup _ _ _ _ Hin _ _ Hr) as [[Hn Ho] | (t' & Ht' & E)].
  - destruct (He v spec t x r Hs Ht Hx Ho Hv) as (rx & Hrx & Hd). exists rx.
    by destruct (old_kept _ _ _ _ Hf Hin x rx Hrx).
  - destruct (new_record _ _ _ _ Hdag Hf Hin t' Ht') as (r' & E' & _ & _ & Hv' & _).
    rewrite <- E, Hr in E'. injection E' as <-.
    assert (spec = w) as -> by congruence.
    assert (x ∈ ids (WF.Tasks w)) as (tx & -> & Htx)%list_elem_of_fmap by (apply (Hcl (TS.TaskId t)); by exists t).
    destruct (new_record _ _ _ _ Hdag Hf Hin tx Htx) as (rx & Hrx & _ & _ & _ & _ & _ & Hd & _).
    exists rx. split; [done |]. rewrite Hd. apply occ_elem.
    rewrite (dag_downstream _ _ Hdag tx t Htx Ht). by apply occ_elem.
Qed.
