(* ===== verification/CoordinatorInv.v ===== *)
(** * Every handler keeps the scheduling invariant

    The invariant of the coordinator's memory over the task records, and the
    proof that each handler keeps it and only advances the records, under any
    fault: [keeps]. When the process dies inside a handler the database is left
    in a state that satisfies [dbinv], which is what a restart begins with. *)

From S2P Require Import Prelude Proto Codec Env RecordDB Store StoreSpec Dag Heartbeat Coordinator Invariant.

(** ** The memory *)

Record meminv (T : Tasks) (m : Mem) : Prop := {
  mi_NoDup : NoDup (readyQueue m);
  mi_queued k : k ∈ readyQueue m -> exists r, T !! k = Some r /\ TR.State r = TASK_QUEUED;
  mi_assigned k e : assignedTasks m !! k = Some e -> exists r, T !! k = Some r /\
    TR.ExecutionID r = e /\ (TR.State r = TASK_RUNNING \/ TR.State r = TASK_SKIPPED) /\ blockers T k = 0%nat;
  mi_running : dom (runningTasks m) = dom (assignedTasks m)
}.

(** What the invariant reads of the memory. *)
Definition same_tasks (m m' : Mem) : Prop :=
  readyQueue m' = readyQueue m /\ assignedTasks m' = assignedTasks m /\ runningTasks m' = runningTasks m.

Lemma meminv_same T m m' : same_tasks m m' -> meminv T m -> meminv T m'.
Proof. intros (E1 & E2 & E3) [H1 H2 H3 H4]. split; rewrite ?E1, ?E2, ?E3; done. Qed.

Lemma same_trans m1 m2 m3 : same_tasks m1 m2 -> same_tasks m2 m3 -> same_tasks m1 m3.
Proof. intros (E1 & E2 & E3) (F1 & F2 & F3). unfold same_tasks. by rewrite F1, F2, F3. Qed.

Lemma same_foldl {A} (f : Mem -> A -> Mem) l m :
  (forall m a, same_tasks m (f m a)) -> same_tasks m (foldl f m l).
Proof.
  intros Hf. revert m. induction l as [|a l IH]; intros m; simpl; [done |].
  destruct (IH (f m a)) as (E1 & E2 & E3). unfold same_tasks. rewrite E1, E2, E3. apply Hf.
Qed.

Lemma meminv_new T scan dead n o : meminv T (newMem scan dead n o).
Proof. split; simpl; [constructor | by intros ? ?%elem_of_nil | done | by rewrite !dom_empty_L]. Qed.

(** A task is not both queued and assigned. *)
Lemma queued_not_assigned T m k : meminv T m -> k ∈ readyQueue m -> assignedTasks m !! k = None.
Proof.
  intros Hm Hk. destruct (mi_queued _ _ Hm k Hk) as (r & Hr & Hs).
  destruct (assignedTasks m !! k) as [e|] eqn:E; [|done].
  destruct (mi_assigned _ _ Hm k e E) as (r' & Hr' & _ & Hs' & _). simplify_eq. states. lia.
Qed.

Lemma unassigned_not_running T m k : meminv T m -> assignedTasks m !! k = None -> runningTasks m !! k = None.
Proof. intros Hm. rewrite <- !not_elem_of_dom, (mi_running _ _ Hm). done. Qed.

(** A record that is neither queued nor assigned may move. *)
Lemma meminv_insert T m k r r' :
  meminv T m -> T !! k = Some r -> moves (blockers T k) r r' ->
  k ∉ readyQueue m -> assignedTasks m !! k = None -> meminv (<[k := r']> T) m.
Proof.
  intros [H1 H2 H3 H4] Hr Hm Hq Ha. split; [done | | | done].
  - intros x Hx. rewrite lookup_insert_ne by congruence. by apply H2.
  - intros x e Hx. rewrite lookup_insert_ne by congruence.
    rewrite (quiet_blockers T) by (by eapply quiet_insert). by apply H3.
Qed.

Lemma meminv_enqueue T m k r :
  meminv T m -> k ∉ readyQueue m -> T !! k = Some r -> TR.State r = TASK_QUEUED -> meminv T (enqueue [k] m).
Proof.
  intros [H1 H2 H3 H4] Hq Hr Hs. destruct m; unfold enqueue; simpl in *. split; simpl; [| |done|done].
  - apply NoDup_app. split_and!; [done | | apply NoDup_singleton]. by intros x Hx ->%list_elem_of_singleton.
  - intros x [Hx | ->%list_elem_of_singleton]%elem_of_app; eauto.
Qed.

Lemma meminv_assign T m k w e r :
  meminv T m -> T !! k = Some r -> TR.State r = TASK_RUNNING -> TR.ExecutionID r = e ->
  blockers T k = 0%nat -> meminv T (assign k w e m).
Proof.
  intros [H1 H2 H3 H4] Hr Hs He Hb. destruct m; unfold assign; simpl in *. split; simpl; [done | done | |].
  - intros x e'. rewrite lookup_insert. case_decide; [|apply H3]. subst x. intros [= <-].
    exists r. auto.
  - by rewrite !dom_insert_L, H4.
Qed.

Lemma meminv_release T m k : meminv T m -> meminv T (release k m).
Proof.
  intros [H1 H2 H3 H4]. destruct m; unfold release; simpl in *. split; simpl; [done | done | |].
  - intros x e. rewrite lookup_delete. case_decide; [done | apply H3].
  - by rewrite !dom_delete_L, H4.
Qed.

Lemma release_queue k m : readyQueue (release k m) = readyQueue m.
Proof. by destruct m. Qed.

Lemma release_assigned k m : assignedTasks (release k m) = delete k (assignedTasks m).
Proof. by destruct m. Qed.

Lemma meminv_release_all T m l : meminv T m -> meminv T (foldl (fun m k => release k m) m l).
Proof. revert m. induction l as [|k l IH]; intros m Hm; simpl; [done |]. apply IH. by apply meminv_release. Qed.

Lemma release_all_queue m l : readyQueue (foldl (fun m k => release k m) m l) = readyQueue m.
Proof. revert m. induction l as [|k l IH]; intros m; simpl; [done |]. rewrite IH. apply release_queue. Qed.

Lemma release_all_assigned m l x :
  assignedTasks (foldl (fun m k => release k m) m l) !! x
  = if decide (x ∈ l) then None else assignedTasks m !! x.
Proof.
  revert m. induction l as [|k l IH]; intros m; cbn [foldl]; [by rewrite decide_False by apply not_elem_of_nil |].
  rewrite IH, release_assigned, lookup_delete.
  destruct (decide (k = x)) as [->|Hne]; [rewrite (decide_True (P := x ∈ x :: l)) by (by left); by case_decide |].
  destruct (decide (x ∈ l)) as [Hx|Hx]; [by rewrite decide_True by (by right) |].
  rewrite decide_False; [done |]. by intros [?|?]%elem_of_cons.
Qed.

(** Tasks that were skipped leave the queue. *)
Lemma meminv_skipped T T' m P l :
  meminv T m -> tasks_inv T -> skipped_map P T T' ->
  (forall k r, T !! k = Some r -> P k r -> is_terminal (TR.State r) = false) ->
  (forall k r, T !! k = Some r -> P k r -> k ∈ l) -> meminv T' (dequeue_all l m).
Proof.
  intros [H1 H2 H3 H4] Hti Hs Ht Hl. pose proof (skipped_quiet _ _ _ Hti Hs Ht) as Hq.
  destruct m; unfold dequeue_all; simpl in *. split; simpl; [by apply NoDup_filter | | |done].
  - intros k [Hk Hin]%list_elem_of_filter. destruct (H2 k Hin) as (r & Hr & Hst).
    specialize (Hs k). rewrite Hr in Hs. destruct Hs as [[HP _] | [_ Hs]]; [|eauto].
    by destruct (Hk (Hl k r Hr HP)).
  - intros k e He. rewrite (quiet_blockers _ _ k Hq). destruct (H3 k e He) as (r & Hr & Hex & Hst & Hb).
    specialize (Hs k). rewrite Hr in Hs. destruct Hs as [[HP [tm Hs]] | [_ Hs]]; [|eauto].
    eexists. split; [exact Hs |]. destruct (canon_update tm TASK_SKIPPED r (set_State TASK_SKIPPED r))
      as (_ & _ & _ & _ & _ & E1 & E2 & _); [by eapply ti_stable | done | by destruct r.. |].
    unfold skip_record. rewrite E1, E2. split_and!; [by destruct r | by right | done].
Qed.

(** The completed task leaves the memory, the tasks it made ready enter the queue. *)
Lemma meminv_completed T T' m k r r1 ready :
  meminv T m -> T !! k = Some r -> k ∉ readyQueue m -> TR.State r <> TASK_COMPLETE ->
  TR.State r1 = TASK_COMPLETE -> unblocked (TR.DownstreamTaskIDs r) (<[k := r1]> T) T' ready ->
  meminv T' (enqueue ready (release k m)).
Proof.
  intros [H1 H2 H3 H4] Hr Hkq Hc Hst Hu.
  assert (forall x rx, x <> k -> T !! x = Some rx -> TR.State rx <> TASK_PENDING -> T' !! x = Some rx) as Hold.
  { intros x rx Hx Hrx Hp. apply (unb_other _ _ _ _ Hu); [by rewrite lookup_insert_ne | done]. }
  destruct m; unfold enqueue, release; simpl in *. split; simpl.
  - apply NoDup_app. split_and!; [done | | apply (unb_NoDup _ _ _ _ Hu)].
    intros x Hx (rx & Hrx & Hp & _)%(unb_ready _ _ _ _ Hu).
    rewrite lookup_insert_ne in Hrx by congruence. destruct (H2 x Hx) as (? & ? & ?). simplify_eq. states. lia.
  - intros x [Hx | Hx]%elem_of_app.
    + destruct (H2 x Hx) as (rx & Hrx & Hs). exists rx. split; [|done].
      apply Hold; [congruence | done | states; lia].
    + apply (unb_ready _ _ _ _ Hu) in Hx as (rx & Hrx & Hp & Ho & Hle).
      destruct (unb_pending _ _ _ _ Hu x rx Hrx Hp) as (rx' & Hrx' & Hset). exists rx'. split; [done |].
      destruct (settled_fields _ _ _ Hset) as (_ & _ & _ & _ & _ & [[? _] | [[? _] | (_ & ? & _)]]); [lia | lia | done].
  - intros x e. rewrite lookup_delete. case_decide as Hx; [done |]. intros He.
    destruct (H3 x e He) as (rx & Hrx & Hex & Hs & Hb). exists rx.
    split_and!; [apply Hold; [congruence | done | states; lia] | done | done |].
    pose proof (completed_blockers T T' k r r1 ready Hr Hc Hst Hu x). lia.
  - by rewrite !dom_delete_L, H4.
Qed.

(** ** Handlers that keep the invariant *)

Abbreviation CA := (Coordinator AbsDB).

Definition db (c : CA) : AbsDB := st_db (state c).
Abbreviation tasks c := (AbsDB.tasks (db c)).

Record cinv (c : CA) : Prop := {
  ci_db : dbinv (db c);
  ci_mem : meminv (tasks c) (mem c)
}.

(** What holds of a state reached from [c0], and of the state a dead process leaves. *)
Definition good (c0 c : CA) : Prop := cinv c /\ advances (tasks c0) (tasks c).
Definition dead (c0 c : CA) : Prop := dbinv (db c) /\ advances (tasks c0) (tasks c).

Definition keeps {A} (h : M CA A) : Prop :=
  forall c0 c, good c0 c -> wp h c (fun _ c' => good c0 c') (dead c0).

Lemma good_refl c : cinv c -> good c c.
Proof. intros Hc. by split. Qed.

Lemma good_dead c0 c : good c0 c -> dead c0 c.
Proof. by intros [[] ?]. Qed.

Lemma good_trans c0 c1 c2 : good c0 c1 -> good c1 c2 -> good c0 c2.
Proof. intros [_ H1] [? H2]. split; [done |]. by transitivity (tasks c1). Qed.

(** A change of the workflow states or of the rest of the memory. *)
Lemma good_same c0 c c' :
  good c0 c -> AbsDB.workflows (db c') = AbsDB.workflows (db c) -> tasks c' = tasks c ->
  same_tasks (mem c) (mem c') -> good c0 c'.
Proof.
  intros [[[Ht He] Hm] Ha] Hw Htk Hs. split; [|by rewrite Htk]. split; [split|].
  - by rewrite Htk.
  - eapply (edges_advance (db c)); [done | by rewrite Htk | by rewrite Htk | done].
  - rewrite Htk. by eapply meminv_same.
Qed.

Lemma dead_same c0 c c' :
  good c0 c -> db c' = db c -> dead c0 c'.
Proof. intros [[? _] ?] E. unfold dead. by rewrite E. Qed.

Lemma keeps_ret {A} (a : A) : keeps (ret a).
Proof. intros c0 c Hc. by apply wp_ret. Qed.

Lemma keeps_bind {A B} (h : M CA A) (k : A -> M CA B) :
  keeps h -> (forall a, keeps (k a)) -> keeps (bind h k).
Proof.
  intros Hh Hk c0 c Hc. apply wp_bind. eapply wp_mono; [by apply Hh | | done].
  intros a c' Hc'. by apply Hk.
Qed.

Lemma keeps_getm {A} (f : Mem -> A) : keeps (getm f).
Proof. intros c0 c Hc. by apply wp_gets. Qed.

Lemma keeps_modm f : (forall m, same_tasks m (f m)) -> keeps (modm f).
Proof. intros Hf c0 c Hc. apply wp_modify. by eapply good_same. Qed.

Lemma keeps_foldM {X A} (f : A -> X -> M CA A) a l : (forall a x, keeps (f a x)) -> keeps (foldM f a l).
Proof.
  intros Hf c0 c Hc. apply (wp_foldM (fun _ => good c0)); [done | |done]. intros a' x l' c' Hc'. by apply Hf.
Qed.

Lemma same_refl m : same_tasks m m.
Proof. done. Qed.

Lemma keeps_newUUID `{Env} : keeps newUUID.
Proof. apply keeps_bind; [apply keeps_getm |]. intros n. apply keeps_bind; [apply keeps_modm | intros; apply keeps_ret]. by intros []. Qed.

Lemma keeps_nextOrders `{Env} k : keeps (nextOrders k).
Proof. apply keeps_bind; [apply keeps_getm |]. intros n. apply keeps_bind; [apply keeps_modm | intros; apply keeps_ret]. by intros []. Qed.

Lemma same_on_metrics f m : same_tasks m (on_metrics f m).
Proof. by destruct m. Qed.

Lemma same_gauge m : same_tasks m (gauge_queue m).
Proof. by destruct m. Qed.

Lemma same_cache_policy w p m : same_tasks m (cache_policy w p m).
Proof. by destruct m. Qed.

Lemma same_cache_task w p m : same_tasks m (cache_task w p m).
Proof. by destruct m. Qed.

Create HintDb keeps discriminated.
#[export] Hint Resolve keeps_ret keeps_getm keeps_newUUID keeps_nextOrders
  same_refl same_on_metrics same_gauge same_cache_policy same_cache_task : keeps.

(** Follow the code of a handler whose parts keep the invariant. *)
Ltac keep :=
  repeat first
    [ solve [auto with keeps nocore]
    | match goal with
      | |- keeps (bind _ _) => apply keeps_bind; [| intros ?]
      | |- keeps (modm _) => apply keeps_modm; intros ?
      | |- keeps (match ?x with _ => _ end) => destruct x
      | |- keeps (foldM _ _ _) => apply keeps_foldM; intros ? ?
      | |- same_tasks _ (foldl _ _ _) => apply same_foldl; intros ? ?
      end ].

Section Handlers.
Context `{Env} `{Protobuf}.

Lemma wp_onStore {A} (m : M (St AbsDB) A) (c : CA) (Q : A -> CA -> Prop) E :
  wp m (state c) (fun a s => Q a (mkCoordinator s (mem c))) (fun s => E (mkCoordinator s (mem c))) ->
  wp (onStore m) c Q E.
Proof. unfold wp, onStore, zoom. by destruct (m (state c)). Qed.

(** A call that leaves the database alone. *)
Lemma wp_read {A} (m : M (St AbsDB) A) (P : A -> Prop) c0 c (Q : A -> CA -> Prop) :
  good c0 c ->
  wp m (state c) (fun r s => st_db s = db c /\ P r) (fun s => st_db s = db c) ->
  (forall r c', good c0 c' -> mem c' = mem c -> db c' = db c -> P r -> Q r c') ->
  wp (onStore m) c Q (dead c0).
Proof.
  intros Hg Hm HQ. apply wp_onStore. eapply wp_mono; [done | |].
  - intros r s [Hs HP]. apply HQ; [|done..].
    eapply good_same; unfold db in *; simpl; by rewrite ?Hs.
  - intros s Hs. by apply (dead_same _ c).
Qed.

(** A call that changes the database in one transaction. *)
Lemma wp_write {A} (m : M (St AbsDB) A) (P : A -> St AbsDB -> Prop) c0 c (Q : A -> CA -> Prop) :
  good c0 c ->
  wp m (state c) P (fun s => st_db s = db c) ->
  (forall r c', mem c' = mem c -> P r (state c') -> Q r c') ->
  wp (onStore m) c Q (dead c0).
Proof.
  intros Hg Hm HQ. apply wp_onStore. eapply wp_mono; [done | |].
  - intros r s HP. by apply HQ.
  - intros s Hs. by apply (dead_same _ c).
Qed.

Lemma keeps_now : keeps (onStore now).
Proof.
  intros c0 c Hc. apply (wp_read _ (fun _ => True) c0 c); [done | | done].
  apply wp_now. done.
Qed.

Lemma keeps_UpdateWorkflowState w v : keeps (onStore (UpdateWorkflowState w v)).
Proof.
  intros c0 c Hc. eapply wp_write; [done | apply UpdateWorkflowState_spec |].
  intros [e|] c' Hm Hd; fold (db c') (db c) in Hd; simpl in Hd.
  - eapply good_same; [done | by rewrite Hd.. | by rewrite Hm].
  - destruct Hd as (r & _ & Hd). eapply good_same; [done | by rewrite Hd.. | by rewrite Hm].
Qed.

(** Reading operations. *)
Lemma keeps_read {A} (m : M (St AbsDB) A) (P : A -> Prop) :
  (forall s, wp m s (fun r s' => st_db s' = st_db s /\ P r) (fun s' => st_db s' = st_db s)) -> keeps (onStore m).
Proof. intros Hm c0 c Hc. eapply (wp_read _ P); [done | apply Hm | done]. Qed.

Lemma keeps_checkWorkflowCompletion w : keeps (checkWorkflowCompletion w).
Proof.
  unfold checkWorkflowCompletion. apply keeps_bind.
  { eapply (keeps_read _ (fun _ => True)). intros s. eapply wp_mono; [apply IsWorkflowComplete_spec | | done]. by intros r s' [? _]. }
  intros [[] [e|]]; keep.
  { eapply (keeps_read _ (fun _ => True)). intros s. eapply wp_mono; [apply GetTaskStatuses_spec | | done]. by intros r s' [? _]. }
  apply keeps_UpdateWorkflowState.
Qed.
#[local] Hint Resolve keeps_now keeps_UpdateWorkflowState keeps_checkWorkflowCompletion : keeps.

(** *** Transactions on one task *)

(** The record a [modifyTask] writes, with [st] and [ex] its new state and
    execution id; only a failure changes the attempt count. *)
Definition rewritten (k : string) (st : TaskState) (ex : TaskStateRecord -> string) (d d' : AbsDB) : Prop :=
  exists r r', AbsDB.tasks d !! k = Some r /\ d' = with_tasks (<[k := r']> (AbsDB.tasks d)) d /\
    stable r' /\ TR.TaskID r' = TR.TaskID r /\ TR.WorkflowID r' = TR.WorkflowID r /\
    TR.InDegree r' = TR.InDegree r /\ TR.DownstreamTaskIDs r' = TR.DownstreamTaskIDs r /\
    TR.State r' = st /\ TR.ExecutionID r' = ex r /\ TR.Output r' = TR.Output r /\
    (st = TASK_FAILED \/ TR.AttemptCount r' = TR.AttemptCount r).

Lemma modified_rewritten k st ex u d d' :
  tasks_inv (AbsDB.tasks d) -> is_int32 st ->
  (forall t r, exists r0, u t r = set_LastUpdated t r0 /\ TR.TaskID r0 = TR.TaskID r /\
     TR.WorkflowID r0 = TR.WorkflowID r /\ TR.InDegree r0 = TR.InDegree r /\
     TR.DownstreamTaskIDs r0 = TR.DownstreamTaskIDs r /\ TR.State r0 = st /\ TR.ExecutionID r0 = ex r /\
     TR.Output r0 = TR.Output r /\ (st = TASK_FAILED \/ TR.AttemptCount r0 = TR.AttemptCount r)) ->
  modified k u d d' -> rewritten k st ex d d'.
Proof.
  intros Hti Hst Hu (r & t & Hr & _ & ->). destruct (Hu t r) as (r0 & -> & E1 & E2 & E3 & E4 & E5 & E6 & Eo & E7).
  pose proof (ti_stable _ Hti k r Hr) as Hstab. pose proof Hstab as (_ & Ha & _)%stable_fields.
  destruct (canon_update t st r r0) as (?&?&?&?&?&?&?&Hatt); [done.. |].
  exists r, (canonTask (set_LastUpdated t r0)). rewrite <- E6. split_and!; try done; [by destruct r0 |].
  destruct E7 as [? | E7]; [by left | right]. by rewrite Hatt, E7, int32_id.
Qed.

Ltac upd := intros ? []; eexists; split_and!; first [reflexivity | by right | by left].

Definition task_call (m : M (St AbsDB) (option GoError)) k st ex : Prop :=
  forall s, tasks_inv (AbsDB.tasks (st_db s)) ->
  wp m s (fun e s' => match e with Some _ => st_db s' = st_db s | None => rewritten k st ex (st_db s) (st_db s') end)
     (fun s' => st_db s' = st_db s).

Lemma modify_call k u st ex :
  is_int32 st ->
  (forall t r, exists r0, u t r = set_LastUpdated t r0 /\ TR.TaskID r0 = TR.TaskID r /\
     TR.WorkflowID r0 = TR.WorkflowID r /\ TR.InDegree r0 = TR.InDegree r /\
     TR.DownstreamTaskIDs r0 = TR.DownstreamTaskIDs r /\ TR.State r0 = st /\ TR.ExecutionID r0 = ex r /\
     TR.Output r0 = TR.Output r /\ (st = TASK_FAILED \/ TR.AttemptCount r0 = TR.AttemptCount r)) ->
  task_call (modifyTask k u) k st ex.
Proof.
  intros Hst Hu s Hti. eapply wp_mono; [apply modifyTask_spec | | done].
  intros [e|] s' Hs; [done |]. by eapply modified_rewritten.
Qed.

Lemma AssignTask_call k e : task_call (AssignTask k e) k TASK_RUNNING (fun _ => e).
Proof. apply modify_call; [done | upd]. Qed.
Lemma RequeueTask_call k e : task_call (RequeueTask k e) k TASK_QUEUED (fun _ => e).
Proof. apply modify_call; [done | upd]. Qed.
Lemma FailTask_call k msg n : task_call (Store.FailTask k msg n) k TASK_FAILED TR.ExecutionID.
Proof. apply modify_call; [done | upd]. Qed.
Lemma UpdateTaskState_call k st : is_int32 st -> task_call (UpdateTaskState k st) k st TR.ExecutionID.
Proof. intros. apply modify_call; [done | upd]. Qed.

(** A task that is neither queued nor assigned, has no open dependency and is not
    finished moves to a state in which it is scheduled. *)
Definition idle (k : string) (c : CA) : Prop :=
  (k ∉ readyQueue (mem c)) /\ assignedTasks (mem c) !! k = None /\
  exists r, tasks c !! k = Some r /\ blockers (tasks c) k = 0%nat /\
    TR.State r <> TASK_COMPLETE /\ TR.State r <> TASK_FAILED.

Lemma rewritten_good c0 c c' k st ex :
  good c0 c -> idle k c -> mem c' = mem c -> rewritten k st ex (db c) (db c') ->
  st = TASK_QUEUED \/ st = TASK_RUNNING \/ st = TASK_FAILED ->
  good c0 c' /\ blockers (tasks c') k = 0%nat /\
  exists r r', tasks c !! k = Some r /\ tasks c' !! k = Some r' /\ TR.State r' = st /\ TR.ExecutionID r' = ex r /\
  (forall x, x <> k -> tasks c' !! x = tasks c !! x).
Proof.
  intros [[Hdb Hm] Ha] (Hq & Has & r0 & Hr0 & Hb & Hc & Hf) Hmem (r & r' & Hr & Hd & ?&?&?&?&?&Hs&He&_&Hat) Hst.
  rewrite Hr in Hr0. injection Hr0 as <-.
  assert (moves (blockers (tasks c) k) r r') as Hmv by (right; rewrite Hs; split_and!; auto).
  pose proof (quiet_insert _ _ _ _ Hr Hmv) as Hqt.
  rewrite Hd. simpl. split_and!.
  - split; [split|].
    + rewrite Hd. by apply quiet_dbinv.
    + rewrite Hd, Hmem. simpl. by eapply meminv_insert.
    + rewrite Hd. simpl. etrans; [done |]. by apply quiet_advances.
  - by rewrite (quiet_blockers _ _ k Hqt).
  - exists r, r'. split_and!; [done | apply lookup_insert_eq | done | done |].
    intros x Hx. by rewrite lookup_insert_ne.
Qed.

(** The call of a handler that updates the memory by [f] after it succeeded. *)
Lemma wp_task_then f m k st ex c0 c (Q : option GoError -> CA -> Prop) :
  task_call m k st ex -> st = TASK_QUEUED \/ st = TASK_RUNNING \/ st = TASK_FAILED ->
  good c0 c -> good c0 (set_mem f c) -> idle k (set_mem f c) ->
  (forall e c', good c0 c' -> Q (Some e) c') ->
  (forall c' r', good c0 (set_mem f c') -> mem c' = mem c ->
     tasks c' !! k = Some r' -> TR.State r' = st -> Q None c') ->
  wp (onStore m) c Q (dead c0).
Proof.
  intros Hm Hst Hc Hcf Hi He Hok. eapply wp_write; [done | apply Hm, Hc |].
  intros [e|] c' Hmem Hd; fold (db c') (db c) in Hd; simpl in Hd.
  - apply He. apply (good_same c0 c); [done | by rewrite Hd.. | by rewrite Hmem].
  - destruct (rewritten_good c0 (set_mem f c) (set_mem f c') k st ex) as (? & ? & r & r' & ? & ? & ? & ? & ?);
      [done | done | simpl; by rewrite Hmem | done | done |]. eauto.
Qed.

Lemma wp_task_call m k st ex c0 c (Q : option GoError -> CA -> Prop) :
  task_call m k st ex -> st = TASK_QUEUED \/ st = TASK_RUNNING \/ st = TASK_FAILED ->
  good c0 c -> idle k c ->
  (forall e c', good c0 c' -> mem c' = mem c -> db c' = db c -> Q (Some e) c') ->
  (forall c' r', good c0 c' -> mem c' = mem c -> blockers (tasks c') k = 0%nat ->
     tasks c' !! k = Some r' -> TR.State r' = st -> 
     (exists r, tasks c !! k = Some r /\ TR.ExecutionID r' = ex r) ->
     (forall x, x <> k -> tasks c' !! x = tasks c !! x) -> Q None c') ->
  wp (onStore m) c Q (dead c0).
Proof.
  intros Hm Hst Hc Hi He Hok. eapply wp_write; [done | apply Hm, Hc |].
  intros [e|] c' Hmem Hd; fold (db c') (db c) in Hd; simpl in Hd.
  - apply He; [|done..]. eapply good_same; [done | by rewrite Hd.. | by rewrite Hmem].
  - destruct (rewritten_good _ _ _ _ _ _ Hc Hi Hmem Hd Hst) as (? & ? & r & r' & ? & ? & ? & ? & ?). eauto.
Qed.

Lemma idle_mono c c' k :
  idle k c -> cinv c' -> advances (tasks c) (tasks c') -> tasks c' !! k = tasks c !! k ->
  (k ∉ readyQueue (mem c')) -> assignedTasks (mem c') !! k = None -> idle k c'.
Proof.
  intros (_ & _ & r & Hr & Hb & Hc) _ [_ Ha] E Hq Has. split_and!; [done.. |]. exists r. rewrite E.
  split_and!; [done | | apply Hc..]. specialize (Ha k ltac:(eauto)). lia.
Qed.

Lemma idle_same c c' k : idle k c -> same_tasks (mem c) (mem c') -> db c' = db c -> idle k c'.
Proof. unfold idle. intros Hi (-> & -> & _) ->. done. Qed.

Lemma wp_newUUID c0 (c : CA) (Q : string -> CA -> Prop) E :
  good c0 c ->
  (forall n c', good c0 c' -> same_tasks (mem c) (mem c') -> db c' = db c -> Q (uuid n) c') ->
  wp newUUID c Q E.
Proof.
  intros Hg HQ. unfold newUUID. apply wp_bind, wp_gets, wp_bind, wp_modify, wp_ret.
  assert (same_tasks (mem c) (set_uuids (S (uuids (mem c))) (mem c))) by (by destruct (mem c)).
  apply HQ; [by eapply good_same | done | done].
Qed.

(** *** Assignment *)

Lemma pop_inv T m k q :
  meminv T m -> readyQueue m = k :: q -> meminv T (set_readyQueue q m) /\ (k ∉ q).
Proof.
  intros [H1 H2 H3 H4] E. rewrite E in H1. apply NoDup_cons in H1 as [Hk Hq].
  split; [|done]. split; destruct m; simpl in *; subst; try done. intros x Hx. apply H2. by right.
Qed.

(** The assignment handed out: the head of the queue, RUNNING under a new execution id. *)
Definition handed_out (c c' : CA) (w : string) (a : TaskAssignment) : Prop :=
  exists q spec r,
    readyQueue (mem c) = TaskAssignment.TaskId a :: q /\ readyQueue (mem c') = q /\
    taskSpecCache (mem c) !! TaskAssignment.TaskId a = Some spec /\
    a = TaskAssignment.mk (TaskAssignment.TaskId a) (TaskAssignment.ExecutionId a) (TS.Command spec) (TS.Env spec)
          (TS.TimeoutSeconds spec) /\
    runningTasks (mem c') = <[TaskAssignment.TaskId a := w]> (runningTasks (mem c)) /\
    assignedTasks (mem c') = <[TaskAssignment.TaskId a := TaskAssignment.ExecutionId a]> (assignedTasks (mem c)) /\
    tasks c' !! TaskAssignment.TaskId a = Some r /\ TR.State r = TASK_RUNNING /\
    TR.ExecutionID r = TaskAssignment.ExecutionId a.

Lemma GetReadyTask_spec w c0 c :
  good c0 c ->
  wp (GetReadyTask w) c (fun r c' => good c0 c' /\ forall a, r = Some a -> handed_out c c' w a) (dead c0).
Proof.
  intros Hc. unfold GetReadyTask. apply wp_bind, wp_gets.
  destruct (readyQueue (mem c)) as [|k q] eqn:Eq; [by apply wp_ret |].
  apply wp_bind, wp_modify. destruct Hc as [[Hdb Hm] Ha].
  destruct (pop_inv _ _ _ _ Hm Eq) as [Hm' Hk].
  destruct (mi_queued _ _ Hm k) as (r & Hr & Hs); [rewrite Eq; by left |].
  assert (idle k (set_mem (set_readyQueue q) c)) as Hi.
  { pose proof (queued_not_assigned _ _ k Hm ltac:(rewrite Eq; by left)) as Hn.
    split_and!; [simpl; by destruct (mem c) | simpl; by destruct (mem c) |]. exists r.
    split_and!; [done | | rewrite Hs; done..]. eapply (ti_started _ (di_tasks _ Hdb)); [done | by rewrite Hs]. }
  set (c1 := set_mem (set_readyQueue q) c) in *.
  assert (good c0 c1) as Hc1 by (split; [split; done | done]).
  assert (readyQueue (mem c1) = q /\ taskSpecCache (mem c1) = taskSpecCache (mem c) /\
    runningTasks (mem c1) = runningTasks (mem c) /\ assignedTasks (mem c1) = assignedTasks (mem c))
    as (E1 & E2 & E3 & E4) by (unfold c1; simpl; by destruct (mem c)).
  clearbody c1. clear Hm Hm' Hr Hs Hk.
  apply wp_bind, wp_gets. rewrite E2. destruct (taskSpecCache (mem c) !! k) as [spec|] eqn:Ec; [|by apply wp_ret].
  apply wp_bind, (wp_newUUID c0 c1); [done |]. intros n c2 Hc2 Hs2 Hd2.
  assert (idle k c2) as Hi2 by (by apply (idle_same c1)). destruct Hs2 as (F1 & F2 & F3).
  apply wp_bind. eapply wp_task_call; [apply AssignTask_call | auto | done | done | intros; by apply wp_ret |].
  intros c' r' Hc' Hm' Hb Hr' Hst (? & ? & He) Hx.
  apply wp_bind, wp_modify, wp_bind, wp_modify, wp_ret. destruct Hc' as [[Hdb' Hmi] Ha']. split.
  - split; [|done]. split; [done |]. simpl. eapply meminv_same; [apply same_gauge |].
    by eapply meminv_assign.
  - intros a [= <-]. exists q, spec, r'. simpl. rewrite Hm'. destruct (mem c2); simpl in *. split_and!; congruence || done.
Qed.

Lemma keeps_GetReadyTask w : keeps (GetReadyTask w).
Proof.
  intros c0 c Hc. eapply wp_mono; [by apply GetReadyTask_spec | | done]. by intros r c' [? _].
Qed.

(** *** Requeueing *)

(** From the handler's start to the start of the run. *)
Lemma wp_from {A} (h : M CA A) c0 c (Q : A -> CA -> Prop) :
  good c0 c -> wp h c (fun a c' => good c c' /\ Q a c') (dead c) ->
  wp h c (fun a c' => good c0 c' /\ Q a c') (dead c0).
Proof.
  intros Hg Hh. eapply wp_mono; [exact Hh | |].
  - intros a c' [Hc' HQ]. split; [by eapply good_trans | done].
  - intros c' [Hdb Ha]. split; [done |]. destruct Hg as [_ Hg]. by etrans.
Qed.

(** A task is marked QUEUED, then appended to the queue. *)
Lemma queue_call m k ex c0 c :
  task_call m k TASK_QUEUED ex -> good c0 c -> idle k c ->
  wp (onStore m) c
    (fun e c' => let c' := match e with None => set_mem (enqueue [k]) c' | Some _ => c' end in
                 good c0 c' /\ (forall x, x <> k -> idle x c -> idle x c'))
    (dead c0).
Proof.
  intros Hm Hg Hi. apply (wp_mono _ _ (fun e c' =>
    let c' := match e with None => set_mem (enqueue [k]) c' | Some _ => c' end in
    good c c' /\ (forall x, x <> k -> idle x c -> idle x c')) _ (dead c)).
  2: { intros e c' [Hc' Hx]. split; [by eapply good_trans | done]. }
  2: { intros c' [Hdb Ha]. split; [done |]. destruct Hg as [_ Hg]. by etrans. }
  assert (good c c) as Hc by (apply good_refl, Hg). clear Hg c0.
  eapply wp_task_call; [done | auto | done | done | |].
  - intros e c2 Hc2 Hm2 Hd2. split; [done |]. intros x _ Hx. by apply (idle_same c); [| rewrite Hm2 |].
  - intros c2 r' [[Hdb2 Hmi2] Ha2] Hm2 Hb Hr' Hst _ Hx. destruct Hi as (Hq & Has & _).
    assert (cinv (set_mem (enqueue [k]) c2)) as Hci.
    { split; [done |]. simpl. eapply meminv_enqueue; [done | by rewrite Hm2 | done | done]. }
    split; [split; done |]. intros x Hne Hix. pose proof Hix as (Hnx & Hax & _).
    eapply (idle_mono c); [done.. | by apply Hx | |]; simpl; rewrite Hm2; destruct (mem c); [|done]; simpl in *.
    rewrite elem_of_app, list_elem_of_singleton. tauto.
Qed.

Lemma requeueOne_spec k c0 c :
  good c0 c -> idle k c ->
  wp (requeueOne k) c
     (fun _ c' => good c0 c' /\ (forall x, x <> k -> idle x c -> idle x c')) (dead c0).
Proof.
  intros Hg Hi. unfold requeueOne. apply wp_bind, (wp_newUUID c0 c); [done |].
  intros n c1 Hc1 Hs1 Hd1. assert (forall x, idle x c -> idle x c1) as Hi1 by (intros; by apply (idle_same c)).
  apply wp_bind. eapply wp_mono; [eapply queue_call; [apply RequeueTask_call | done | by apply Hi1] | | done].
  intros [e|] c2 [Hc2 Hx]; [apply wp_ret | apply wp_modify]; auto.
Qed.

(** Requeueing a list of idle tasks. *)
Lemma requeue_all l c0 c :
  NoDup l -> good c0 c -> (forall k, k ∈ l -> idle k c) ->
  wp (foldM (fun _ k => requeueOne k) tt l) c (fun _ c' => good c0 c') (dead c0).
Proof.
  intros Hnd Hc Hi.
  apply (wp_foldM (fun l c' => NoDup l /\ good c0 c' /\ forall k, k ∈ l -> idle k c')); [done | |].
  - intros _ k l' c' (Hnd' & Hc' & Hi'). apply NoDup_cons in Hnd' as [Hk Hnd'].
    eapply wp_mono; [apply requeueOne_spec; [done | apply Hi'; by left] | | done].
    intros _ c2 (Hc2 & Hi2). split_and!; [done | done |]. intros x Hx. apply Hi2; [congruence |].
    apply Hi'. by right.
  - by intros _ c' (_ & ? & _).
Qed.

Lemma elem_of_tasksOf w s running k : k ∈ tasksOf w s running <-> running !! k = Some w.
Proof.
  unfold tasksOf. rewrite list_elem_of_fmap. split.
  - intros ([k' w'] & -> & [Hw Hin]%list_elem_of_filter). apply elem_of_range_map in Hin. by simpl in *; subst.
  - intros Hk. exists (k, w). split; [done |]. apply list_elem_of_filter. by rewrite elem_of_range_map.
Qed.

(** The end of [HandleDeadWorker]: the monitor and the metrics. *)
Lemma keeps_after_dead w (l : list string) : keeps (
  modm (fun m => let '(h, ms) := Heartbeat.RemoveWorker w (heartbeat m) (metrics m) in
                 set_metrics ms (set_heartbeat h m)) ;;
  modm (on_metrics inc_WorkerDisconnects) ;;
  (if (0 <? length l)%nat
   then modm (on_metrics (add_TasksRequeued "dead_worker" (Z.of_nat (length l))))
   else ret tt) ;;
  ret (None : option GoError)).
Proof. keep. by destruct m. Qed.

Lemma keeps_HandleDeadWorker w : keeps (HandleDeadWorker w).
Proof.
  unfold HandleDeadWorker. apply keeps_bind; [apply keeps_now | intros t].
  apply keeps_bind; [keep; by destruct m |]. intros _.
  apply keeps_bind; [keep |]. intros ord c0 c Hc. apply wp_bind, wp_gets, wp_bind, wp_modify.
  set (l := tasksOf w (ord 0%nat) (runningTasks (mem c))). apply wp_bind.
  assert (forall k, k ∈ l -> exists e, assignedTasks (mem c) !! k = Some e) as Hl.
  { intros k Hk. apply elem_of_tasksOf in Hk. apply elem_of_dom. rewrite <- (mi_running _ _ (ci_mem _ (proj1 Hc))).
    apply elem_of_dom. eauto. }
  destruct Hc as [[Hdb Hm] Ha]. eapply wp_mono; [apply requeue_all | | done].
  - apply NoDup_filter_fst, range_map_NoDup.
  - split; [split; [done |] | exact Ha]. simpl. by apply meminv_release_all.
  - intros k Hk. destruct (Hl k Hk) as [e He]. destruct (mi_assigned _ _ Hm k e He) as (r & Hr & _ & Hs & Hb).
    split_and!; simpl.
    + rewrite release_all_queue. intros Hq. by rewrite (queued_not_assigned _ _ _ Hm Hq) in He.
    + rewrite release_all_assigned. by rewrite decide_True.
    + exists r. split_and!; [done | done | states; lia | states; lia].
  - intros [] c' Hc'. by apply keeps_after_dead.
Qed.

Lemma keeps_heartbeatTick : keeps heartbeatTick.
Proof.
  unfold heartbeatTick. keep; [apply keeps_HandleDeadWorker | by destruct m].
Qed.

Lemma keeps_UpdateWorkerHeartbeat w t l : keeps (UpdateWorkerHeartbeat w t l).
Proof. unfold UpdateWorkerHeartbeat. keep. by destruct m. Qed.

(** *** Cancellation and skipping *)

Lemma skipped_good c0 c c' P T' l :
  good c0 c -> skipped_map P (tasks c) T' -> db c' = with_tasks T' (db c) ->
  (forall k r, tasks c !! k = Some r -> P k r -> is_terminal (TR.State r) = false) ->
  (forall k r, tasks c !! k = Some r -> P k r -> k ∈ l) ->
  mem c' = mem c -> good c0 (set_mem (dequeue_all l) c').
Proof.
  intros [[Hdb Hm] Ha] Hs Hd Ht Hl Hmem. pose proof (skipped_quiet _ _ _ (di_tasks _ Hdb) Hs Ht) as Hq.
  split; [split|]; unfold db in *; simpl.
  - rewrite Hd. by apply quiet_dbinv.
  - rewrite Hd, Hmem. simpl. eapply meminv_skipped; [done | apply Hdb | done..].
  - rewrite Hd. simpl. etrans; [done |]. by apply quiet_advances.
Qed.

(** The transaction of the cancellation and the removal from the queue. *)
Lemma wp_cancel w c0 c (Q : list string * option GoError -> CA -> Prop) :
  good c0 c ->
  (forall l e c', good c0 c' -> db c' = db c -> Q (l, Some e) c') ->
  (forall l c', good c0 (set_mem (dequeue_all l) c') -> Q (l, None) c') ->
  wp (onStore (CancelWorkflowTasks w)) c Q (dead c0).
Proof.
  intros Hc He Hok. eapply wp_write; [done | apply CancelWorkflowTasks_spec |].
  intros [l [e|]] c' Hmem Hd; fold (db c') (db c) in Hd; simpl in Hd.
  - apply He; [|done]. eapply good_same; [done | by rewrite Hd.. | by rewrite Hmem].
  - destruct Hd as (El & T' & Hs & Hd). apply Hok.
    eapply skipped_good; [done | exact Hs | exact Hd | | | done].
    + unfold unfinished. intros k r _ [_ ?%negb_true_iff]%andb_true_iff. done.
    + intros k r Hr Hu. rewrite El. apply (select_ids _ _ (ti_key _ (di_tasks _ (ci_db _ (proj1 Hc))))). eauto.
Qed.

Lemma keeps_CancelWorkflow w : keeps (CancelWorkflow w).
Proof.
  intros c0 c Hc. unfold CancelWorkflow. apply wp_bind, wp_cancel; [done | intros; by apply wp_ret |].
  intros l c' Hc'. apply wp_bind, wp_modify. by apply keeps_UpdateWorkflowState.
Qed.

Lemma keeps_cancel_and_fail w :
  keeps (let! r := onStore (CancelWorkflowTasks w) in
         match r with
         | (_, Some _) => ret tt
         | (cancelled, None) =>
             modm (dequeue_all cancelled) ;;
             let! _ := onStore (UpdateWorkflowState w WORKFLOW_FAILED) in
             ret tt
         end).
Proof.
  intros c0 c Hc. apply wp_bind, wp_cancel; [done | intros; by apply wp_ret |].
  intros l c' Hc'. apply wp_bind, wp_modify.
  assert (keeps (let! _ := onStore (UpdateWorkflowState w WORKFLOW_FAILED) in ret tt)) as Hk by keep.
  by apply Hk.
Qed.

Lemma dequeue_nil m : same_tasks m (dequeue_all [] m).
Proof.
  unfold dequeue_all. destruct m as [h q]; unfold same_tasks; simpl. split; [|done].
  induction q as [|k q IH]; [done |]. rewrite filter_cons, decide_True by apply not_elem_of_nil. by f_equal.
Qed.

Lemma wp_skip k c0 c (Q : list string * option GoError -> CA -> Prop) :
  good c0 c ->
  (forall r c', good c0 (set_mem (dequeue_all r.1) c') -> Q r c') ->
  wp (onStore (SkipDownstreamTasks k)) c Q (dead c0).
Proof.
  intros Hc Hok.
  assert (forall l c', skip_step (db c) l (state c') -> mem c' = mem c -> good c0 (set_mem (dequeue_all l) c')) as Hg.
  { intros l c' (T' & Hd & Hs & Hl) Hmem. eapply skipped_good; [done | exact Hs | exact Hd | | done | done].
    intros x r Hr Hx. destruct (Hl x Hx) as (r' & Hr' & Ht). by simplify_eq. }
  apply wp_onStore. eapply wp_mono; [apply SkipDownstreamTasks_spec | |].
  - intros r s Hr. apply Hok. by apply Hg.
  - intros s (l & Hl). specialize (Hg l (mkCoordinator s (mem c)) Hl eq_refl). by apply good_dead in Hg.
Qed.

Lemma keeps_applyFailurePolicy w k policy : keeps (applyFailurePolicy w k policy).
Proof.
  unfold applyFailurePolicy. destruct (policy =? FAIL_FAST); [apply keeps_cancel_and_fail |].
  destruct (_ || _); [|keep]. intros c0 c Hc. apply wp_bind, wp_skip; [done |].
  intros [l e] c' Hc'. simpl in *. apply wp_bind.
  apply (wp_mono _ _ (fun _ => good c0) _ (dead c0)); [| |done].
  - destruct l as [|x l]; simpl; [|by apply wp_modify]. apply wp_ret.
    eapply good_same; [exact Hc' | done | done |]. simpl. destruct (dequeue_nil (mem c')) as (E1 & E2 & E3).
    unfold same_tasks. by rewrite E1, E2, E3.
  - intros [] c2 Hc2. by apply keeps_checkWorkflowCompletion.
Qed.

(** *** Results *)

(** An assigned task, once released, is idle. *)
Lemma release_idle c0 c k e :
  good c0 c -> assignedTasks (mem c) !! k = Some e ->
  (k ∉ readyQueue (mem c)) /\
  exists r, tasks c !! k = Some r /\ TR.ExecutionID r = e /\ blockers (tasks c) k = 0%nat /\
    TR.State r <> TASK_COMPLETE /\ TR.State r <> TASK_FAILED /\ TR.State r <> TASK_PENDING /\
    TR.State r <> TASK_QUEUED.
Proof.
  intros [[Hdb Hm] _] He. destruct (mi_assigned _ _ Hm k e He) as (r & Hr & Hex & Hs & Hb). split.
  - intros Hq. by rewrite (queued_not_assigned _ _ _ Hm Hq) in He.
  - exists r. split_and!; try done; states; lia.
Qed.

(** The transaction that completes a task without open dependencies. *)
Lemma completed_dbinv d k r output tm T' ready :
  dbinv d -> AbsDB.tasks d !! k = Some r -> blockers (AbsDB.tasks d) k = 0%nat ->
  TR.State r <> TASK_COMPLETE -> TR.State r <> TASK_FAILED -> TR.State r <> TASK_PENDING ->
  unblocked (TR.DownstreamTaskIDs r) (<[k := canonTask (completed_record output tm r)]> (AbsDB.tasks d)) T' ready ->
  TR.State (canonTask (completed_record output tm r)) = TASK_COMPLETE /\
  dbinv (with_tasks T' d) /\ advances (AbsDB.tasks d) T' /\ dom T' = dom (AbsDB.tasks d).
Proof.
  intros Hdb Hr Hb Hc Hf Hp Hu. pose proof (di_tasks _ Hdb) as Hti.
  destruct (canon_update tm TASK_COMPLETE r (set_Output output (set_State TASK_COMPLETE r)))
    as (S1 & S2 & S3 & S4 & S5 & S6 & _ & S8); [by eapply ti_stable | done | by destruct r.. |].
  fold (completed_record output tm r) in *. set (r1 := canonTask (completed_record output tm r)) in *.
  pose proof (completed_advances _ _ _ _ _ _ Hr Hc Hf S3 S5 S6 Hu) as Hadv.
  assert (TR.AttemptCount r1 = TR.AttemptCount r) as Hatt.
  { destruct (proj1 (stable_fields r) (ti_stable _ Hti k r Hr)) as (_ & ? & _). destruct r; simpl in *.
    by apply int32_id. }
  assert (dom T' = dom (AbsDB.tasks d)) as Hdom by (by eapply completed_dom).
  split_and!; [done | | done | done]. split; [simpl; by eapply (completed_tasks_inv (AbsDB.tasks d)) |].
  by eapply (edges_advance d); [| | | apply Hdb].
Qed.

Lemma completed_good c0 c c' k e output ready :
  good c0 c -> assignedTasks (mem c) !! k = Some e -> mem c' = mem c ->
  completed k e output (db c) (db c') ready ->
  good c0 (set_mem (fun m => enqueue ready (release k m)) c').
Proof.
  intros Hg He Hmem [(r & Hr & Hex & Hcase)].
  destruct (release_idle _ _ _ _ Hg He) as (Hq & r' & Hr' & _ & Hb & Hc & Hf & Hp & _). rewrite Hr in Hr'.
  injection Hr' as <-. destruct Hcase as [[? _] | (_ & tm & T' & Hu & Hd)]; [done |].
  destruct Hg as [[Hdb Hm] Ha].
  destruct (completed_dbinv _ _ _ _ _ _ _ Hdb Hr Hb Hc Hf Hp Hu) as (Hst & Hdb' & Hadv & _).
  split; [split|]; unfold db in *; simpl; rewrite Hd; [done | | by etrans].
  rewrite Hmem. simpl. by eapply meminv_completed.
Qed.

Lemma completed_winner k e output d d' ready :
  completed k e output d d' ready ->
  exists rec, AbsDB.tasks d' !! k = Some rec /\ TR.State rec = TASK_COMPLETE /\ TR.ExecutionID rec = e.
Proof.
  intros [(r & Hr & He & [(Hs & -> & _) | (Hs & tm & m' & Hu & ->)])]; [eauto |]. simpl.
  assert (TR.State (canonTask (completed_record output tm r)) = TASK_COMPLETE) as Hc by (by destruct r).
  exists (canonTask (completed_record output tm r)). split_and!; [|done|by destruct r].
  apply (unb_other _ _ _ _ Hu); [apply lookup_insert_eq |]. rewrite Hc. done.
Qed.

(** The end of [CompleteTask]. *)
Lemma keeps_after_complete k : keeps (
  modm gauge_queue ;; modm (on_metrics inc_TasksCompleted) ;;
  let! workflowID := taskWorkflowID k in
  (if negb (String.eqb workflowID EmptyString) then checkWorkflowCompletion workflowID else ret tt) ;;
  ret (None : option GoError)).
Proof. unfold taskWorkflowID. keep. Qed.

(** An accepted result is in the database under the reported execution id. *)
Lemma CompleteTask_accepted k e output c0 c :
  good c0 c ->
  wp (CompleteTask k e output) c
    (fun r c' => good c0 c' /\ (r = None -> exists rec, tasks c' !! k = Some rec /\
       TR.State rec = TASK_COMPLETE /\ TR.ExecutionID rec = e)) (dead c0).
Proof.
  intros Hc. unfold CompleteTask. apply wp_bind, wp_gets.
  destruct (assignedTasks (mem c) !! k) as [e'|] eqn:Ea.
  - destruct (String.eqb_spec e' e) as [->|]; simpl; [|by apply wp_ret].
    apply wp_bind. eapply wp_write; [done | apply CompleteTask_spec, dbinv_stable, Hc |].
    intros [ready [e'|]] c' Hmem Hd; fold (db c') (db c) in Hd; simpl in Hd.
    + apply wp_ret. split; [|done]. eapply good_same; [done | by rewrite Hd.. | by rewrite Hmem].
    + pose proof (completed_good _ _ _ _ _ _ _ Hc Ea Hmem Hd) as Hg.
      apply completed_winner in Hd. apply wp_bind, wp_modify, wp_bind, wp_modify.
      change (set_mem (enqueue ready) (set_mem (release k) c'))
        with (set_mem (fun m => enqueue ready (release k m)) c').
      change (tasks c') with (tasks (set_mem (fun m => enqueue ready (release k m)) c')) in Hd. revert Hg Hd.
      generalize (set_mem (fun m => enqueue ready (release k m)) c'). intros c2 Hc2 Hw.
      apply wp_from; [done |]. eapply wp_mono; [apply (keeps_after_complete k), good_refl, Hc2 | | done].
      intros r c3 Hc3. split; [done |]. intros _. destruct Hw as (rec & Hrec & Hst & Hex).
      destruct (adv_record _ _ (proj2 Hc3) k rec Hrec) as (rec' & Hrec' & _ & _ & Hfin).
      exists rec'. rewrite (Hfin ltac:(by left)) in *. done.
  - apply wp_bind. eapply (wp_read _ (fun r => forall a, r = inr a -> tasks c !! k = Some a));
      [done | apply GetTask_spec |].
    intros [e'|r] c' Hc' _ Hd Hr; [by apply wp_ret |]. specialize (Hr r eq_refl).
    destruct (Z.eqb_spec (TR.State r) TASK_COMPLETE); [|by apply wp_ret].
    destruct (String.eqb_spec (TR.ExecutionID r) e); apply wp_ret; [|done].
    split; [done |]. intros _. exists r. by rewrite Hd.
Qed.

Lemma keeps_CompleteTask k e output : keeps (CompleteTask k e output).
Proof.
  intros c0 c Hc. eapply wp_mono; [by apply CompleteTask_accepted | | done]. by intros r c' [? _].
Qed.

(** The ends of the two branches of [FailTask]. *)
Lemma keeps_requeued : keeps (
  modm gauge_queue ;; modm (on_metrics (add_TasksRequeued "retry" 1)) ;; ret (None : option GoError)).
Proof. keep. Qed.

Lemma keeps_failed k : keeps (
  let! workflowID := taskWorkflowID k in
  let! policy := getm (fun m => default 0 (workflowFailurePolicy m !! workflowID)) in
  modm (on_metrics (inc_TasksFailed workflowID "retries_exhausted")) ;;
  (if negb (String.eqb workflowID EmptyString) then applyFailurePolicy workflowID k policy else ret tt) ;;
  ret (None : option GoError)).
Proof. unfold taskWorkflowID. keep. apply keeps_applyFailurePolicy. Qed.

Lemma keeps_FailTask k e msg : keeps (FailTask k e msg).
Proof.
  intros c0 c Hc. unfold FailTask. apply wp_bind, wp_gets. case_bool_decide as Ea; [|by apply wp_ret].
  apply wp_bind. eapply (wp_read _ (fun _ => True)); [done | |].
  { eapply wp_mono; [apply GetTask_spec | | done]. by intros r s' [? _]. }
  intros [e'|task] c1 Hc1 Hm1 Hd1 _; [by apply wp_ret |].
  apply wp_bind, wp_gets. assert (assignedTasks (mem c1) !! k = Some e) as Ea1 by (by rewrite Hm1).
  clear Hc Ea c Hm1 Hd1.
  assert (forall c, good c0 c -> assignedTasks (mem c) !! k = Some e ->
    good c0 (set_mem (release k) c) /\ idle k (set_mem (release k) c)) as Hrel.
  { clear -H H0. intros c Hc Ea. destruct (release_idle _ _ _ _ Hc Ea) as (Hq & r & Hr & _ & Hb & H1 & H2 & _).
    destruct Hc as [[Hdb Hm] Ha]. split.
    - split; [split; [done |] | done]. simpl. by apply meminv_release.
    - split_and!; simpl; [by rewrite release_queue | by rewrite release_assigned, lookup_delete_eq | eauto]. }
  destruct (_ <? _).
  - apply wp_bind, (wp_newUUID c0 c1); [done |]. intros n c2 Hc2 (E1 & E2 & E3) Hd2. rewrite <- E2 in Ea1.
    destruct (Hrel c2 Hc2 Ea1) as [Hg Hi]. apply wp_bind.
    eapply (wp_task_then (release k)); [apply RequeueTask_call | auto | done | done | done | intros; by apply wp_ret |].
    intros c3 r' Hc3 Hm3 Hr' Hs'. simpl. apply wp_bind, wp_modify, wp_bind, wp_modify.
    apply keeps_requeued. destruct Hc3 as [[Hdb Hm] Ha]. split; [split; [done |] | done].
    eapply meminv_enqueue; [done | | done | done].
    simpl. rewrite release_queue, Hm3, E1. rewrite <- E1. destruct Hi as (Hq & _). simpl in Hq.
    by rewrite release_queue in Hq.
  - destruct (Hrel c1 Hc1 Ea1) as [Hg Hi]. apply wp_bind.
    eapply (wp_task_then (release k)); [apply FailTask_call | auto | done | done | done | intros; by apply wp_ret |].
    intros c3 r' Hc3 _ _ _. simpl. apply wp_bind, wp_modify. by apply keeps_failed.
Qed.

(** *** Start-up *)

Lemma loadWorkflow_spec x c0 c :
  good c0 c ->
  wp (loadWorkflow x) c (fun _ c' => good c0 c' /\ same_tasks (mem c) (mem c') /\ db c' = db c) (dead c0).
Proof.
  intros Hc. unfold loadWorkflow. go_case; [by apply wp_ret |].
  apply wp_bind. eapply (wp_read _ (fun _ => True)); [done | |].
  { eapply wp_mono; [apply GetWorkflow_spec | | done]. by intros r s' [? _]. }
  intros [e|spec] c1 Hc1 Hm1 Hd1 _; [apply wp_ret; by rewrite Hm1 |].
  apply wp_bind, wp_modify, wp_modify.
  assert (same_tasks (mem c) (mem (set_mem (fun m => foldl (fun m task =>
    cache_task (WF.WorkflowId spec) (TS.TaskId task, task) m) m (WF.Tasks spec))
    (set_mem (cache_policy (WF.WorkflowId spec) (WF.FailurePolicy spec)) c1)))) as Hs.
  { rewrite <- Hm1. eapply same_trans; [apply same_cache_policy |].
    apply (same_foldl (fun m task => cache_task _ (TS.TaskId task, task) m)). intros. apply same_cache_task. }
  split_and!; [|done|done]. eapply good_same; [exact Hc1 | done | done |]. by rewrite Hm1.
Qed.

Lemma load_spec c0 c :
  good c0 c -> readyQueue (mem c) = [] -> assignedTasks (mem c) = ∅ ->
  wp LoadStateFromDB c
    (fun e c' => good c0 c' /\ assignedTasks (mem c') = ∅ /\ db c' = db c /\
       (e = None -> readyQueue (mem c') = TR.TaskID <$> select (fun r => TR.State r =? TASK_QUEUED) (tasks c)))
    (dead c0).
Proof.
  intros Hc Hq Has. unfold LoadStateFromDB. apply wp_bind. eapply (wp_read _ (fun _ => True)); [done | |].
  { eapply wp_mono; [apply GetAllWorkflowStates_spec | | done]. by intros r s' [? _]. }
  intros [l [e|]] c1 Hc1 Hm1 Hd1 _; [apply wp_ret; by rewrite Hm1 |].
  apply wp_bind. apply (wp_foldM (fun _ c' => good c0 c' /\ same_tasks (mem c) (mem c') /\ db c' = db c)).
  { by rewrite Hm1. }
  { intros _ x _ c2 (Hc2 & Hs2 & Hd2). eapply wp_mono; [by apply loadWorkflow_spec | | done].
    intros _ c3 (Hc3 & Hs3 & Hd3). split_and!; [done | | by rewrite Hd3].
    by eapply same_trans. }
  intros _ c2 (Hc2 & (E1 & E2 & _) & Hd2). apply wp_bind. eapply (wp_read _ (fun r => r.2 = None ->
    r.1 = TR.TaskID <$> select (fun r => TR.State r =? TASK_QUEUED) (tasks c))); [done | |].
  { unfold db in *. rewrite <- Hd2. apply GetTasksInState_spec. }
  intros [ids [e|]] c3 Hc3 Hm3 Hd3 Hids; simpl in Hids.
  { apply wp_ret. split_and!; [done | by rewrite Hm3, E2 | congruence | done]. }
  rewrite Hids by done. apply wp_bind, wp_modify, wp_ret.
  set (l' := TR.TaskID <$> _). destruct Hc3 as [[Hdb Hm] Ha].
  assert (readyQueue (mem c3) = []) as Eq by (by rewrite Hm3, E1).
  assert (readyQueue (enqueue l' (mem c3)) = l') as Eq' by (destruct (mem c3); simpl in *; by rewrite Eq).
  destruct (select_ids (fun r => TR.State r =? TASK_QUEUED) (tasks c)
    ltac:(rewrite <- Hd2, <- Hd3; exact (ti_key _ (di_tasks _ Hdb)))) as [Hnd Hin].
  split_and!; [split; [split; [done |] | done] | | unfold db in *; simpl; congruence | done].
  - simpl. destruct Hm as [_ _ H3 H4]. split; [by rewrite Eq' | | by destruct (mem c3) | by destruct (mem c3)].
    rewrite Eq'. intros k Hk. apply Hin in Hk as (r & Hr & Hs). exists r. split; [|lia].
    unfold db in *. simpl. by rewrite Hd3, Hd2.
  - simpl. rewrite <- Has, <- E2, <- Hm3. by destruct (mem c3).
Qed.

Lemma recovery_spec c0 c :
  good c0 c -> assignedTasks (mem c) = ∅ -> wp PrepareRecovery c (fun _ c' => good c0 c') (dead c0).
Proof.
  intros Hc Has. unfold PrepareRecovery. apply wp_bind.
  eapply (wp_read _ (fun _ => True)); [done | by apply wp_now |]. intros t c1 Hc1 Hm1 Hd1 _.
  apply wp_bind, wp_modify. set (c2 := set_mem _ c1).
  assert (same_tasks (mem c1) (mem c2)) as Hs2 by (unfold c2; simpl; by destruct (mem c1)).
  assert (good c0 c2) as Hc2 by (by eapply good_same).
  assert (assignedTasks (mem c2) = ∅) as Has2 by (destruct Hs2 as (_ & -> & _); by rewrite Hm1).
  clearbody c2. clear Hc Has Hm1 Hd1 Hc1 Hs2. apply wp_bind. eapply (wp_read _ (fun r => r.2 = None ->
    r.1 = TR.TaskID <$> select (fun r => TR.State r =? TASK_RUNNING) (tasks c2)));
    [done | apply GetTasksInState_spec |].
  intros [ids [e|]] c3 Hc3 Hm3 Hd3 Hids; simpl in Hids; [by apply wp_ret |]. rewrite Hids by done.
  pose proof (di_tasks _ (ci_db _ (proj1 Hc3))) as Hti. rewrite <- Hd3.
  destruct (select_ids (fun r => TR.State r =? TASK_RUNNING) (tasks c3) (ti_key _ Hti)) as [Hnd Hin].
  apply wp_bind. eapply wp_mono; [apply requeue_all; [done | done |] | intros; by apply wp_ret | done].
  intros k Hk. apply Hin in Hk as (r & Hr & Hs). split_and!.
  - intros Hq. destruct (mi_queued _ _ (ci_mem _ (proj1 Hc3)) k Hq) as (? & ? & ?). simplify_eq. states. lia.
  - by rewrite Hm3, Has2.
  - exists r. split_and!; [done | | states; lia | states; lia]. apply (ti_started _ Hti _ r); [done |].
    states. destruct (Z.eqb_spec (TR.State r) 2); [|done]. by rewrite e, orb_true_r.
Qed.

Lemma startup_spec c0 c :
  good c0 c -> readyQueue (mem c) = [] -> assignedTasks (mem c) = ∅ ->
  wp startup c (fun _ c' => good c0 c') (dead c0).
Proof.
  intros Hc Hq Has. unfold startup. apply wp_bind. eapply wp_mono; [by apply load_spec | | done].
  intros e c1 (Hc1 & Ha1 & _). apply wp_bind. eapply wp_mono; [by apply recovery_spec | | done].
  intros e' c2 Hc2. by apply wp_ret.
Qed.

End Handlers.

#[export] Hint Resolve keeps_GetReadyTask keeps_CompleteTask keeps_FailTask keeps_CancelWorkflow
  keeps_HandleDeadWorker keeps_heartbeatTick keeps_UpdateWorkerHeartbeat : keeps.
