(* ===== verification/Requeue.v ===== *)
(** * Requeueing tasks when no transaction fails

    What [HandleDeadWorker] and [PrepareRecovery] do to the tasks they requeue. *)

From S2P Require Import Prelude Proto Codec Env RecordDB Store StoreSpec NoFault Dag Heartbeat Coordinator.
From S2P Require Import Invariant CoordinatorInv.

(** The record that a requeueing writes. *)
Definition requeue_record (e : string) (tm : Z) (r : TaskStateRecord) : TaskStateRecord :=
  set_LastUpdated tm (set_ExecutionID e (set_State TASK_QUEUED r)).

(** The task [k], RUNNING as [r] before, was requeued under a new execution id and
    put into the queue [q]; or bbolt refused its new record (too large), and it is
    as it was. *)
Definition requeued `{Env} (u : nat) (k : string) (r : TaskStateRecord) (T' : Tasks) (q : list string) : Prop :=
  exists n tm, (u <= n)%nat /\
    ((put_error k (marshalTaskRecord (requeue_record (uuid n) tm r)) = None /\ k ∈ q /\
      T' !! k = Some (canonTask (requeue_record (uuid n) tm r))) \/
     (put_error k (marshalTaskRecord (requeue_record (uuid n) tm r)) <> None /\ T' !! k = Some r)).

Section Requeue.
Context `{Env} `{!NoFaults} `{Protobuf}.

(** What else the memory holds is left alone. *)
Definition same_rest (m m' : Mem) : Prop :=
  runningTasks m' = runningTasks m /\ assignedTasks m' = assignedTasks m /\ heartbeat m' = heartbeat m /\
  taskSpecCache m' = taskSpecCache m.

Lemma requeueOne_ok k r (c : CA) :
  tasks c !! k = Some r ->
  wp (requeueOne k) c
    (fun _ c' => requeued (uuids (mem c)) k r (tasks c') (readyQueue (mem c')) /\
       (forall x, x <> k -> tasks c' !! x = tasks c !! x) /\
       (exists l, readyQueue (mem c') = readyQueue (mem c) ++ l /\ forall x, x ∈ l -> x = k) /\
       uuids (mem c') = S (uuids (mem c)) /\ same_rest (mem c) (mem c'))
    (fun _ => False).
Proof.
  intros Hr. unfold requeueOne, newUUID.
  apply wp_bind, wp_bind, wp_gets, wp_bind, wp_modify, wp_ret, wp_bind, wp_onStore, modifyTask_ok.
  - intros Hn. unfold db in Hr. simpl in Hn. congruence.
  - intros r' tm e s' Hr' He Hd. apply wp_ret. unfold db in *. simpl in *. rewrite Hr in Hr'. injection Hr' as <-.
    split_and!; [|intros; by rewrite Hd| |by destruct (mem c)|by destruct (mem c)].
    + exists (uuids (mem c)), tm. split; [done |]. right. fold (requeue_record (uuid (uuids (mem c))) tm r) in He.
      rewrite He, Hd. done.
    + exists []. rewrite app_nil_r. split; [by destruct (mem c) |]. by intros x ?%elem_of_nil.
  - intros r' tm s' Hr' He Hd. apply wp_modify. unfold db in *. simpl in *. rewrite Hr in Hr'. injection Hr' as <-.
    rewrite Hd. simpl. split_and!; [| | |by destruct (mem c)|by destruct (mem c)].
    + exists (uuids (mem c)), tm. split; [done |]. left. split; [exact He |]. split.
      * destruct (mem c); simpl. apply elem_of_app. right. by left.
      * apply lookup_insert_eq.
    + intros x Hx. by rewrite lookup_insert_ne.
    + exists [k]. split; [by destruct (mem c) |]. by intros x ?%list_elem_of_singleton.
Qed.

(** After the tasks of [l] were requeued. *)
Record requeued_all (l : list string) (c c' : CA) : Prop := {
  ra_in k r : k ∈ l -> tasks c !! k = Some r -> requeued (uuids (mem c)) k r (tasks c') (readyQueue (mem c'));
  ra_out k : k ∉ l -> tasks c' !! k = tasks c !! k;
  ra_queue : exists q, readyQueue (mem c') = readyQueue (mem c) ++ q /\ forall x, x ∈ q -> x ∈ l;
  ra_uuids : (uuids (mem c) <= uuids (mem c'))%nat;
  ra_rest : same_rest (mem c) (mem c')
}.

Lemma requeued_all_nil c : requeued_all [] c c.
Proof.
  split; try done.
  - by intros k r ?%elem_of_nil.
  - exists []. rewrite app_nil_r. split; [done |]. by intros x ?%elem_of_nil.
Qed.

Lemma requeued_all_snoc l k r c c1 c2 :
  requeued_all l c c1 -> k ∉ l -> tasks c !! k = Some r ->
  requeued (uuids (mem c1)) k r (tasks c2) (readyQueue (mem c2)) ->
  (forall x, x <> k -> tasks c2 !! x = tasks c1 !! x) ->
  (exists l, readyQueue (mem c2) = readyQueue (mem c1) ++ l /\ forall x, x ∈ l -> x = k) ->
  uuids (mem c2) = S (uuids (mem c1)) -> same_rest (mem c1) (mem c2) -> requeued_all (l ++ [k]) c c2.
Proof.
  intros [K1 K2 (q & K3 & K3') K4 (R1 & R2 & R3 & R4)] Hk Hr Hreq Hother (q' & Hq & Hq') Hu (S1 & S2 & S3 & S4). split.
  - intros x rx [Hx | ->%list_elem_of_singleton]%elem_of_app Hrx.
    + destruct (K1 x rx Hx Hrx) as (n & tm & Hn & Hcase). exists n, tm. split; [done |].
      rewrite (Hother x) by congruence. destruct Hcase as [(? & ? & ?) | ?]; [left | by right].
      split_and!; [done | rewrite Hq; apply elem_of_app; by left | done].
    + simplify_eq. destruct Hreq as (n & tm & Hn & Hcase). exists n, tm. split; [lia | done].
  - intros x [Hx Hx']%not_elem_of_app. rewrite Hother; [by apply K2 |]. intros ->. apply Hx'. by left.
  - exists (q ++ q'). rewrite Hq, K3, app_assoc. split; [done |].
    intros x [Hx | ->%Hq']%elem_of_app; apply elem_of_app; [left; by apply K3' | right; by left].
  - lia.
  - unfold same_rest. by rewrite S1, S2, S3, S4.
Qed.

Lemma requeue_all_ok l (c : CA) :
  NoDup l -> (forall k, k ∈ l -> is_Some (tasks c !! k)) ->
  wp (foldM (fun _ k => requeueOne k) tt l) c (fun _ c' => requeued_all l c c') (fun _ => False).
Proof.
  intros Hnd Hl. apply (wp_foldM (fun rest c' => exists p, l = p ++ rest /\ requeued_all p c c')).
  - exists []. split; [done | apply requeued_all_nil].
  - intros _ k rest c1 (p & -> & Hp). apply NoDup_app in Hnd as (_ & Hdis & _).
    assert (k ∉ p) as Hk by (intros Hin; apply (Hdis k Hin); by left).
    destruct (Hl k) as [r Hr]; [apply elem_of_app; right; by left |].
    eapply wp_mono; [apply (requeueOne_ok k r) | | done].
    { by rewrite (ra_out _ _ _ Hp k Hk). }
    intros _ c2 (? & ? & ? & ? & ?). exists (p ++ [k]). rewrite <- app_assoc. split; [done |].
    by eapply requeued_all_snoc.
  - intros _ c' (p & -> & Hp). by rewrite app_nil_r.
Qed.

(** ** Dead workers *)

Lemma release_all_running m l x :
  runningTasks (foldl (fun m k => release k m) m l) !! x = if decide (x ∈ l) then None else runningTasks m !! x.
Proof.
  revert m. induction l as [|k l IH]; intros m; cbn [foldl]; [by rewrite decide_False by apply not_elem_of_nil |].
  rewrite IH. replace (runningTasks (release k m)) with (delete k (runningTasks m)) by (by destruct m).
  rewrite lookup_delete.
  destruct (decide (k = x)) as [->|Hne]; [rewrite (decide_True (P := x ∈ x :: l)) by (by left); by case_decide |].
  destruct (decide (x ∈ l)) as [Hx|Hx]; [by rewrite decide_True by (by right) |].
  rewrite decide_False; [done |]. by intros [?|?]%elem_of_cons.
Qed.

Lemma release_all_rest m l :
  uuids (foldl (fun m k => release k m) m l) = uuids m /\
  heartbeat (foldl (fun m k => release k m) m l) = heartbeat m /\
  readyQueue (foldl (fun m k => release k m) m l) = readyQueue m.
Proof.
  revert m. induction l as [|k l IH]; intros m; simpl; [done |].
  destruct (IH (release k m)) as (-> & -> & ->). by destruct m.
Qed.

(** What the handler does for the dead worker [w]. *)
Record buried (w : string) (c c' : CA) : Prop := {
  bu_requeued k r : runningTasks (mem c) !! k = Some w -> tasks c !! k = Some r ->
    requeued (uuids (mem c)) k r (tasks c') (readyQueue (mem c'));
  bu_released k : runningTasks (mem c) !! k = Some w ->
    runningTasks (mem c') !! k = None /\ assignedTasks (mem c') !! k = None;
  bu_others k : runningTasks (mem c) !! k <> Some w ->
    tasks c' !! k = tasks c !! k /\ runningTasks (mem c') !! k = runningTasks (mem c) !! k /\
    assignedTasks (mem c') !! k = assignedTasks (mem c) !! k;
  bu_queue : exists q, readyQueue (mem c') = readyQueue (mem c) ++ q /\
    forall k, k ∈ q -> runningTasks (mem c) !! k = Some w;
  bu_forgotten : HM.lastHeartbeat (heartbeat (mem c')) = delete w (HM.lastHeartbeat (heartbeat (mem c)))
}.

(** Steps that change only timers, counters and metrics. *)
Record same_core (c c' : CA) : Prop := {
  sc_db : db c' = db c;
  sc_tasks : same_tasks (mem c) (mem c');
  sc_uuids : uuids (mem c') = uuids (mem c);
  sc_heartbeat : heartbeat (mem c') = heartbeat (mem c);
  sc_cache : taskSpecCache (mem c') = taskSpecCache (mem c)
}.

Lemma wp_nextOrders k (c : CA) (Q : (nat -> seed) -> CA -> Prop) E :
  (forall ord c', same_core c c' -> Q ord c') -> wp (nextOrders k) c Q E.
Proof.
  intros HQ. unfold nextOrders. apply wp_bind, wp_gets, wp_bind, wp_modify, wp_ret, HQ.
  by split; simpl; destruct (mem c).
Qed.

Lemma wp_clock (c : CA) (Q : Z -> CA -> Prop) E :
  (forall t c', same_core c c' -> Q t c') -> wp (onStore now) c Q E.
Proof. intros HQ. apply wp_onStore, wp_now. intros t s Hs. by apply HQ. Qed.

Lemma same_core_trans c1 c2 c3 : same_core c1 c2 -> same_core c2 c3 -> same_core c1 c3.
Proof.
  intros [A1 A2 A3 A4 A5] [B1 B2 B3 B4 B5]. split; [congruence | by eapply same_trans | congruence..].
Qed.

Lemma HandleDeadWorker_ok w (c : CA) :
  cinv c -> wp (HandleDeadWorker w) c (fun e c' => e = None /\ buried w c c') (fun _ => False).
Proof.
  intros [Hdb Hm]. unfold HandleDeadWorker. apply wp_bind, wp_clock. intros t c1 Hc1. apply wp_bind, wp_modify.
  set (c2 := set_mem _ c1). assert (same_core c c2) as Hc2.
  { eapply same_core_trans; [done |]. split; unfold c2; simpl; by destruct (mem c1). }
  clearbody c2. clear Hc1 c1. apply wp_bind, wp_nextOrders. intros ord c3 Hc3.
  assert (same_core c c3) as [Ed (Eq & Ea & Er) Eu Eh _] by (by eapply same_core_trans). clear Hc2 Hc3 c2.
  apply wp_bind, wp_gets, wp_bind, wp_modify. set (l := tasksOf w (ord 0%nat) (runningTasks (mem c3))).
  assert (forall k, k ∈ l <-> runningTasks (mem c) !! k = Some w) as Hl.
  { intros k. unfold l. by rewrite elem_of_tasksOf, Er. }
  assert (NoDup l) as Hnd by apply NoDup_filter_fst, range_map_NoDup. clearbody l.
  destruct (release_all_rest (mem c3) l) as (Eu' & Eh' & Eq').
  apply wp_bind. eapply wp_mono; [apply requeue_all_ok; [done |] | | done].
  { intros k Hk%Hl. unfold db in *. simpl. rewrite Ed.
    assert (k ∈ dom (assignedTasks (mem c))) as [e He]%elem_of_dom
      by (rewrite <- (mi_running _ _ Hm); apply elem_of_dom; eauto).
    destruct (mi_assigned _ _ Hm k e He) as (r & Hr & _). eauto. }
  intros [] c4 [K1 K2 K3 K4 (S1 & S2 & S3 & S4)]. unfold db in K1, K2; simpl in *.
  assert (forall c5, db c5 = db c4 -> same_tasks (mem c4) (mem c5) ->
    HM.lastHeartbeat (heartbeat (mem c5)) = delete w (HM.lastHeartbeat (heartbeat (mem c4))) -> buried w c c5) as Hend.
  { clear - K1 K2 K3 S1 S2 S3 Hl Ed Eq Ea Er Eu Eh Eu' Eh' Eq'. intros c5 D5 (Q5 & A5 & R5) H5. unfold db in *.
    split; unfold db; rewrite ?D5, ?Q5, ?A5, ?R5, ?S1, ?S2.
    - intros k r Hk Hr. rewrite Eu', Eu in K1. apply K1; [by apply Hl | by rewrite Ed].
    - intros k Hk. rewrite release_all_running, release_all_assigned, !decide_True by (by apply Hl). done.
    - intros k Hk. assert (k ∉ l) as Hn by (by rewrite Hl).
      rewrite release_all_running, release_all_assigned, !decide_False by done.
      rewrite (K2 k Hn), Er, Ea, Ed. done.
    - destruct K3 as (q & Hq & Hsub). exists q. rewrite Hq, Eq', Eq. split; [done |]. intros k Hk. by apply Hl, Hsub.
    - by rewrite H5, S3, Eh', Eh. }
  apply wp_bind, wp_modify, wp_bind, wp_modify, wp_bind.
  destruct (0 <? length l)%nat; [apply wp_modify | apply wp_ret]; apply wp_ret; (split; [done |]);
  apply Hend; simpl; by destruct (mem c4).
Qed.

(** ** Recovery *)

(** The loop over the workflow states fills the caches only. *)
Lemma loadWorkflow_ok x (c : CA) :
  wp (loadWorkflow x) c
    (fun _ c' => db c' = db c /\ same_tasks (mem c) (mem c') /\ uuids (mem c') = uuids (mem c)) (fun _ => False).
Proof.
  unfold loadWorkflow. go_case; [by apply wp_ret |]. apply wp_bind, wp_onStore, GetWorkflow_ok. intros s' Hs'.
  destruct (AbsDB.workflows (st_db (state c)) !! _) as [w|]; [|by apply wp_ret].
  apply wp_bind, wp_modify, wp_modify. split_and!; [done | |].
  - eapply same_trans; [apply same_cache_policy |].
    apply (same_foldl (fun m task => cache_task _ (TS.TaskId task, task) m)). intros. apply same_cache_task.
  - simpl. transitivity (uuids (cache_policy (WF.WorkflowId w) (WF.FailurePolicy w) (mem c))); [|by destruct (mem c)].
    generalize (cache_policy (WF.WorkflowId w) (WF.FailurePolicy w) (mem c)).
    induction (WF.Tasks w) as [|t l IH]; intros m; [done |]. simpl. rewrite IH. by destruct m.
Qed.

Abbreviation ids_in v T := (TR.TaskID <$> select (fun r => TR.State r =? v) T).

Lemma load_ok (c : CA) :
  wp LoadStateFromDB c
    (fun e c' => e = None /\ db c' = db c /\ readyQueue (mem c') = readyQueue (mem c) ++ ids_in TASK_QUEUED (tasks c) /\
       assignedTasks (mem c') = assignedTasks (mem c) /\ uuids (mem c') = uuids (mem c)) (fun _ => False).
Proof.
  unfold LoadStateFromDB. apply wp_bind, wp_onStore, GetAllWorkflowStates_ok. intros s1 Hs1. apply wp_bind.
  apply (wp_foldM (fun _ c' => db c' = db c /\ same_tasks (mem c) (mem c') /\ uuids (mem c') = uuids (mem c))).
  - done.
  - intros _ x _ c1 (D1 & S1 & U1). eapply wp_mono; [apply loadWorkflow_ok | | done].
    intros [] c2 (D2 & S2 & U2). split_and!; [congruence | by eapply same_trans | congruence].
  - intros _ c1 (D1 & (Q1 & A1 & _) & U1). apply wp_bind, wp_onStore, GetTasksInState_ok. intros s2 Hs2.
    apply wp_bind, wp_modify, wp_ret. unfold db in *. simpl. rewrite D1 in *.
    destruct (mem c1); simpl in *. by rewrite Q1.
Qed.

(** What a restart on the database of [c] makes of it. *)
Record recovered (c c' : CA) : Prop := {
  rc_queued k r : tasks c !! k = Some r -> TR.State r = TASK_QUEUED ->
    tasks c' !! k = Some r /\ k ∈ readyQueue (mem c');
  rc_running k r : tasks c !! k = Some r -> TR.State r = TASK_RUNNING ->
    requeued (uuids (mem c)) k r (tasks c') (readyQueue (mem c'));
  rc_other k r : tasks c !! k = Some r -> TR.State r <> TASK_QUEUED -> TR.State r <> TASK_RUNNING ->
    tasks c' !! k = Some r /\ (k ∉ readyQueue (mem c'));
  rc_none k : tasks c !! k = None -> tasks c' !! k = None
}.

Lemma startup_ok (c : CA) :
  tasks_inv (tasks c) -> readyQueue (mem c) = [] ->
  wp startup c (fun _ c' => recovered c c' /\ assignedTasks (mem c') = assignedTasks (mem c)) (fun _ => False).
Proof.
  intros Hti Hq. destruct (select_ids (fun r => TR.State r =? TASK_QUEUED) (tasks c) (ti_key _ Hti)) as [_ HQ].
  destruct (select_ids (fun r => TR.State r =? TASK_RUNNING) (tasks c) (ti_key _ Hti)) as [HRnd HR].
  unfold startup, PrepareRecovery. apply wp_bind. eapply wp_mono; [apply load_ok | | done].
  intros e c1 (-> & D1 & Q1 & A1 & U1). rewrite Hq in Q1. simpl in Q1.
  apply wp_bind, wp_bind, wp_clock. intros t c2 [D2 (Q2 & A2 & _) U2 _ _]. apply wp_bind, wp_modify.
  set (c3 := set_mem _ c2). assert (db c3 = db c /\ readyQueue (mem c3) = readyQueue (mem c1) /\
    uuids (mem c3) = uuids (mem c) /\ assignedTasks (mem c3) = assignedTasks (mem c)) as (D3 & Q3 & U3 & A3).
  { split_and!; [change (db c3) with (db c2); congruence |..]; unfold c3; simpl;
    [rewrite <- Q2 | rewrite <- U1, <- U2 | rewrite <- A1, <- A2]; by destruct (mem c2). }
  clearbody c3. apply wp_bind, wp_onStore, GetTasksInState_ok. intros s4 Hs4.
  fold (db c3) in *. rewrite D3 in Hs4 |- *. apply wp_bind.
  eapply wp_mono; [apply requeue_all_ok; [done |] | | done].
  { intros k (r & Hr & _)%HR. unfold db at 1. simpl. rewrite Hs4. eauto. }
  intros [] c5 [K1 K2 (q & K3 & K4) K5 (_ & S2 & _)]. unfold db in K1, K2. simpl in *. rewrite Hs4 in *. fold (db c5) in *.
  do 2 apply wp_ret. rewrite U3 in K1. rewrite Q3, Q1 in K3. split; [|congruence].
  assert (forall k r, tasks c !! k = Some r -> TR.State r <> TASK_RUNNING -> tasks c5 !! k = Some r) as Hsame.
  { intros k r Hr Hs. rewrite K2; [done |]. intros (r' & Hr' & ?)%HR. simplify_eq. lia. }
  split.
  - intros k r Hr Hs. split; [apply Hsame; [done | states; lia] |]. rewrite K3. apply elem_of_app. left.
    apply HQ. exists r. split; [done | lia].
  - intros k r Hr Hs. apply K1; [|done]. apply HR. exists r. split; [done | lia].
  - intros k r Hr Hs1 Hs2. split; [by apply Hsame |]. rewrite K3.
    intros [(r' & Hr' & ?)%HQ | (r' & Hr' & ?)%K4%HR]%elem_of_app; simplify_eq; lia.
  - intros k Hk. rewrite K2; [done |]. intros (r' & Hr' & _)%HR. congruence.
Qed.

End Requeue.
