(* ===== verification/Submission.v ===== *)
(** * Submissions

    What [SubmitWorkflow] leaves in the database and the queue when it succeeds,
    and that an invalid workflow leaves nothing. *)

From S2P Require Import Prelude Proto Codec Env RecordDB Store StoreSpec Dag DagProps Heartbeat Coordinator.
From S2P Require Import Invariant CoordinatorInv.

(** The stored state of workflow [w]. *)
Definition state_is (w : string) (v : WorkflowState) (c : CA) : Prop :=
  exists ws, AbsDB.wstates (db c) !! w = Some ws /\ WR.WorkflowID ws = w /\ WR.State ws = v.

(** What the workers' results and the watchdog see of the memory. *)
Definition same_work (m m' : Mem) : Prop := assignedTasks m' = assignedTasks m /\ uuids m' = uuids m.

(** The queue as well. *)
Definition same_sched (m m' : Mem) : Prop := readyQueue m' = readyQueue m /\ same_work m m'.

(** The specification and the workflow of the tasks in the caches. *)
Definition same_specs (m m' : Mem) : Prop :=
  taskSpecCache m' = taskSpecCache m /\ taskWorkflowMap m' = taskWorkflowMap m.

(** The record of a task that was just submitted: it counts the dependencies, lists
    the tasks that wait for it and has no output. *)
Record submitted_record (w : WorkflowSpec) (t : TaskSpec) (r : TaskStateRecord) : Prop := {
  sb_workflow : TR.WorkflowID r = WF.WorkflowId w;
  sb_degree : TR.InDegree r = Z.of_nat (length (TS.Dependencies t));
  sb_edges t' : t' ∈ WF.Tasks w -> TS.TaskId t' ∈ TR.DownstreamTaskIDs r <-> TS.TaskId t ∈ TS.Dependencies t';
  sb_output : TR.Output r = EmptyString
}.

(** A submitted workflow: its specification and its RUNNING state are stored; every
    task has a record and is in the caches; the tasks without dependencies are QUEUED,
    the others PENDING; the ready queue is the old one followed by exactly the tasks
    without dependencies, once each; the older records are kept, there are no further
    ones, and the assignments are as they were. *)
Record accepted (w : WorkflowSpec) (c c' : CA) : Prop := {
  ac_spec : AbsDB.workflows (db c') !! WF.WorkflowId w = Some w;
  ac_state : state_is (WF.WorkflowId w) WORKFLOW_RUNNING c';
  ac_tasks t : t ∈ WF.Tasks w -> exists r, tasks c' !! TS.TaskId t = Some r /\ submitted_record w t r /\
    ((TS.Dependencies t = [] /\ TR.State r = TASK_QUEUED /\ TS.TaskId t ∈ readyQueue (mem c')) \/
     (TS.Dependencies t <> [] /\ TR.State r = TASK_PENDING));
  ac_queue : exists q, readyQueue (mem c') = readyQueue (mem c) ++ q /\ NoDup q /\
    forall k, k ∈ q <-> exists t, t ∈ WF.Tasks w /\ TS.TaskId t = k /\ TS.Dependencies t = [];
  ac_old k r : tasks c !! k = Some r -> tasks c' !! k = Some r;
  ac_only k r : tasks c' !! k = Some r -> k ∈ ids (WF.Tasks w) \/ tasks c !! k = Some r;
  ac_cache t : t ∈ WF.Tasks w -> taskSpecCache (mem c') !! TS.TaskId t = Some t /\
    taskWorkflowMap (mem c') !! TS.TaskId t = Some (WF.WorkflowId w);
  ac_work : same_work (mem c) (mem c')
}.

(** ** The loop that queues the ready tasks *)

Record queued_ready (p : list string) (c c' : CA) : Prop := {
  qr_in k r : k ∈ p -> tasks c !! k = Some r -> exists r', tasks c' !! k = Some r' /\ TR.State r' = TASK_QUEUED /\
    TR.WorkflowID r' = TR.WorkflowID r /\ TR.InDegree r' = TR.InDegree r /\ TR.DownstreamTaskIDs r' = TR.DownstreamTaskIDs r /\
    TR.Output r' = TR.Output r;
  qr_out k : k ∉ p -> tasks c' !! k = tasks c !! k;
  qr_queue : readyQueue (mem c') = readyQueue (mem c) ++ p;
  qr_rest : AbsDB.workflows (db c') = AbsDB.workflows (db c) /\ AbsDB.wstates (db c') = AbsDB.wstates (db c);
  qr_work : same_work (mem c) (mem c');
  qr_specs : same_specs (mem c) (mem c')
}.

Lemma queued_ready_nil c : queued_ready [] c c.
Proof. split; try done; [by intros k r ?%elem_of_nil | by rewrite app_nil_r]. Qed.

Lemma queued_ready_snoc p k ex c c1 c2 :
  queued_ready p c c1 -> k ∉ p -> mem c2 = mem c1 -> rewritten k TASK_QUEUED ex (db c1) (db c2) ->
  queued_ready (p ++ [k]) c (set_mem (enqueue [k]) c2).
Proof.
  intros [K1 K2 K3 [K4 K5] [K6 K7] [K8 K9]] Hk Hm (r & r' & Hr & Hd & _ & _ & Hw & Hi & Hds & Hs & _ & Ho & _).
  split; unfold db in *; simpl in *; rewrite ?Hd; simpl.
  - intros x rx Hx Hrx. rewrite lookup_insert. case_decide as E.
    + subst x. exists r'. rewrite (K2 k Hk), Hrx in Hr. injection Hr as <-. done.
    + apply elem_of_app in Hx as [Hx | ->%list_elem_of_singleton]; [by apply K1 | done].
  - intros x [Hx Hx']%not_elem_of_app. rewrite lookup_insert_ne; [by apply K2 |].
    intros <-. apply Hx'. by left.
  - rewrite Hm. destruct (mem c1). simpl in *. by rewrite K3, app_assoc.
  - done.
  - rewrite Hm. unfold same_work. by destruct (mem c1).
  - rewrite Hm. unfold same_specs. by destruct (mem c1).
Qed.

Lemma meminv_extend T T' m :
  meminv T m -> (forall k r, T !! k = Some r -> T' !! k = Some r) -> advances T T' -> meminv T' m.
Proof.
  intros [H1 H2 H3 H4] Ht [_ Ha]. split; [done | | |done].
  - intros k Hk. destruct (H2 k Hk) as (r & Hr & ?). eauto.
  - intros k e He. destruct (H3 k e He) as (r & Hr & ? & ? & ?). exists r. specialize (Ha k ltac:(eauto)).
    split_and!; [eauto | done | done | lia].
Qed.

(** The records of the tasks without dependencies. *)
Lemma ready_record w dag T T' s k :
  tasks_inv T -> dag_of (WF.Tasks w) dag -> unique_ids w -> closed w -> fresh_ids T w ->
  initialized (WF.WorkflowId w) (GetInDegree dag) (GetAllDownstream dag) (WF.Tasks w) T T' ->
  k ∈ GetReadyTasks s dag -> exists r, T' !! k = Some r /\ TR.State r = TASK_PENDING /\ blockers T' k = 0%nat.
Proof.
  intros Hti Hdag Hu Hcl Hf Hin Hk. unfold GetReadyTasks in Hk.
  apply list_elem_of_fmap in Hk as ([k' n] & -> & [Hn Hk]%list_elem_of_filter). simpl in *. subst n.
  apply elem_of_range_map in Hk.
  assert (k' ∈ dom (DAG.inDegree dag)) as Hd by (apply elem_of_dom; eauto).
  rewrite (dag_dom_inDegree _ _ Hdag), elem_of_list_to_set in Hd.
  apply list_elem_of_fmap in Hd as (t & -> & Ht). destruct (dag_task _ _ Hdag t Ht) as (_ & _ & Hdeg).
  destruct (Hf t Ht) as [_ Hlen]. rewrite int32_id in Hdeg by (unfold is_int32; lia).
  assert (length (TS.Dependencies t) = 0%nat) as E by (simplify_eq; lia).
  destruct (new_record _ _ _ _ Hdag Hf Hin t Ht) as (r & Hr & _ & _ & _ & Hs & _).
  exists r. split_and!; [done | done |]. by rewrite (new_blockers T T' w dag) by done.
Qed.

(** They can be queued. *)
Lemma ready_idle w dag T T' s k c :
  tasks_inv T -> dag_of (WF.Tasks w) dag -> unique_ids w -> closed w -> fresh_ids T w ->
  initialized (WF.WorkflowId w) (GetInDegree dag) (GetAllDownstream dag) (WF.Tasks w) T T' ->
  cinv c -> tasks c = T' -> k ∈ GetReadyTasks s dag -> idle k c.
Proof.
  intros Hti Hdag Hu Hcl Hf Hin [_ Hm] HT Hk.
  destruct (ready_record w dag T T' s k Hti Hdag Hu Hcl Hf Hin Hk) as (r & Hr & Hs & Hb). rewrite <- HT in *.
  split_and!.
  - intros Hq. destruct (mi_queued _ _ Hm _ Hq) as (r' & Hr' & ?). simplify_eq. states. lia.
  - destruct (assignedTasks (mem c) !! _) as [e|] eqn:Ea; [|done].
    destruct (mi_assigned _ _ Hm _ _ Ea) as (r' & Hr' & _ & ? & _). simplify_eq. states. lia.
  - exists r. split_and!; [done | done | rewrite Hs; done..].
Qed.

Section Submission.
Context `{Env} `{Protobuf}.

(** The tasks of [l] are queued one by one; the loop ends early when one fails. *)
Lemma queue_ready l c0 c :
  NoDup l -> good c0 c -> (forall k, k ∈ l -> idle k c) ->
  wp (forEach (fun _ taskID =>
        let! e := onStore (UpdateTaskState taskID TASK_QUEUED) in
        match e with
        | Some e => ret (tt, Some e)
        | None => modm (enqueue [taskID]) ;; ret (tt, None)
        end) tt l) c (fun r c' => good c0 c' /\ (r.2 = None -> queued_ready l c c')) (dead c0).
Proof.
  intros Hnd Hc Hi.
  apply (wp_forEach (fun rest _ c' => exists p, l = p ++ rest /\ queued_ready p c c' /\ good c0 c' /\
    forall k, k ∈ rest -> idle k c')).
  - exists []. split_and!; [done | apply queued_ready_nil | done | done].
  - intros _ k rest c1 (p & -> & Hp & Hg & Hi1). apply NoDup_app in Hnd as (_ & Hdis & [Hkr _]%NoDup_cons).
    assert (k ∉ p) as Hk by (intros Hin; apply (Hdis k Hin); by left).
    apply wp_bind. eapply wp_mono; [apply wp_and | | by intros c' [? _]].
    + eapply queue_call; [by apply UpdateTaskState_call | exact Hg | apply Hi1; by left].
    + eapply (wp_write _ _ c0 c1 (fun e c' => mem c' = mem c1 /\
        match e with Some _ => True | None => rewritten k TASK_QUEUED TR.ExecutionID (db c1) (db c') end)); [done | |].
      * apply UpdateTaskState_call; [done | apply Hg].
      * intros [e|] c' Hm Hd; done.
    + intros [e|] c2 [[Hc2 Hx] [Hm2 Hd2]]; [by apply wp_ret |]. apply wp_bind, wp_modify, wp_ret.
      exists (p ++ [k]). rewrite <- app_assoc. split_and!; [done | by eapply queued_ready_snoc | done |].
      intros x Hxr. apply Hx; [congruence |]. apply Hi1. by right.
  - intros [] c' (p & Hl & Hp & Hg & _). rewrite app_nil_r in Hl. by rewrite Hl.
Qed.

(** The three transactions that store a workflow. *)
Lemma wp_StoreWorkflow w c0 c (Q : option GoError -> CA -> Prop) :
  good c0 c -> fresh_ids (tasks c) w ->
  (forall e c', good c0 c' -> Q (Some e) c') ->
  (forall c', good c0 c' -> mem c' = mem c -> tasks c' = tasks c -> AbsDB.workflows (db c') !! WF.WorkflowId w = Some w ->
     Q None c') ->
  wp (onStore (StoreWorkflow w)) c Q (dead c0).
Proof.
  intros Hc Hf He Hok. eapply wp_write; [exact Hc | apply StoreWorkflow_spec |].
  intros [e|] c' Hm Hd; fold (db c') (db c) in Hd; simpl.
  { apply He. eapply good_same; [done | by rewrite Hd.. | by rewrite Hm]. }
  destruct Hc as [[Hdb Hmi] Ha].
  apply Hok; [split; [split|]| |..]; [..| done | |]; rewrite Hd; simpl; rewrite ?Hm; try done.
  - by apply store_workflow_inv.
  - apply lookup_insert_eq.
Qed.

Lemma wp_InitWorkflowState w c0 c (Q : option GoError -> CA -> Prop) :
  good c0 c ->
  (forall e c', good c0 c' -> Q (Some e) c') ->
  (forall c', good c0 c' -> mem c' = mem c -> tasks c' = tasks c -> AbsDB.workflows (db c') = AbsDB.workflows (db c) ->
     state_is w WORKFLOW_RUNNING c' -> Q None c') ->
  wp (onStore (InitWorkflowState w)) c Q (dead c0).
Proof.
  intros Hc He Hok. eapply wp_write; [exact Hc | apply InitWorkflowState_spec |].
  intros [e|] c' Hm Hd; fold (db c') (db c) in Hd; simpl.
  { apply He. eapply good_same; [done | by rewrite Hd.. | by rewrite Hm]. }
  destruct Hd as [tm Hd]. apply Hok; [|done|rewrite Hd; done..|].
  - eapply good_same; [exact Hc | by rewrite Hd.. | by rewrite Hm].
  - eexists. rewrite Hd. simpl. rewrite lookup_insert_eq. done.
Qed.

Lemma wp_InitializeTasks w dag c0 c (Q : option GoError -> CA -> Prop) :
  good c0 c -> fresh_ids (tasks c) w -> AbsDB.workflows (db c) !! WF.WorkflowId w = Some w ->
  unique_ids w -> closed w -> dag_of (WF.Tasks w) dag ->
  (forall e c', good c0 c' -> Q (Some e) c') ->
  (forall c', good c0 c' -> mem c' = mem c ->
     initialized (WF.WorkflowId w) (GetInDegree dag) (GetAllDownstream dag) (WF.Tasks w) (tasks c) (tasks c') ->
     AbsDB.workflows (db c') = AbsDB.workflows (db c) -> AbsDB.wstates (db c') = AbsDB.wstates (db c) ->
     Q None c') ->
  wp (onStore (InitializeTasksForWorkflow (WF.WorkflowId w) (WF.Tasks w) (GetInDegree dag) (GetAllDownstream dag)))
     c Q (dead c0).
Proof.
  intros Hc Hf Hw Hu Hcl Hdag He Hok. eapply wp_write; [exact Hc | by apply Initialize_spec |].
  intros [e|] c' Hm Hd; fold (db c') (db c) in Hd; simpl.
  { apply He. eapply good_same; [done | by rewrite Hd.. | by rewrite Hm]. }
  destruct Hd as (T' & Hin & Hd). destruct Hc as [[Hdb Hmi] Ha].
  assert (advances (tasks c) T') as Hadv by (by eapply initialized_advances).
  apply Hok; [|done|by rewrite Hd..].
  split; [split|]; rewrite Hd; simpl; [by eapply initialized_inv | rewrite Hm | by etrans].
  eapply meminv_extend; [done | | done]. intros k r Hr. by eapply old_kept.
Qed.

(** The tasks that are queued at once. *)
Lemma ready_now w dag s (T : Tasks) t :
  fresh_ids T w -> dag_of (WF.Tasks w) dag -> t ∈ WF.Tasks w ->
  TS.TaskId t ∈ GetReadyTasks s dag <-> TS.Dependencies t = [].
Proof.
  intros Hf Hdag Ht. destruct (dag_task _ _ Hdag t Ht) as (_ & _ & Hdeg). destruct (Hf t Ht) as [_ Hlen].
  rewrite int32_id in Hdeg by (unfold is_int32; lia). unfold GetReadyTasks. rewrite list_elem_of_fmap. split.
  - intros ([k n] & E & [Hn Hk]%list_elem_of_filter). simpl in *. subst n k. apply elem_of_range_map in Hk.
    apply length_zero_iff_nil. simplify_eq. lia.
  - intros Hnil. exists (TS.TaskId t, 0). split; [done |]. apply list_elem_of_filter. split; [done |].
    apply elem_of_range_map. rewrite Hdeg, Hnil. done.
Qed.

Lemma ready_ids l dag s k : dag_of l dag -> k ∈ GetReadyTasks s dag -> k ∈ ids l.
Proof.
  intros Hdag. unfold GetReadyTasks. intros ([k' n] & -> & [_ Hk]%list_elem_of_filter)%list_elem_of_fmap.
  apply elem_of_range_map, elem_of_dom_2 in Hk. by rewrite (dag_dom_inDegree _ _ Hdag), elem_of_list_to_set in Hk.
Qed.

(** The records of the new tasks before any is queued. *)
Lemma new_submitted w dag T T' t :
  fresh_ids T w -> dag_of (WF.Tasks w) dag ->
  initialized (WF.WorkflowId w) (GetInDegree dag) (GetAllDownstream dag) (WF.Tasks w) T T' ->
  t ∈ WF.Tasks w -> exists r, T' !! TS.TaskId t = Some r /\ TR.State r = TASK_PENDING /\ submitted_record w t r.
Proof.
  intros Hf Hdag Hin Ht. destruct (new_record _ _ _ _ Hdag Hf Hin t Ht) as (r & Hr & _ & _ & Hwf & Hs & Hi & Hds & _ & Ho).
  exists r. split_and!; [done | done |]. split; [done | done | | done]. intros t' Ht'. rewrite Hds.
  pose proof (dag_downstream _ _ Hdag t t' Ht Ht') as Ho'. pose proof (occ_zero (TS.TaskId t') (GetDownstream dag (TS.TaskId t))).
  pose proof (occ_zero (TS.TaskId t) (TS.Dependencies t')).
  destruct (decide (TS.TaskId t' ∈ GetDownstream dag (TS.TaskId t))), (decide (TS.TaskId t ∈ TS.Dependencies t')); try tauto; rewrite Ho' in *; tauto.
Qed.

(** The specifications and the workflow of the tasks are in the caches. *)
Definition caches (w : WorkflowSpec) (m : Mem) : Prop := forall t, t ∈ WF.Tasks w ->
  taskSpecCache m !! TS.TaskId t = Some t /\ taskWorkflowMap m !! TS.TaskId t = Some (WF.WorkflowId w).

(** Where an entry of the caches comes from, after a loop over the graph's tasks. *)
Lemma cache_loop w (G : gmap string TaskSpec) l m :
  (forall p, p ∈ l -> G !! p.1 = Some p.2) ->
  forall k t, G !! k = Some t -> (k, t) ∈ l \/ (taskSpecCache m !! k = Some t /\ taskWorkflowMap m !! k = Some w) ->
  let m' := foldl (fun m p => cache_task w p m) m l in taskSpecCache m' !! k = Some t /\ taskWorkflowMap m' !! k = Some w.
Proof.
  intros Hl k t HG. revert m. induction l as [|p l IH]; intros m Hc; simpl.
  { destruct Hc as [Hc|Hc]; [by apply elem_of_nil in Hc | done]. }
  apply IH; [intros; apply Hl; by right |]. destruct (decide (p.1 = k)) as [E|E].
  - right. assert (p.2 = t) as E2 by (specialize (Hl p ltac:(left)); congruence). destruct m. simpl. by rewrite E, E2, !lookup_insert_eq.
  - destruct Hc as [[Hp|Hc]%elem_of_cons|Hc]; [by subst p | by left |]. right. destruct m. simpl in *. by rewrite !lookup_insert_ne.
Qed.

Lemma caches_submitted w dag s m : dag_of (WF.Tasks w) dag ->
  caches w (cache_policy (WF.WorkflowId w) (WF.FailurePolicy w)
    (foldl (fun m p => cache_task (WF.WorkflowId w) p m) m (range_map s (GetAllTaskSpecs dag)))).
Proof.
  intros Hdag t Ht. destruct (dag_task _ _ Hdag t Ht) as (Hl & _).
  destruct (cache_loop (WF.WorkflowId w) (GetAllTaskSpecs dag) (range_map s (GetAllTaskSpecs dag)) m) with (k := TS.TaskId t) (t := t)
    as [E1 E2]; [|done|left; by apply elem_of_range_map|].
  - intros [k t'] Hp. by apply elem_of_range_map in Hp.
  - unfold cache_policy. revert E1 E2. by destruct (foldl _ _ _).
Qed.

Lemma same_sched_cached w l m : same_sched m (foldl (fun m p => cache_task w p m) m l).
Proof.
  revert m. induction l as [|p l IH]; intros m; [done |]. destruct (IH (cache_task w p m)) as (E1 & E2 & E3). simpl.
  unfold same_sched, same_work. rewrite E1, E2, E3. by destruct m.
Qed.

(** The tasks that are queued, as a list. *)
Lemma ready_exactly w dag s (T : Tasks) k :
  fresh_ids T w -> dag_of (WF.Tasks w) dag ->
  k ∈ GetReadyTasks s dag <-> exists t, t ∈ WF.Tasks w /\ TS.TaskId t = k /\ TS.Dependencies t = [].
Proof.
  intros Hf Hdag. split.
  - intros Hk. destruct (proj1 (list_elem_of_fmap _ _ _) (ready_ids _ _ _ _ Hdag Hk)) as (t & -> & Ht).
    exists t. split_and!; [done | done |]. by apply (ready_now w dag s T t).
  - intros (t & Ht & <- & Hnil). by apply (ready_now w dag s T t).
Qed.

Lemma accepted_end w dag s c c3 c4 :
  fresh_ids (tasks c) w -> dag_of (WF.Tasks w) dag ->
  initialized (WF.WorkflowId w) (GetInDegree dag) (GetAllDownstream dag) (WF.Tasks w) (tasks c) (tasks c3) ->
  AbsDB.workflows (db c3) !! WF.WorkflowId w = Some w ->
  state_is (WF.WorkflowId w) WORKFLOW_RUNNING c3 -> caches w (mem c3) -> same_sched (mem c) (mem c3) ->
  queued_ready (GetReadyTasks s dag) c3 c4 -> accepted w c c4.
Proof.
  intros Hf Hdag Hin Hw Hws Hca [Hq Hwk] [K1 K2 K3 [K4 K5] [K6 K7] [K8 K9]].
  split; [by rewrite K4 | unfold state_is; by rewrite K5 | | | | | |].
  - intros t Ht. destruct (new_submitted w dag _ _ t Hf Hdag Hin Ht) as (r & Hr & Hs & Hsub).
    pose proof (ready_now w dag s _ t Hf Hdag Ht) as Hready. destruct (decide (TS.Dependencies t = [])) as [Hnil|Hnil].
    + destruct (K1 _ r (proj2 Hready Hnil) Hr) as (r' & Hr' & Hs' & E1 & E2 & E3 & E4). exists r'. split; [done |]. split.
      * destruct Hsub as [S1 S2 S3 S4]. split; rewrite ?E1, ?E2, ?E3, ?E4; done.
      * left. split_and!; [done | done |]. rewrite K3. apply elem_of_app. right. by apply Hready.
    + exists r. rewrite K2 by tauto. split_and!; [done.. |]. by right.
  - exists (GetReadyTasks s dag). rewrite K3, Hq. split_and!; [done | apply NoDup_filter_fst, range_map_NoDup |].
    intros k. by apply (ready_exactly w dag s (tasks c)).
  - intros k r Hr. destruct (old_kept _ _ _ _ Hf Hin k r Hr) as [Hn Hr']. rewrite K2; [done |]. by intros Hk%(ready_ids _ _ _ _ Hdag).
  - intros k r Hr. destruct (decide (k ∈ ids (WF.Tasks w))) as [|Hn]; [by left | right].
    rewrite K2 in Hr by (by intros Hk%(ready_ids _ _ _ _ Hdag)). by rewrite <- (init_out _ _ _ _ _ _ Hin k Hn).
  - intros t Ht. rewrite K8, K9. by apply Hca.
  - destruct Hwk as [E1 E2]. split; congruence.
Qed.

(** A submission keeps the invariant, and is accepted when it returns no error. *)
Lemma SubmitWorkflow_spec w c0 c :
  good c0 c -> fresh_ids (tasks c) w ->
  wp (SubmitWorkflow w) c (fun res c' => good c0 c' /\ (res = None -> accepted w c c')) (dead c0).
Proof.
  intros Hc Hf. unfold SubmitWorkflow, nextOrders. apply wp_bind, wp_bind, wp_gets, wp_bind, wp_modify, wp_ret.
  generalize (fun i => order (orders (mem c) + i)%nat). intros ord. set (c1 := set_mem _ c).
  assert (good c0 c1) as Hc1 by (eapply good_same; [exact Hc | done | done | unfold c1; simpl; by destruct (mem c)]).
  assert (tasks c1 = tasks c) as T1 by done. assert (same_sched (mem c) (mem c1)) as M1 by (unfold same_sched, same_work; simpl; by destruct (mem c)). clearbody c1.
  pose proof (validate_verdict ord w) as Hv. destruct (ValidateAndSort ord w) as [[e|dag]|]; [by apply wp_ret | | done].
  destruct Hv as (Hu & Hcl & _ & Hdag).
  apply wp_bind. eapply wp_StoreWorkflow; [done | by rewrite T1 | intros; by apply wp_ret |].
  intros c2 Hc2 M2 T2 W2. simpl. rewrite T1 in T2. rewrite <- M2 in M1. clear Hc1 T1 M2 c1.
  apply wp_bind. eapply wp_InitWorkflowState; [done | intros; by apply wp_ret |].
  intros c3 Hc3 M3 T3 W3 S3. rewrite T2 in T3. rewrite <- W3 in W2. rewrite <- M3 in M1. clear Hc2 T2 W3 M3 c2. simpl.
  apply wp_bind. eapply wp_InitializeTasks; [done | by rewrite T3 | done.. | intros; by apply wp_ret |].
  intros c4 Hc4 M4 Hin W4 S4. rewrite T3 in Hin. rewrite <- M4 in M1. simpl. apply wp_bind, wp_modify, wp_bind, wp_modify, wp_bind.
  set (c5 := set_mem _ (set_mem _ c4)). assert (good c0 c5) as Hc5.
  { eapply good_same; [exact Hc4 | done | done |]. eapply same_trans; [|apply same_cache_policy].
    apply (same_foldl (fun m p => cache_task _ p m)). intros. apply same_cache_task. }
  eapply wp_mono; [apply (queue_ready _ c0) | | done].
  - apply NoDup_filter_fst, range_map_NoDup.
  - done.
  - intros k Hk. eapply (ready_idle w dag (tasks c)); [apply Hc | done.. | apply Hc5 | done | done].
  - intros r c6 [Hc6 Hq]. apply wp_ret. split; [done |]. intros Hr.
    apply (accepted_end w dag (order (orders (mem c) + 4)%nat) c c5 c6); [done | done | done | | | | | by apply (Hq Hr)].
    + change (db c5) with (db c4). by rewrite W4.
    + unfold state_is in *. change (db c5) with (db c4). by rewrite S4.
    + by apply caches_submitted.
    + unfold c5. cbn [mem set_mem]. destruct (same_sched_cached (WF.WorkflowId w) (range_map (order (orders (mem c) + 3)%nat) (GetAllTaskSpecs dag)) (mem c4)) as (E0 & E1 & E2).
      destruct M1 as (F0 & F1 & F2). unfold cache_policy, same_sched, same_work. rewrite <- F0, <- F1, <- F2, <- E0, <- E1, <- E2. by destruct (foldl _ _ _).
Qed.

(** What a submission that [ValidateAndSort] refuses returns and leaves. *)
Lemma SubmitWorkflow_invalid {D} `{RecordDB D} w (c : Coordinator D) :
  ~ (unique_ids w /\ closed w /\ ~ cyclic w) ->
  exists e, SubmitWorkflow w c = Done (set_mem (set_orders (orders (mem c) + 5)) c) (Some (Errorf ["invalid DAG"%string] e)).
Proof.
  intros Hn. unfold SubmitWorkflow, nextOrders, getm, modm, gets, modify, bind, ret.
  destruct (verdict_cases _ _ (validate_verdict (fun i => order (orders (mem c) + i)%nat) w))
    as [(d & _ & ? & ? & ? & _) | (e & -> & _)]; [tauto | by exists e].
Qed.

End Submission.
