(* ===== verification/Failure.v ===== *)
(** * Failed executions

    What [FailTask] of the coordinator makes of the failure it accepts: a retry,
    or a FAILED task. *)

From S2P Require Import Prelude Proto Codec Env RecordDB Store StoreSpec Dag Heartbeat Coordinator Invariant.
From S2P Require Import CoordinatorInv.

(** The test of [FailTask] on the attempt counter. *)
Definition retries_left (k : string) (r : TaskStateRecord) (m : Mem) : bool :=
  int32 (TR.AttemptCount r + 1) <? maxRetries k m.

(** The two outcomes of an accepted failure of task [k] with record [r]. *)
Definition retried (k : string) (r : TaskStateRecord) (c' : CA) : Prop :=
  exists r', tasks c' !! k = Some r' /\ TR.State r' = TASK_QUEUED /\ TR.AttemptCount r' = TR.AttemptCount r /\
    k ∈ readyQueue (mem c') /\ assignedTasks (mem c') !! k = None.

Definition exhausted (k msg : string) (r : TaskStateRecord) (c' : CA) : Prop :=
  exists r', tasks c' !! k = Some r' /\ TR.State r' = TASK_FAILED /\ TR.Error r' = msg /\
    TR.AttemptCount r' = int32 (TR.AttemptCount r + 1).

Section Failure.
Context `{Env} `{Protobuf}.

(** A failure under an execution id that is not the assigned one. *)
Lemma FailTask_stale {D} `{RecordDB D} k e msg (c : Coordinator D) :
  assignedTasks (mem c) !! k <> Some e -> FailTask k e msg c = Done c (Some ErrStaleExecution).
Proof. intros Hn. unfold FailTask, getm, gets, bind. by rewrite bool_decide_eq_false_2. Qed.

Lemma FailTask_retry k e msg r (c : CA) :
  cinv c -> tasks c !! k = Some r -> retries_left k r (mem c) = true ->
  wp (FailTask k e msg) c (fun res c' => res = None -> retried k r c') (fun _ => True).
Proof.
  intros Hc Hr Hleft. unfold FailTask. apply wp_bind, wp_gets. case_bool_decide as Ea; [|by apply wp_ret].
  apply wp_bind, wp_onStore. eapply wp_mono; [apply GetTask_spec | | done].
  intros [e1|r1] s1 [Hs1 Hr1]; [by apply wp_ret |]. specialize (Hr1 r1 eq_refl).
  unfold db in Hr. rewrite Hr in Hr1. injection Hr1 as <-.
  apply wp_bind, wp_gets. unfold retries_left in Hleft. simpl. rewrite Hleft.
  unfold newUUID. apply wp_bind, wp_bind, wp_gets, wp_bind, wp_modify, wp_ret.
  apply wp_bind, wp_onStore. eapply wp_mono; [apply modifyTask_spec | | done].
  intros [e2|] s2 H2; [by apply wp_ret |]. destruct H2 as (r2 & tm & Hr2 & _ & Hs2).
  unfold db in *. simpl in *. rewrite Hs1, Hr in Hr2. injection Hr2 as <-.
  apply wp_bind, wp_modify, wp_bind, wp_modify, wp_bind, wp_modify, wp_bind, wp_modify, wp_ret. intros _.
  destruct Hc as [Hdb _]. destruct (proj1 (stable_fields r) (ti_stable _ (di_tasks _ Hdb) k r Hr)) as (_ & Ha & _).
  eexists. unfold db. simpl. rewrite Hs2. simpl. rewrite lookup_insert_eq.
  split_and!; [done | by destruct r | by destruct r; apply int32_id | |]; destruct (mem c); simpl.
  - apply elem_of_app. right. by left.
  - apply lookup_delete_eq.
Qed.

Lemma FailTask_exhausted k e msg r (c : CA) :
  cinv c -> tasks c !! k = Some r -> retries_left k r (mem c) = false ->
  wp (FailTask k e msg) c (fun res c' => res = None -> exhausted k msg r c') (fun _ => True).
Proof.
  intros Hc Hr Hleft. unfold FailTask. apply wp_bind, wp_gets. case_bool_decide as Ea; [|by apply wp_ret].
  apply wp_bind, wp_onStore. eapply wp_mono; [apply GetTask_spec | | done].
  intros [e1|r1] s1 [Hs1 Hr1]; [by apply wp_ret |]. specialize (Hr1 r1 eq_refl).
  unfold db in Hr. rewrite Hr in Hr1. injection Hr1 as <-.
  apply wp_bind, wp_gets. unfold retries_left in Hleft. simpl. rewrite Hleft.
  set (c1 := mkCoordinator s1 (mem c)). assert (good c c1) as Hc1.
  { eapply good_same; [by apply good_refl | unfold db, c1; simpl; by rewrite Hs1.. | done]. }
  destruct (release_idle _ _ _ _ Hc1 Ea) as (Hq & r0 & Hr0 & _ & Hb & Hnc & Hnf & _).
  assert (good c (set_mem (release k) c1) /\ idle k (set_mem (release k) c1)) as [Hg Hi].
  { destruct Hc1 as [[Hdb1 Hm1] Ha1]. split.
    - split; [split; [done |] | done]. simpl. by apply meminv_release.
    - split_and!; simpl; [by rewrite release_queue | by rewrite release_assigned, lookup_delete_eq | eauto]. }
  apply wp_bind, wp_onStore.
  eapply wp_mono; [apply wp_and; [apply modifyTask_spec | apply FailTask_call, Hc1] | | done].
  intros [e2|] s2 [H2 H3]; [by apply wp_ret |]. destruct H2 as (r2 & tm & Hr2 & _ & Hs2). simpl.
  apply wp_bind, wp_modify. set (c3 := set_mem (release k) (mkCoordinator s2 (mem c))).
  destruct (rewritten_good c (set_mem (release k) c1) c3 k TASK_FAILED TR.ExecutionID Hg Hi) as ([Hc3 _] & _);
    [done | exact H3 | auto |].
  unfold db in *. simpl in *. rewrite Hs1, Hr in Hr2. injection Hr2 as <-.
  eapply (wp_mono _ _ (fun _ c' => good c3 c') _ (dead c3)); [by apply keeps_failed, good_refl | | done].
  intros res c4 [_ Ha4] _.
  destruct (adv_record _ _ Ha4 k (canonTask (set_LastUpdated tm (set_AttemptCount (int32 (TR.AttemptCount r + 1))
    (set_Error msg (set_State TASK_FAILED r)))))) as (r' & Hr' & _ & _ & Hf).
  { unfold db, c3. simpl. rewrite Hs2. apply lookup_insert_eq. }
  rewrite Hf in Hr' by (right; by destruct r). eexists. split; [exact Hr' |].
  split_and!; [by destruct r | by destruct r | destruct r; simpl; by rewrite !int32_idem].
Qed.

End Failure.
