(* ===== verification/Dashboard.v ===== *)
(** * The dashboard

    [cmd/coordinator/dashboard.go]: the HTTP handlers that render the store as
    JSON. A handler is code over the store that ends in a response; the JSON
    encoder and the HTML page are library code and data, so a response carries the
    value that is encoded. A nil slice is the empty list. *)

From S2P Require Import Prelude Proto Codec Env RecordDB Store StoreRefinement StoreSpec Heartbeat.

(** ** Responses *)

Module WorkflowSummary.
Record t := mk {
  ID : string;
  State : string;
  SubmittedAtMs : Z;
  CompletedAtMs : Z;
  DurationMs : Z;
  TaskCount : Z;
  DoneCount : Z;
  FailedCount : Z;
  FailurePolicy : string
}.
End WorkflowSummary.

Module TaskDetail.
Record t := mk {
  ID : string;
  State : string;
  Command : string;
  Dependencies : list string;
  AttemptCount : Z;
  MaxRetries : Z;
  Error : string;
  Output : string
}.
End TaskDetail.

Module WorkflowDetail.
Record t := mk { summary : WorkflowSummary.t; Tasks : list TaskDetail.t }.
End WorkflowDetail.

Module WorkerSummary.
Record t := mk {
  ID : string;
  LastHeartbeatMs : Z;
  SecondsSince : Z;
  RunningTaskIDs : list string;
  Status : string
}.
End WorkerSummary.

(** What a handler writes: the page, an error with its status code, or the value
    [jsonOK] encodes (status 200). *)
Inductive response :=
  | DashboardPage
  | NotFound
  | HttpError (code : Z) (text : string + GoError)
  | WorkflowListJSON (l : list WorkflowSummary.t)
  | WorkflowDetailJSON (d : WorkflowDetail.t)
  | WorkersJSON (l : list WorkerSummary.t).

Definition statusCode (r : response) : Z :=
  match r with
  | NotFound => 404
  | HttpError code _ => code
  | _ => 200
  end.

(** ** Helpers *)

(** The loop of [countTaskDoneAndFailed]. *)
Definition countTaskDoneAndFailed (tasks : list TaskStatus) : Z * Z :=
  foldl (fun '(done, failed) t =>
    if (TaskStatus.State t =? TASK_COMPLETE) || (TaskStatus.State t =? TASK_SKIPPED) then (done + 1, failed)
    else if TaskStatus.State t =? TASK_FAILED then (done, failed + 1)
    else (done, failed)) (0, 0) tasks.

Definition computeDuration (wf : WorkflowStateRecord) (nowMs : Z) : Z :=
  if 0 <? WR.CompletedAtMs wf then int64 (WR.CompletedAtMs wf - WR.SubmittedAtMs wf)
  else if 0 <? WR.SubmittedAtMs wf then int64 (nowMs - WR.SubmittedAtMs wf)
  else 0.

Definition trimOutput (s : string) (max : Z) : string :=
  if Z.of_nat (String.length s) <=? max then s
  else String.append (String.substring 0 (Z.to_nat max) s) "…".

(** [sort.Slice] with a comparison of a field, greatest first. The sort is not
    stable: elements with equal fields come in any order, which the seed selects
    ([sortSlice_complete]). *)
Definition descending {A} (f : A -> Z) (x y : A) : Prop := f y <= f x.

Fixpoint insertSorted {A} (f : A -> Z) (x : A) (l : list A) : list A :=
  match l with
  | [] => [x]
  | y :: l' => if f y <=? f x then x :: l else y :: insertSorted f x l'
  end.

Definition sortSlice {A} (f : A -> Z) (s : seed) (l : list A) : list A := foldr (insertSorted f) [] (shuffle s l).

(** ** Handlers *)

Section Dashboard.
Context `{Env} {D : Type} `{RecordDB D}.

Definition workflowRow (now : Z) (wf : WorkflowStateRecord) (tasks : list TaskStatus) (policy : string) : WorkflowSummary.t :=
  let '(done, failed) := countTaskDoneAndFailed tasks in
  WorkflowSummary.mk (WR.WorkflowID wf) (WorkflowState_String (WR.State wf)) (WR.SubmittedAtMs wf) (WR.CompletedAtMs wf)
    (computeDuration wf now) (Z.of_nat (length tasks)) done failed policy.

Definition handleAPIWorkflowList (s : seed) : M (St D) response :=
  let! r := GetAllWorkflowStates in
  match r with
  | (_, Some err) => ret (HttpError 500 (inr err))
  | (states, None) =>
      let! now := now in
      let! result := foldM (fun result wf =>
        let! r := GetTaskStatusesForWorkflow (WR.WorkflowID wf) in
        ret (result ++ [workflowRow now wf r.1 EmptyString])) [] states in
      ret (WorkflowListJSON (sortSlice WorkflowSummary.SubmittedAtMs s result))
  end.

(** A task of the specification, with its status when there is one. *)
Definition specDetail (statusByID : gmap string TaskStatus) (t : TaskSpec) : TaskDetail.t :=
  match statusByID !! TS.TaskId t with
  | Some st => TaskDetail.mk (TS.TaskId t) (TaskState_String (TaskStatus.State st)) (TS.Command t) (TS.Dependencies t)
                 (TaskStatus.AttemptCount st) (TS.MaxRetries t) (TaskStatus.Error st) (trimOutput (TaskStatus.Output st) 512)
  | None => TaskDetail.mk (TS.TaskId t) EmptyString (TS.Command t) (TS.Dependencies t) 0 (TS.MaxRetries t)
              EmptyString EmptyString
  end.

(** A task when the specification is not available. *)
Definition statusDetail (ts : TaskStatus) : TaskDetail.t :=
  TaskDetail.mk (TaskStatus.TaskId ts) (TaskState_String (TaskStatus.State ts)) EmptyString []
    (TaskStatus.AttemptCount ts) 0 (TaskStatus.Error ts) (trimOutput (TaskStatus.Output ts) 512).

Definition handleAPIWorkflowDetail (path : string) : M (St D) response :=
  let id := if String.prefix "/api/workflows/" path then String.substring 15 (String.length path) path else path in
  if String.eqb id EmptyString then ret (HttpError 400 (inl "missing workflow id"%string))
  else
    let! r := GetWorkflowState id in
    match r with
    | inl err => ret (HttpError 404 (inr err))
    | inr wfState =>
        let! r := GetTaskStatusesForWorkflow id in
        match r with
        | (_, Some err) => ret (HttpError 500 (inr err))
        | (taskStatuses, None) =>
            let statusByID : gmap string TaskStatus :=
              foldl (fun m ts => <[TaskStatus.TaskId ts := ts]> m) ∅ taskStatuses in
            let! spec := GetWorkflow id in
            let '(tasks, policy) :=
              match spec with
              | inr spec => (specDetail statusByID <$> WF.Tasks spec, FailurePolicy_String (WF.FailurePolicy spec))
              | inl _ => (statusDetail <$> taskStatuses, EmptyString)
              end in
            let! now := now in
            ret (WorkflowDetailJSON (WorkflowDetail.mk (workflowRow now wfState taskStatuses policy) tasks))
        end
    end.

Definition workerRow (now : Z) (wk : WorkerRecord) : WorkerSummary.t :=
  let deadThresholdMs := Z.quot (15 * Second) Millisecond in
  let age := Z.quot (int64 (now - WK.LastHeartbeat wk)) 1000 in
  let status := if deadThresholdMs <? int64 (now - WK.LastHeartbeat wk) then "dead"%string else "alive"%string in
  WorkerSummary.mk (WK.WorkerID wk) (WK.LastHeartbeat wk) age (WK.RunningTaskIDs wk) status.

Definition handleAPIWorkers (s : seed) : M (St D) response :=
  let! r := GetAllWorkers in
  match r with
  | (_, Some err) => ret (HttpError 500 (inr err))
  | (workers, None) =>
      let! now := now in
      ret (WorkersJSON (sortSlice WorkerSummary.LastHeartbeatMs s (workerRow now <$> workers)))
  end.

(** The patterns of [register], for a path the mux does not redirect: the longest
    pattern that matches. *)
Definition serveHTTP (path : string) (s : seed) : M (St D) response :=
  if String.eqb path "/api/workflows" then handleAPIWorkflowList s
  else if String.eqb path "/api/workers" then handleAPIWorkers s
  else if String.prefix "/api/workflows/" path then handleAPIWorkflowDetail path
  else if String.eqb path "/" || String.eqb path "/dashboard" then ret DashboardPage
  else ret NotFound.

End Dashboard.

(** ** Sorting *)

Section Sorting.
Context {A : Type} (f : A -> Z).

Lemma insertSorted_perm x l : insertSorted f x l ≡ₚ x :: l.
Proof.
  induction l as [|y l IH]; simpl; [done |]. destruct (_ <=? _); [done |]. rewrite IH. apply Permutation_swap.
Qed.

Lemma insertSorted_sorted x l : StronglySorted (descending f) l -> StronglySorted (descending f) (insertSorted f x l).
Proof.
  unfold descending. induction 1 as [|y l Hl IH Hy]; simpl; [by repeat constructor |].
  destruct (Z.leb_spec (f y) (f x)).
  - constructor; [by constructor |]. constructor; [done |]. eapply Forall_impl; [exact Hy |]. simpl. lia.
  - constructor; [done |]. rewrite insertSorted_perm. constructor; [lia | done].
Qed.

Lemma sortSlice_perm s l : sortSlice f s l ≡ₚ l.
Proof.
  unfold sortSlice. transitivity (shuffle s l); [|apply shuffle_perm].
  induction (shuffle s l) as [|x l' IH]; simpl; [done |]. by rewrite insertSorted_perm, IH.
Qed.

Lemma sortSlice_sorted s l : StronglySorted (descending f) (sortSlice f s l).
Proof. unfold sortSlice. induction (shuffle s l); simpl; [constructor | by apply insertSorted_sorted]. Qed.

(** Every result a sort may have is the result for some seed. *)
Lemma sortSlice_complete l l' :
  l' ≡ₚ l -> StronglySorted (descending f) l' -> exists s, sortSlice f s l = l'.
Proof.
  intros Hp Hs. destruct (shuffle_complete l l' Hp) as [s E]. exists s. unfold sortSlice. rewrite E. clear E Hp.
  induction Hs as [|x l0 _ IH Hx]; simpl; [done |]. rewrite IH. destruct Hx as [|y l0 Hy _]; simpl; [done |].
  by rewrite (proj2 (Z.leb_le _ _) Hy).
Qed.

End Sorting.

(** ** Refinement *)

Section Refinement.
Context `{Env} {D : Type} `{RecordDBLaws D}.

Lemma sim_serveHTTP path s : refines st_abs st_ok (serveHTTP path s) (serveHTTP path s).
Proof.
  unfold serveHTTP, handleAPIWorkflowList, handleAPIWorkflowDetail, handleAPIWorkers. cbv zeta.
  repeat first [solve [auto with sim nocore] | refines_step].
Qed.

End Refinement.

(** ** The handlers only read *)

Section Reads.
Context `{Env} `{Protobuf}.
Abbreviation SA := (St AbsDB).

Lemma reads_now : preserves st_db (now (D := AbsDB)).
Proof. intros s. apply wp_now. done. Qed.

Lemma reads_spec {A} (m : M SA A) (P : A -> SA -> Prop) :
  (forall s, wp m s (fun r s' => st_db s' = st_db s /\ P r s) (fun s' => st_db s' = st_db s)) -> preserves st_db m.
Proof. intros Hm s. eapply wp_mono; [apply Hm | | done]. by intros r s' [? _]. Qed.

Lemma GetAllWorkers_spec (s : SA) :
  wp GetAllWorkers s
    (fun r s' => st_db s' = st_db s /\ (r.2 = None -> r.1 = (sorted_entries (AbsDB.workers (st_db s))).*2))
    (fun s' => st_db s' = st_db s).
Proof.
  apply (wp_View _ _ s (fun r => r.1 = _)). apply wp_bind, wp_gets. simpl.
  eapply wp_mono; [apply (wp_fold _ (fun c _ r => c ++ [r]) _ _ _ (fun _ => False)); done | | done].
  intros r s' [-> ->]. split; [done |]. intros _. simpl. by rewrite foldl_values.
Qed.

Lemma reads_serveHTTP path s : preserves st_db (serveHTTP (D := AbsDB) path s).
Proof.
  pose proof reads_now. pose proof (reads_spec _ _ GetAllWorkflowStates_spec). pose proof (reads_spec _ _ GetAllWorkers_spec).
  pose proof (fun w => reads_spec _ _ (GetWorkflowState_spec w)). pose proof (fun w => reads_spec _ _ (GetWorkflow_spec w)).
  pose proof (fun w => reads_spec _ _ (GetTaskStatuses_spec w)).
  unfold serveHTTP, handleAPIWorkflowList, handleAPIWorkflowDetail, handleAPIWorkers. cbv zeta. repeat respects_step.
Qed.

End Reads.

#[export] Hint Resolve sim_serveHTTP : sim.
