(* ===== verification/TaskChanges.v ===== *)
(** * How the operations of the store change the task records

    For a preorder [R] on the task bucket: which operations of the store move the
    bucket along [R], whatever they return and wherever the process dies, in terms
    of the changes they make to single records. *)

From S2P Require Import Prelude Proto Codec Env RecordDB Store StoreSpec Heartbeat Invariant Dashboard.

Section Changes.
Context `{Env} `{Protobuf} (R : Tasks -> Tasks -> Prop) `{!PreOrder R}.

Definition by_tasks (s s' : St AbsDB) : Prop := R (AbsDB.tasks (st_db s)) (AbsDB.tasks (st_db s')).

#[export] Instance by_tasks_preorder : PreOrder by_tasks.
Proof. split; [intros s; unfold by_tasks; reflexivity |]. unfold by_tasks. intros s1 s2 s3 H1 H2. by etrans. Qed.

Abbreviation changes := (respects by_tasks).

(** ** Operations that leave the tasks alone *)

Lemma changes_same {A} (m : M (St AbsDB) A) : preserves (fun s => AbsDB.tasks (st_db s)) m -> changes m.
Proof.
  intros Hm s. unfold by_tasks. eapply wp_mono; [apply Hm | |]; simpl; unfold agrees; [intros a s' -> | intros s' ->]; reflexivity.
Qed.

Lemma changes_read {A} (m : M (St AbsDB) A) : preserves st_db m -> changes m.
Proof.
  intros Hm. apply changes_same. intros s. eapply wp_mono; [apply Hm | |]; unfold agrees; [intros a s' -> | intros s' ->]; done.
Qed.

Lemma changes_now : changes now.
Proof. apply changes_read, reads_now. Qed.

Lemma changes_GetTask k : changes (GetTask k).
Proof. eapply changes_read, (reads_spec _ (fun r s => _)). intros s. apply GetTask_spec. Qed.

Lemma changes_GetTasksInState v : changes (GetTasksInState v).
Proof. eapply changes_read, (reads_spec _ (fun r s => _)). intros s. apply GetTasksInState_spec. Qed.

Lemma changes_GetTaskStatuses w : changes (GetTaskStatusesForWorkflow w).
Proof. eapply changes_read, (reads_spec _ (fun r s => _)). intros s. apply GetTaskStatuses_spec. Qed.

Lemma changes_IsWorkflowComplete w : changes (IsWorkflowComplete w).
Proof. eapply changes_read, (reads_spec _ (fun r s => _)). intros s. apply IsWorkflowComplete_spec. Qed.

Lemma changes_GetAllWorkflowStates : changes GetAllWorkflowStates.
Proof. eapply changes_read, (reads_spec _ (fun r s => _)). intros s. apply GetAllWorkflowStates_spec. Qed.

Lemma changes_GetWorkflow w : changes (GetWorkflow w).
Proof. eapply changes_read, (reads_spec _ (fun r s => _)). intros s. apply GetWorkflow_spec. Qed.

Lemma changes_GetWorkflowState w : changes (GetWorkflowState w).
Proof. eapply changes_read, (reads_spec _ (fun r s => _)). intros s. apply GetWorkflowState_spec. Qed.

Lemma changes_serveHTTP path s : changes (serveHTTP path s).
Proof. apply changes_read, reads_serveHTTP. Qed.

Lemma changes_UpdateWorkflowState w v : changes (UpdateWorkflowState w v).
Proof.
  apply changes_same. intros s. unfold agrees. eapply wp_mono; [apply UpdateWorkflowState_spec | |]; [|by intros s' ->].
  intros [e|] s'; [by intros -> | by intros (r & _ & ->)].
Qed.

Lemma changes_StoreWorkflow w : changes (StoreWorkflow w).
Proof.
  apply changes_same. intros s. unfold agrees.
  eapply wp_mono; [apply StoreWorkflow_spec | |]; [intros [e|] s' -> | intros s' ->]; done.
Qed.

Lemma changes_InitWorkflowState w : changes (InitWorkflowState w).
Proof.
  apply changes_same. intros s. unfold agrees. eapply wp_mono; [apply InitWorkflowState_spec | |]; [|by intros s' ->].
  intros [e|] s'; [by intros -> | by intros (t & ->)].
Qed.

(** ** Operations that write task records *)

Lemma changes_modifyTask k u :
  (forall T r t, T !! k = Some r -> R T (<[k := canonTask (u t r)]> T)) -> changes (modifyTask k u).
Proof.
  intros Hu s. unfold by_tasks. eapply wp_mono; [apply modifyTask_spec | |]; [|intros s' ->; reflexivity].
  intros [e|] s'; [intros ->; reflexivity |]. intros (r & t & Hr & _ & ->). by apply Hu.
Qed.

(** Skipping unfinished tasks. *)
Section Skipping.
Context (Hskip : forall P T T', skipped_map P T T' ->
  (forall k r, T !! k = Some r -> P k r -> is_terminal (TR.State r) = false) -> R T T').

Lemma changes_CancelWorkflowTasks w : changes (CancelWorkflowTasks w).
Proof.
  intros s. unfold by_tasks. eapply wp_mono; [apply CancelWorkflowTasks_spec | |]; [|intros s' ->; reflexivity].
  intros [l [e|]] s'; simpl; [intros ->; reflexivity |]. intros (_ & m' & Hm & ->). eapply Hskip; [done |].
  unfold unfinished. intros k r _ [_ ?%negb_true_iff]%andb_true_iff. done.
Qed.

Lemma changes_SkipDownstreamTasks k : changes (SkipDownstreamTasks k).
Proof.
  assert (forall d l s', skip_step d l s' -> R (AbsDB.tasks d) (AbsDB.tasks (st_db s'))) as Hk.
  { intros d l s' (m' & -> & Hm & Hl). eapply Hskip; [done |]. intros x r Hr Hx. destruct (Hl x Hx) as (r' & Hr' & ?). by simplify_eq. }
  intros s. unfold by_tasks. eapply wp_mono; [apply SkipDownstreamTasks_spec | |]; [intros r s'; apply Hk |].
  intros s' [l Hl]. by eapply Hk.
Qed.

End Skipping.

(** Storing a result and unblocking what waited for it. *)
Lemma changes_CompleteTask k e o :
  (forall T r tm, T !! k = Some r -> TR.ExecutionID r = e -> R T (<[k := canonTask (completed_record o tm r)]> T)) ->
  (forall T x r tm, T !! x = Some r -> TR.State r = TASK_PENDING ->
     R T (<[x := canonTask (set_LastUpdated tm (decremented r))]> T)) ->
  changes (CompleteTask k e o).
Proof.
  intros Hc Hd s. unfold CompleteTask. apply wp_bind, wp_now. intros t0 s0 Hs0. apply wp_bind. unfold by_tasks.
  eapply wp_mono; [apply (wp_Update [] _ s0 (fun _ d' => R (AbsDB.tasks (st_db s0)) (AbsDB.tasks d'))) | |].
  - apply wp_bind, wp_fetchTask; simpl; [|done]. intros r Hr.
    destruct (String.eqb_spec (TR.ExecutionID r) e) as [Ee|]; simpl; [|apply wp_ret; simpl; done].
    destruct (_ =? _); [apply wp_ret; simpl; reflexivity |].
    apply wp_bind, wp_now. intros t1 s1 Hs1. apply wp_bind, wp_putTask; intros; [by apply wp_ret |].
    apply (wp_forEach (fun _ _ s' => R (AbsDB.tasks (st_db s0)) (AbsDB.tasks (st_db s')))); simpl.
    + rewrite Hs1. by apply Hc.
    + intros ready x l s2 Hs2. apply wp_unblock; [done | done |]. intros rx tm s3 Hrx Hp Hs3. simpl. rewrite Hs3. simpl.
      etrans; [done |]. by apply Hd.
    + done.
  - intros [l [e'|]] s1 Hs1; simpl in Hs1; apply wp_bind, wp_now; intros t2 s2 Hs2; apply wp_bind; unfold observe_tx;
    apply wp_modify, wp_ret; simpl; rewrite Hs2, <- Hs0; [rewrite Hs1; reflexivity | done].
  - intros s1 ->. rewrite Hs0. reflexivity.
Qed.

(** The records of a new workflow. *)
Lemma changes_InitializeTasks w l ind ds :
  NoDup (TS.TaskId <$> l) -> (forall T T', initialized w ind ds l T T' -> R T T') ->
  changes (InitializeTasksForWorkflow w l ind ds).
Proof.
  intros Hnd Hi s. unfold by_tasks. eapply wp_mono; [by apply Initialize_spec | |]; [|intros s' ->; reflexivity].
  intros [e|] s'; [intros ->; reflexivity |]. intros (m' & Hin & ->). by apply Hi.
Qed.

End Changes.

#[export] Hint Resolve changes_now changes_GetTask changes_GetTasksInState changes_GetTaskStatuses changes_IsWorkflowComplete
  changes_GetAllWorkflowStates changes_GetWorkflow changes_GetWorkflowState changes_serveHTTP changes_UpdateWorkflowState
  changes_StoreWorkflow changes_InitWorkflowState : respects.
