(* ===== verification/Service.v ===== *)
(** * The gRPC service and the worker streams

    [cmd/coordinator/main.go] (the methods of [SchedulerService]) and
    [internal/worker/worker.go] ([StreamHandler]): what turns the messages of
    clients and workers into calls of the coordinator. The transport is a
    parameter: what [Recv] returns and whether [Send] fails is part of the input. *)

From S2P Require Import Prelude Proto Env RecordDB Store StoreRefinement StoreSpec Dag Heartbeat Coordinator.
From S2P Require Import CoordinatorRefinement Invariant CoordinatorInv Submission Dashboard.

Section Service.
Context `{Env} {D : Type} `{RecordDB D}.
Abbreviation C := (M (Coordinator D)).

(** ** The methods of [SchedulerService] *)

Definition SubmitWorkflowRPC (workflow : WorkflowSpec) : C SubmitWorkflowResponse.t :=
  let! e := SubmitWorkflow workflow in
  match e with
  | Some err => ret (SubmitWorkflowResponse.mk (WF.WorkflowId workflow) false (Some err))
  | None => ret (SubmitWorkflowResponse.mk (WF.WorkflowId workflow) true None)
  end.

Definition GetWorkflowStatus (workflowID : string) : C (GoError + WorkflowStatus.t) :=
  let! r := onStore (GetWorkflowState workflowID) in
  match r with
  | inl e => ret (inl e)
  | inr wfState =>
      let! r := onStore (GetTaskStatusesForWorkflow workflowID) in
      match r with
      | (_, Some e) => ret (inl e)
      | (taskStatuses, None) =>
          ret (inr (WorkflowStatus.mk workflowID (WR.State wfState) taskStatuses
                      (WR.SubmittedAtMs wfState) (WR.CompletedAtMs wfState)))
      end
  end.

Definition CancelWorkflowRPC (workflowID : string) : C CancelWorkflowResponse.t :=
  let! e := CancelWorkflow workflowID in
  match e with
  | Some err => ret (CancelWorkflowResponse.mk false (Some err))
  | None => ret (CancelWorkflowResponse.mk true None)
  end.

(** ** [StreamHandler] *)

(** The message sent in answer to a request for work. *)
Definition handleTaskRequest (workerID : string) : C CoordinatorMessage :=
  let! task := GetReadyTask workerID in
  match task with
  | Some task => ret (TaskAssignmentMsg task)
  | None => ret (NoTask 1000)
  end.

Definition handleHeartbeat (workerID : string) (timestampUnixMs : Z) (ids : list string) : C unit :=
  UpdateWorkerHeartbeat workerID timestampUnixMs ids.

(** Errors of the coordinator are logged; the result is [nil] in every case. *)
Definition handleTaskResult (workerID : string) (result : TaskResult.t) : C (option GoError) :=
  if TaskResult.Success result
  then let! _ := CompleteTask (TaskResult.TaskId result) (TaskResult.ExecutionId result)
                   (TaskResult.Output result) in ret None
  else let! _ := FailTask (TaskResult.TaskId result) (TaskResult.ExecutionId result)
                   (TaskResult.Error result) in ret None.

(** The switch over the payload: the message sent, if any. *)
Definition handlePayload (workerID : string) (payload : WorkerPayload) : C (option CoordinatorMessage) :=
  match payload with
  | TaskRequest _ => let! m := handleTaskRequest workerID in ret (Some m)
  | Heartbeat ts ids => handleHeartbeat workerID ts ids ;; ret None
  | TaskResultMsg result => let! _ := handleTaskResult workerID result in ret None
  | NoPayload => ret None
  end.

(** The first message names the worker of the stream. *)
Definition identify (workerID : string) (msg : WorkerMessage.t) : string :=
  if String.eqb workerID EmptyString then WorkerMessage.WorkerId msg else workerID.

(** One pass of the receive loop that got a message: the worker id the stream has
    from then on, and the message sent. *)
Definition onMessage (workerID : string) (msg : WorkerMessage.t) : C (string * option CoordinatorMessage) :=
  let workerID := identify workerID msg in
  let! sent := handlePayload workerID (WorkerMessage.Payload msg) in
  ret (workerID, sent).

(** What one pass of the loop meets: a cancelled context, the end of the stream,
    an error of [Recv], or a message and the result of the [Send] that may answer it. *)
Inductive reception :=
  | CtxDone (e : GoError)
  | RecvEOF
  | RecvErr (e : GoError)
  | Recv (msg : WorkerMessage.t) (send : option GoError).

(** [HandleStream] on the receptions so far: the messages sent, and the result
    when the stream ended ([None] while it waits for the next message). *)
Fixpoint HandleStream (workerID : string) (evs : list reception)
  : C (list CoordinatorMessage * option (option GoError)) :=
  match evs with
  | [] => ret ([], None)
  | CtxDone e :: _ => ret ([], Some (Some e))
  | RecvEOF :: _ => ret ([], Some None)
  | RecvErr e :: _ => ret ([], Some (Some e))
  | Recv msg send :: evs =>
      let! r := onMessage workerID msg in
      match r with
      | (workerID, None) => HandleStream workerID evs
      | (workerID, Some m) =>
          match send with
          | Some e => ret ([], Some (Some e))
          | None => let! p := HandleStream workerID evs in ret (m :: p.1, p.2)
          end
      end
  end.

(** ** The background loops *)

(** What the [select] of a timer loop takes. *)
Inductive timerCase := Tick | Cancelled (err : GoError).

(** [HeartbeatMonitor.Run] with [HandleDeadWorker]: its result when it returned. *)
Fixpoint monitorRun (cases : list timerCase) : C (option GoError) :=
  match cases with
  | [] => ret None
  | Tick :: cases => heartbeatTick ;; monitorRun cases
  | Cancelled err :: _ => ret (Some err)
  end.

(** [runWatchdog]: the warnings logged, and whether it returned. *)
Fixpoint runWatchdog (cases : list timerCase) : C (list (string * Z) * bool) :=
  match cases with
  | [] => ret ([], false)
  | Tick :: cases =>
      let! l := checkHungWorkflows in
      let! r := runWatchdog cases in
      ret (l ++ r.1, r.2)
  | Cancelled _ :: _ => ret ([], true)
  end.

(** [SchedulerService.WorkerStream]: a new handler, which does not know its worker yet. *)
Definition WorkerStream (evs : list reception) : C (list CoordinatorMessage * option (option GoError)) :=
  HandleStream EmptyString evs.

End Service.

(** ** The handlers keep the invariant *)

Section Keeps.
Context `{Env} `{Protobuf}.

Lemma keeps_handlePayload w p : keeps (handlePayload (D := AbsDB) w p).
Proof.
  destruct p; unfold handlePayload, handleTaskRequest, handleHeartbeat, handleTaskResult; keep.
Qed.

Lemma keeps_onMessage w m : keeps (onMessage (D := AbsDB) w m).
Proof. unfold onMessage. keep. apply keeps_handlePayload. Qed.

Lemma keeps_GetWorkflowStatus w : keeps (GetWorkflowStatus (D := AbsDB) w).
Proof.
  unfold GetWorkflowStatus. keep.
  - eapply (keeps_read _ (fun _ => True)). intros s. eapply wp_mono; [apply GetWorkflowState_spec | | done].
    by intros r s' [? _].
  - eapply (keeps_read _ (fun _ => True)). intros s. eapply wp_mono; [apply GetTaskStatuses_spec | | done].
    by intros r s' [? _].
Qed.

(** A request to the dashboard, which shares the store with the coordinator. *)
Lemma keeps_serveHTTP path s : keeps (onStore (serveHTTP (D := AbsDB) path s)).
Proof.
  eapply (keeps_read _ (fun _ => True)). intros st. eapply wp_mono; [apply reads_serveHTTP | by intros r s' ? | done].
Qed.

Lemma keeps_CancelWorkflowRPC w : keeps (CancelWorkflowRPC (D := AbsDB) w).
Proof. unfold CancelWorkflowRPC. keep. Qed.

Lemma SubmitWorkflowRPC_good w c0 c :
  good c0 c -> fresh_ids (tasks c) w -> wp (SubmitWorkflowRPC w) c (fun _ c' => good c0 c') (dead c0).
Proof.
  intros Hc Hf. unfold SubmitWorkflowRPC. apply wp_bind.
  eapply wp_mono; [by apply (SubmitWorkflow_spec w c0) | | done]. intros [e|] c' [Hc' _]; by apply wp_ret.
Qed.

End Keeps.

(** ** The service over bbolt behaves as over maps of records *)

Section Refinement.
Context `{Env} {D : Type} `{RecordDBLaws D}.
Abbreviation csim := (refines coord_abs coord_ok).

Lemma csim_onMessage w m : csim (onMessage w m) (onMessage w m).
Proof.
  unfold onMessage, handlePayload, handleTaskRequest, handleTaskResult, handleHeartbeat.
  repeat first [ solve [auto with sim nocore] | refines_step ].
Qed.

Lemma csim_SubmitWorkflowRPC w : csim (SubmitWorkflowRPC w) (SubmitWorkflowRPC w).
Proof. unfold SubmitWorkflowRPC. repeat first [ solve [auto with sim nocore] | refines_step ]. Qed.

Lemma csim_CancelWorkflowRPC w : csim (CancelWorkflowRPC w) (CancelWorkflowRPC w).
Proof. unfold CancelWorkflowRPC. repeat first [ solve [auto with sim nocore] | refines_step ]. Qed.

Lemma csim_GetWorkflowStatus w : csim (GetWorkflowStatus w) (GetWorkflowStatus w).
Proof.
  unfold GetWorkflowStatus.
  repeat first [ solve [auto with sim nocore] | refines_step | apply csim_onStore ].
Qed.

Lemma csim_serveHTTP path s : csim (onStore (serveHTTP path s)) (onStore (serveHTTP path s)).
Proof. apply csim_onStore, sim_serveHTTP. Qed.

End Refinement.

#[export] Hint Resolve csim_serveHTTP csim_onMessage csim_SubmitWorkflowRPC csim_CancelWorkflowRPC csim_GetWorkflowStatus : sim.
#[export] Hint Resolve keeps_serveHTTP keeps_onMessage keeps_GetWorkflowStatus keeps_CancelWorkflowRPC : keeps.
