(* ===== verification/Steady.v ===== *)
(** * Faults that are over

    What a handler does depends on the transactions it runs, not on those that
    failed before it. [faultless E] is the environment [E] with every fault removed:
    from a state after whose transactions [E] has no fault either, the code runs
    alike in both. Facts proved under [NoFaults] therefore hold of a system with any
    history of failed and killed transactions, once the transactions stop failing. *)

From S2P Require Import Prelude Proto Codec Env RecordDB Store Dag Heartbeat Coordinator Dashboard Service.

(** The same clock, UUIDs and map orders, without faults. *)
Definition faultless (E : Env) : Env := {| clock := clock; uuid := uuid; order := order; fault _ := TxOk |}.

#[export] Instance faultless_ok (E : Env) : NoFaults (H := faultless E).
Proof. done. Qed.

Create HintDb steady discriminated.

Section Steady.
Context {E : Env} {D : Type} `{RecordDB D}.

(** No transaction that begins from now on fails. *)
Definition steady (s : St D) : Prop := forall n, (x_tx (st_aux s) <= n)%nat -> fault n = TxOk.
Definition steadyc (c : Coordinator D) : Prop := steady (state c).

Abbreviation same := (refines (fun s : St D => s) steady).
Abbreviation csame := (refines (fun c : Coordinator D => c) steadyc).

Lemma steady_next s : steady s -> steady (next_tx s).
Proof. intros Hs n Hn. apply Hs. simpl in Hn. lia. Qed.

Lemma steady_now : same now (@now (faultless E) D).
Proof. by intros s Hs. Qed.

Lemma steady_observe ms : same (observe_tx ms) (observe_tx ms).
Proof. by intros s Hs. Qed.

Lemma steady_Update {C} (c0 : C) b b' : same b b' -> same (Update c0 b) (@Update (faultless E) D C c0 b').
Proof.
  intros Hb s Hs. unfold Update. simpl. rewrite (Hs _ (le_n _)). specialize (Hb (next_tx s) (steady_next s Hs)).
  destruct (b (next_tx s)) as [s' [c [?|]] | s']; destruct Hb as [Hs' ->]; done.
Qed.

Lemma steady_View {C} (c0 : C) b b' : same b b' -> same (View c0 b) (@View (faultless E) D C c0 b').
Proof. intros Hb s Hs. unfold View. simpl. rewrite (Hs _ (le_n _)). apply Hb, steady_next, Hs. Qed.

Lemma steady_put f : same (put f) (put f).
Proof. intros s Hs. unfold put. by destruct (f (st_db s)). Qed.

Lemma steady_gets {A} (g : St D -> A) : same (gets g) (gets g).
Proof. by apply refines_gets. Qed.

Lemma steady_withRecord {A C} (f : C -> string -> A -> M (St D) (C * option GoError)) f' c p :
  (forall c k a, same (f c k a) (f' c k a)) -> same (withRecord f c p) (withRecord f' c p).
Proof. intros Hf. unfold withRecord. destruct p.2; [refines_step..| apply Hf]. Qed.

#[local] Hint Resolve steady_now steady_observe steady_put steady_gets : steady.

(** Follow the code on both sides. *)
Ltac steady_store :=
  repeat first
    [ solve [auto with steady nocore]
    | refines_step
    | apply steady_Update | apply steady_View
    | apply steady_withRecord; intros ? ? ?
    | progress unfold Update_, ViewPtr, fetchTask, putTask ].

(** ** The store *)

Lemma steady_modifyTask k u : same (modifyTask k u) (@modifyTask (faultless E) _ _ k u).
Proof. unfold modifyTask. steady_store. Qed.
#[local] Hint Resolve steady_modifyTask : steady.

Lemma steady_GetTask k : same (GetTask k) (@GetTask (faultless E) _ _ k).
Proof. unfold GetTask. steady_store. Qed.
#[local] Hint Resolve steady_GetTask : steady.

Lemma steady_GetWorkflow w : same (GetWorkflow w) (@GetWorkflow (faultless E) _ _ w).
Proof. unfold GetWorkflow, getWorkflowInTx. steady_store. Qed.

Lemma steady_GetWorkflowState w : same (GetWorkflowState w) (@GetWorkflowState (faultless E) _ _ w).
Proof. unfold GetWorkflowState. steady_store. Qed.

Lemma steady_GetAllWorkflowStates : same GetAllWorkflowStates (@GetAllWorkflowStates (faultless E) _ _).
Proof. unfold GetAllWorkflowStates. steady_store. Qed.

Lemma steady_GetAllWorkers : same GetAllWorkers (@GetAllWorkers (faultless E) _ _).
Proof. unfold GetAllWorkers. steady_store. Qed.

Lemma steady_GetTasksInState v : same (GetTasksInState v) (@GetTasksInState (faultless E) _ _ v).
Proof. unfold GetTasksInState. steady_store. Qed.

Lemma steady_GetTaskStatuses w : same (GetTaskStatusesForWorkflow w) (@GetTaskStatusesForWorkflow (faultless E) _ _ w).
Proof. unfold GetTaskStatusesForWorkflow. steady_store. Qed.

Lemma steady_skipLoop n v q l : same (skipLoop n v q l) (@skipLoop (faultless E) _ _ n v q l).
Proof.
  revert v q l. induction n as [|n IH]; intros v [|k q] l; simpl; [refines_step.. |].
  destruct (bool_decide _); [apply IH |].
  apply refines_bind; [apply steady_GetTask |]. intros [|r]; [apply IH |].
  destruct (is_terminal _); [apply IH |].
  apply refines_bind; [apply steady_modifyTask |]. intros [|]; apply IH.
Qed.
#[local] Hint Resolve steady_skipLoop : steady.

Lemma steady_SkipDownstreamTasks k : same (SkipDownstreamTasks k) (@SkipDownstreamTasks (faultless E) _ _ k).
Proof. unfold SkipDownstreamTasks. steady_store. Qed.

#[local] Hint Resolve steady_GetWorkflow steady_GetWorkflowState steady_GetAllWorkflowStates steady_GetAllWorkers
  steady_GetTasksInState steady_GetTaskStatuses : steady.

Lemma steady_serveHTTP path s : same (serveHTTP path s) (@serveHTTP (faultless E) _ _ path s).
Proof.
  unfold serveHTTP, handleAPIWorkflowList, handleAPIWorkflowDetail, handleAPIWorkers. cbv zeta. steady_store.
Qed.

(** ** The handlers *)

Lemma steady_onStore {A} (m m' : M (St D) A) : same m m' -> csame (onStore m) (onStore m').
Proof.
  intros Hm c Hc. specialize (Hm (state c) Hc). unfold onStore, zoom.
  destruct (m (state c)); destruct Hm as [? ->]; done.
Qed.

Lemma steady_modm f : csame (modm f) (modm f).
Proof. by intros c Hc. Qed.

Lemma steady_getm {A} (f : Mem -> A) : csame (getm f) (getm f).
Proof. by intros c Hc. Qed.

Lemma steady_newUUID : csame newUUID (@newUUID (faultless E) D).
Proof. by intros c Hc. Qed.

Lemma steady_nextOrders k : csame (nextOrders k) (@nextOrders (faultless E) D k).
Proof. by intros c Hc. Qed.

#[local] Hint Resolve steady_modm steady_getm steady_newUUID steady_nextOrders : steady.

Ltac steady_handler := repeat first [ solve [auto with steady nocore] | refines_step | apply steady_onStore ].

Lemma steady_requeueOne k : csame (requeueOne k) (@requeueOne (faultless E) _ _ k).
Proof. unfold requeueOne, RequeueTask. steady_handler. Qed.
#[local] Hint Resolve steady_requeueOne : steady.

Lemma steady_HandleDeadWorker w : csame (HandleDeadWorker w) (@HandleDeadWorker (faultless E) _ _ w).
Proof. unfold HandleDeadWorker. steady_handler. Qed.

Lemma steady_startup : csame startup (@startup (faultless E) _ _).
Proof. unfold startup, LoadStateFromDB, loadWorkflow, PrepareRecovery. steady_handler. Qed.

Lemma steady_checkHungWorkflows : csame checkHungWorkflows (@checkHungWorkflows (faultless E) _ _).
Proof. unfold checkHungWorkflows. steady_handler. Qed.

Lemma steady_handleTaskRequest w : csame (handleTaskRequest w) (@handleTaskRequest (faultless E) _ _ w).
Proof. unfold handleTaskRequest, GetReadyTask, AssignTask. steady_handler. Qed.

End Steady.

(** What holds in the faultless environment holds in a steady state. *)
Lemma steady_wp {T A} (q : T -> Prop) (m m' : M T A) t (Q : A -> T -> Prop) X :
  refines (fun t => t) q m m' -> q t -> wp m' t Q X -> wp m t Q X.
Proof. intros Hm Ht Hw. specialize (Hm t Ht). unfold wp in *. destruct (m t); destruct Hm as [_ Hm]; by rewrite Hm in Hw. Qed.
