(* ===== verification/Total.v ===== *)
(** * No handler panics

    Every operation of the store and every handler of the coordinator returns,
    whatever errors its transactions meet, unless the process is killed in one of
    them: no [panic] of the code is reached on a database whose records decode. *)

From S2P Require Import Prelude Proto Codec Env RecordDB Store StoreSpec Dag Heartbeat Coordinator.
From S2P Require Import Invariant CoordinatorInv Dashboard Service.

(** The transactions begun so far, of a store and of a coordinator. *)
Class Counts (T : Type) := txs : T -> nat.
#[export] Instance store_counts {D} : Counts (St D) := fun s => x_tx (st_aux s).
#[export] Instance coordinator_counts {D} : Counts (Coordinator D) := fun c => txs (state c).

(** The process is killed in one of the transactions from the [a]-th to before the [b]-th. *)
Definition killed `{Env} (a b : nat) : Prop := exists n, (a <= n < b)%nat /\ fault n = TxKill.

Section Code.
Context `{Env}.

(** The code returns, or one of its own transactions was killed. *)
Definition total {T A} `{Counts T} (m : M T A) : Prop :=
  forall t, wp m t (fun _ t' => txs t <= txs t')%nat (fun t' => killed (txs t) (txs t')).

Lemma killed_from a a' b : (a <= a')%nat -> killed a' b -> killed a b.
Proof. intros ? (n & ? & ?). exists n. split; [lia | done]. Qed.

Context {T : Type} `{Counts T}.

Lemma total_ret {A} (a : A) : total (T := T) (ret a).
Proof. intros t. by apply wp_ret. Qed.

(** From a later state. *)
Lemma total_from {A} (m : M T A) a t :
  total m -> (a <= txs t)%nat -> wp m t (fun _ t' => a <= txs t')%nat (fun t' => killed a (txs t')).
Proof. intros Hm Ha. eapply wp_mono; [apply Hm | simpl; intros; lia |]. intros t'. by apply killed_from. Qed.

Lemma total_bind {A B} (m : M T A) (k : A -> M T B) : total m -> (forall a, total (k a)) -> total (bind m k).
Proof. intros Hm Hk t. apply wp_bind. eapply wp_mono; [apply Hm | | done]. intros a t' Ht. by apply total_from. Qed.

Lemma total_gets {A} (f : T -> A) : total (gets f).
Proof. intros t. by apply wp_gets. Qed.

Lemma total_foldM {X A} (f : A -> X -> M T A) a l : (forall a x, total (f a x)) -> total (foldM f a l).
Proof. intros Hf t. apply (wp_foldM (fun _ t' => txs t <= txs t')%nat); [done | | done]. intros. by apply total_from. Qed.

Lemma total_forEach {X C} (f : C -> X -> M T (C * option GoError)) c l :
  (forall c x, total (f c x)) -> total (forEach f c l).
Proof.
  intros Hf t. apply (wp_forEach (fun _ _ t' => txs t <= txs t')%nat); [done | | done]. intros c' x l' t' Ht.
  eapply wp_mono; [by apply total_from | | done]. intros [? [?|]]; done.
Qed.

(** Without faults the code returns. *)
Lemma total_returns `{!NoFaults} {A} (m : M T A) t : total m -> wp m t (fun _ _ => True) (fun _ => False).
Proof. intros Hm. eapply wp_mono; [apply Hm | done |]. intros t' (n & _ & Hn). by rewrite no_faults in Hn. Qed.

End Code.

Create HintDb total discriminated.
#[export] Hint Resolve total_ret total_gets : total.

(** Follow the code. *)
Ltac total_step :=
  first
    [ solve [auto with total nocore]
    | match goal with
      | |- total (bind _ _) => apply total_bind; [| intros ?]
      | |- total (foldM _ _ _) => apply total_foldM; intros ? ?
      | |- total (forEach _ _ _) => apply total_forEach; intros ? ?
      | |- total (match ?x with _ => _ end) => destruct x
      end ].

Section Total.
Context `{Env} `{Protobuf}.
Abbreviation SA := (St AbsDB).

Lemma total_now : total (T := SA) now.
Proof. intros s. exact (le_n _). Qed.

Lemma total_observe ms : total (T := SA) (observe_tx ms).
Proof. intros s. exact (le_n _). Qed.

Lemma total_Update {C} (c0 : C) (body : M SA (C * option GoError)) : total body -> total (Update c0 body).
Proof.
  intros Hb s. specialize (Hb (next_tx s)). unfold wp, Update, killed, txs, store_counts in *. simpl in *.
  destruct (fault _) eqn:Ef; try (destruct (body (next_tx s)) as [s' [c [?|]] | s']); simpl in *;
  try lia; try (destruct Hb as (n & ? & ?); exists n; split; [lia | done]).
  exists (x_tx (st_aux s)). split; [lia | done].
Qed.

Lemma total_Update_ (body : M SA (option GoError)) : total body -> total (Update_ body).
Proof.
  intros Hb. apply total_bind; [apply total_Update, total_bind; [done |] |]; intros; apply total_ret.
Qed.

Lemma total_View {C} (c0 : C) (body : M SA (C * option GoError)) : total body -> total (View c0 body).
Proof.
  intros Hb s. pose proof (total_from body (txs s) (next_tx s) Hb) as Hf. specialize (Hf ltac:(unfold txs, store_counts; simpl; lia)).
  unfold wp, View. destruct (fault _) eqn:Ef; try exact Hf; unfold killed, txs, store_counts; simpl; [lia |].
  exists (x_tx (st_aux s)). split; [lia | done].
Qed.

(** A view that returns no error has stored its pointer. *)
Lemma total_ViewPtr {A} (body : M SA (GoError + A)) : total body -> total (ViewPtr body).
Proof.
  intros Hb s. unfold ViewPtr. apply wp_bind.
  set (b := bind body _). assert (total b) as Hb' by (apply total_bind; [done |]; intros []; apply total_ret).
  assert (forall s', wp b s' (fun r _ => r.1 = None -> r.2 <> None) (fun _ => True)) as Hr.
  { intros s'. apply wp_bind. apply wp_any; [|done]. intros [e|a] s''; by apply wp_ret. }
  assert (wp (View None b) s (fun r _ => r.1 = None -> r.2 <> None) (fun _ => True)) as Hv.
  { unfold wp, View. destruct (fault _); try done; apply Hr. }
  eapply wp_mono; [exact (wp_and _ _ _ _ _ _ (total_View None b Hb' s) Hv) | | by intros s' [? _]].
  intros [[a|] [e|]] s' [Ht Hn]; simpl in *; try (by apply wp_ret). by destruct (Hn eq_refl).
Qed.

Lemma total_put f : total (T := SA) (put f).
Proof. intros s. by apply wp_put. Qed.

Lemma total_fetchTask k : total (T := SA) (fetchTask k).
Proof. intros s. by apply wp_fetchTask. Qed.

Lemma total_each {A C} (f : C -> string -> A -> M SA (C * option GoError)) (get : SA -> gmap string A) c :
  (forall c k a, total (f c k a)) ->
  total (let! l := gets (fun s => map_each (get s)) in forEach (withRecord f) c l).
Proof.
  intros Hf s. apply wp_bind, wp_gets. apply (wp_each _ _ (fun _ _ s' => txs s <= txs s')%nat); [done | | done].
  intros c' k a l s' Hs. eapply wp_mono; [by apply total_from | | done]. intros [? [?|]]; done.
Qed.

#[local] Hint Resolve total_now total_observe total_put total_fetchTask : total.

Ltac store_total :=
  repeat first
    [ apply (total_each _ (fun s => AbsDB.tasks (st_db s))); intros ? ? ?
    | apply (total_each _ (fun s => AbsDB.wstates (st_db s))); intros ? ? ?
    | apply (total_each _ (fun s => AbsDB.workers (st_db s))); intros ? ? ?
    | total_step
    | apply total_Update_ | apply total_Update | apply total_ViewPtr | apply total_View
    | unfold putTask ].

Lemma total_modifyTask k u : total (T := SA) (modifyTask k u).
Proof. unfold modifyTask. store_total. Qed.
#[local] Hint Resolve total_modifyTask : total.

Lemma total_GetTask k : total (T := SA) (GetTask k).
Proof. unfold GetTask. store_total. Qed.
#[local] Hint Resolve total_GetTask : total.

Lemma total_StoreWorkflow w : total (T := SA) (StoreWorkflow w).
Proof. unfold StoreWorkflow. store_total. Qed.

Lemma total_InitWorkflowState w : total (T := SA) (InitWorkflowState w).
Proof. unfold InitWorkflowState. store_total. Qed.

(** A lookup in a map is a record or nothing. *)
Lemma total_map_get {A X} (get : SA -> gmap string A) k (f : fetched A -> M SA X) :
  (forall a, total (f (Found a))) -> total (f Missing) -> total (let! r := gets (fun s => map_get (get s) k) in f r).
Proof. intros Hf Hm s. apply wp_bind, wp_gets. unfold map_get. destruct (get s !! k); [apply Hf | apply Hm]. Qed.

Lemma total_UpdateWorkflowState w v : total (T := SA) (UpdateWorkflowState w v).
Proof.
  unfold UpdateWorkflowState. apply total_Update_.
  apply (total_map_get (fun s => AbsDB.wstates (st_db s)) w); [intros a|]; store_total.
Qed.

Lemma total_GetWorkflow w : total (T := SA) (GetWorkflow w).
Proof.
  unfold GetWorkflow, getWorkflowInTx. apply total_ViewPtr.
  apply (total_map_get (fun s => AbsDB.workflows (st_db s)) w); [intros a|]; store_total.
Qed.

Lemma total_GetWorkflowState w : total (T := SA) (GetWorkflowState w).
Proof.
  unfold GetWorkflowState. apply total_ViewPtr.
  apply (total_map_get (fun s => AbsDB.wstates (st_db s)) w); [intros a|]; store_total.
Qed.

Lemma total_GetAllWorkflowStates : total (T := SA) GetAllWorkflowStates.
Proof. unfold GetAllWorkflowStates. store_total. Qed.

Lemma total_GetAllWorkers : total (T := SA) GetAllWorkers.
Proof. unfold GetAllWorkers. store_total. Qed.

Lemma total_InitializeTasks w l i d : total (T := SA) (InitializeTasksForWorkflow w l i d).
Proof. unfold InitializeTasksForWorkflow. store_total. Qed.

Lemma total_unblock l k : total (T := SA) (unblock l k).
Proof.
  unfold unblock. apply (total_map_get (fun s => AbsDB.tasks (st_db s)) k); [intros ds|]; [|store_total].
  destruct (negb _); [store_total |]. cbv zeta.
  match goal with |- context [TR.InDegree ?r =? 0] => destruct (TR.InDegree r =? 0) end; store_total.
Qed.
#[local] Hint Resolve total_unblock : total.

Lemma total_StoreCompleteTask k e o : total (T := SA) (Store.CompleteTask k e o).
Proof. unfold Store.CompleteTask. store_total. Qed.

Lemma total_GetTasksInState v : total (T := SA) (GetTasksInState v).
Proof. unfold GetTasksInState. store_total. Qed.

Lemma total_GetTaskStatuses w : total (T := SA) (GetTaskStatusesForWorkflow w).
Proof. unfold GetTaskStatusesForWorkflow. store_total. Qed.

Lemma total_CancelWorkflowTasks w : total (T := SA) (CancelWorkflowTasks w).
Proof. unfold CancelWorkflowTasks. store_total. Qed.

Lemma total_skipLoop n v q l : total (T := SA) (skipLoop n v q l).
Proof.
  revert v q l. induction n as [|n IH]; intros v [|k q] l; simpl; store_total; apply IH.
Qed.
#[local] Hint Resolve total_skipLoop : total.

Lemma total_SkipDownstreamTasks k : total (T := SA) (SkipDownstreamTasks k).
Proof. unfold SkipDownstreamTasks. store_total. Qed.

Lemma total_IsWorkflowComplete w : total (T := SA) (IsWorkflowComplete w).
Proof. unfold IsWorkflowComplete. store_total. Qed.

#[local] Hint Resolve total_StoreWorkflow total_InitWorkflowState total_UpdateWorkflowState total_GetWorkflow
  total_GetWorkflowState total_GetAllWorkflowStates total_InitializeTasks total_StoreCompleteTask
  total_GetTasksInState total_GetTaskStatuses total_CancelWorkflowTasks total_SkipDownstreamTasks
  total_IsWorkflowComplete total_GetAllWorkers : total.

(** ** Handlers *)

Lemma total_onStore {A} (m : M SA A) : total m -> total (onStore (D := AbsDB) m).
Proof. intros Hm c. apply wp_onStore, Hm. Qed.

Lemma total_getm {A} (f : Mem -> A) : total (T := CA) (getm f).
Proof. intros c. exact (le_n _). Qed.

Lemma total_modm f : total (T := CA) (modm f).
Proof. intros c. exact (le_n _). Qed.

#[local] Hint Resolve total_getm total_modm : total.

Ltac handler_total :=
  repeat first [ total_step | apply total_onStore
               | progress unfold newUUID, nextOrders, taskWorkflowID, orElse, UpdateTaskState, AssignTask,
                   RequeueTask, Store.FailTask ].

Lemma total_SubmitWorkflow w : total (T := CA) (SubmitWorkflow w).
Proof.
  unfold SubmitWorkflow. apply total_bind; [handler_total |]. intros ord.
  pose proof (validate_verdict ord w) as Hv. destruct (ValidateAndSort ord w) as [[e|dag]|]; [| |done]; handler_total.
Qed.

Lemma total_GetReadyTask w : total (T := CA) (GetReadyTask w).
Proof. unfold GetReadyTask. handler_total. Qed.

Lemma total_checkWorkflowCompletion w : total (T := CA) (checkWorkflowCompletion w).
Proof. unfold checkWorkflowCompletion. handler_total. Qed.
#[local] Hint Resolve total_checkWorkflowCompletion : total.

Lemma total_CompleteTask k e o : total (T := CA) (CompleteTask k e o).
Proof. unfold CompleteTask. handler_total. Qed.

Lemma total_applyFailurePolicy w k p : total (T := CA) (applyFailurePolicy w k p).
Proof. unfold applyFailurePolicy. handler_total. Qed.
#[local] Hint Resolve total_applyFailurePolicy : total.

Lemma total_FailTask k e m : total (T := CA) (FailTask k e m).
Proof. unfold FailTask. handler_total. Qed.

Lemma total_CancelWorkflow w : total (T := CA) (CancelWorkflow w).
Proof. unfold CancelWorkflow. handler_total. Qed.

Lemma total_requeueOne k : total (T := CA) (requeueOne k).
Proof. unfold requeueOne. handler_total. Qed.
#[local] Hint Resolve total_requeueOne : total.

Lemma total_HandleDeadWorker w : total (T := CA) (HandleDeadWorker w).
Proof. unfold HandleDeadWorker. handler_total. Qed.
#[local] Hint Resolve total_HandleDeadWorker : total.

Lemma total_heartbeatTick : total (T := CA) heartbeatTick.
Proof. unfold heartbeatTick. handler_total. Qed.

Lemma total_loadWorkflow x : total (T := CA) (loadWorkflow x).
Proof. unfold loadWorkflow. handler_total. Qed.
#[local] Hint Resolve total_loadWorkflow : total.

Lemma total_startup : total (T := CA) startup.
Proof. unfold startup, LoadStateFromDB, PrepareRecovery. handler_total. Qed.

Lemma total_checkHungWorkflows : total (T := CA) checkHungWorkflows.
Proof. unfold checkHungWorkflows. handler_total. Qed.

#[local] Hint Resolve total_SubmitWorkflow total_GetReadyTask total_CompleteTask total_FailTask total_CancelWorkflow : total.

Lemma total_onMessage w m : total (T := CA) (onMessage w m).
Proof.
  unfold onMessage, handlePayload, handleTaskRequest, handleHeartbeat, handleTaskResult, UpdateWorkerHeartbeat.
  handler_total.
Qed.

Lemma total_SubmitWorkflowRPC w : total (T := CA) (SubmitWorkflowRPC w).
Proof. unfold SubmitWorkflowRPC. handler_total. Qed.

Lemma total_CancelWorkflowRPC w : total (T := CA) (CancelWorkflowRPC w).
Proof. unfold CancelWorkflowRPC. handler_total. Qed.

Lemma total_GetWorkflowStatus w : total (T := CA) (GetWorkflowStatus w).
Proof. unfold GetWorkflowStatus. handler_total. Qed.

Lemma total_serveHTTP path s : total (T := CA) (onStore (serveHTTP path s)).
Proof.
  unfold serveHTTP, handleAPIWorkflowList, handleAPIWorkflowDetail, handleAPIWorkers. cbv zeta. handler_total.
Qed.

End Total.

#[export] Hint Resolve total_serveHTTP total_onMessage total_SubmitWorkflowRPC total_CancelWorkflowRPC total_GetWorkflowStatus
  total_heartbeatTick total_startup total_checkHungWorkflows : total.
