(* ===== verification/System.v ===== *)
(** * The running system

    A coordinator process that serves the RPCs and the worker streams, runs its
    timers, may be killed at any transaction, and is started again on the same
    database: [exec] is one event of its life, [reachable] what a new database
    can become.

    This model runs handlers one at a time: an event is a whole handler, and the next
    begins when it has ended. The program runs every RPC, every stream and the two
    timers as goroutines of their own, which interleave wherever they do not hold
    [c.mu]; that program is the subject of [Concurrent] and of the files after it,
    and [Races] shows interleavings in which facts about [reachable] fail. *)

From S2P Require Import Prelude Proto Codec Env RecordDB Store StoreRefinement StoreSpec Dag Heartbeat.
From S2P Require Import Coordinator CoordinatorRefinement Invariant CoordinatorInv Dashboard Service.

(** ** Processes and events *)

(** A running coordinator with the worker id of each open stream, or a dead one:
    its database, and the UUIDs and map orders the world has used so far. *)
Inductive Process (D : Type) :=
  | Up (c : Coordinator D) (streams : gmap nat string)
  | Down (st : St D) (uuids orders : nat).
Arguments Up {D} c streams.
Arguments Down {D} st uuids orders.

Inductive event :=
  | EvSubmit (workflow : WorkflowSpec)
  | EvStatus (workflowID : string)
  | EvCancel (workflowID : string)
  | EvOpen (stream : nat)
  | EvMessage (stream : nat) (msg : WorkerMessage.t)
  | EvClose (stream : nat)
  | EvTick
  | EvHTTP (path : string) (s : seed)
  | EvWatchdog
  | EvKill
  | EvBoot.

Section System.
Context `{Env} {D : Type} `{RecordDB D} (scanInterval deadThreshold : Z).

Definition kill (c : Coordinator D) : Process D := Down (state c) (uuids (mem c)) (orders (mem c)).

(** Run a handler in a process: it returns, or the process dies in it. *)
Definition serve {A} (h : M (Coordinator D) A) (next : A -> gmap nat string) (c : Coordinator D) : Process D :=
  match h c with
  | Done c' a => Up c' (next a)
  | Crashed c' => kill c'
  end.

(** One event: a handler runs from its beginning to its end, without another in between. *)
Definition exec (ev : event) (p : Process D) : Process D :=
  match p, ev with
  | Down st u o, EvBoot => serve startup (fun _ => ∅) (NewCoordinator st scanInterval deadThreshold u o)
  | Down _ _ _, _ => p
  | Up c ss, EvBoot => p
  | Up c ss, EvSubmit w => serve (SubmitWorkflowRPC w) (fun _ => ss) c
  | Up c ss, EvStatus w => serve (GetWorkflowStatus w) (fun _ => ss) c
  | Up c ss, EvCancel w => serve (CancelWorkflowRPC w) (fun _ => ss) c
  | Up c ss, EvOpen i => Up c (<[i := EmptyString]> ss)
  | Up c ss, EvMessage i msg =>
      match ss !! i with
      | None => p
      | Some workerID => serve (onMessage workerID msg) (fun r => <[i := r.1]> ss) c
      end
  | Up c ss, EvClose i => Up c (delete i ss)
  | Up c ss, EvTick => serve heartbeatTick (fun _ => ss) c
  | Up c ss, EvHTTP path s => serve (onStore (serveHTTP path s)) (fun _ => ss) c
  | Up c ss, EvWatchdog => serve checkHungWorkflows (fun _ => ss) c
  | Up c ss, EvKill => kill c
  end.

Definition store_of (p : Process D) : St D :=
  match p with Up c _ => state c | Down st _ _ => st end.

(** The loop of the monitor is a sequence of [EvTick]. *)
Lemma monitor_ticks n c ss :
  foldl (fun p ev => exec ev p) (Up c ss) (replicate n EvTick) = serve (monitorRun (replicate n Tick)) (fun _ => ss) c.
Proof.
  assert (forall m st u o, foldl (fun p ev => exec ev p) (Down st u o) (replicate m EvTick) = Down st u o) as Hdown.
  { intros m st u o. induction m as [|m IH]; [done |]. exact IH. }
  revert c. induction n as [|n IH]; intros c; [done |]. cbn [replicate foldl exec monitorRun]. unfold serve at 1 2. unfold bind at 1.
  destruct (heartbeatTick c) as [c' []|c']; [apply IH | apply Hdown].
Qed.

End System.

(** ** Reachable processes *)

Section Reachable.
Context `{Env} {D : Type} `{RecordDBLaws D} (scanInterval deadThreshold : Z).

Abbreviation exec := (exec scanInterval deadThreshold).

(** The database of a process as maps of records. *)
Definition adb (p : Process D) : AbsDB := db_abs (st_db (store_of p)).

(** Clients do not reuse the task ids of another submission. *)
Definition allowed (ev : event) (p : Process D) : Prop :=
  match ev with
  | EvSubmit w => fresh_ids (AbsDB.tasks (adb p)) w
  | _ => True
  end.

(** A new database has no records. *)
Definition new_store (st : St D) : Prop :=
  db_ok (st_db st) /\ db_abs (st_db st) = AbsDB.mk ∅ ∅ ∅ ∅.

(** What the process can become with one handler at a time. *)
Inductive reachable : Process D -> Prop :=
  | reach_new st u o : new_store st -> reachable (Down st u o)
  | reach_step p ev : reachable p -> allowed ev p -> reachable (exec ev p).

(** Later processes. *)
Inductive later : Process D -> Process D -> Prop :=
  | later_refl p : later p p
  | later_step p q ev : later p q -> allowed ev q -> later p (exec ev q).

(** *** Abstraction *)

Definition proc_abs (p : Process D) : Process AbsDB :=
  match p with
  | Up c ss => Up (coord_abs c) ss
  | Down st u o => Down (st_abs st) u o
  end.

Definition proc_ok (p : Process D) : Prop := st_ok (store_of p).

Lemma serve_abs {A} (h : M (Coordinator D) A) h' next c :
  refines coord_abs coord_ok h h' -> coord_ok c ->
  proc_ok (serve h next c) /\ serve h' next (coord_abs c) = proc_abs (serve h next c).
Proof.
  intros Hh Hc. specialize (Hh c Hc). unfold serve. destruct (h c); destruct Hh as [? ->]; done.
Qed.

Lemma exec_abs ev p :
  proc_ok p ->
  proc_ok (exec ev p) /\
  System.exec (D := AbsDB) scanInterval deadThreshold ev (proc_abs p) = proc_abs (exec ev p).
Proof.
  intros Hp. destruct p as [c ss | st u o]; destruct ev; simpl;
  try (apply serve_abs; [solve [auto with sim nocore] | done]); try done.
  destruct (ss !! stream); [|done]. apply serve_abs; [auto with sim nocore | done].
Qed.

(** A call that returns, in the implementation and in the abstraction. *)
Lemma refines_done {A} (h : M (Coordinator D) A) h' c c' a :
  refines coord_abs coord_ok h h' -> coord_ok c -> h c = Done c' a ->
  coord_ok c' /\ h' (coord_abs c) = Done (coord_abs c') a.
Proof. intros Hh Hc E. specialize (Hh c Hc). by rewrite E in Hh. Qed.

Lemma refines_wp {A} (h : M (Coordinator D) A) h' c (Q : A -> CA -> Prop) E :
  refines coord_abs coord_ok h h' -> coord_ok c -> wp h' (coord_abs c) Q E ->
  wp h c (fun a c' => coord_ok c' /\ Q a (coord_abs c')) (fun c' => E (coord_abs c')).
Proof. intros Hh Hc. specialize (Hh c Hc). unfold wp. destruct (h c); destruct Hh as [? ->]; done. Qed.

(** *** The invariant *)

Definition proc_inv (p : Process AbsDB) : Prop :=
  match p with
  | Up c _ => cinv c
  | Down st _ _ => dbinv (st_db st)
  end.

Abbreviation ptasks p := (AbsDB.tasks (st_db (store_of p))).

Lemma serve_good {A} (h : M CA A) next c :
  wp h c (fun _ c' => good c c') (dead c) ->
  proc_inv (serve h next c) /\ advances (tasks c) (ptasks (serve h next c)).
Proof. unfold wp, serve. by destruct (h c); intros []. Qed.

Lemma serve_keeps {A} (h : M CA A) next c :
  keeps h -> cinv c -> proc_inv (serve h next c) /\ advances (tasks c) (ptasks (serve h next c)).
Proof. intros Hh Hc. apply serve_good, Hh. by apply good_refl. Qed.

Lemma keeps_checkHungWorkflows : keeps (checkHungWorkflows (D := AbsDB)).
Proof.
  unfold checkHungWorkflows. apply keeps_bind; [|intros [l [e|]]; keep; apply keeps_now].
  eapply (keeps_read _ (fun _ => True)). intros s. eapply wp_mono; [apply GetAllWorkflowStates_spec | | done].
  by intros r s' [? _].
Qed.
#[local] Hint Resolve keeps_checkHungWorkflows : keeps.

Lemma exec_inv ev (p : Process AbsDB) :
  proc_inv p -> (forall w, ev = EvSubmit w -> fresh_ids (ptasks p) w) ->
  proc_inv (System.exec scanInterval deadThreshold ev p) /\
  advances (ptasks p) (ptasks (System.exec scanInterval deadThreshold ev p)).
Proof.
  intros Hp Ha. destruct p as [c ss | st u o]; destruct ev; simpl in *;
  try (apply serve_keeps; [solve [auto with keeps nocore] | done]); try done.
  - apply serve_good. apply SubmitWorkflowRPC_good; [by apply good_refl | by apply Ha].
  - destruct (ss !! stream); [|done]. apply serve_keeps; [auto with keeps nocore | done].
  - split; [apply Hp | done].
  - assert (cinv (NewCoordinator st scanInterval deadThreshold u o)) by (split; [done | apply meminv_new]).
    apply (serve_good startup _ (NewCoordinator st scanInterval deadThreshold u o)).
    by apply startup_spec; [apply good_refl |..].
Qed.

Lemma new_inv : dbinv (AbsDB.mk ∅ ∅ ∅ ∅).
Proof. split; [split; simpl; done | intros w spec t x r; simpl; done]. Qed.

Lemma proc_abs_db p : AbsDB.tasks (adb p) = ptasks (proc_abs p).
Proof. by destruct p. Qed.

Lemma step_inv ev p :
  proc_ok p -> proc_inv (proc_abs p) -> allowed ev p ->
  proc_ok (exec ev p) /\ proc_inv (proc_abs (exec ev p)) /\
  advances (AbsDB.tasks (adb p)) (AbsDB.tasks (adb (exec ev p))).
Proof.
  intros Hok Hinv Hal. destruct (exec_abs ev p Hok) as [Hok' E].
  destruct (exec_inv ev (proc_abs p) Hinv) as [Hinv' Hadv].
  { intros w ->. by rewrite <- proc_abs_db. }
  rewrite E in *. by rewrite !proc_abs_db.
Qed.

Lemma reachable_inv p : reachable p -> proc_ok p /\ proc_inv (proc_abs p).
Proof.
  induction 1 as [st u o [Hok Hnew] | p ev _ [Hok Hinv] Hal].
  - split; [done |]. simpl. unfold st_abs. simpl. rewrite Hnew. apply new_inv.
  - by destruct (step_inv ev p Hok Hinv Hal) as (? & ? & _).
Qed.

Lemma later_inv p q :
  proc_ok p -> proc_inv (proc_abs p) -> later p q ->
  proc_ok q /\ proc_inv (proc_abs q) /\ advances (AbsDB.tasks (adb p)) (AbsDB.tasks (adb q)).
Proof.
  intros Hok Hinv. induction 1 as [|p q ev _ IH Hal]; [done |]. destruct (IH Hok Hinv) as (Hq & Hiq & Ha).
  destruct (step_inv ev q Hq Hiq Hal) as (? & ? & Ha'). split_and!; [done | done |]. by etrans.
Qed.

Lemma reachable_dbinv p : reachable p -> dbinv (adb p).
Proof. intros [_ Hp]%reachable_inv. destruct p; simpl in *; [apply Hp | done]. Qed.

(** What is shown of a handler over maps of records under the invariant holds in
    every reachable process. *)
Lemma reachable_wp {A} c ss (h : M (Coordinator D) A) h' (Q : A -> CA -> Prop) E :
  reachable (Up c ss) -> refines coord_abs coord_ok h h' -> (cinv (coord_abs c) -> wp h' (coord_abs c) Q E) ->
  wp h c (fun a c' => Q a (coord_abs c')) (fun c' => E (coord_abs c')).
Proof.
  intros [Hok Hinv]%reachable_inv Hh Hw.
  eapply wp_mono; [by apply (refines_wp h h' c Q E Hh Hok), Hw | | done]. by intros a c' [_ ?].
Qed.

End Reachable.
