(* ===== verification/Room.v ===== *)
(** * Records that bbolt takes

    bbolt refuses keys and values beyond its limits. A record with room ([fits])
    stays below them whatever execution id and output of a given length it gets;
    when all records have room and no transaction fails, no operation on them does. *)

From S2P Require Import Prelude Proto Codec Env RecordDB Store StoreSpec NoFault Heartbeat Coordinator Invariant CoordinatorInv.

Abbreviation len s := (Z.of_nat (String.length s)).

(** The bytes of a record without its execution id and its output. *)
Definition size_of (r : TaskStateRecord) : Z :=
  44 + len (TR.TaskID r) + len (TR.WorkflowID r) + len (TR.Error r) +
  Z.of_nat (length (concat (writeString <$> TR.DownstreamTaskIDs r))).

Lemma length_marshal r :
  Z.of_nat (length (marshalTaskRecord r)) = size_of r + len (TR.ExecutionID r) + len (TR.Output r).
Proof. unfold marshalTaskRecord, size_of. rewrite !length_app, !length_writeString, !length_le_enc. lia. Qed.

(** Room for [m] bytes of execution id and output. *)
Definition fits (m : Z) (r : TaskStateRecord) : Prop :=
  0 < len (TR.TaskID r) <= MaxKeySize /\ size_of r + m <= MaxValueSize /\ len (TR.ExecutionID r) + len (TR.Output r) <= m.

Lemma put_fits m r : fits m r -> put_error (TR.TaskID r) (marshalTaskRecord r) = None.
Proof.
  intros (Hk & Hs & Hm). unfold put_error. rewrite length_marshal.
  rewrite (proj2 (Nat.eqb_neq _ _)), !(proj2 (Z.ltb_ge _ _)) by lia. done.
Qed.

Lemma length_canonIDs l : (length (concat (writeString <$> canonIDs l)) <= length (concat (writeString <$> l)))%nat.
Proof.
  induction l as [|x l IH]; [done |]. simpl. destruct l as [|y l].
  - case_bool_decide; simpl; lia.
  - rewrite fmap_cons, concat_cons, length_app. rewrite !fmap_cons, !concat_cons, !length_app in *. simpl in *. lia.
Qed.

Lemma fits_canon m r : fits m r -> fits m (canonTask r).
Proof.
  unfold fits, size_of, canonTask. simpl. intros (Hk & Hs & Hm). pose proof (length_canonIDs (TR.DownstreamTaskIDs r)).
  split_and!; lia.
Qed.

Lemma fits_same m r r' :
  fits m r -> TR.TaskID r' = TR.TaskID r -> TR.WorkflowID r' = TR.WorkflowID r -> TR.Error r' = TR.Error r ->
  TR.DownstreamTaskIDs r' = TR.DownstreamTaskIDs r -> len (TR.ExecutionID r') + len (TR.Output r') <= m -> fits m r'.
Proof. unfold fits, size_of. intros (Hk & Hs & Hm) -> -> -> ->. done. Qed.

(** All records of a bucket have room. *)
Definition roomy (m : Z) (T : Tasks) : Prop := forall k r, T !! k = Some r -> TR.TaskID r = k /\ fits m r.

Lemma roomy_insert m T k r : roomy m T -> TR.TaskID r = k -> fits m r -> roomy m (<[k := canonTask r]> T).
Proof.
  intros HT Hk Hr x rx. rewrite lookup_insert. case_decide; [|apply HT]. intros [= <-]. subst. split; [done | by apply fits_canon].
Qed.

Lemma decremented_same r :
  TR.TaskID (decremented r) = TR.TaskID r /\ TR.WorkflowID (decremented r) = TR.WorkflowID r /\ TR.Error (decremented r) = TR.Error r /\
  TR.DownstreamTaskIDs (decremented r) = TR.DownstreamTaskIDs r /\ TR.ExecutionID (decremented r) = TR.ExecutionID r /\
  TR.Output (decremented r) = TR.Output r.
Proof. unfold decremented. cbv zeta. destruct (_ =? 0); by destruct r. Qed.

Lemma fits_decremented m r tm : fits m r -> fits m (set_LastUpdated tm (decremented r)).
Proof.
  intros Hr. destruct (decremented_same r) as (E1 & E2 & E3 & E4 & E5 & E6).
  assert (fits m (decremented r)) as Hd.
  { apply (fits_same m r); [done.. |]. rewrite E5, E6. apply Hr. }
  apply (fits_same m (decremented r)); [done | by destruct (decremented r).. |]. destruct Hd as (_ & _ & Hm). by destruct (decremented r).
Qed.

Section Room.
Context `{Env} `{!NoFaults} `{Protobuf} (m : Z).

(** A completion that has room succeeds. *)
Lemma StoreComplete_ok k e o r (s : St AbsDB) :
  roomy m (tasks_of s) -> tasks_of s !! k = Some r -> TR.ExecutionID r = e -> len e + len o <= m ->
  wp (Store.CompleteTask k e o) s (fun res s' => res.2 = None /\ roomy m (tasks_of s')) (fun _ => False).
Proof.
  intros HT Hr He Hm. unfold Store.CompleteTask. apply wp_bind, wp_now. intros t0 s0 Hs0. rewrite <- Hs0 in HT, Hr. apply wp_bind.
  apply wp_Update_ok. apply (wp_mono _ _ (fun res s' => res.2 = None /\ roomy m (tasks_of s')) _ (fun _ => False)); [| |done].
  - apply wp_bind, wp_fetchTask; simpl; [|congruence]. intros r0 Hr0. rewrite Hr in Hr0. injection Hr0 as <-.
    rewrite He, String.eqb_refl. simpl. destruct (_ =? _); [by apply wp_ret |].
    apply wp_bind, wp_now. intros t1 s1 Hs1.
    assert (fits m (completed_record o t1 r)) as Hf.
    { apply (fits_same m r); [by apply (HT k) | by destruct r.. |]. subst e. destruct r; simpl in *. lia. }
    destruct (HT k r Hr) as [Hk _]. assert (TR.TaskID (completed_record o t1 r) = k) as Hk' by (by destruct r).
    apply wp_bind, wp_putTask.
    { intros er Her. pose proof (put_fits m _ Hf) as Hp. rewrite Hk' in Hp. unfold completed_record in *. congruence. }
    intros _. apply (wp_forEach (fun _ _ s' => roomy m (tasks_of s'))).
    + simpl. apply (roomy_insert m _ k (completed_record o t1 r)); [|done|done]. by rewrite Hs1.
    + intros ready x l s2 Hs2. apply wp_unblock; [done | |].
      * intros l' er rx tm s3 Hx _ Her. destruct (Hs2 x rx Hx) as [Hid Hfx]. pose proof (put_fits m _ (fits_decremented m rx tm Hfx)) as Hp.
        replace (TR.TaskID (set_LastUpdated tm (decremented rx))) with x in Hp; [congruence |].
        destruct (decremented_same rx) as [E _]. rewrite <- Hid, <- E. by destruct (decremented rx).
      * intros rx tm s3 Hx _ Hs3. simpl. rewrite Hs3. simpl. destruct (Hs2 x rx Hx) as [Hid Hfx].
        apply roomy_insert; [done | | by apply fits_decremented]. destruct (decremented_same rx) as [E _]. rewrite <- Hid, <- E.
        by destruct (decremented rx).
    + done.
  - intros [l [er|]] s1 [Hn Hs1]; [done |]. simpl in *. apply wp_bind, wp_now. intros t2 s2 Hs2.
    apply wp_bind. unfold observe_tx. apply wp_modify, wp_ret. simpl. by rewrite Hs2.
Qed.

(** Completing a workflow writes its state. *)
Lemma IsWorkflowComplete_ok w (s : St AbsDB) (Q : bool * option GoError -> St AbsDB -> Prop) E :
  (forall s', st_db s' = st_db s -> Q (negb (existsb (unfinished w) (sorted_entries (tasks_of s)).*2), None) s') ->
  wp (IsWorkflowComplete w) s Q E.
Proof.
  intros HQ. apply wp_View_ok. apply wp_bind, wp_gets. simpl. eapply wp_mono.
  - apply (wp_fold _ (fun c _ r => if unfinished w r then false else c) _ _ _ (fun _ => False)). intros c k r. unfold unfinished.
    by destruct (String.eqb (TR.WorkflowID r) w), (is_terminal (TR.State r)).
  - intros r s' [-> ->]. rewrite foldl_unfinished. by apply HQ.
  - done.
Qed.

Lemma UpdateWorkflowState_ok w v ws (s : St AbsDB) (Q : option GoError -> St AbsDB -> Prop) E :
  AbsDB.wstates (st_db s) !! w = Some ws -> WR.WorkflowID ws = w -> 0 < len w <= MaxKeySize -> is_int32 v ->
  (forall ws' s', WR.State ws' = v -> WR.WorkflowID ws' = w ->
     st_db s' = with_wstates (<[w := ws']> (AbsDB.wstates (st_db s))) (st_db s) -> Q None s') ->
  wp (UpdateWorkflowState w v) s Q E.
Proof.
  intros Hws Hw Hk Hv HQ. unfold UpdateWorkflowState. apply wp_Update_ok_, wp_bind, wp_gets. simpl. unfold map_get. rewrite Hws.
  apply wp_bind, wp_ret, wp_bind.
  apply (wp_mono _ _ (fun r s' => st_db s' = st_db s /\ WR.State r = v /\ WR.WorkflowID r = w) _ (fun _ => False)); [| |done].
  - destruct (_ || _ || _); [apply wp_bind, wp_now; intros t s' Hs'; simpl in Hs' |]; apply wp_ret; by destruct ws.
  - intros r s' (Hs' & Hst & Hid). apply wp_put_wst.
    + intros e. unfold put_error, marshalWorkflowState. rewrite !length_app, length_writeString, !length_le_enc, Hid.
      unfold MaxKeySize, MaxValueSize in *. rewrite (proj2 (Nat.eqb_neq _ _)), !(proj2 (Z.ltb_ge _ _)) by lia. done.
    + apply (HQ (canonWorkflowState r)); [|done|by rewrite Hs']. simpl. rewrite Hst. by apply int32_id.
Qed.

End Room.
