(* ===== verification/Progress.v ===== *)
(** * A worker that succeeds completes a workflow

    In a world without faults, a coordinator whose only unfinished workflow is [w]
    answers each request of a worker with the task at the head of its queue, and each
    success unblocks what waited for it: [serving] is the invariant of such a
    coordinator between two rounds of request and result, and every round completes
    one more task. *)

From S2P Require Import Prelude Proto Codec Env RecordDB Store StoreRefinement StoreSpec NoFault Dag DagProps Heartbeat Coordinator.
From S2P Require Import CoordinatorRefinement Invariant CoordinatorInv Submission Dashboard Service System Room.

(** Task [t] is COMPLETE. *)
Definition complete_in (T : Tasks) (t : TaskSpec) : bool :=
  match T !! TS.TaskId t with Some r => TR.State r =? TASK_COMPLETE | None => false end.

Definition undone (w : WorkflowSpec) (T : Tasks) : nat := length (filter (fun t => complete_in T t = false) (WF.Tasks w)).

Lemma undone_lt w T T' t :
  t ∈ WF.Tasks w -> complete_in T t = false -> complete_in T' t = true ->
  (forall u, complete_in T u = true -> complete_in T' u = true) -> (undone w T' < undone w T)%nat.
Proof.
  intros Ht Hn Hc Hm. unfold undone.
  assert (forall l, (length (filter (fun u => complete_in T' u = false) l) <= length (filter (fun u => complete_in T u = false) l))%nat) as Hle.
  { induction l as [|u l IH]; [done |]. rewrite !filter_cons. specialize (Hm u).
    destruct (complete_in T u), (complete_in T' u); simpl in *; try lia; by specialize (Hm eq_refl). }
  induction (WF.Tasks w) as [|u l IH]; [by apply elem_of_nil in Ht |]. rewrite !filter_cons. specialize (Hle l).
  apply elem_of_cons in Ht as [<-|Ht].
  - rewrite Hn, Hc. simpl. lia.
  - specialize (IH Ht). specialize (Hm u). destruct (complete_in T u), (complete_in T' u); simpl in *; try lia; by specialize (Hm eq_refl).
Qed.

Lemma undone_zero w T t : undone w T = 0%nat -> t ∈ WF.Tasks w -> complete_in T t = true.
Proof.
  unfold undone. intros Hz%nil_length_inv Ht. destruct (complete_in T t) eqn:E; [done |].
  assert (t ∈ filter (fun t => complete_in T t = false) (WF.Tasks w)) as Hin by (by apply list_elem_of_filter). rewrite Hz in Hin. by apply elem_of_nil in Hin.
Qed.

Section Progress.
Context `{Env} `{!NoFaults} `{Protobuf} (w : WorkflowSpec) (m : Z) (out : string -> string).

Record serving (c : CA) : Prop := {
  sv_inv : cinv c;
  sv_room : roomy m (tasks c);
  sv_task t : t ∈ WF.Tasks w -> exists r, tasks c !! TS.TaskId t = Some r /\ TR.WorkflowID r = WF.WorkflowId w /\
    (TR.State r = TASK_PENDING \/ (TR.State r = TASK_QUEUED /\ TS.TaskId t ∈ readyQueue (mem c)) \/
     (TR.State r = TASK_COMPLETE /\ TR.Output r = out (TS.TaskId t)));
  sv_waits k r : tasks c !! k = Some r -> TR.State r = TASK_PENDING -> 0 < TR.InDegree r;
  sv_blank k r : tasks c !! k = Some r -> TR.State r = TASK_PENDING \/ TR.State r = TASK_QUEUED -> TR.Output r = EmptyString;
  sv_other k r : tasks c !! k = Some r -> (k ∉ TS.TaskId <$> WF.Tasks w) ->
    is_terminal (TR.State r) = true /\ TR.WorkflowID r <> WF.WorkflowId w;
  sv_edges x r t : tasks c !! x = Some r -> t ∈ WF.Tasks w -> TS.TaskId t ∈ TR.DownstreamTaskIDs r -> x ∈ TS.Dependencies t;
  sv_free : assignedTasks (mem c) = ∅;
  sv_cache t : t ∈ WF.Tasks w -> is_Some (taskSpecCache (mem c) !! TS.TaskId t) /\
    taskWorkflowMap (mem c) !! TS.TaskId t = Some (WF.WorkflowId w);
  sv_state : exists ws, AbsDB.wstates (db c) !! WF.WorkflowId w = Some ws /\ WR.WorkflowID ws = WF.WorkflowId w /\
    (undone w (tasks c) = 0%nat -> WR.State ws = WORKFLOW_COMPLETE)
}.

(** The queue is empty only when every task is COMPLETE. *)
Lemma serving_end order d c :
  ValidateAndSort order w = Some (inr d) -> serving c -> readyQueue (mem c) = [] -> undone w (tasks c) = 0%nat.
Proof.
  intros Ev Hc Hq. destruct (undone w (tasks c)) eqn:Eu; [done |]. exfalso.
  set (done_ids := list_to_set (TS.TaskId <$> filter (fun t => complete_in (tasks c) t = true) (WF.Tasks w)) : gset string).
  assert (forall t, t ∈ WF.Tasks w -> TS.TaskId t ∈ done_ids <-> complete_in (tasks c) t = true) as Hdone.
  { intros t Ht. unfold done_ids. rewrite elem_of_list_to_set, list_elem_of_fmap. split.
    - intros (t' & E & [Hc' _]%list_elem_of_filter). unfold complete_in in *. by rewrite E.
    - intros Hc'. exists t. split; [done |]. by apply list_elem_of_filter. }
  destruct (filter (fun t => complete_in (tasks c) t = false) (WF.Tasks w)) as [|t l] eqn:Ef; [unfold undone in Eu; by rewrite Ef in Eu |].
  assert (t ∈ filter (fun t => complete_in (tasks c) t = false) (WF.Tasks w)) as [Hn Ht]%list_elem_of_filter by (rewrite Ef; left).
  destruct (dag_progress order w d done_ids t Ev Ht) as (t' & Ht' & Hn' & Hdeps); [rewrite Hdone by done; congruence |].
  rewrite Hdone in Hn' by done. destruct (sv_task _ Hc t' Ht') as (r & Hr & _ & Hs).
  assert (complete_in (tasks c) t' = (TR.State r =? TASK_COMPLETE)) as E by (unfold complete_in; by rewrite Hr).
  destruct Hs as [Hs | [[Hs Hin] | [Hs _]]]; [| rewrite Hq in Hin; by apply elem_of_nil in Hin | rewrite Hs in E; done].
  pose proof (sv_waits _ Hc _ r Hr Hs) as Hpos. destruct (sv_inv _ Hc) as [[Hti _] _].
  rewrite (ti_pending _ Hti _ r Hr Hs), no_blockers in Hpos; [lia |]. intros x rx Hx Hk.
  pose proof (sv_edges _ Hc x rx t' Hx Ht' Hk) as Hdep%Hdeps. unfold done_ids in Hdep.
  apply elem_of_list_to_set, list_elem_of_fmap in Hdep as (u & -> & [Hu _]%list_elem_of_filter).
  unfold complete_in in Hu. rewrite Hx in Hu. by apply Z.eqb_eq.
Qed.

(** ** A request *)

Definition assigned_record (e : string) (tm : Z) (r : TaskStateRecord) : TaskStateRecord :=
  set_LastUpdated tm (set_ExecutionID e (set_State TASK_RUNNING r)).

(** The task [k] is taken from the queue and is RUNNING under the next execution id. *)
Record started_round (k : string) (q : list string) (r : TaskStateRecord) (c c1 : CA) : Prop := {
  sr_tasks : exists tm, db c1 = with_tasks (<[k := canonTask (assigned_record (uuid (uuids (mem c))) tm r)]> (tasks c)) (db c);
  sr_queue : readyQueue (mem c1) = q;
  sr_assigned : assignedTasks (mem c1) = <[k := uuid (uuids (mem c))]> (assignedTasks (mem c));
  sr_caches : same_specs (mem c) (mem c1);
  sr_uuids : uuids (mem c1) = S (uuids (mem c))
}.

Lemma request_ok wid n k q spec r (c : CA) :
  readyQueue (mem c) = k :: q -> taskSpecCache (mem c) !! k = Some spec -> tasks c !! k = Some r ->
  roomy m (tasks c) -> len (uuid (uuids (mem c))) + len (TR.Output r) <= m ->
  wp (onMessage wid (WorkerMessage.mk wid (TaskRequest n))) c
    (fun res c1 => res.1 = wid /\ started_round k q r c c1) (fun _ => False).
Proof.
  intros Hq Hs Hr HT Hm. unfold onMessage. cbv zeta.
  assert (identify wid (WorkerMessage.mk wid (TaskRequest n)) = wid) as -> by (unfold identify; simpl; by destruct (String.eqb _ _)).
  unfold handlePayload, handleTaskRequest, GetReadyTask, newUUID. cbn [WorkerMessage.Payload]. apply wp_bind, wp_bind, wp_bind, wp_bind, wp_gets.
  rewrite Hq.
  apply wp_bind, wp_modify, wp_bind, wp_gets.
  replace (taskSpecCache _) with (taskSpecCache (mem c)) by (simpl; by destruct (mem c)). rewrite Hs.
  apply wp_bind, wp_bind, wp_gets, wp_bind, wp_modify, wp_ret.
  replace (uuids _) with (uuids (mem c)) by (simpl; by destruct (mem c)).
  destruct (HT k r Hr) as [Hid Hfit].
  apply wp_bind, wp_onStore, modifyTask_ok; unfold db in *; simpl in *; [congruence | |].
  - intros r1 tm e s' Hr1 He _. exfalso. rewrite Hr in Hr1. injection Hr1 as <-.
    assert (fits m (assigned_record (uuid (uuids (mem c))) tm r)) as Hf%put_fits.
    { apply (fits_same m r); [done | by destruct r.. |]. by destruct r. }
    replace (TR.TaskID (assigned_record _ tm r)) with k in Hf by (rewrite <- Hid; by destruct r).
    unfold assigned_record in Hf. congruence.
  - intros r1 tm s' Hr1 He Hd. rewrite Hr in Hr1. injection Hr1 as <-.
    apply wp_bind, wp_modify, wp_bind, wp_modify. do 4 apply wp_ret. split; [done |].
    split; unfold db; simpl; [exists tm; exact Hd | unfold same_specs; by destruct (mem c)..].
Qed.

(** ** A success *)

Abbreviation W := (WF.WorkflowId w).

(** The state of the workflow, COMPLETE when all its records are. *)
Definition state_follows (T : Tasks) (d : AbsDB) : Prop :=
  exists ws, AbsDB.wstates d !! W = Some ws /\ WR.WorkflowID ws = W /\
    ((forall k r, T !! k = Some r -> TR.WorkflowID r = W -> TR.State r = TASK_COMPLETE) -> WR.State ws = WORKFLOW_COMPLETE).

Lemma finalState_int32 l : is_int32 (finalState l).
Proof. unfold finalState, is_int32, WORKFLOW_FAILED, WORKFLOW_COMPLETE. destruct (existsb _ _); lia. Qed.

Lemma checkWorkflowCompletion_ok ws (c : CA) :
  AbsDB.wstates (db c) !! W = Some ws -> WR.WorkflowID ws = W -> 0 < len W <= MaxKeySize ->
  wp (checkWorkflowCompletion W) c
    (fun _ c' => tasks c' = tasks c /\ mem c' = mem c /\ state_follows (tasks c) (db c')) (fun _ => False).
Proof.
  intros Hws Hid Hk. unfold checkWorkflowCompletion. apply wp_bind, wp_onStore, IsWorkflowComplete_ok. intros s1 Hs1.
  destruct (existsb _ _) eqn:Ex; simpl.
  - apply wp_ret. unfold db in *. simpl. rewrite Hs1. split_and!; [done | done |]. exists ws. split_and!; [done | done |]. intros Hall.
    apply existsb_exists in Ex as (r & Hin%list_elem_of_In & Hu%andb_true_iff). destruct Hu as [HW%String.eqb_eq Ht%negb_true_iff].
    apply list_elem_of_fmap in Hin as ([k r'] & -> & Hin%elem_of_sorted_entries). simpl in *. by rewrite (Hall k r' Hin HW) in Ht.
  - apply wp_bind, wp_onStore, GetTaskStatuses_ok. intros s2 Hs2. simpl in *. apply wp_bind, wp_onStore.
    eapply (UpdateWorkflowState_ok _ _ ws); cbn [state]; [by rewrite Hs2, Hs1 | done | done | apply finalState_int32 |].
    intros ws' s3 Hst Hid' Hs3. apply wp_ret. unfold db in *. simpl in *. rewrite Hs3, Hs2, Hs1. simpl. split_and!; [done | done |].
    exists ws'. simpl. rewrite lookup_insert_eq. split_and!; [done | done |]. intros Hall. rewrite Hst. unfold finalState.
    clear Ex. case_match eqn:Ef; [exfalso | done]. apply existsb_exists in Ef as (x & Hin%list_elem_of_In & Hf%Z.eqb_eq).
    apply list_elem_of_fmap in Hin as (r & -> & Hin). unfold select in Hin. apply list_elem_of_filter in Hin as [HW%String.eqb_eq Hin].
    apply list_elem_of_fmap in Hin as ([k r'] & -> & Hin%elem_of_sorted_entries). simpl in *. rewrite Hs1 in Hin.
    rewrite (Hall k r' Hin HW) in Hf. done.
Qed.

(** [k] is COMPLETE with output [o], and what waited only for it is queued. *)
Record finished_round (k o : string) (r : TaskStateRecord) (c c' : CA) : Prop := {
  fr_tasks : exists tm ready, unblocked (TR.DownstreamTaskIDs r) (<[k := canonTask (completed_record o tm r)]> (tasks c)) (tasks c') ready /\
    readyQueue (mem c') = readyQueue (mem c) ++ ready;
  fr_room : roomy m (tasks c');
  fr_assigned : assignedTasks (mem c') = delete k (assignedTasks (mem c));
  fr_caches : same_specs (mem c) (mem c');
  fr_uuids : uuids (mem c') = uuids (mem c);
  fr_state : state_follows (tasks c') (db c')
}.

Lemma complete_ok k e o r ws (c : CA) :
  roomy m (tasks c) -> db_stable (db c) -> assignedTasks (mem c) !! k = Some e -> tasks c !! k = Some r ->
  TR.ExecutionID r = e -> TR.State r <> TASK_COMPLETE -> len e + len o <= m -> taskWorkflowMap (mem c) !! k = Some W ->
  AbsDB.wstates (db c) !! W = Some ws -> WR.WorkflowID ws = W -> 0 < len W <= MaxKeySize ->
  wp (CompleteTask k e o) c (fun _ c' => finished_round k o r c c') (fun _ => False).
Proof.
  intros HT Hst Ha Hr He Hn Hm HW Hws Hid Hk. unfold CompleteTask. apply wp_bind, wp_gets. rewrite Ha, String.eqb_refl. cbn [negb].
  apply wp_bind, wp_onStore.
  eapply wp_mono; [apply wp_and; [by eapply (StoreComplete_ok m k e o r) | by apply CompleteTask_spec] | | by intros s [? _]].
  intros [ready [er|]] s1 [[Hnone HT1] Hs1]; [done |]. simpl in *. clear Hnone.
  destruct Hs1 as [(r0 & Hr0 & _ & [[Hc _] | (_ & tm & T' & Hu & Hd)])]; unfold db in *; rewrite Hr in Hr0; injection Hr0 as <-; [done |].
  do 4 (apply wp_bind, wp_modify). apply wp_bind, wp_gets. simpl.
  replace (taskWorkflowMap _) with (taskWorkflowMap (mem c)) by (by destruct (mem c)). rewrite HW. simpl.
  assert (String.eqb W EmptyString = false) as -> by (apply String.eqb_neq; intros E; rewrite E in Hk; simpl in Hk; lia).
  cbn [negb]. apply wp_bind. eapply wp_mono; [apply (checkWorkflowCompletion_ok ws) | | done]; [unfold db; simpl; by rewrite Hd | done | done |].
  intros [] c' (HT' & Hmem & Hf). apply wp_ret. unfold db in *. simpl in *. rewrite Hd in HT', Hf, HT1. simpl in *.
  split; unfold same_specs, db; rewrite ?HT', ?Hmem; [|done| | | |done]; simpl; [|by destruct (mem c)..].
  exists tm, ready. split; [done |]. by destruct (mem c).
Qed.

(** ** A round *)

(** The head of the queue is QUEUED, and is one of the workflow's tasks. *)
Lemma head_of k q c : serving c -> readyQueue (mem c) = k :: q ->
  exists r t, tasks c !! k = Some r /\ TR.State r = TASK_QUEUED /\ t ∈ WF.Tasks w /\ TS.TaskId t = k.
Proof.
  intros Hc Hq. destruct (sv_inv _ Hc) as [_ Hm]. destruct (mi_queued _ _ Hm k) as (r & Hr & Hst); [rewrite Hq; left |]. exists r.
  destruct (decide (k ∈ TS.TaskId <$> WF.Tasks w)) as [(t & -> & Ht)%list_elem_of_fmap | Hn]; [by exists t |].
  destruct (sv_other _ Hc k r Hr Hn) as [Ht _]. by rewrite Hst in Ht.
Qed.

Section Round.
Context (k : string) (q : list string) (r : TaskStateRecord) (c c1 c2 : CA).
Context (Hc : serving c) (Hq : readyQueue (mem c) = k :: q) (Hr : tasks c !! k = Some r).
Context (r1 : TaskStateRecord) (Hr1 : tasks c1 = <[k := r1]> (tasks c)).
Context (Hw1 : TR.WorkflowID r1 = TR.WorkflowID r) (Hd1 : forall y, y ∈ TR.DownstreamTaskIDs r1 -> y ∈ TR.DownstreamTaskIDs r).
Context (Hs : started_round k q r c c1) (Hf : finished_round k (out k) r1 c1 c2) (Hi : cinv c2).

Lemma head_queued : TR.State r = TASK_QUEUED.
Proof. destruct (head_of k q c Hc Hq) as (r' & t & Hr' & Hst & _). congruence. Qed.

(** The records after the round: [k] COMPLETE, those that waited settled, the others as they were. *)
Lemma round_records : exists r2 ready,
  TR.State r2 = TASK_COMPLETE /\ TR.Output r2 = out k /\ TR.WorkflowID r2 = TR.WorkflowID r /\
  (forall y, y ∈ TR.DownstreamTaskIDs r2 -> y ∈ TR.DownstreamTaskIDs r) /\
  unblocked (TR.DownstreamTaskIDs r1) (<[k := r2]> (tasks c)) (tasks c2) ready /\ readyQueue (mem c2) = q ++ ready.
Proof.
  destruct (fr_tasks _ _ _ _ _ Hf) as (tm & ready & Hu & Hqq). rewrite Hr1, insert_insert_eq in Hu. rewrite (sr_queue _ _ _ _ _ Hs) in Hqq.
  exists (canonTask (completed_record (out k) tm r1)), ready. split_and!; [by destruct r1 | by destruct r1 | rewrite <- Hw1; by destruct r1 | | done | done].
  intros y Hy. apply Hd1. apply canonIDs_elem in Hy. by destruct r1.
Qed.

(** Each record, and where it comes from. *)
Lemma round_back x r' : tasks c2 !! x = Some r' ->
  (x = k /\ TR.State r' = TASK_COMPLETE /\ TR.Output r' = out k /\ TR.WorkflowID r' = TR.WorkflowID r /\
     (forall y, y ∈ TR.DownstreamTaskIDs r' -> y ∈ TR.DownstreamTaskIDs r)) \/
  (x <> k /\ exists r0, tasks c !! x = Some r0 /\
     ((TR.State r0 <> TASK_PENDING /\ r' = r0) \/
      (TR.State r0 = TASK_PENDING /\ TR.WorkflowID r' = TR.WorkflowID r0 /\ TR.DownstreamTaskIDs r' = TR.DownstreamTaskIDs r0 /\
       TR.Output r' = TR.Output r0 /\
       ((TR.State r' = TASK_PENDING /\ 0 < TR.InDegree r') \/ (TR.State r' = TASK_QUEUED /\ x ∈ readyQueue (mem c2)))))).
Proof.
  destruct round_records as (r2 & ready & H1' & H2' & H3' & H4' & Hu & Hqq). intros (r0 & E & Hc0)%(unb_back _ _ _ _ _ _ Hu).
  rewrite lookup_insert in E. case_decide as Ex.
  - subst x. injection E as <-. left. destruct Hc0 as [[_ ->] | [Hp _]]; [done |]. rewrite H1' in Hp. done.
  - right. split; [done |]. exists r0. split; [done |]. destruct Hc0 as [[Hn ->] | [Hp Hset]]; [by left |]. right.
    destruct (settled_same _ _ _ Hset) as (_ & HW & Hd & Ho). split_and!; [done.. |].
    destruct Hset as [[_ ->] | (tm & Hpos & _ & ->)]; [left; split; [done | by eapply sv_waits] |].
    destruct (Z.ltb_spec (Z.of_nat (occ x (TR.DownstreamTaskIDs r1))) (TR.InDegree r0)) as [Hlt|Hge].
    + left. destruct r0; simpl in *. split; [done | lia].
    + right. split; [by destruct r0 |]. rewrite Hqq. apply elem_of_app. right. apply (unb_ready _ _ _ _ Hu).
      exists r0. rewrite lookup_insert_ne by done. done.
Qed.

(** A record that is not PENDING stays, but for [k]. *)
Lemma round_stays x r0 : tasks c !! x = Some r0 -> x <> k -> TR.State r0 <> TASK_PENDING -> tasks c2 !! x = Some r0.
Proof.
  destruct round_records as (r2 & ready & _ & _ & _ & _ & Hu & _). intros Hx Hn Hp.
  apply (unb_other _ _ _ _ Hu); [by rewrite lookup_insert_ne | done].
Qed.

Lemma round_is_Some x r0 : tasks c !! x = Some r0 -> is_Some (tasks c2 !! x).
Proof.
  destruct round_records as (r2 & ready & Hc2 & _ & _ & _ & Hu & _). intros Hx. destruct (decide (x = k)) as [->|Hn].
  - exists r2. apply (unb_other _ _ _ _ Hu); [apply lookup_insert_eq | by rewrite Hc2].
  - destruct (decide (TR.State r0 = TASK_PENDING)) as [Hp|Hp]; [|by rewrite (round_stays x r0)].
    destruct (unb_pending _ _ _ _ Hu x r0) as (r' & Hr' & _); [by rewrite lookup_insert_ne | done | by exists r'].
Qed.

Lemma round_complete t : complete_in (tasks c) t = true -> complete_in (tasks c2) t = true.
Proof.
  unfold complete_in. destruct (tasks c !! TS.TaskId t) as [r0|] eqn:E; [|done]. intros Hst%Z.eqb_eq.
  rewrite (round_stays _ r0); [by rewrite Hst | done | | by rewrite Hst]. intros Hk. rewrite Hk, Hr in E. injection E as <-.
  rewrite head_queued in Hst. done.
Qed.

Lemma round_done t : TS.TaskId t = k -> complete_in (tasks c) t = false /\ complete_in (tasks c2) t = true.
Proof.
  intros E. unfold complete_in. rewrite E, Hr, head_queued. split; [done |]. destruct (round_is_Some _ r Hr) as [r' Hr'].
  rewrite Hr'. destruct (round_back _ _ Hr') as [(_ & -> & _) | [? _]]; done.
Qed.

(** Each task of the workflow is still waiting, queued or COMPLETE with its output. *)
Lemma round_task t : t ∈ WF.Tasks w -> exists r', tasks c2 !! TS.TaskId t = Some r' /\ TR.WorkflowID r' = W /\
  (TR.State r' = TASK_PENDING \/ (TR.State r' = TASK_QUEUED /\ TS.TaskId t ∈ readyQueue (mem c2)) \/
   (TR.State r' = TASK_COMPLETE /\ TR.Output r' = out (TS.TaskId t))).
Proof.
  intros Ht. destruct (sv_task _ Hc t Ht) as (r0 & Hr0 & HW & Hst). destruct (round_is_Some _ _ Hr0) as [r' Hr']. exists r'.
  split; [done |]. destruct (round_back _ _ Hr') as [(Ek & Hc' & Ho & HW' & _) | (Hne & r0' & Hr0' & Hcase)].
  - rewrite Ek, Hr in Hr0. injection Hr0 as <-. rewrite Ek. split; [congruence |]. right; right. done.
  - rewrite Hr0 in Hr0'. injection Hr0' as <-. destruct Hcase as [[Hnp ->] | (Hp & HW' & _ & _ & [[Hp' _] | [Hq' Hin]])].
    + split; [done |]. destruct Hst as [? | [[Hqd Hin] | ?]]; [done | | by right; right]. right; left. split; [done |].
      destruct round_records as (? & ready & _ & _ & _ & _ & _ & ->). rewrite Hq in Hin. apply elem_of_cons in Hin as [?|?]; [done |].
      apply elem_of_app. by left.
    + split; [congruence | by left].
    + split; [congruence | right; by left].
Qed.

Lemma round_other x r' : tasks c2 !! x = Some r' -> (x ∉ TS.TaskId <$> WF.Tasks w) ->
  is_terminal (TR.State r') = true /\ TR.WorkflowID r' <> W.
Proof.
  destruct (head_of k q c Hc Hq) as (_ & t0 & _ & _ & Ht0 & Hk0).
  intros Hr' Hx. destruct (round_back _ _ Hr') as [(-> & _) | (_ & r0 & Hr0 & Hcase)].
  - destruct Hx. rewrite <- Hk0. by apply list_elem_of_fmap_2.
  - destruct (sv_other _ Hc x r0 Hr0 Hx) as [Ht HW]. destruct Hcase as [[_ ->] | (Hp & _)]; [done |]. by rewrite Hp in Ht.
Qed.

(** The state of the workflow is COMPLETE when all tasks are. *)
Lemma round_state : exists ws, AbsDB.wstates (db c2) !! W = Some ws /\ WR.WorkflowID ws = W /\
  (undone w (tasks c2) = 0%nat -> WR.State ws = WORKFLOW_COMPLETE).
Proof.
  destruct (fr_state _ _ _ _ _ Hf) as (ws & Hws & Hid & Hst). exists ws. split_and!; [done | done |]. intros Hz. apply Hst.
  intros x r' Hr' HW. destruct (decide (x ∈ TS.TaskId <$> WF.Tasks w)) as [(t & -> & Ht)%list_elem_of_fmap | Hx].
  - pose proof (undone_zero _ _ _ Hz Ht) as Hdn. unfold complete_in in Hdn. rewrite Hr' in Hdn. by apply Z.eqb_eq.
  - by destruct (round_other x r' Hr' Hx).
Qed.

Lemma serving_round : serving c2 /\ (undone w (tasks c2) < undone w (tasks c))%nat.
Proof.
  destruct (head_of k q c Hc Hq) as (_ & t0 & _ & _ & Ht0 & Hk0). destruct (round_done t0 Hk0) as [Hb Ha]. split.
  2: { eapply undone_lt; [exact Ht0 | done | done | apply round_complete]. }
  destruct (sr_caches _ _ _ _ _ Hs) as [Ca Cb]. destruct (fr_caches _ _ _ _ _ Hf) as [Cc Cd].
  split; [done | apply Hf | apply round_task | | | apply round_other | | | | apply round_state].
  - intros x r' Hr' Hp. destruct (round_back _ _ Hr') as [(_ & Hc' & _) | (_ & r0 & Hr0 & [[Hnp ->] | (_ & _ & _ & _ & [[_ ?] | [Hq' _]])])];
      [by rewrite Hp in Hc' | done | done | by rewrite Hp in Hq'].
  - intros x r' Hr' Hp. destruct (round_back _ _ Hr') as [(_ & Hc' & _) | (_ & r0 & Hr0 & [[Hnp ->] | (Hp0 & _ & _ & -> & _)])].
    + rewrite Hc' in Hp. by destruct Hp.
    + by eapply sv_blank.
    + eapply sv_blank; eauto.
  - intros x r' t Hr' Ht Hin. destruct (round_back _ _ Hr') as [(-> & _ & _ & _ & Hd) | (_ & r0 & Hr0 & [[_ ->] | (_ & _ & Hd & _)])].
    + eapply sv_edges; eauto.
    + eapply sv_edges; eauto.
    + rewrite Hd in Hin. eapply sv_edges; eauto.
  - rewrite (fr_assigned _ _ _ _ _ Hf), (sr_assigned _ _ _ _ _ Hs), (sv_free _ Hc). by rewrite delete_insert_eq.
  - intros t Ht. rewrite Cc, Cd, Ca, Cb. by apply sv_cache.
Qed.

End Round.
(** ** Rounds of events *)

Definition request (wid : string) : WorkerMessage.t := WorkerMessage.mk wid (TaskRequest 1).
Definition success (wid k e : string) : WorkerMessage.t :=
  WorkerMessage.mk wid (TaskResultMsg (TaskResult.mk k e true (out k) EmptyString 0)).

(** The two messages of a round with task [k] at the head of the queue. *)
Definition round_of (i : nat) (wid k : string) (c : CA) : list event :=
  [EvMessage i (request wid); EvMessage i (success wid k (uuid (uuids (mem c))))].

Lemma success_ok wid k e r ws (c : CA) :
  roomy m (tasks c) -> db_stable (db c) -> assignedTasks (mem c) !! k = Some e -> tasks c !! k = Some r ->
  TR.ExecutionID r = e -> TR.State r <> TASK_COMPLETE -> len e + len (out k) <= m -> taskWorkflowMap (mem c) !! k = Some W ->
  AbsDB.wstates (db c) !! W = Some ws -> WR.WorkflowID ws = W -> 0 < len W <= MaxKeySize ->
  wp (onMessage wid (success wid k e)) c (fun res c' => res.1 = wid /\ finished_round k (out k) r c c') (fun _ => False).
Proof.
  intros HT Hst Ha Hr He Hn Hm HW Hws Hid Hk. unfold onMessage. cbv zeta.
  assert (identify wid (success wid k e) = wid) as -> by (unfold identify; simpl; by destruct (String.eqb _ _)).
  unfold handlePayload, handleTaskResult, success. cbn [WorkerMessage.Payload TaskResult.Success TaskResult.TaskId TaskResult.ExecutionId TaskResult.Output].
  apply wp_bind, wp_bind, wp_bind. eapply wp_mono; [by eapply (complete_ok k e (out k) r ws) | | done].
  intros res c' Hf. by do 3 apply wp_ret.
Qed.

Lemma message_returns scan dead i wid msg c ss (Q : string * option CoordinatorMessage -> CA -> Prop) :
  wp (onMessage wid msg) c Q (fun _ => False) -> cinv c -> ss !! i = Some wid ->
  exists c' a, exec scan dead (EvMessage i msg) (Up c ss) = Up c' (<[i := a.1]> ss) /\ Q a c' /\ cinv c'.
Proof.
  intros Hw Hc Hi. pose proof (keeps_onMessage wid msg c c (good_refl c Hc)) as Hk. unfold wp in *. simpl. rewrite Hi. unfold serve.
  destruct (onMessage wid msg c) as [c' a|]; [|done]. exists c', a. split_and!; [done | done | apply Hk].
Qed.

Lemma round_exec scan dead i wid k q (c : CA) ss :
  serving c -> readyQueue (mem c) = k :: q -> ss !! i = Some wid -> len (uuid (uuids (mem c))) + len (out k) <= m ->
  0 < len W <= MaxKeySize ->
  exists c2 ss2, foldl (fun p ev => exec scan dead ev p) (Up c ss) (round_of i wid k c) = Up c2 ss2 /\ ss2 !! i = Some wid /\
    serving c2 /\ (undone w (tasks c2) < undone w (tasks c))%nat /\ uuids (mem c2) = S (uuids (mem c)).
Proof.
  intros Hc Hq Hi Hm Hk. pose proof (sv_inv _ Hc) as Hinv. destruct (head_of k q c Hc Hq) as (r & t & Hr & Hst & Ht & Hid).
  destruct (sv_cache _ Hc t Ht) as [[spec Hsp] HW]. rewrite Hid in Hsp, HW. destruct (sv_state _ Hc) as (ws & Hws & Hwid & _).
  assert (TR.Output r = EmptyString) as Ho by (eapply sv_blank; eauto). set (e := uuid (uuids (mem c))) in *.
  assert (len e + len (TR.Output r) <= m) as Hme by (rewrite Ho; simpl; lia).
  destruct (message_returns scan dead i wid (request wid) c ss _ (request_ok wid 1 k q spec r c Hq Hsp Hr (sv_room _ Hc) Hme) Hinv Hi)
    as (c1 & [wid1 a1] & E1 & [Hw1 Hs1] & Hinv1). cbn [fst] in Hw1, E1. subst wid1.
  destruct (sr_tasks _ _ _ _ _ Hs1) as [tm Hd1]. fold e in Hd1. set (r1 := canonTask (assigned_record e tm r)) in *.
  assert (tasks c1 = <[k := r1]> (tasks c)) as HT1 by (by rewrite Hd1).
  assert (roomy m (tasks c1)) as Hroom1.
  { destruct (sv_room _ Hc k r Hr) as [Hkid Hfit]. rewrite HT1. apply roomy_insert; [apply Hc | by destruct r |].
    apply (fits_same m r); [done | by destruct r.. |]. by destruct r. }
  assert (assignedTasks (mem c1) !! k = Some e) as Ha1 by (rewrite (sr_assigned _ _ _ _ _ Hs1); apply lookup_insert_eq).
  destruct (message_returns scan dead i wid (success wid k e) c1 (<[i := wid]> ss) _
    (success_ok wid k e r1 ws c1 Hroom1 ltac:(apply dbinv_stable, Hinv1) Ha1 ltac:(rewrite HT1; apply lookup_insert_eq) ltac:(by destruct r)
      ltac:(by destruct r) Hm ltac:(by rewrite (proj2 (sr_caches _ _ _ _ _ Hs1))) ltac:(by rewrite Hd1) Hwid Hk) Hinv1 ltac:(apply lookup_insert_eq))
    as (c2 & [wid2 a2] & E2 & [Hw2 Hf2] & Hinv2). cbn [fst] in Hw2, E2. subst wid2.
  exists c2, (<[i := wid]> (<[i := wid]> ss)). unfold round_of. cbn [foldl]. fold e. rewrite E1, E2.
  destruct (serving_round k q r c c1 c2 Hc Hq Hr r1 HT1) as [Hsv Hlt]; [by destruct r | | done | done | done |].
  { intros y Hy%canonIDs_elem. by destruct r. }
  split_and!; [done | apply lookup_insert_eq | done | done |]. by rewrite (fr_uuids _ _ _ _ _ Hf2), (sr_uuids _ _ _ _ _ Hs1).
Qed.

(** ** Until every task is COMPLETE *)

(** A message of a worker that asks for tasks and succeeds with them. *)
Definition succeeding (i : nat) (wid : string) (ev : event) : Prop :=
  ev = EvMessage i (request wid) \/ exists k e, ev = EvMessage i (success wid k e).

Lemma drain scan dead i wid order d :
  ValidateAndSort order w = Some (inr d) -> 0 < len W <= MaxKeySize ->
  forall n (c : CA) ss, undone w (tasks c) = n -> serving c -> ss !! i = Some wid ->
  (forall j k, (uuids (mem c) <= j < uuids (mem c) + n)%nat -> len (uuid j) + len (out k) <= m) ->
  exists evs c' ss', foldl (fun p ev => exec scan dead ev p) (Up c ss) evs = Up c' ss' /\
    Forall (succeeding i wid) evs /\ (length evs <= 2 * n)%nat /\ serving c' /\ undone w (tasks c') = 0%nat.
Proof.
  intros Hv Hk n. induction (lt_wf n) as [n _ IH]. intros c ss Hn Hc Hi Hu.
  destruct (readyQueue (mem c)) as [|k q] eqn:Hq.
  { exists [], c, ss. split_and!; [done | done | simpl; lia | done | by eapply serving_end]. }
  assert (0 < n)%nat as Hpos.
  { destruct (head_of k q c Hc Hq) as (r & t & Hr & Hst & Ht & Hid). destruct n as [|n]; [|lia].
    pose proof (undone_zero _ _ _ Hn Ht) as Hd. unfold complete_in in Hd. by rewrite Hid, Hr, Hst in Hd. }
  destruct (round_exec scan dead i wid k q c ss Hc Hq Hi) as (c2 & ss2 & E & Hi2 & Hc2 & Hlt & Hu2); [apply Hu; lia | done |].
  destruct (IH (undone w (tasks c2)) ltac:(lia) c2 ss2 eq_refl Hc2 Hi2) as (evs & c' & ss' & E' & Hevs & Hlen & Hc' & Hz).
  { intros j k' Hj. apply Hu. lia. }
  exists (round_of i wid k c ++ evs), c', ss'. rewrite foldl_app, E. split_and!; [done | | simpl; lia | done | done].
  apply Forall_cons; split; [by left |]. apply Forall_cons; split; [right; by do 2 eexists | done].
Qed.

(** ** After a submission *)

(** Nothing of an earlier workflow is left to do, and none had the identifier of [w]. *)
Definition at_rest (c : CA) : Prop :=
  assignedTasks (mem c) = ∅ /\
  map_Forall (fun _ r => is_terminal (TR.State r) = true /\ TR.WorkflowID r <> W) (tasks c).

Lemma undone_le T : (undone w T <= length (WF.Tasks w))%nat.
Proof. apply length_filter. Qed.

Lemma accepted_serving c c' :
  cinv c -> cinv c' -> fresh_ids (tasks c) w -> at_rest c -> accepted w c c' -> WF.Tasks w <> [] -> roomy m (tasks c') -> serving c'.
Proof.
  intros Hc Hc' Hf [Hfree Hrest] [_ (ws & Hws & Hwid & _) Htasks _ Hold Honly Hca [Has _]] Hne HT.
  assert (forall k r, tasks c' !! k = Some r -> (exists t, t ∈ WF.Tasks w /\ k = TS.TaskId t) \/ is_terminal (TR.State r) = true) as Hcase.
  { intros k r Hr. destruct (Honly k r Hr) as [(t & -> & Ht)%list_elem_of_fmap | Ho]; [left; eauto | right]. by apply (Hrest k r Ho). }
  split; [done | done | | | | | | congruence | |].
  - intros t Ht. destruct (Htasks t Ht) as (r & Hr & [HW _ _ _] & [(_ & Hs & Hin) | (_ & Hs)]); exists r;
      (split; [done | split; [done |]]); [right; by left | by left].
  - intros k r Hr Hp. destruct (Hcase k r Hr) as [(t & Ht & ->) | Hte]; [|by rewrite Hp in Hte].
    destruct (Htasks t Ht) as (r' & Hr' & [_ Hd _ _] & [(_ & Hs & _) | (Hn & _)]); rewrite Hr in Hr'; injection Hr' as <-; [by rewrite Hp in Hs |].
    rewrite Hd. destruct (TS.Dependencies t); [done | simpl; lia].
  - intros k r Hr Hp. destruct (Hcase k r Hr) as [(t & Ht & ->) | Hte]; [|by destruct Hp as [Hp|Hp]; rewrite Hp in Hte].
    destruct (Htasks t Ht) as (r' & Hr' & [_ _ _ Ho] & _). congruence.
  - intros k r Hr Hn. destruct (Honly k r Hr) as [Hin | Ho]; [done |]. by apply (Hrest k r Ho).
  - intros x r t Hr Ht Hin. destruct (Honly x r Hr) as [(tx & -> & Hx)%list_elem_of_fmap | Ho].
    + destruct (Htasks tx Hx) as (r' & Hr' & [_ _ He _] & _). rewrite Hr in Hr'. injection Hr' as <-. by apply He.
    + destruct (ti_closed _ (di_tasks _ (ci_db _ Hc)) x r Ho _ Hin) as [r' Hr']. destruct (Hf t Ht) as [Hnone _]. congruence.
  - intros t Ht. destruct (Hca t Ht) as [-> ->]. eauto.
  - exists ws. split_and!; [done | done |]. intros Hz. exfalso. destruct (WF.Tasks w) as [|t l] eqn:El; [done |]. rewrite <- El in *.
    assert (t ∈ WF.Tasks w) as Ht by (rewrite El; left). pose proof (undone_zero _ _ _ Hz Ht) as Hd. unfold complete_in in Hd.
    destruct (Htasks t Ht) as (r & Hr & _ & Hs). rewrite Hr in Hd. destruct Hs as [(_ & Hs & _) | (_ & Hs)]; by rewrite Hs in Hd.
Qed.

(** Every task is COMPLETE with its output, and so is the workflow. *)
Definition all_complete (d : AbsDB) : Prop :=
  (forall t, t ∈ WF.Tasks w -> exists r, AbsDB.tasks d !! TS.TaskId t = Some r /\ TR.State r = TASK_COMPLETE /\
     TR.Output r = out (TS.TaskId t)) /\
  exists ws, AbsDB.wstates d !! W = Some ws /\ WR.State ws = WORKFLOW_COMPLETE.

Lemma serving_all_complete c : serving c -> undone w (tasks c) = 0%nat -> all_complete (db c).
Proof.
  intros Hc Hz. split.
  - intros t Ht. destruct (sv_task _ Hc t Ht) as (r & Hr & _ & Hs). pose proof (undone_zero _ _ _ Hz Ht) as Hd. unfold complete_in in Hd.
    rewrite Hr in Hd. exists r. destruct Hs as [Hs | [[Hs _] | Hs]]; [by rewrite Hs in Hd.. | done].
  - destruct (sv_state _ Hc) as (ws & Hws & _ & Hst). eauto.
Qed.

Lemma accepted_completes scan dead i wid order d (c c' : CA) ss :
  cinv c -> cinv c' -> fresh_ids (tasks c) w -> at_rest c -> accepted w c c' -> WF.Tasks w <> [] ->
  ValidateAndSort order w = Some (inr d) -> 0 < len W <= MaxKeySize -> ss !! i = Some wid ->
  roomy m (tasks c') ->
  (forall j k, (uuids (mem c') <= j < uuids (mem c') + length (WF.Tasks w))%nat -> len (uuid j) + len (out k) <= m) ->
  exists evs c2 ss2, foldl (fun p ev => exec scan dead ev p) (Up c' ss) evs = Up c2 ss2 /\
    Forall (succeeding i wid) evs /\ (length evs <= 2 * length (WF.Tasks w))%nat /\ all_complete (db c2).
Proof.
  intros Hc Hc' Hf Hrest Hac Hne Hv Hk Hi HT Hm. pose proof (accepted_serving c c' Hc Hc' Hf Hrest Hac Hne HT) as Hsv.
  pose proof (undone_le (tasks c')).
  destruct (drain scan dead i wid order d Hv Hk _ c' ss eq_refl Hsv Hi) as (evs & c2 & ss2 & E & Hevs & Hlen & Hsv2 & Hz); [intros; apply Hm; lia |].
  exists evs, c2, ss2. split_and!; [done | done | lia | by apply serving_all_complete].
Qed.

End Progress.
