(* ===== verification/Completions.v ===== *)
(** * Where final records come from

    A record becomes COMPLETE only by a result reported as a success, and FAILED
    only by one reported as a failure: no other handler, fault or restart makes a
    record final. *)

From S2P Require Import Prelude Proto Codec Env RecordDB Store StoreRefinement StoreSpec Dag DagProps Heartbeat Coordinator.
From S2P Require Import CoordinatorRefinement Invariant CoordinatorInv Submission Dashboard TaskChanges Service System.

Definition final (r : TaskStateRecord) : Prop := TR.State r = TASK_COMPLETE \/ TR.State r = TASK_FAILED.

(** The final records of [T'] were in [T], or [P] holds of them. *)
Definition finals (P : string -> TaskStateRecord -> Prop) (T T' : Tasks) : Prop :=
  forall k r', T' !! k = Some r' -> final r' -> T !! k = Some r' \/ P k r'.

#[export] Instance finals_preorder P : PreOrder (finals P).
Proof.
  split; [by intros T k r'; left |]. intros T1 T2 T3 H12 H23 k r' Hr' Hf.
  destruct (H23 k r' Hr' Hf) as [Hr2|]; [by apply H12 | by right].
Qed.

Lemma finals_insert P T k r' : (final r' -> P k r') -> finals P T (<[k := r']> T).
Proof. intros HP x rx. rewrite lookup_insert. case_decide; [intros [= <-] Hf; subst; auto | by left]. Qed.

Lemma finals_mono (P P' : string -> TaskStateRecord -> Prop) T T' :
  (forall k r, P k r -> P' k r) -> finals P T T' -> finals P' T T'.
Proof. intros HP Hf k r' Hr' Hs. destruct (Hf k r' Hr' Hs) as [?|?]; [by left | right; auto]. Qed.

(** A record with a state that is not final. *)
Lemma not_final r v :
  TR.State r = v -> v = TASK_PENDING \/ v = TASK_QUEUED \/ v = TASK_RUNNING \/ v = TASK_SKIPPED -> ~ final (canonTask r).
Proof. intros <- Hv. unfold final. destruct r; simpl in *. intros Hf. states. destruct_or! Hv; subst; destruct Hf as [Hf|Hf]; done. Qed.

Lemma decremented_state r : TR.State (decremented r) = TASK_QUEUED \/ TR.State (decremented r) = TR.State r.
Proof. unfold decremented. cbv zeta. destruct (_ =? 0); destruct r; auto. Qed.

Section Finals.
Context `{Env} `{Protobuf} (P : string -> TaskStateRecord -> Prop).

Abbreviation sfinals := (respects (by_tasks (finals P))).

Definition cfinals (c c' : CA) : Prop := finals P (tasks c) (tasks c').

#[export] Instance cfinals_preorder : PreOrder cfinals.
Proof. unfold cfinals. split; [by intros c |]. intros c1 c2 c3 H1' H2'. by etrans. Qed.

Abbreviation finishes := (respects cfinals).

(** ** Operations of the store *)

Lemma sfinals_modifyTask k u v :
  (forall t r, TR.State (u t r) = v) -> v = TASK_PENDING \/ v = TASK_QUEUED \/ v = TASK_RUNNING \/ v = TASK_SKIPPED ->
  sfinals (modifyTask k u).
Proof.
  intros Hu Hv. apply changes_modifyTask; [apply _ |]. intros T r t _. apply finals_insert. intros Hf.
  by destruct (not_final (u t r) v).
Qed.

Lemma sfinals_skipped Q T T' : skipped_map Q T T' -> finals P T T'.
Proof.
  intros Hs k r' Hr' Hf. specialize (Hs k). destruct (T !! k) as [r|] eqn:E; [|congruence].
  destruct Hs as [(_ & tm & E') | [_ E']]; rewrite E' in Hr'; injection Hr' as <-; [|by left].
  destruct (not_final (skip_record tm r) TASK_SKIPPED); [by destruct r | auto | done].
Qed.

Lemma sfinals_queue k : sfinals (UpdateTaskState k TASK_QUEUED).
Proof. apply (sfinals_modifyTask _ _ TASK_QUEUED); [by intros t [] | auto]. Qed.

Lemma sfinals_AssignTask k e : sfinals (AssignTask k e).
Proof. apply (sfinals_modifyTask _ _ TASK_RUNNING); [by intros t [] | auto]. Qed.

Lemma sfinals_RequeueTask k e : sfinals (RequeueTask k e).
Proof. apply (sfinals_modifyTask _ _ TASK_QUEUED); [by intros t [] | auto]. Qed.

Lemma sfinals_Cancel w : sfinals (CancelWorkflowTasks w).
Proof. apply changes_CancelWorkflowTasks; [apply _ |]. intros Q T T' Hs _. by eapply sfinals_skipped. Qed.

Lemma sfinals_Skip k : sfinals (SkipDownstreamTasks k).
Proof. apply changes_SkipDownstreamTasks. intros Q T T' Hs _. by eapply sfinals_skipped. Qed.

Lemma sfinals_FailTask k msg n :
  (forall r, TR.State r = TASK_FAILED -> TR.Error r = msg -> P k r) -> sfinals (Store.FailTask k msg n).
Proof.
  intros HP. apply changes_modifyTask; [apply _ |]. intros T r t _. apply finals_insert. intros _. apply HP; by destruct r.
Qed.

Lemma sfinals_CompleteTask k e o :
  (forall r, TR.State r = TASK_COMPLETE -> TR.ExecutionID r = e -> TR.Output r = o -> P k r) ->
  sfinals (Store.CompleteTask k e o).
Proof.
  intros HP. apply changes_CompleteTask; [apply _ | |].
  - intros T r tm _ He. apply finals_insert. intros _. apply HP; by destruct r.
  - intros T x r tm _ Hp. apply finals_insert. intros Hf. exfalso. revert Hf.
    apply (not_final (set_LastUpdated tm (decremented r)) (TR.State (decremented r))); [by destruct (decremented r) |].
    destruct (decremented_state r) as [-> | ->]; auto.
Qed.

Lemma sfinals_Initialize w l ind ds : NoDup (TS.TaskId <$> l) -> sfinals (InitializeTasksForWorkflow w l ind ds).
Proof.
  intros Hnd. apply changes_InitializeTasks; [apply _ | done |]. intros T T' Hin k r' Hr' Hf.
  destruct (decide (k ∈ TS.TaskId <$> l)) as [(t & -> & Ht)%list_elem_of_fmap | Hn].
  - destruct (init_in _ _ _ _ _ _ Hin t Ht) as (_ & tm & E). rewrite E in Hr'. injection Hr' as <-.
    destruct (not_final (initial_record w ind ds t tm) TASK_PENDING); [done | auto | done].
  - left. by rewrite <- (init_out _ _ _ _ _ _ Hin k Hn).
Qed.

(** ** Handlers *)

Lemma finishes_onStore {A} (m : M (St AbsDB) A) : sfinals m -> finishes (onStore m).
Proof. intros Hm c. apply wp_onStore. eapply wp_mono; [apply Hm | |]; done. Qed.

Lemma finishes_modm f : finishes (modm f).
Proof. apply respects_modify. intros c. unfold cfinals. reflexivity. Qed.

#[local] Hint Resolve sfinals_queue sfinals_AssignTask sfinals_RequeueTask sfinals_Cancel sfinals_Skip
  finishes_onStore finishes_modm : respects.

(** Follow the code. *)
Ltac finish_code :=
  repeat first
    [ respects_step
    | match goal with |- finishes (orElse ?e _) => destruct e; simpl end
    | progress unfold newUUID, nextOrders, taskWorkflowID ].

Lemma finishes_GetReadyTask w : finishes (GetReadyTask w).
Proof. unfold GetReadyTask. finish_code. Qed.

Lemma finishes_checkWorkflowCompletion w : finishes (checkWorkflowCompletion w).
Proof. unfold checkWorkflowCompletion. finish_code. Qed.
#[local] Hint Resolve finishes_GetReadyTask finishes_checkWorkflowCompletion : respects.

Lemma finishes_CompleteTask k e o :
  (forall r, TR.State r = TASK_COMPLETE -> TR.ExecutionID r = e -> TR.Output r = o -> P k r) ->
  finishes (CompleteTask k e o).
Proof. intros HP%sfinals_CompleteTask. unfold CompleteTask. finish_code. Qed.

Lemma finishes_applyFailurePolicy w k p : finishes (applyFailurePolicy w k p).
Proof. unfold applyFailurePolicy. finish_code. Qed.
#[local] Hint Resolve finishes_applyFailurePolicy : respects.

Lemma finishes_FailTask k e msg :
  (forall r, TR.State r = TASK_FAILED -> TR.Error r = msg -> P k r) -> finishes (FailTask k e msg).
Proof. intros HP. pose proof (fun n => sfinals_FailTask k msg n HP). unfold FailTask. finish_code. Qed.

Lemma finishes_CancelWorkflow w : finishes (CancelWorkflow w).
Proof. unfold CancelWorkflow. finish_code. Qed.

Lemma finishes_requeueOne k : finishes (requeueOne k).
Proof. unfold requeueOne. finish_code. Qed.
#[local] Hint Resolve finishes_CancelWorkflow finishes_requeueOne : respects.

Lemma finishes_HandleDeadWorker w : finishes (HandleDeadWorker w).
Proof. unfold HandleDeadWorker. finish_code. Qed.
#[local] Hint Resolve finishes_HandleDeadWorker : respects.

Lemma finishes_heartbeatTick : finishes heartbeatTick.
Proof. unfold heartbeatTick. finish_code. Qed.

Lemma finishes_startup : finishes startup.
Proof. unfold startup, LoadStateFromDB, PrepareRecovery, loadWorkflow. finish_code. Qed.

Lemma finishes_checkHungWorkflows : finishes checkHungWorkflows.
Proof. unfold checkHungWorkflows. finish_code. Qed.

Lemma finishes_SubmitWorkflowRPC w : finishes (SubmitWorkflowRPC w).
Proof.
  unfold SubmitWorkflowRPC, SubmitWorkflow. respects_step; [|finish_code].
  apply respects_bind; [apply _ | finish_code |]. intros ord.
  pose proof (validate_verdict ord w) as Hv. destruct (ValidateAndSort ord w) as [[e|dag]|]; [finish_code | | done].
  destruct Hv as (Hu & _). pose proof (fun ind ds => sfinals_Initialize (WF.WorkflowId w) (WF.Tasks w) ind ds Hu). finish_code.
Qed.

Lemma finishes_CancelWorkflowRPC w : finishes (CancelWorkflowRPC w).
Proof. unfold CancelWorkflowRPC. finish_code. Qed.

Lemma finishes_GetWorkflowStatus w : finishes (GetWorkflowStatus w).
Proof. unfold GetWorkflowStatus. finish_code. Qed.

Lemma finishes_serveHTTP path s : finishes (onStore (serveHTTP path s)).
Proof. apply finishes_onStore, changes_serveHTTP. apply _. Qed.

(** A message: only a result makes a record final. *)
Lemma finishes_onMessage w m :
  (forall res r k, WorkerMessage.Payload m = TaskResultMsg res -> k = TaskResult.TaskId res ->
     (if TaskResult.Success res
      then TR.State r = TASK_COMPLETE /\ TR.ExecutionID r = TaskResult.ExecutionId res /\ TR.Output r = TaskResult.Output res
      else TR.State r = TASK_FAILED /\ TR.Error r = TaskResult.Error res) -> P k r) ->
  finishes (onMessage w m).
Proof.
  intros HP. unfold onMessage. cbv zeta. respects_step; [|finish_code].
  destruct (WorkerMessage.Payload m) as [n | ts l | res |] eqn:Em; unfold handlePayload, handleTaskRequest, handleHeartbeat,
    UpdateWorkerHeartbeat; [finish_code.. | | finish_code].
  respects_step; [|finish_code]. unfold handleTaskResult. specialize (fun r k => HP res r k eq_refl).
  destruct (TaskResult.Success res).
  - respects_step; [|finish_code]. apply finishes_CompleteTask. intros r Hs He Ho. by apply HP.
  - respects_step; [|finish_code]. apply finishes_FailTask. intros r Hs He. by apply HP.
Qed.

End Finals.

(** ** The running system *)

(** The final record a result makes. *)
Definition made_by (res : TaskResult.t) (k : string) (r : TaskStateRecord) : Prop :=
  k = TaskResult.TaskId res /\
  if TaskResult.Success res
  then TR.State r = TASK_COMPLETE /\ TR.ExecutionID r = TaskResult.ExecutionId res /\ TR.Output r = TaskResult.Output res
  else TR.State r = TASK_FAILED /\ TR.Error r = TaskResult.Error res.

(** What a message makes. *)
Definition brings (m : WorkerMessage.t) (k : string) (r : TaskStateRecord) : Prop :=
  match WorkerMessage.Payload m with TaskResultMsg res => made_by res k r | _ => False end.

Definition event_brings (ev : event) (k : string) (r : TaskStateRecord) : Prop :=
  match ev with EvMessage _ m => brings m k r | _ => False end.

Section Runs.
Context `{Env}.

Lemma serve_finals `{Protobuf} P {A} (h : M CA A) next c :
  respects (cfinals P) h -> finals P (tasks c) (AbsDB.tasks (st_db (store_of (serve h next c)))).
Proof. intros Hh. specialize (Hh c). unfold wp, serve in *. by destruct (h c). Qed.

Lemma exec_finals `{Protobuf} scan dead ev (p : Process AbsDB) :
  finals (event_brings ev) (AbsDB.tasks (st_db (store_of p))) (AbsDB.tasks (st_db (store_of (exec scan dead ev p)))).
Proof.
  destruct p as [c ss | st u o]; destruct ev; simpl; try reflexivity;
  try (apply serve_finals; auto using finishes_SubmitWorkflowRPC, finishes_GetWorkflowStatus, finishes_CancelWorkflowRPC,
         finishes_heartbeatTick, finishes_serveHTTP, finishes_checkHungWorkflows).
  - destruct (ss !! stream); [|reflexivity]. apply serve_finals, finishes_onMessage.
    intros res r k Em -> Hr. unfold event_brings, brings. rewrite Em. by split.
  - apply finishes_startup.
Qed.

(** An event of the running system makes a record final only by the result it carries. *)
Lemma step_finals {D} `{RecordDBLaws D} scan dead ev (p : Process D) :
  proc_ok p -> finals (event_brings ev) (AbsDB.tasks (adb p)) (AbsDB.tasks (adb (exec scan dead ev p))).
Proof.
  intros Hok. destruct (exec_abs scan dead ev p Hok) as [_ E]. pose proof (exec_finals scan dead ev (proc_abs p)) as Hf.
  rewrite E in Hf. by rewrite !proc_abs_db.
Qed.

End Runs.
