(* ===== verification/Concurrent.v ===== *)
(** * Handlers as threads

    The same handlers as in [Coordinator], written as the sequences of atomic
    actions that the goroutines of the coordinator process interleave: acquiring
    and releasing [c.mu], accesses to the fields it guards, accesses to what has a
    lock of its own (the heartbeat monitor, the counters) or none (metrics, UUIDs),
    and transactions of the store, which bbolt makes atomic. A thread may be
    descheduled between any two actions. A read lock is modelled as a lock:
    critical sections that only read commute. *)

From S2P Require Import Prelude Proto Env RecordDB Store Dag Heartbeat Coordinator Dashboard Service.

(** ** Programs *)

Section Programs.
Context {D : Type}.

Inductive prog (A : Type) : Type :=
  | Ret (a : A)
  | Lock (k : prog A)
  | Unlock (k : prog A)
  | Local {X : Type} (f : Mem -> Mem * X) (k : X -> prog A)
  | Free {X : Type} (f : Mem -> Mem * X) (k : X -> prog A)
  | Tx {X : Type} (m : M (St D) X) (k : X -> prog A).
Arguments Ret {A} a.
Arguments Lock {A} k.
Arguments Unlock {A} k.
Arguments Local {A X} f k.
Arguments Free {A X} f k.
Arguments Tx {A X} m k.

Fixpoint pbind {A B} (p : prog A) (k : A -> prog B) : prog B :=
  match p with
  | Ret a => k a
  | Lock p => Lock (pbind p k)
  | Unlock p => Unlock (pbind p k)
  | Local f p => Local f (fun x => pbind (p x) k)
  | Free f p => Free f (fun x => pbind (p x) k)
  | Tx m p => Tx m (fun x => pbind (p x) k)
  end.

(** [c.mu.Lock()], the body, [c.mu.Unlock()]. *)
Definition locked {A} (p : prog A) : prog A := Lock (pbind p (fun a => Unlock (Ret a))).

Definition readL {A} (f : Mem -> A) : prog A := Local (fun m => (m, f m)) Ret.
Definition writeL (f : Mem -> Mem) : prog unit := Local (fun m => (f m, tt)) Ret.
Definition free (f : Mem -> Mem) : prog unit := Free (fun m => (f m, tt)) Ret.
Definition tx {A} (m : M (St D) A) : prog A := Tx m Ret.

(** ** Sequential execution *)

(** The program alone, without interference: locks do nothing. *)
Fixpoint run {A} (p : prog A) : M (Coordinator D) A :=
  match p with
  | Ret a => ret a
  | Lock p => run p
  | Unlock p => run p
  | Local f k | Free f k => fun c => let '(m, x) := f (mem c) in run (k x) (mkCoordinator (state c) m)
  | Tx m k => let! x := onStore m in run (k x)
  end.

End Programs.

Arguments prog D A : clear implicits.
Arguments Ret {D A} a.
Arguments Lock {D A} k.
Arguments Unlock {D A} k.
Arguments Local {D A X} f k.
Arguments Free {D A X} f k.
Arguments Tx {D A X} m k.

Declare Scope prog_scope.
Delimit Scope prog_scope with prog.
Notation "'let*' x := p 'in' k" := (pbind p (fun x => k))
  (at level 10, x pattern, p at level 100, k at level 200) : prog_scope.
Open Scope prog_scope.

(** ** The handlers *)

Module Threads.
Section Threads.
Context `{Env} {D : Type} `{RecordDB D}.
Abbreviation P := (prog D).

Definition newUUID : P string := Free (fun m => (set_uuids (S (uuids m)) m, uuid (uuids m))) Ret.

Definition nextOrders (k : nat) : P (nat -> seed) :=
  Free (fun m => (set_orders (orders m + k)%nat m, fun i => order (orders m + i)%nat)) Ret.

(** [for x := range l] with a body that may return from the function. *)
Fixpoint forEach {X} (f : X -> P (option GoError)) (l : list X) : P (option GoError) :=
  match l with
  | [] => Ret None
  | x :: l => let* e := f x in match e with Some e => Ret (Some e) | None => forEach f l end
  end.

Fixpoint each {X} (f : X -> P unit) (l : list X) : P unit :=
  match l with
  | [] => Ret tt
  | x :: l => let* _ := f x in each f l
  end.

Definition SubmitWorkflow (workflow : WorkflowSpec) : P (option GoError) :=
  let* ord := nextOrders 5 in
  match ValidateAndSort ord workflow with
  | None => tx panic
  | Some (inl e) => Ret (Some (Errorf ["invalid DAG"%string] e))
  | Some (inr dag) =>
      let* e := tx (StoreWorkflow workflow) in
      match e with Some e => Ret (Some e) | None =>
      let* e := tx (InitWorkflowState (WF.WorkflowId workflow)) in
      match e with Some e => Ret (Some e) | None =>
      let* e := tx (InitializeTasksForWorkflow (WF.WorkflowId workflow) (WF.Tasks workflow)
                      (GetInDegree dag) (GetAllDownstream dag)) in
      match e with Some e => Ret (Some e) | None =>
      locked (
        let* _ := writeL (fun m => foldl (fun m p => cache_task (WF.WorkflowId workflow) p m) m
                            (range_map (ord 3%nat) (GetAllTaskSpecs dag))) in
        let* _ := writeL (cache_policy (WF.WorkflowId workflow) (WF.FailurePolicy workflow)) in
        forEach (fun taskID =>
          let* e := tx (UpdateTaskState taskID TASK_QUEUED) in
          match e with
          | Some e => Ret (Some e)
          | None => let* _ := writeL (enqueue [taskID]) in Ret None
          end) (GetReadyTasks (ord 4%nat) dag))
      end end end
  end.

Definition GetReadyTask (workerID : string) : P (option TaskAssignment) :=
  locked (
    let* q := readL readyQueue in
    match q with
    | [] => Ret None
    | taskID :: q =>
        let* _ := writeL (set_readyQueue q) in
        let* cache := readL taskSpecCache in
        match cache !! taskID with
        | None => Ret None
        | Some taskSpec =>
            let* executionID := newUUID in
            let* e := tx (AssignTask taskID executionID) in
            match e with
            | Some _ => Ret None
            | None =>
                let* _ := writeL (assign taskID workerID executionID) in
                let* _ := writeL gauge_queue in
                Ret (Some (TaskAssignment.mk taskID executionID (TS.Command taskSpec) (TS.Env taskSpec)
                             (TS.TimeoutSeconds taskSpec)))
            end
        end
    end).

Definition checkWorkflowCompletion (workflowID : string) : P unit :=
  let* r := tx (IsWorkflowComplete workflowID) in
  match r with
  | (_, Some _) => Ret tt
  | (false, None) => Ret tt
  | (true, None) =>
      let* r := tx (GetTaskStatusesForWorkflow workflowID) in
      match r with
      | (_, Some _) => Ret tt
      | (taskStatuses, None) =>
          let* _ := tx (UpdateWorkflowState workflowID (finalState taskStatuses)) in
          Ret tt
      end
  end.

Definition taskWorkflowID (taskID : string) : P string :=
  locked (readL (fun m => default EmptyString (taskWorkflowMap m !! taskID))).

Definition CompleteTask (taskID executionID output : string) : P (option GoError) :=
  let* assigned := locked (readL assignedTasks) in
  match assigned !! taskID with
  | None =>
      let* r := tx (GetTask taskID) in
      match r with
      | inl e => Ret (Some e)
      | inr task =>
          if TR.State task =? TASK_COMPLETE
          then if negb (String.eqb (TR.ExecutionID task) executionID)
               then Ret (Some ErrStaleExecution) else Ret None
          else Ret (Some ErrStaleExecution)
      end
  | Some assignedExecID =>
      if negb (String.eqb assignedExecID executionID) then Ret (Some ErrStaleExecution)
      else
        let* r := tx (Store.CompleteTask taskID executionID output) in
        match r with
        | (_, Some e) => Ret (Some e)
        | (downstreamReady, None) =>
            let* _ := locked (
              let* _ := writeL (release taskID) in
              let* _ := writeL (enqueue downstreamReady) in
              writeL gauge_queue) in
            let* _ := free (on_metrics inc_TasksCompleted) in
            let* workflowID := taskWorkflowID taskID in
            let* _ := (if negb (String.eqb workflowID EmptyString)
                       then checkWorkflowCompletion workflowID else Ret tt) in
            Ret None
        end
  end.

(** [SkipDownstreamTasks] reads and skips each task in transactions of their own. *)
Fixpoint skipLoop (fuel : nat) (visited : gset string) (queue skipped : list string) : P (list string * list string) :=
  match fuel, queue with
  | O, _ | _, [] => Ret (queue, skipped)
  | S fuel, taskID :: queue =>
      if bool_decide (taskID ∈ visited) then skipLoop fuel visited queue skipped
      else
        let visited := {[taskID]} ∪ visited in
        let* r := tx (GetTask taskID) in
        match r with
        | inl _ => skipLoop fuel visited queue skipped
        | inr task =>
            let queue := queue ++ TR.DownstreamTaskIDs task in
            if is_terminal (TR.State task) then skipLoop fuel visited queue skipped
            else
              let* e := tx (UpdateTaskState taskID TASK_SKIPPED) in
              match e with
              | Some _ => skipLoop fuel visited queue skipped
              | None => skipLoop fuel visited queue (skipped ++ [taskID])
              end
        end
  end.

(** The read of the failed task, with the number of edges that bounds the loop; other
    threads add tasks, but none downstream of those there are, so the bound is enough
    under every interference ([skip_ends] of [RelyHandlers]). *)
Definition readFailed (failedTaskID : string) : M (St D) ((GoError + TaskStateRecord) * nat) :=
  let! r := GetTask failedTaskID in
  let! n := gets (fun s => edges (task_each (st_db s))) in
  ret (r, n).

Definition SkipDownstreamTasks (failedTaskID : string) : P (list string * option GoError) :=
  let* f := tx (readFailed failedTaskID) in
  match f.1 with
  | inl e => Ret ([], Some e)
  | inr failedTask =>
      let queue := TR.DownstreamTaskIDs failedTask in
      let* p := skipLoop (S (length queue + f.2)) ∅ queue [] in
      Ret (p.2, None)
  end.

Definition applyFailurePolicy (workflowID failedTaskID : string) (policy : FailurePolicy) : P unit :=
  if policy =? FAIL_FAST then
    let* r := tx (CancelWorkflowTasks workflowID) in
    match r with
    | (_, Some _) => Ret tt
    | (cancelled, None) =>
        let* _ := locked (writeL (dequeue_all cancelled)) in
        let* _ := tx (UpdateWorkflowState workflowID WORKFLOW_FAILED) in
        Ret tt
    end
  else if (policy =? SKIP_DOWNSTREAM) || (policy =? CONTINUE_INDEPENDENT) then
    let* r := SkipDownstreamTasks failedTaskID in
    let* _ := (if (0 <? length r.1)%nat then locked (writeL (dequeue_all r.1)) else Ret tt) in
    checkWorkflowCompletion workflowID
  else Ret tt.

Definition FailTask (taskID executionID errMsg : string) : P (option GoError) :=
  let* assigned := locked (readL assignedTasks) in
  if bool_decide (assigned !! taskID = Some executionID) then
    let* r := tx (GetTask taskID) in
    match r with
    | inl e => Ret (Some e)
    | inr task =>
        let* max := locked (readL (maxRetries taskID)) in
        let attemptCount := int32 (TR.AttemptCount task + 1) in
        if attemptCount <? max then
          let* execID := newUUID in
          let* e := tx (RequeueTask taskID execID) in
          match e with
          | Some e => Ret (Some e)
          | None =>
              let* _ := locked (
                let* _ := writeL (release taskID) in
                let* _ := writeL (enqueue [taskID]) in
                writeL gauge_queue) in
              let* _ := free (on_metrics (add_TasksRequeued "retry" 1)) in
              Ret None
          end
        else
          let* e := tx (Store.FailTask taskID errMsg attemptCount) in
          match e with
          | Some e => Ret (Some e)
          | None =>
              let* p := locked (
                let* _ := writeL (release taskID) in
                let* workflowID := readL (fun m => default EmptyString (taskWorkflowMap m !! taskID)) in
                let* policy := readL (fun m => default 0 (workflowFailurePolicy m !! workflowID)) in
                Ret (workflowID, policy)) in
              let* _ := free (on_metrics (inc_TasksFailed p.1 "retries_exhausted")) in
              let* _ := (if negb (String.eqb p.1 EmptyString)
                         then applyFailurePolicy p.1 taskID p.2 else Ret tt) in
              Ret None
          end
    end
  else Ret (Some ErrStaleExecution).

Definition CancelWorkflow (workflowID : string) : P (option GoError) :=
  let* r := tx (CancelWorkflowTasks workflowID) in
  match r with
  | (_, Some e) => Ret (Some e)
  | (cancelled, None) =>
      let* _ := locked (writeL (dequeue_all cancelled)) in
      tx (UpdateWorkflowState workflowID WORKFLOW_CANCELLED)
  end.

Definition requeueOne (taskID : string) : P unit :=
  let* execID := newUUID in
  let* e := tx (RequeueTask taskID execID) in
  match e with
  | Some _ => Ret tt
  | None => locked (writeL (enqueue [taskID]))
  end.

Definition HandleDeadWorker (workerID : string) : P (option GoError) :=
  let* t := tx now in
  let* _ := free (fun m => set_lastDeadWorkerAtMs t (set_deadWorkersHandled (deadWorkersHandled m + 1) m)) in
  let* ord := nextOrders 1 in
  let* tasksToRequeue := locked (
    let* tasksToRequeue := readL (fun m => tasksOf workerID (ord 0%nat) (runningTasks m)) in
    let* _ := writeL (fun m => foldl (fun m taskID => release taskID m) m tasksToRequeue) in
    Ret tasksToRequeue) in
  let* _ := each requeueOne tasksToRequeue in
  let* _ := free (fun m => let '(h, ms) := Heartbeat.RemoveWorker workerID (heartbeat m) (metrics m) in
                           set_metrics ms (set_heartbeat h m)) in
  let* _ := free (on_metrics inc_WorkerDisconnects) in
  let* _ := (if (0 <? length tasksToRequeue)%nat
             then free (on_metrics (add_TasksRequeued "dead_worker" (Z.of_nat (length tasksToRequeue))))
             else Ret tt) in
  Ret None.

Definition UpdateWorkerHeartbeat (workerID : string) (timestampMs : Z) (tasks : list string) : P unit :=
  free (fun m => let '(h, ms) := UpdateHeartbeat workerID timestampMs tasks (heartbeat m) (metrics m) in
                 set_metrics ms (set_heartbeat h m)).

Definition heartbeatTick : P unit :=
  let* nowMs := tx now in
  let* ord := nextOrders 1 in
  let* deadWorkers := Free (fun m => (m, GetDeadWorkers (ord 0%nat) nowMs (heartbeat m))) Ret in
  each (fun workerID =>
    let* _ := HandleDeadWorker workerID in
    free (fun m => set_heartbeat (forget workerID (heartbeat m)) m)) deadWorkers.

(** ** The calls of clients, workers and timers *)

Inductive call :=
  | CallSubmit (workflow : WorkflowSpec)
  | CallCancel (workflowID : string)
  | CallRequest (workerID : string)
  | CallHeartbeat (workerID : string) (timestampMs : Z) (tasks : list string)
  | CallComplete (taskID executionID output : string)
  | CallFail (taskID executionID errMsg : string)
  | CallTick.

Definition body (a : call) : P unit :=
  match a with
  | CallSubmit w => let* _ := SubmitWorkflow w in Ret tt
  | CallCancel w => let* _ := CancelWorkflow w in Ret tt
  | CallRequest w => let* _ := GetReadyTask w in Ret tt
  | CallHeartbeat w t l => UpdateWorkerHeartbeat w t l
  | CallComplete k e o => let* _ := CompleteTask k e o in Ret tt
  | CallFail k e msg => let* _ := FailTask k e msg in Ret tt
  | CallTick => heartbeatTick
  end.

(** The same call, served alone. *)
Definition handler (a : call) : M (Coordinator D) unit :=
  match a with
  | CallSubmit w => bind (Coordinator.SubmitWorkflow w) (fun _ => ret tt)
  | CallCancel w => bind (Coordinator.CancelWorkflow w) (fun _ => ret tt)
  | CallRequest w => bind (Coordinator.GetReadyTask w) (fun _ => ret tt)
  | CallHeartbeat w t l => Coordinator.UpdateWorkerHeartbeat w t l
  | CallComplete k e o => bind (Coordinator.CompleteTask k e o) (fun _ => ret tt)
  | CallFail k e msg => bind (Coordinator.FailTask k e msg) (fun _ => ret tt)
  | CallTick => Coordinator.heartbeatTick
  end.

(** ** Interleaving *)

(** The coordinator, the holder of [c.mu] and the threads. *)
Record config := mkConfig { coord : Coordinator D; holder : option nat; threads : list (P unit) }.

Inductive scheduled :=
  | Blocked
  | Stepped (g : config)
  | Died (st : St D).

(** One action of thread [i]. *)
Definition sched (i : nat) (g : config) : scheduled :=
  let next c h p := Stepped (mkConfig c h (<[i := p]> (threads g))) in
  let c := coord g in
  match threads g !! i with
  | None | Some (Ret _) => Blocked
  | Some (Lock k) => match holder g with None => next c (Some i) k | Some _ => Blocked end
  | Some (Unlock k) => if decide (holder g = Some i) then next c None k else Blocked
  | Some (Local f k) | Some (Free f k) =>
      let '(m, x) := f (mem c) in next (mkCoordinator (state c) m) (holder g) (k x)
  | Some (Tx m k) =>
      match m (state c) with
      | Done s x => next (mkCoordinator s (mem c)) (holder g) (k x)
      | Crashed s => Died s
      end
  end.

(** A call arrives, or a thread acts. *)
Inductive step : config -> config -> Prop :=
  | step_call a g : step g (mkConfig (coord g) (holder g) (threads g ++ [body a]))
  | step_sched i g g' : sched i g = Stepped g' -> step g g'.

Definition steps : config -> config -> Prop := rtc step.

Definition idle (c : Coordinator D) : config := mkConfig c None [].

(** A schedule: the threads that act, in order. *)
Fixpoint schedule (l : list nat) (g : config) : scheduled :=
  match l with
  | [] => Stepped g
  | i :: l => match sched i g with Stepped g => schedule l g | r => r end
  end.

End Threads.
End Threads.
