(* ===== verification/LockDiscipline.v ===== *)
(** * The programs of the threads

    Alone, a thread does what the handler of [Coordinator] does; and every thread
    keeps the locking discipline of [c.mu]. *)

From S2P Require Import Prelude Proto Env RecordDB Store Dag Heartbeat Coordinator Dashboard Service Concurrent.
Import Threads.

Create HintDb same discriminated.
Create HintDb disciplined discriminated.

Section Sequential.
Context `{Env} {D : Type} `{RecordDB D}.

(** The program and the handler are the same code. *)
Definition same {A} (p : prog D A) (h : M (Coordinator D) A) : Prop := forall c, run p c = h c.

Lemma run_pbind {A B} (p : prog D A) (k : A -> prog D B) c :
  run (pbind p k) c = bind (run p) (fun a => run (k a)) c.
Proof.
  revert c. induction p as [a | p IH | p IH | X f p IH | X f p IH | X m p IH]; intros c; simpl; try done.
  - unfold bind in *. destruct (f (mem c)). apply IH.
  - unfold bind in *. destruct (f (mem c)). apply IH.
  - unfold bind in *. destruct (onStore m c); [apply IH | done].
Qed.

Lemma same_ret {A} (a : A) : same (Ret a) (ret a).
Proof. done. Qed.

Lemma same_bind {A B} p h (k : A -> prog D B) k' : same p h -> (forall a, same (k a) (k' a)) -> same (pbind p k) (bind h k').
Proof. intros Hp Hk c. rewrite run_pbind. unfold bind. rewrite Hp. destruct (h c); [apply Hk | done]. Qed.

Lemma same_tx {A} (m : M (St D) A) : same (tx m) (onStore m).
Proof. intros c. simpl. unfold bind, onStore, zoom. by destruct (m (state c)). Qed.

Lemma same_panic {A} : same (tx (panic (A := A))) panic.
Proof. by intros []. Qed.

Lemma same_readL {A} (f : Mem -> A) : same (readL f) (getm f).
Proof. by intros []. Qed.

Lemma same_writeL f : same (writeL f) (modm f).
Proof. by intros c. Qed.

Lemma same_free f : same (free f) (modm f).
Proof. by intros c. Qed.

Lemma same_look {A} (f : Mem -> A) : same (Free (fun m => (m, f m)) Ret) (getm f).
Proof. by intros []. Qed.

Lemma same_newUUID : same newUUID Coordinator.newUUID.
Proof. by intros []. Qed.

Lemma same_nextOrders k : same (nextOrders k) (Coordinator.nextOrders k).
Proof. by intros []. Qed.

Lemma same_locked {A} (p : prog D A) h : same p h -> same (locked p) h.
Proof. intros Hp c. simpl. rewrite run_pbind. unfold bind. rewrite Hp. by destruct (h c). Qed.

(** Brackets and nesting that the handlers do not have. *)
Lemma same_unlocked {A B} (p : prog D A) (k : A -> prog D B) h : same (pbind p k) h -> same (pbind (locked p) k) h.
Proof.
  intros Hp c. rewrite <- Hp, !run_pbind. unfold bind at 1. by rewrite (same_locked _ (run p)).
Qed.

Lemma same_assoc {A B C} (p : prog D A) (f : A -> prog D B) (k : B -> prog D C) h :
  same (pbind p (fun a => pbind (f a) k)) h -> same (pbind (pbind p f) k) h.
Proof.
  intros Hp c. rewrite <- Hp, !run_pbind. unfold bind. rewrite run_pbind. unfold bind.
  destruct (run p c) as [c' a|]; [|done]. by rewrite run_pbind.
Qed.

Lemma same_each {X} (f : X -> prog D unit) h l :
  (forall x, same (f x) (h x)) -> same (each f l) (foldM (fun _ x => h x) tt l).
Proof.
  intros Hf. induction l as [|x l IH]; simpl; [apply same_ret |]. apply same_bind; [apply Hf |]. by intros [].
Qed.

Lemma same_forEach {X} (f : X -> prog D (option GoError)) (h : unit -> X -> M (Coordinator D) (unit * option GoError)) l :
  (forall x c, bind (h tt x) (fun r => ret r.2) c = run (f x) c) ->
  same (forEach f l) (bind (Prelude.forEach h tt l) (fun r => ret r.2)).
Proof.
  intros Hf. induction l as [|x l IH]; intros c; [done |]. simpl. rewrite run_pbind. unfold bind in *.
  rewrite <- Hf. destruct (h tt x c) as [c' [[] [e|]]|]; simpl; [done | apply IH | done].
Qed.

#[local] Hint Resolve same_ret same_tx same_panic same_readL same_writeL same_free same_look same_newUUID same_nextOrders : same.

(** Follow the two texts. *)
Ltac same_go :=
  repeat first
    [ solve [auto with same nocore]
    | match goal with
      | |- same (pbind (locked _) _) _ => apply same_unlocked
      | |- same (pbind (pbind _ _) _) _ => apply same_assoc
      | |- same (pbind (Ret ?a) ?k) _ => change (pbind (Ret a) k) with (k a); cbv beta; cbn [fst snd]
      | |- same (pbind (match ?x with _ => _ end) _) _ => destruct x
      | |- same (locked _) _ => apply same_locked
      | |- same (pbind _ _) (bind _ _) => apply same_bind; [| intros ?]
      | |- same (each _ _) (foldM _ _ _) => apply same_each; intros ?
      | |- same (match ?x with _ => _ end) _ => destruct x
      end
    | progress unfold orElse; cbv zeta; simpl fst; simpl snd ].

Lemma same_SubmitWorkflow w : same (SubmitWorkflow w) (Coordinator.SubmitWorkflow w).
Proof.
  unfold SubmitWorkflow, Coordinator.SubmitWorkflow. same_go.
  apply same_forEach. intros k c. symmetry. rewrite run_pbind. unfold bind.
  rewrite same_tx. destruct (onStore _ c) as [c' [e|]|]; done.
Qed.

Lemma same_GetReadyTask w : same (GetReadyTask w) (Coordinator.GetReadyTask w).
Proof. unfold GetReadyTask, Coordinator.GetReadyTask. same_go. Qed.

Lemma same_checkWorkflowCompletion w : same (checkWorkflowCompletion w) (Coordinator.checkWorkflowCompletion w).
Proof. unfold checkWorkflowCompletion, Coordinator.checkWorkflowCompletion. same_go. Qed.
#[local] Hint Resolve same_checkWorkflowCompletion : same.

Lemma same_CompleteTask k e o : same (CompleteTask k e o) (Coordinator.CompleteTask k e o).
Proof. unfold CompleteTask, Coordinator.CompleteTask, taskWorkflowID, Coordinator.taskWorkflowID. same_go. Qed.

(** A store operation of several transactions. *)
Lemma same_onStore_bind {A B} p (m : M (St D) A) (k : A -> M (St D) B) :
  same p (bind (onStore m) (fun a => onStore (k a))) -> same p (onStore (bind m k)).
Proof.
  intros Hp c. rewrite Hp. unfold bind, onStore, zoom. destruct (m (state c)) as [s a|]; [|done]. simpl.
  by destruct (k a s).
Qed.

Lemma same_onStore_ret {A} (a : A) : same (Ret a) (onStore (ret a)).
Proof. by intros []. Qed.

Lemma same_skipLoop n v q l : same (skipLoop n v q l) (onStore (Store.skipLoop n v q l)).
Proof.
  revert v q l. induction n as [|n IH]; intros v [|k q] l; cbn [skipLoop Store.skipLoop]; try apply same_onStore_ret.
  destruct (bool_decide _); [apply IH |]. apply same_onStore_bind, same_bind; [apply same_tx |]. intros [e|r]; [apply IH |].
  destruct (is_terminal _); [apply IH |]. apply same_onStore_bind, same_bind; [apply same_tx |]. intros [e|]; apply IH.
Qed.

Lemma same_SkipDownstreamTasks k : same (SkipDownstreamTasks k) (onStore (Store.SkipDownstreamTasks k)).
Proof.
  unfold SkipDownstreamTasks. intros c.
  transitivity (onStore (bind (readFailed k) (fun f => match f.1 with
    | inl e => ret ([], Some e)
    | inr t => let! p := Store.skipLoop (S (length (TR.DownstreamTaskIDs t) + f.2)) ∅ (TR.DownstreamTaskIDs t) [] in ret (p.2, None)
    end)) c).
  - revert c. apply same_onStore_bind, same_bind; [apply same_tx |]. intros [[e|r] n]; [apply same_onStore_ret |].
    apply same_onStore_bind, same_bind; [apply same_skipLoop |]. intros p. apply same_onStore_ret.
  - unfold onStore, zoom, readFailed, Store.SkipDownstreamTasks, bind, gets, ret. by destruct (GetTask k (state c)) as [s [e|r]|s].
Qed.
#[local] Hint Resolve same_SkipDownstreamTasks : same.

Lemma same_applyFailurePolicy w k p : same (applyFailurePolicy w k p) (Coordinator.applyFailurePolicy w k p).
Proof. unfold applyFailurePolicy, Coordinator.applyFailurePolicy. same_go. Qed.
#[local] Hint Resolve same_applyFailurePolicy : same.

Lemma same_FailTask k e msg : same (FailTask k e msg) (Coordinator.FailTask k e msg).
Proof. unfold FailTask, Coordinator.FailTask, Coordinator.taskWorkflowID. same_go. Qed.

Lemma same_CancelWorkflow w : same (CancelWorkflow w) (Coordinator.CancelWorkflow w).
Proof. unfold CancelWorkflow, Coordinator.CancelWorkflow. same_go. Qed.

Lemma same_requeueOne k : same (requeueOne k) (Coordinator.requeueOne k).
Proof. unfold requeueOne, Coordinator.requeueOne. same_go. Qed.
#[local] Hint Resolve same_requeueOne : same.

Lemma same_HandleDeadWorker w : same (HandleDeadWorker w) (Coordinator.HandleDeadWorker w).
Proof. unfold HandleDeadWorker, Coordinator.HandleDeadWorker. same_go. Qed.
#[local] Hint Resolve same_HandleDeadWorker : same.

Lemma same_heartbeatTick : same heartbeatTick Coordinator.heartbeatTick.
Proof. unfold heartbeatTick, Coordinator.heartbeatTick. same_go. Qed.

Lemma same_body a : same (body a) (handler a).
Proof.
  destruct a; cbn [body handler]; try (apply same_bind; [|intros ?; apply same_ret]);
  auto using same_SubmitWorkflow, same_CancelWorkflow, same_GetReadyTask, same_CompleteTask, same_FailTask, same_heartbeatTick.
  apply same_free.
Qed.

End Sequential.

(** ** The discipline *)

(** What [c.mu] guards, and the rest of the memory. *)
Definition guarded (m : Mem) :=
  (readyQueue m, runningTasks m, assignedTasks m, taskSpecCache m, taskWorkflowMap m, workflowFailurePolicy m).
Definition unguarded (m : Mem) :=
  (heartbeat m, metrics m, uuids m, orders m,
   (deadWorkersHandled m, recoveryPrepareCount m, lastDeadWorkerAtMs m, lastRecoveryStartedAtMs m)).

(** An access that needs no lock: it leaves the guarded fields alone and does not
    depend on them. *)
Definition lockless {X} (f : Mem -> Mem * X) : Prop :=
  (forall m, guarded (f m).1 = guarded m) /\
  (forall m m', unguarded m = unguarded m' -> (f m).2 = (f m').2 /\ unguarded (f m).1 = unguarded (f m').1).

Section Discipline.
Context `{Env} {D : Type} `{RecordDB D}.

(** A program that starts with [c.mu] held or not, accesses the guarded fields only
    while it holds it, never acquires it twice, and ends as [after] says. *)
Fixpoint disciplined {A} (held : bool) (p : prog D A) (after : bool) : Prop :=
  match p with
  | Ret _ => held = after
  | Lock k => held = false /\ disciplined true k after
  | Unlock k => held = true /\ disciplined false k after
  | Local f k => held = true /\ forall x, disciplined true (k x) after
  | Free f k => lockless f /\ forall x, disciplined held (k x) after
  | Tx m k => forall x, disciplined held (k x) after
  end.

Lemma disciplined_bind {A B} h h1 h2 (p : prog D A) (k : A -> prog D B) :
  disciplined h p h1 -> (forall a, disciplined h1 (k a) h2) -> disciplined h (pbind p k) h2.
Proof.
  intros Hp Hk. revert h Hp. induction p as [a | p IH | p IH | X f p IH | X f p IH | X m p IH]; intros h Hp; simpl in *;
  [by subst h | destruct Hp; auto.. | auto].
Qed.

Lemma disciplined_locked {A} (p : prog D A) : disciplined true p true -> disciplined false (locked p) false.
Proof. intros Hp. split; [done |]. by eapply disciplined_bind. Qed.

Lemma disciplined_each {X} (f : X -> prog D unit) l :
  (forall x, disciplined false (f x) false) -> disciplined false (each f l) false.
Proof. intros Hf. induction l as [|x l IH]; simpl; [done |]. by eapply disciplined_bind. Qed.

Lemma disciplined_forEach {X} (f : X -> prog D (option GoError)) l :
  (forall x, disciplined true (f x) true) -> disciplined true (forEach f l) true.
Proof.
  intros Hf. induction l as [|x l IH]; simpl; [done |]. eapply disciplined_bind; [done |]. by intros [e|].
Qed.

Lemma disciplined_tx {A} h (m : M (St D) A) : disciplined h (tx m) h.
Proof. done. Qed.

Lemma disciplined_free h f : lockless (fun m => (f m, tt)) -> disciplined h (free (D := D) f) h.
Proof. done. Qed.

Lemma disciplined_newUUID h : disciplined h (newUUID (D := D)) h.
Proof. split; [|done]. split; [by intros [] |]. intros [] [] [=]; simpl in *; subst; done. Qed.

Lemma disciplined_nextOrders h k : disciplined h (nextOrders (D := D) k) h.
Proof. split; [|done]. split; [by intros [] |]. intros [] [] [=]; simpl in *; subst; done. Qed.

Lemma lockless_metrics f : lockless (fun m => (on_metrics f m, tt)).
Proof. split; [by intros [] |]. intros [] [] [=]; simpl in *; subst; done. Qed.

#[local] Hint Resolve disciplined_tx disciplined_newUUID disciplined_nextOrders : disciplined.

(** Follow the code, with the lock held or not. *)
Ltac discipline :=
  repeat first
    [ done
    | solve [auto with disciplined nocore]
    | match goal with
      | |- disciplined _ (pbind _ _) _ => eapply disciplined_bind; [| intros ?]
      | |- disciplined false (locked _) _ => apply disciplined_locked
      | |- disciplined false (each _ _) _ => apply disciplined_each; intros ?
      | |- disciplined true (forEach _ _) _ => apply disciplined_forEach; intros ?
      | |- disciplined _ (Free _ Ret) _ => split; [split; [by intros [] | intros [] [] [=]; simpl in *; subst; done] | done]
      | |- disciplined _ (free (on_metrics _)) _ => apply disciplined_free, lockless_metrics
      | |- disciplined _ (free _) _ => apply disciplined_free; split; [by intros [] | intros [] [] [=]; simpl in *; subst; done]
      | |- disciplined _ (match ?x with _ => _ end) _ => destruct x
      end ].

Lemma disciplined_SubmitWorkflow w : disciplined false (SubmitWorkflow (D := D) w) false.
Proof. unfold SubmitWorkflow. discipline. Qed.

Lemma disciplined_GetReadyTask w : disciplined false (GetReadyTask (D := D) w) false.
Proof. unfold GetReadyTask. discipline. Qed.

Lemma disciplined_checkWorkflowCompletion w : disciplined false (checkWorkflowCompletion (D := D) w) false.
Proof. unfold checkWorkflowCompletion. discipline. Qed.
#[local] Hint Resolve disciplined_checkWorkflowCompletion : disciplined.

Lemma disciplined_CompleteTask k e o : disciplined false (CompleteTask (D := D) k e o) false.
Proof. unfold CompleteTask, taskWorkflowID. discipline. Qed.

Lemma disciplined_skipLoop n v q l : disciplined false (skipLoop (D := D) n v q l) false.
Proof.
  revert v q l. induction n as [|n IH]; intros v [|k q] l; cbn [skipLoop]; cbv zeta; discipline; apply IH.
Qed.
#[local] Hint Resolve disciplined_skipLoop : disciplined.

Lemma disciplined_applyFailurePolicy w k p : disciplined false (applyFailurePolicy (D := D) w k p) false.
Proof. unfold applyFailurePolicy, SkipDownstreamTasks. cbv zeta. discipline. Qed.
#[local] Hint Resolve disciplined_applyFailurePolicy : disciplined.

Lemma disciplined_FailTask k e msg : disciplined false (FailTask (D := D) k e msg) false.
Proof. unfold FailTask. cbv zeta. discipline. Qed.

Lemma disciplined_HandleDeadWorker w : disciplined false (HandleDeadWorker (D := D) w) false.
Proof. unfold HandleDeadWorker, requeueOne. discipline. Qed.
#[local] Hint Resolve disciplined_HandleDeadWorker : disciplined.

Lemma disciplined_body a : disciplined false (body (D := D) a) false.
Proof.
  destruct a; cbn [body]; unfold CancelWorkflow, heartbeatTick, UpdateWorkerHeartbeat;
  pose proof disciplined_SubmitWorkflow; pose proof disciplined_GetReadyTask;
  pose proof disciplined_CompleteTask; pose proof disciplined_FailTask; discipline.
Qed.

End Discipline.
