(* ===== verification/ConcurrentProps.v ===== *)
(** * Interleavings of the handlers

    What holds of the coordinator process under every interleaving of its threads:
    the locking discipline, and that no call is blocked for ever. *)

From S2P Require Import Prelude Proto Env RecordDB Store Dag Heartbeat Coordinator Dashboard Service Concurrent LockDiscipline.
Import Threads.

Section Discipline.
Context `{Env} {D : Type} `{RecordDB D}.

(** Every thread is disciplined, and holds [c.mu] when the configuration says so. *)
Record orderly (g : config (D := D)) : Prop := {
  ord_threads i p : threads g !! i = Some p -> disciplined (bool_decide (holder g = Some i)) p false;
  ord_holder i : holder g = Some i -> (i < length (threads g))%nat
}.

Lemma orderly_idle c : orderly (idle c).
Proof. split; done. Qed.

(** Thread [i] goes on as [p], and the lock is its or as it was. *)
Lemma orderly_next g c h i p :
  orderly g -> (i < length (threads g))%nat ->
  (h = holder g \/ (holder g = None /\ h = Some i) \/ (holder g = Some i /\ h = None)) ->
  disciplined (bool_decide (h = Some i)) p false ->
  orderly (mkConfig c h (<[i := p]> (threads g))).
Proof.
  intros [Ht Hh] Hi Hcase Hp. split; simpl.
  - intros j q Hj. destruct (decide (i = j)) as [<-|Hne].
    + rewrite list_lookup_insert_eq in Hj by done. by injection Hj as <-.
    + rewrite list_lookup_insert_ne in Hj by done. specialize (Ht j q Hj).
      assert (bool_decide (h = Some j) = bool_decide (holder g = Some j)) as ->; [|done].
      apply bool_decide_ext. destruct Hcase as [-> | [[-> ->] | [-> ->]]]; split; congruence.
  - intros j Hj. rewrite length_insert. destruct Hcase as [-> | [[_ ->] | [_ ->]]]; [by apply Hh | congruence | done].
Qed.

Lemma orderly_sched i g g' : orderly g -> sched i g = Stepped g' -> orderly g'.
Proof.
  intros Hg. unfold sched. destruct (threads g !! i) as [p|] eqn:Hi; [|done].
  pose proof (lookup_lt_Some _ _ _ Hi) as Hlt. pose proof (ord_threads g Hg i p Hi) as Hp.
  destruct p as [a | k | k | X f k | X f k | X m k]; simpl in Hp; [done | | | | |].
  - destruct Hp as [_ Hp]. destruct (holder g) eqn:E; [done |]. intros [= <-].
    apply orderly_next; [done | done | auto | by rewrite bool_decide_true].
  - destruct Hp as [Hh%bool_decide_eq_true Hp]. rewrite decide_True by done. intros [= <-].
    apply orderly_next; [done | done | auto | by rewrite bool_decide_false].
  - destruct Hp as [Hh Hp]. destruct (f _). intros [= <-]. apply orderly_next; [done | done | auto |]. by rewrite Hh.
  - destruct Hp as [_ Hp]. destruct (f _). intros [= <-]. apply orderly_next; [done | done | auto | done].
  - destruct (m _); [|done]. intros [= <-]. apply orderly_next; [done | done | auto | done].
Qed.

Lemma orderly_step g g' : orderly g -> step g g' -> orderly g'.
Proof.
  intros Hg Hs. revert Hg. destruct Hs as [a g1 | i g1 g2 E]; intros Hg; [|by eapply orderly_sched].
  destruct Hg as [Ht Hh]. split; simpl.
  - intros i p [Hi | [Hi Hp]]%lookup_app_Some; [by apply Ht |]. apply list_lookup_singleton_Some in Hp as [Hz <-].
    assert (bool_decide (holder g1 = Some i) = false) as -> by (apply bool_decide_false; intros E; apply Hh in E; lia).
    apply disciplined_body.
  - intros i Hi. rewrite length_app. specialize (Hh i Hi). lia.
Qed.

Lemma orderly_steps c g : steps (idle c) g -> orderly g.
Proof. intros Hs. pose proof (orderly_idle c) as Hc. induction Hs; [done |]. eauto using orderly_step. Qed.

(** ** Letting the threads finish *)

Lemma schedule_app l1 l2 (g : config (D := D)) :
  schedule (l1 ++ l2) g = match schedule l1 g with Stepped g' => schedule l2 g' | r => r end.
Proof. revert g. induction l1 as [|i l1 IH]; intros g; simpl; [done |]. destruct (sched i g); [done | apply IH | done]. Qed.

(** A thread that can have the lock runs to its end. *)
Definition finished (i : nat) (g : config (D := D)) (r : scheduled) : Prop :=
  match r with
  | Blocked => False
  | Stepped g' => (exists a, threads g' = <[i := Ret a]> (threads g)) /\ holder g' = None
  | Died _ => True
  end.

Lemma finished_after i g c h p l :
  finished i (mkConfig c h (<[i := p]> (threads g))) (schedule l (mkConfig c h (<[i := p]> (threads g)))) ->
  finished i g (schedule l (mkConfig c h (<[i := p]> (threads g)))).
Proof.
  destruct (schedule l _) as [| g' | s]; simpl; [done | | done].
  intros [[a ->] Hh]. split; [|done]. exists a. by rewrite list_insert_insert_eq.
Qed.

Lemma finish (p : prog D unit) : forall i g,
  threads g !! i = Some p -> disciplined (bool_decide (holder g = Some i)) p false ->
  (holder g = None \/ holder g = Some i) -> exists l, finished i g (schedule l g).
Proof.
  induction p as [a | p IH | p IH | X f p IH | X f p IH | X m p IH]; intros i g Hi Hp Hh; simpl in Hp;
  pose proof (lookup_lt_Some _ _ _ Hi) as Hlt.
  - exists []. simpl. apply bool_decide_eq_false in Hp. split; [|by destruct Hh]. exists a. by rewrite list_insert_id.
  - destruct Hp as [Hn%bool_decide_eq_false Hp]. destruct Hh as [Hh|]; [|done].
    edestruct (IH i (mkConfig (coord g) (Some i) (<[i := p]> (threads g)))) as [l Hl]; cbn [holder threads];
      [by apply list_lookup_insert_eq | by rewrite bool_decide_true | auto |].
    exists (i :: l). simpl. unfold sched. rewrite Hi, Hh. by apply finished_after.
  - destruct Hp as [Hn%bool_decide_eq_true Hp].
    edestruct (IH i (mkConfig (coord g) None (<[i := p]> (threads g)))) as [l Hl]; cbn [holder threads];
      [by apply list_lookup_insert_eq | by rewrite bool_decide_false | auto |].
    exists (i :: l). simpl. unfold sched. rewrite Hi, decide_True by done. by apply finished_after.
  - destruct Hp as [Hn Hp]. destruct (f (mem (coord g))) as [m x] eqn:E.
    edestruct (IH x i (mkConfig (mkCoordinator (state (coord g)) m) (holder g) (<[i := p x]> (threads g)))) as [l Hl]; cbn [holder threads];
      [by apply list_lookup_insert_eq | by rewrite Hn | done |].
    exists (i :: l). simpl. unfold sched. rewrite Hi, E. by apply finished_after.
  - destruct Hp as [_ Hp]. destruct (f (mem (coord g))) as [m x] eqn:E.
    edestruct (IH x i (mkConfig (mkCoordinator (state (coord g)) m) (holder g) (<[i := p x]> (threads g)))) as [l Hl]; cbn [holder threads];
      [by apply list_lookup_insert_eq | done | done |].
    exists (i :: l). simpl. unfold sched. rewrite Hi, E. by apply finished_after.
  - destruct (m (state (coord g))) as [s x|s] eqn:E; [|exists [i]; simpl; unfold sched; by rewrite Hi, E].
    edestruct (IH x i (mkConfig (mkCoordinator s (mem (coord g))) (holder g) (<[i := p x]> (threads g)))) as [l Hl]; cbn [holder threads];
      [by apply list_lookup_insert_eq | done | done |].
    exists (i :: l). simpl. unfold sched. rewrite Hi, E. by apply finished_after.
Qed.

(** Finish the thread that holds the lock, then the others one after another. *)
Definition returned (p : prog D unit) : Prop := exists a, p = Ret a.

Definition all_returned (r : scheduled (D := D)) : Prop :=
  match r with
  | Blocked => False
  | Stepped g' => Forall returned (threads g') /\ holder g' = None
  | Died _ => True
  end.

Lemma orderly_schedule l g g' : orderly g -> schedule l g = Stepped g' -> orderly g'.
Proof.
  revert g. induction l as [|i l IH]; intros g Hg; simpl; [by intros [= <-] |].
  destruct (sched i g) eqn:E; [done | | done]. apply IH. by eapply orderly_sched.
Qed.

Lemma finish_rest n : forall g, orderly g -> holder g = None -> (n <= length (threads g))%nat ->
  Forall returned (drop n (threads g)) -> exists l, all_returned (schedule l g).
Proof.
  induction n as [|n IH]; intros g Hg Hh Hn Hr; [by exists [] |].
  destruct (lookup_lt_is_Some_2 (threads g) n ltac:(lia)) as [p Hp].
  destruct (finish p n g Hp (ord_threads g Hg n p Hp) (or_introl Hh)) as [l Hl].
  destruct (schedule l g) as [| g' | s] eqn:E; simpl in Hl; [done | |exists l; by rewrite E].
  destruct Hl as [[a Ht] Hh']. destruct (IH g') as [l' Hl']; [by eapply orderly_schedule | done | rewrite Ht, length_insert; lia | |].
  - rewrite Ht, (drop_S _ (Ret a)); [|apply list_lookup_insert_eq; lia]. constructor; [by exists a |].
    by rewrite drop_insert_lt by lia.
  - exists (l ++ l'). by rewrite schedule_app, E.
Qed.

Lemma finish_all g : orderly g -> exists l, all_returned (schedule l g).
Proof.
  intros Hg. destruct (holder g) as [i|] eqn:Hh.
  - destruct (lookup_lt_is_Some_2 (threads g) i (ord_holder g Hg i Hh)) as [p Hp].
    destruct (finish p i g Hp (ord_threads g Hg i p Hp) (or_intror Hh)) as [l Hl].
    destruct (schedule l g) as [| g' | s] eqn:E; simpl in Hl; [done | |exists l; by rewrite E]. destruct Hl as [_ Hh'].
    destruct (finish_rest (length (threads g')) g') as [l' Hl']; [by eapply orderly_schedule | done | done | by rewrite drop_all |].
    exists (l ++ l'). by rewrite schedule_app, E.
  - apply (finish_rest (length (threads g)) g); [done | done | done |]. by rewrite drop_all.
Qed.

(** ** The properties *)

(** Threads and handlers. A thread that no other interrupts does what the handler
    does: the same result and the same state, or the death of the process in the
    same state. *)
Theorem threads_sequential a (c : Coordinator D) : run (body a) c = handler a c.
Proof. apply same_body. Qed.

(** C13. Mutual exclusion. Under every interleaving of any number of calls, a thread
    about to access the queue, the assignments or the caches holds [c.mu], so no two
    threads are; what threads access without it neither changes nor depends on
    those fields. *)
Theorem mutual_exclusion c g i p :
  steps (idle (D := D) c) g -> threads g !! i = Some p ->
  match p with
  | Local f k => holder g = Some i
  | Free f k => lockless f
  | _ => True
  end.
Proof.
  intros Hs%orderly_steps Hi. pose proof (ord_threads g Hs i p Hi) as Hp.
  destruct p; simpl in Hp; try done; destruct Hp as [Hp _]; [by apply bool_decide_eq_true in Hp | done].
Qed.

(** C14. No deadlock. Whatever calls have arrived and however they were interleaved
    so far, the threads can be scheduled so that every call returns and [c.mu] is
    free, unless the process dies. *)
Theorem calls_return c g : steps (idle (D := D) c) g -> exists l, all_returned (schedule l g).
Proof. intros Hs%orderly_steps. by apply finish_all. Qed.

End Discipline.
