(* ===== verification/Rely.v ===== *)
(** * Reasoning about threads under interference

    A rely/guarantee argument for the programs of [Concurrent]. Between two actions
    of a thread the others may have changed the database and, when the thread does
    not hold [c.mu], the memory; [safe] says that whatever they did within the
    bounds of [rely], the next action of the thread keeps the scheduling invariant
    and the bounds, provided it does not overwrite a record that is COMPLETE or
    FAILED ([calm]). [config_safe] is kept by every calm step of the process. *)

From S2P Require Import Prelude Proto Codec Env RecordDB Store StoreRefinement StoreSpec Dag Heartbeat.
From S2P Require Import Coordinator CoordinatorRefinement Invariant CoordinatorInv Concurrent LockDiscipline ConcurrentProps.
Import Threads.

(** ** What changes *)

(** No final record is overwritten. *)
Definition calm (d d' : AbsDB) : Prop :=
  forall k r, AbsDB.tasks d !! k = Some r -> TR.State r = TASK_COMPLETE \/ TR.State r = TASK_FAILED ->
    AbsDB.tasks d' !! k = Some r.

(** Records advance, and none goes back to PENDING. *)
Record grows (T T' : Tasks) : Prop := {
  gr_advances : advances T T';
  gr_started k r r' : T !! k = Some r -> T' !! k = Some r' -> TR.State r <> TASK_PENDING -> TR.State r' <> TASK_PENDING
}.

#[export] Instance grows_preorder : PreOrder grows.
Proof.
  split.
  - intros T. split; [done |]. intros. by simplify_eq.
  - intros T1 T2 T3 [A1 B1] [A2 B2]. split; [by etrans |]. intros k r1 r3 H1 H3 Hp.
    destruct (adv_record _ _ A1 k r1 H1) as (r2 & H2 & _). eauto.
Qed.

(** A task whose dependencies are COMPLETE and that was made ready. *)
Definition open (T : Tasks) (k : string) : Prop :=
  unblocked_task T k /\ forall r, T !! k = Some r -> TR.State r <> TASK_PENDING.

Lemma unblocked_grows T T' k : grows T T' -> unblocked_task T k -> unblocked_task T' k.
Proof. intros [Ha _]. by apply unblocked_advances. Qed.

Lemma open_grows T T' k : grows T T' -> open T k -> open T' k.
Proof.
  intros Hg [Hu Hp]. split; [by eapply unblocked_grows |]. destruct Hu as [[r Hr] _]. intros r' Hr'.
  by eapply (gr_started _ _ Hg); [| | apply Hp].
Qed.

(** What [c.mu] protects: queued and assigned tasks may run. *)
Record linv (T : Tasks) (m : Mem) : Prop := {
  li_queue k : k ∈ readyQueue m -> open T k;
  li_assigned k e : assignedTasks m !! k = Some e -> open T k;
  li_running : dom (runningTasks m) = dom (assignedTasks m)
}.

Lemma linv_grows T T' m m' : guarded m' = guarded m -> grows T T' -> linv T m -> linv T' m'.
Proof. intros [= E1 E2 E3 _ _ _] Hg [H1 H2 H3]. split; rewrite ?E1, ?E2, ?E3; eauto using open_grows. Qed.

(** ** Submissions in flight *)

(** A thread that submits a workflow has the ids of its tasks and its workflow id
    for itself. *)
Definition claimed (o : option WorkflowSpec) (k : string) : Prop :=
  match o with Some w => k ∈ ids (WF.Tasks w) | None => False end.

Definition separate (o o' : option WorkflowSpec) : Prop :=
  (forall k, claimed o k -> claimed o' k -> False) /\
  (forall w w', o = Some w -> o' = Some w' -> WF.WorkflowId w <> WF.WorkflowId w').

(** What the others may do, and what a thread may do. *)
Record rely (o : option WorkflowSpec) (d d' : AbsDB) : Prop := {
  rl_grows : grows (AbsDB.tasks d) (AbsDB.tasks d');
  rl_claim k : claimed o k -> AbsDB.tasks d !! k = None -> AbsDB.tasks d' !! k = None;
  rl_workflow w : o = Some w -> AbsDB.workflows d' !! WF.WorkflowId w = AbsDB.workflows d !! WF.WorkflowId w
}.

Record guar (o : option WorkflowSpec) (d d' : AbsDB) : Prop := {
  gu_grows : grows (AbsDB.tasks d) (AbsDB.tasks d');
  gu_new k : AbsDB.tasks d !! k = None -> is_Some (AbsDB.tasks d' !! k) -> claimed o k;
  gu_workflow v : AbsDB.workflows d' !! v = AbsDB.workflows d !! v \/ exists w, o = Some w /\ v = WF.WorkflowId w
}.

#[export] Instance rely_preorder o : PreOrder (rely o).
Proof.
  split; [by split | intros d1 d2 d3 [A1 B1 C1] [A2 B2 C2]; split; [by etrans | eauto |]].
  intros w Hw. by rewrite C2, C1.
Qed.

Lemma guar_refl o d : guar o d d.
Proof. split; [done | | by left]. intros k Hk [r Hr]. congruence. Qed.

Lemma guar_rely o o' d d' : separate o o' -> guar o d d' -> rely o' d d'.
Proof.
  intros [Hs Hw] [A B C]. split; [done | |].
  - intros k Hk Hn. destruct (AbsDB.tasks d' !! k) as [r|] eqn:E; [|done].
    destruct (Hs k); [|done]. apply B; [done | by eauto].
  - intros w' ->. destruct (C (WF.WorkflowId w')) as [E | (w & -> & E)]; [done |].
    by destruct (Hw w w').
Qed.

(** Records change within the tasks there are. *)
Lemma guar_tasks o d T' :
  dom T' = dom (AbsDB.tasks d) -> grows (AbsDB.tasks d) T' -> guar o d (with_tasks T' d).
Proof.
  intros Hdom Hg. split; [done | | by left]. intros k Hk Hs. apply elem_of_dom in Hs. simpl in Hs. rewrite Hdom in Hs.
  apply elem_of_dom in Hs as [r Hr]. congruence.
Qed.

(** ** Safe programs *)

Section Safe.
Context `{Env} {D : Type} `{RecordDBLaws D}.

Definition cdb (c : Coordinator D) : AbsDB := db_abs (st_db (state c)).
Abbreviation ctasks c := (AbsDB.tasks (cdb c)).

(** From the last action of a thread with claim [o] to its next. *)
Record itf (o : option WorkflowSpec) (held : bool) (c c' : Coordinator D) : Prop := {
  it_ok : coord_ok c';
  it_inv : dbinv (cdb c');
  it_rely : rely o (cdb c) (cdb c');
  it_mem : held = true -> guarded (mem c') = guarded (mem c)
}.

Fixpoint safe {A} (o : option WorkflowSpec) (held : bool) (p : prog D A)
  (Q : bool -> A -> Coordinator D -> Prop) (c : Coordinator D) : Prop :=
  match p with
  | Ret a => Q held a c
  | Lock k => forall c', itf o held c c' -> linv (ctasks c') (mem c') -> safe o true k Q c'
  | Unlock k => forall c', itf o held c c' -> linv (ctasks c') (mem c') /\ safe o false k Q c'
  | Local f k | Free f k => forall c', itf o held c c' ->
      let '(m, x) := f (mem c') in safe o held (k x) Q (mkCoordinator (state c') m)
  | Tx m k => forall c', itf o held c c' ->
      wp m (state c')
        (fun x s => let c2 := mkCoordinator s (mem c') in
           calm (cdb c') (cdb c2) -> (coord_ok c2 /\ dbinv (cdb c2) /\ guar o (cdb c') (cdb c2)) /\ safe o held (k x) Q c2)
        (fun s => st_ok s /\ dbinv (db_abs (st_db s)))
  end.

Lemma safe_mono {A} o h (p : prog D A) (Q Q' : bool -> A -> Coordinator D -> Prop) c :
  (forall h a c, Q h a c -> Q' h a c) -> safe o h p Q c -> safe o h p Q' c.
Proof.
  intros HQ. revert h c. induction p as [a | p IH | p IH | X f p IH | X f p IH | X m p IH]; intros h c Hp; simpl in *; auto.
  - intros c' Hc'. destruct (Hp c' Hc'). auto.
  - intros c' Hc'. specialize (Hp c' Hc'). destruct (f (mem c')). auto.
  - intros c' Hc'. specialize (Hp c' Hc'). destruct (f (mem c')). auto.
  - intros c' Hc'. eapply wp_mono; [by apply Hp | | done]. intros x s Hs Hcalm. destruct (Hs Hcalm). auto.
Qed.

Lemma safe_bind {A B} o h (p : prog D A) (k : A -> prog D B) Q c :
  safe o h p (fun h a c => safe o h (k a) Q c) c -> safe o h (pbind p k) Q c.
Proof.
  revert h c. induction p as [a | p IH | p IH | X f p IH | X f p IH | X m p IH]; intros h c Hp; simpl in *; auto.
  - intros c' Hc'. destruct (Hp c' Hc'). auto.
  - intros c' Hc'. specialize (Hp c' Hc'). destruct (f (mem c')). auto.
  - intros c' Hc'. specialize (Hp c' Hc'). destruct (f (mem c')). auto.
  - intros c' Hc'. eapply wp_mono; [by apply Hp | | done]. intros x s Hs Hcalm. destruct (Hs Hcalm). auto.
Qed.

(** A transaction, over its abstraction. *)
Lemma safe_tx {A} o h (m : M (St D) A) m' Q c :
  refines st_abs st_ok m m' ->
  (forall c', itf o h c c' ->
     wp m' (st_abs (state c'))
       (fun x s => calm (cdb c') (st_db s) -> dbinv (st_db s) /\ guar o (cdb c') (st_db s) /\
          forall c2, coord_ok c2 -> cdb c2 = st_db s -> mem c2 = mem c' -> Q h x c2)
       (fun s => dbinv (st_db s))) ->
  safe o h (tx m) Q c.
Proof.
  intros Hm Hw c' Hc'. specialize (Hw c' Hc'). specialize (Hm (state c') (it_ok _ _ _ _ Hc')).
  unfold wp in *. destruct (m (state c')) as [s x | s]; destruct Hm as [Hok Hm]; rewrite Hm in Hw; [|done].
  simpl. intros Hcalm. destruct (Hw Hcalm) as (Hi & Hg & HQ). split; [done |]. by apply HQ.
Qed.

(** ** Rules *)

Lemma itf_refl o h c : coord_ok c -> dbinv (cdb c) -> itf o h c c.
Proof. intros. by split. Qed.

Lemma itf_trans o h c1 c2 c3 : itf o h c1 c2 -> itf o h c2 c3 -> itf o h c1 c3.
Proof. intros [_ _ R1 M1] [? ? R2 M2]. split; [done | done | by etrans |]. intros E. by rewrite M2, M1. Qed.

Lemma safe_readL {A} o h (f : Mem -> A) Q c :
  (forall c', itf o h c c' -> Q h (f (mem c')) c') -> safe o h (readL f) Q c.
Proof. intros HQ [s m] Hc'. by apply (HQ (mkCoordinator s m)). Qed.

Lemma safe_writeL o h f Q c :
  (forall c', itf o h c c' -> Q h tt (set_mem f c')) -> safe o h (writeL f) Q c.
Proof. intros HQ c' Hc'. by apply HQ. Qed.

Lemma safe_free o h f Q c :
  (forall c', itf o h c c' -> Q h tt (set_mem f c')) -> safe o h (free f) Q c.
Proof. intros HQ c' Hc'. by apply HQ. Qed.

(** A critical section starts and ends with the invariant of the lock. *)
Lemma safe_locked {A} o (p : prog D A) Q c :
  (forall c', itf o false c c' -> linv (ctasks c') (mem c') ->
     safe o true p (fun h a c2 => linv (ctasks c2) (mem c2) /\ h = true /\ forall c3, itf o true c2 c3 -> Q false a c3) c') ->
  safe o false (locked p) Q c.
Proof.
  intros Hp c' Hc' Hl. apply safe_bind. eapply safe_mono; [|by apply Hp]. intros h a c2 (Hl2 & -> & HQ) c3 Hc3.
  split; [|by apply HQ]. eapply linv_grows; [by apply Hc3 | apply Hc3 | done].
Qed.

(** ** The whole process *)

Record config_safe (g : config (D := D)) (cl : list (option WorkflowSpec)) : Prop := {
  cs_orderly : orderly g;
  cs_ok : coord_ok (coord g);
  cs_inv : dbinv (cdb (coord g));
  cs_lock : holder g = None -> linv (ctasks (coord g)) (mem (coord g));
  cs_claims : length cl = length (threads g);
  cs_separate i j o o' : cl !! i = Some o -> cl !! j = Some o' -> i <> j -> separate o o';
  cs_threads i p o : threads g !! i = Some p -> cl !! i = Some o ->
    exists c0, itf o (bool_decide (holder g = Some i)) c0 (coord g) /\
      safe o (bool_decide (holder g = Some i)) p (fun _ _ _ => True) c0
}.

(** Thread [i] has moved the coordinator to [c] and goes on as [p]. *)
Lemma config_next g cl i o c h p :
  config_safe g cl -> cl !! i = Some o ->
  coord_ok c -> dbinv (cdb c) -> guar o (cdb (coord g)) (cdb c) ->
  (guarded (mem c) = guarded (mem (coord g)) \/ holder g = Some i) ->
  (h = holder g \/ (holder g = None /\ h = Some i) \/ (holder g = Some i /\ h = None)) ->
  (h = None -> linv (ctasks c) (mem c)) ->
  orderly (mkConfig c h (<[i := p]> (threads g))) ->
  safe o (bool_decide (h = Some i)) p (fun _ _ _ => True) c ->
  config_safe (mkConfig c h (<[i := p]> (threads g))) cl.
Proof.
  intros Hg Hi Hok Hinv Hgu Hmem Hh Hl Hord Hp.
  split; simpl; [done | done | done | done | by rewrite length_insert, (cs_claims _ _ Hg) | apply Hg |].
  intros j q o' Hj Ho'. destruct (decide (i = j)) as [<-|Hne].
  - assert (o' = o) as -> by congruence. exists c. split; [by apply itf_refl |].
    rewrite list_lookup_insert_eq in Hj; [by injection Hj as <- |]. apply lookup_lt_Some in Hj. by rewrite length_insert in Hj.
  - rewrite list_lookup_insert_ne in Hj by done. destruct (cs_threads _ _ Hg j q o' Hj Ho') as (c0 & Hc0 & Hq).
    assert (bool_decide (h = Some j) = bool_decide (holder g = Some j)) as ->.
    { apply bool_decide_ext. destruct Hh as [-> | [[-> ->] | [-> ->]]]; split; congruence. }
    exists c0. split; [|done]. eapply itf_trans; [exact Hc0 |]. split; [done | done | |].
    + apply (guar_rely o o'); [by apply (cs_separate _ _ Hg i j) | done].
    + intros Hj'%bool_decide_eq_true. destruct Hmem as [|Hmem]; [done |]. congruence.
Qed.

(** A calm action. *)
Lemma config_sched g g' cl i :
  config_safe g cl -> sched i g = Stepped g' -> calm (cdb (coord g)) (cdb (coord g')) -> config_safe g' cl.
Proof.
  intros Hg E Hcalm. pose proof (orderly_sched _ _ _ (cs_orderly _ _ Hg) E) as Hord. revert E Hcalm Hord. unfold sched.
  destruct (threads g !! i) as [p|] eqn:Hi; [|done].
  destruct (lookup_lt_is_Some_2 cl i) as [o Ho]; [rewrite (cs_claims _ _ Hg); by eapply lookup_lt_Some |].
  destruct (cs_threads _ _ Hg i p o Hi Ho) as (c0 & Hc0 & Hp). pose proof (ord_threads g (cs_orderly _ _ Hg) i p Hi) as Hd.
  pose proof (cs_ok _ _ Hg) as Hok. pose proof (cs_inv _ _ Hg) as Hinv.
  destruct p as [a | k | k | X f k | X f k | X m k]; simpl in Hp, Hd; [done | | | | |].
  - destruct (holder g) eqn:Hh; [done |]. intros [= <-] _ Hord. specialize (Hp _ Hc0 (cs_lock _ _ Hg Hh)).
    eapply config_next; eauto using guar_refl; try done; by rewrite bool_decide_true.
  - destruct Hd as [Hh%bool_decide_eq_true _]. rewrite decide_True by done. intros [= <-] _ Hord.
    destruct (Hp _ Hc0) as [Hl Hk]. eapply config_next; eauto using guar_refl; try done; by rewrite bool_decide_false.
  - destruct Hd as [Hh _]. specialize (Hp _ Hc0). destruct (f _) as [m x]. intros [= <-] _ Hord.
    apply bool_decide_eq_true in Hh as Hh'. eapply config_next; eauto using guar_refl; try done; by rewrite Hh'.
  - destruct Hd as [[Hf _] _]. specialize (Hp _ Hc0). specialize (Hf (mem (coord g))). destruct (f _) as [m x].
    intros [= <-] _ Hord. eapply config_next; eauto using guar_refl; try done.
    intros Hn. eapply linv_grows; [done | | by apply Hg]. done.
  - specialize (Hp _ Hc0). unfold wp in Hp. destruct (m _) as [s x|]; [|done]. intros [= <-] Hcalm Hord.
    destruct (Hp Hcalm) as ((Hok' & Hinv' & Hgu) & Hk). eapply config_next; eauto; try done.
    intros Hn. eapply linv_grows; [done | apply Hgu | by apply Hg].
Qed.

(** A kill in a transaction leaves a database to start from. *)
Lemma config_died g cl i s : config_safe g cl -> sched i g = Died s -> st_ok s /\ dbinv (db_abs (st_db s)).
Proof.
  intros Hg. unfold sched. destruct (threads g !! i) as [p|] eqn:Hi; [|done].
  destruct (lookup_lt_is_Some_2 cl i) as [o Ho]; [rewrite (cs_claims _ _ Hg); by eapply lookup_lt_Some |].
  destruct (cs_threads _ _ Hg i p o Hi Ho) as (c0 & Hc0 & Hp).
  destruct p as [a | k | k | X f k | X f k | X m k]; simpl in Hp; try (by repeat case_match).
  specialize (Hp _ Hc0). unfold wp in Hp. destruct (m _) as [|s']; [done |]. by intros [= <-].
Qed.

End Safe.
