(* ===== verification/RelyHandlers.v ===== *)
(** * The handlers are safe under interference

    [safe] for the program of every handler of [Concurrent]. *)

From S2P Require Import Prelude Proto Codec Env RecordDB Store StoreRefinement StoreSpec Skip Dag DagProps Heartbeat.
From S2P Require Import Coordinator CoordinatorRefinement Invariant CoordinatorInv Submission.
From S2P Require Import Concurrent LockDiscipline ConcurrentProps Rely.
Import Threads.

(** ** Transactions that complete nothing *)

Definition tame (d d' : AbsDB) : Prop :=
  AbsDB.workflows d' = AbsDB.workflows d /\ quiet (AbsDB.tasks d) (AbsDB.tasks d').

Lemma quiet_refl T : quiet T T.
Proof. intros k. destruct (T !! k); constructor. apply moves_refl. Qed.

Lemma quiet_grows T T' : quiet T T' -> grows T T'.
Proof.
  intros Hq. split; [by apply quiet_advances |]. intros k r r' Hr Hr' Hp.
  destruct (quiet_lookup _ _ _ _ Hq Hr') as (r0 & Hr0 & Hm). simplify_eq.
  destruct Hm as [-> | (_ & _ & _ & _ & _ & _ & _ & Hs & _)]; [done |]. states. lia.
Qed.

Lemma tame_same d d' : AbsDB.workflows d' = AbsDB.workflows d -> AbsDB.tasks d' = AbsDB.tasks d -> tame d d'.
Proof. intros Hw Ht. split; [done |]. rewrite Ht. apply quiet_refl. Qed.

Lemma tame_dbinv d d' : tame d d' -> dbinv d -> dbinv d'.
Proof.
  intros [Hw Hq] [Ht He]. split; [by eapply quiet_tasks_inv |].
  by eapply (edges_advance d); [| exact (quiet_dom _ _ Hq) | exact (quiet_advances _ _ Hq) |].
Qed.

Lemma tame_guar o d d' : tame d d' -> guar o d d'.
Proof.
  intros [Hw Hq]. split; [by apply quiet_grows | | intros v; left; by rewrite Hw].
  intros k Hk Hs. apply elem_of_dom in Hs. rewrite (quiet_dom _ _ Hq) in Hs. apply elem_of_dom in Hs as [r Hr]. congruence.
Qed.

(** The state of one task is rewritten; a calm transaction rewrites no final record. *)
Lemma rewritten_tame d d' k st ex :
  rewritten k st ex d d' -> calm d d' ->
  (st = TASK_SKIPPED \/ (blockers (AbsDB.tasks d) k = 0%nat /\ (st = TASK_QUEUED \/ st = TASK_RUNNING \/ st = TASK_FAILED))) ->
  tame d d' /\ (blockers (AbsDB.tasks d) k = 0%nat -> open (AbsDB.tasks d') k).
Proof.
  intros (r & r' & Hr & -> & H1 & H2 & H3 & H4 & H5 & Hs & _ & _ & Hat) Hcalm Hst. simpl.
  assert (TR.State r = TASK_COMPLETE \/ TR.State r = TASK_FAILED -> r' = r) as Hfin.
  { intros Hf. specialize (Hcalm k r Hr Hf). simpl in Hcalm. rewrite lookup_insert_eq in Hcalm. by injection Hcalm. }
  assert (quiet (AbsDB.tasks d) (<[k := r']> (AbsDB.tasks d))) as Hq.
  { eapply quiet_insert; [done |]. destruct (decide (TR.State r = TASK_COMPLETE \/ TR.State r = TASK_FAILED)) as [Hf|Hf].
    - left. by apply Hfin.
    - right. rewrite Hs. split_and!; auto. }
  split; [done |]. intros Hb. split; [split; [rewrite lookup_insert_eq; eauto | by rewrite (quiet_blockers _ _ k Hq)] |].
  intros r0. rewrite lookup_insert_eq. intros [= <-]. rewrite Hs. states. lia.
Qed.

(** A result is stored; a calm transaction stores none over a failure. *)
Lemma completed_step o d d' k e output ready :
  dbinv d -> calm d d' -> open (AbsDB.tasks d) k -> completed k e output d d' ready ->
  dbinv d' /\ guar o d d' /\ forall x, x ∈ ready -> open (AbsDB.tasks d') x.
Proof.
  intros Hi Hcalm [[_ Hb] Hp] Hcmp. destruct (completed_winner _ _ _ _ _ _ Hcmp) as (rec & Hrec & Hst & _).
  destruct Hcmp as [(r & Hr & _ & [(_ & -> & ->) | (Hc & tm & T' & Hu & ->)])].
  { split_and!; [done | apply guar_refl |]. by intros x ?%elem_of_nil. }
  specialize (Hp r Hr). assert (TR.State r <> TASK_FAILED) as Hf.
  { intros Hf. specialize (Hcalm k r Hr ltac:(by right)). rewrite Hcalm in Hrec. injection Hrec as <-. by rewrite Hf in Hst. }
  destruct (completed_dbinv d k r output tm T' ready) as (S1 & Hi' & Ha & Hdom); [done.. |].
  simpl in Hrec. assert (forall x rx rx', AbsDB.tasks d !! x = Some rx -> T' !! x = Some rx' ->
    TR.State rx <> TASK_PENDING -> TR.State rx' <> TASK_PENDING) as Hgr.
  { intros x rx rx' Hx Hx' Hn. destruct (decide (x = k)) as [->|Hne]; [simplify_eq; by rewrite Hst |].
    rewrite (unb_other _ _ _ _ Hu x rx) in Hx'; [by injection Hx' as <- | by rewrite lookup_insert_ne | done]. }
  split_and!; [done | by apply guar_tasks |]. intros x Hx. simpl.
  apply (unb_ready _ _ _ _ Hu) in Hx as (rx & Hx & Hpx & Hocc & Hle).
  destruct (unb_pending _ _ _ _ Hu x rx Hx Hpx) as (rx' & Hx' & Hs).
  assert (TR.State rx' = TASK_QUEUED) as Hq.
  { destruct (settled_fields _ _ _ Hs) as (_ & _ & _ & _ & _ & [[E _] | [(E & _) | (_ & E & _)]]); [lia | lia | done]. }
  split; [split; [eauto |] | intros r' Hr'; simplify_eq; by rewrite Hq].
  apply (ti_started _ (di_tasks _ Hi') x rx' Hx'). by rewrite Hq.
Qed.

(** ** The invariant of the lock *)

Lemma linv_same T m m' : same_tasks m m' -> linv T m -> linv T m'.
Proof. intros (E1 & E2 & E3) [H1 H2 H3]. split; by rewrite ?E1, ?E2, ?E3. Qed.

Lemma linv_enqueue T m l : linv T m -> (forall k, k ∈ l -> open T k) -> linv T (enqueue l m).
Proof.
  intros [H1 H2 H3] Hl. destruct m; unfold enqueue; simpl in *. split; simpl; [|done | done].
  intros k [?|?]%elem_of_app; auto.
Qed.

Lemma linv_dequeue T m l : linv T m -> linv T (dequeue_all l m).
Proof.
  intros [H1 H2 H3]. destruct m; unfold dequeue_all; simpl in *. split; simpl; [|done | done].
  intros k [_ ?]%list_elem_of_filter. auto.
Qed.

Lemma linv_pop T m k q : linv T m -> readyQueue m = k :: q -> linv T (set_readyQueue q m) /\ open T k.
Proof.
  intros [H1 H2 H3] E. split; [|apply H1; rewrite E; by left].
  split; destruct m; simpl in *; subst; try done. intros x Hx. apply H1. by right.
Qed.

Lemma linv_assign T m k w e : linv T m -> open T k -> linv T (assign k w e m).
Proof.
  intros [H1 H2 H3] Hk. destruct m; unfold assign; simpl in *. split; simpl; [done | |].
  - intros x e'. rewrite lookup_insert. case_decide; [subst; done | apply H2].
  - by rewrite !dom_insert_L, H3.
Qed.

Lemma linv_release T m k : linv T m -> linv T (release k m).
Proof.
  intros [H1 H2 H3]. destruct m; unfold release; simpl in *. split; simpl; [done | |].
  - intros x e. rewrite lookup_delete. case_decide; [done | apply H2].
  - by rewrite !dom_delete_L, H3.
Qed.

Lemma linv_release_all T m l : linv T m -> linv T (foldl (fun m k => release k m) m l).
Proof. revert m. induction l as [|k l IH]; intros m Hm; simpl; [done |]. by apply IH, linv_release. Qed.

Create HintDb harmless discriminated.

(** ** Steps of a thread *)

Section Handlers.
Context `{Env} {D : Type} `{RecordDBLaws D}.
Abbreviation ctasks c := (AbsDB.tasks (cdb c)).

(** From one state a thread sees to a later one. *)
Record moved (h : bool) (c c' : Coordinator D) : Prop := {
  mv_ok : coord_ok c';
  mv_inv : dbinv (cdb c');
  mv_grows : grows (ctasks c) (ctasks c');
  mv_mem : h = true -> guarded (mem c') = guarded (mem c)
}.

Lemma moved_itf o h c c' : itf o h c c' -> moved h c c'.
Proof. intros [? ? [? _ _] ?]. by split. Qed.

Lemma moved_trans h c1 c2 c3 : moved h c1 c2 -> moved h c2 c3 -> moved h c1 c3.
Proof. intros [_ _ R1 M1] [? ? R2 M2]. split; [done | done | by etrans |]. intros E. by rewrite M2, M1. Qed.

Lemma moved_weaken h c c' : moved h c c' -> moved false c c'.
Proof. intros []. by split. Qed.

Lemma moved_open h c c' k : moved h c c' -> open (ctasks c) k -> open (ctasks c') k.
Proof. intros []. by apply open_grows. Qed.

Lemma moved_unblocked h c c' k : moved h c c' -> unblocked_task (ctasks c) k -> unblocked_task (ctasks c') k.
Proof. intros []. by apply unblocked_grows. Qed.

Lemma moved_linv c c' : moved true c c' -> linv (ctasks c) (mem c) -> linv (ctasks c') (mem c').
Proof. intros [? ? Hg Hm]. by apply linv_grows; [apply Hm |]. Qed.

(** An update of the memory. *)
Lemma moved_set_mem h c c' f : moved h c c' -> (h = true -> guarded (f (mem c')) = guarded (mem c')) -> moved h c (set_mem f c').
Proof. intros [? ? ? Hm] Hf. split; [done | done | done |]. intros E. simpl. by rewrite Hf, Hm. Qed.

Context (o : option WorkflowSpec).

(** A tame transaction. *)
Lemma safe_tame {A} h (m : M (St D) A) m' (P : A -> AbsDB -> AbsDB -> Prop) Q c :
  refines st_abs st_ok m m' ->
  (forall c', moved h c c' -> let d := cdb c' in
     wp m' (st_abs (state c')) (fun a s => calm d (st_db s) -> tame d (st_db s) /\ P a d (st_db s)) (fun s => st_db s = d)) ->
  (forall a c' c2, moved h c c' -> moved h c' c2 -> P a (cdb c') (cdb c2) -> Q h a c2) ->
  safe o h (tx m) Q c.
Proof.
  intros Hm Hw HQ. eapply safe_tx; [done |]. intros c' Hc'. pose proof (moved_itf _ _ _ _ Hc') as Hmv.
  eapply wp_mono; [by apply Hw | |]; simpl; [|intros s ->; apply Hc'].
  intros a s Hs Hcalm. destruct (Hs Hcalm) as [Ht HP].
  assert (dbinv (st_db s)) as Hi by (eapply tame_dbinv; [done | apply Hc']).
  split_and!; [done | by apply tame_guar |]. intros c2 Hok Hdb Hmem. rewrite <- Hdb in *.
  eapply HQ; [done | | done]. split; [done | done | by apply quiet_grows, Ht | by rewrite Hmem].
Qed.

(** A transaction that leaves the tasks and the specifications alone. *)
Lemma safe_other {A} h (m : M (St D) A) m' (P : A -> AbsDB -> Prop) Q c :
  refines st_abs st_ok m m' ->
  (forall s, wp m' s (fun a s' => (AbsDB.workflows (st_db s') = AbsDB.workflows (st_db s) /\
                                   AbsDB.tasks (st_db s') = AbsDB.tasks (st_db s)) /\ P a (st_db s)) (fun s' => st_db s' = st_db s)) ->
  (forall a c' c2, moved h c c' -> moved h c' c2 -> P a (cdb c') -> Q h a c2) -> safe o h (tx m) Q c.
Proof.
  intros Hm Hw HQ. eapply (safe_tame h m m' (fun a d _ => P a d)); [done | | done]. intros c' Hc'. simpl.
  eapply wp_mono; [apply Hw | | done]. intros a s [[? ?] HP] _. split; [by apply tame_same | done].
Qed.

(** A read. *)
Lemma safe_read {A} h (m : M (St D) A) m' (P : A -> AbsDB -> Prop) Q c :
  refines st_abs st_ok m m' ->
  (forall s, wp m' s (fun a s' => st_db s' = st_db s /\ P a (st_db s)) (fun s' => st_db s' = st_db s)) ->
  (forall a c' c2, moved h c c' -> moved h c' c2 -> P a (cdb c') -> Q h a c2) -> safe o h (tx m) Q c.
Proof.
  intros Hm Hw. apply (safe_other h m m' P); [done |]. intros s. eapply wp_mono; [apply Hw | | done].
  by intros a s' [-> HP].
Qed.

(** The state of a task is written. *)
Lemma safe_task h (m : M (St D) (option GoError)) m' k st ex Q c :
  refines st_abs st_ok m m' -> task_call m' k st ex ->
  (st = TASK_SKIPPED \/ (unblocked_task (ctasks c) k /\ (st = TASK_QUEUED \/ st = TASK_RUNNING \/ st = TASK_FAILED))) ->
  (forall e c2, moved h c c2 -> Q h (Some e) c2) ->
  (forall c2, moved h c c2 -> (unblocked_task (ctasks c) k -> open (ctasks c2) k) -> Q h None c2) ->
  safe o h (tx m) Q c.
Proof.
  intros Hm Ht Hst He Hok.
  apply (safe_tame h m m' (fun e d d' => e = None -> blockers (AbsDB.tasks d) k = 0%nat -> open (AbsDB.tasks d') k)); [done | |].
  - intros c' Hc'. simpl. eapply wp_mono; [apply Ht; apply (mv_inv _ _ _ Hc') | | done].
    intros [e|] s Hs Hcalm; simpl in Hs; [split; [by apply tame_same; rewrite Hs | done] |].
    destruct (rewritten_tame _ _ _ _ _ Hs Hcalm) as [Htm Ho]; [|by split].
    destruct Hst as [?|[Hu ?]]; [by left | right; split; [|done]]. by apply (moved_unblocked _ _ _ _ Hc').
  - intros [e|] c' c2 Hc' Hc2 HP; [apply He; by eapply moved_trans |]. apply Hok; [by eapply moved_trans |].
    intros Hu. apply HP; [done |]. by apply (moved_unblocked _ _ _ _ Hc').
Qed.

Lemma safe_unguarded h f Q c :
  (forall m, guarded (f m) = guarded m) -> (forall c2, moved h c c2 -> Q h tt c2) -> safe o h (free f) Q c.
Proof. intros Hf HQ. apply safe_free. intros c' Hc'%moved_itf. apply HQ. by apply moved_set_mem. Qed.

Lemma safe_newUUID h Q c : (forall e c2, moved h c c2 -> Q h e c2) -> safe o h newUUID Q c.
Proof.
  intros HQ c' Hc'%moved_itf. apply (HQ _ (set_mem (fun m => set_uuids (S (uuids m)) m) c')). apply moved_set_mem; [done |].
  by destruct (mem c').
Qed.

Lemma safe_nextOrders h k Q c : (forall f c2, moved h c c2 -> Q h f c2) -> safe o h (nextOrders k) Q c.
Proof.
  intros HQ c' Hc'%moved_itf. apply (HQ _ (set_mem (fun m => set_orders (orders m + k)%nat m) c')). apply moved_set_mem; [done |].
  by destruct (mem c').
Qed.

(** A critical section that reads, and one that writes. *)
Lemma safe_locked_read {A} (f : Mem -> A) Q c :
  (forall c', moved false c c' -> linv (ctasks c') (mem c') -> forall c2, moved false c' c2 -> Q false (f (mem c')) c2) ->
  safe o false (locked (readL f)) Q c.
Proof.
  intros HQ. apply safe_locked. intros c' Hc'%moved_itf Hl. apply safe_readL. intros c2 Hc2%moved_itf.
  pose proof (moved_linv _ _ Hc2 Hl). split_and!; [done | done |]. intros c3 Hc3%moved_itf%moved_weaken.
  apply HQ; [|done|done]. eapply moved_trans; [done | by eapply moved_weaken].
Qed.

Lemma safe_locked_write f Q c :
  (forall T m, grows (ctasks c) T -> linv T m -> linv T (f m)) ->
  (forall c2, moved false c c2 -> Q false tt c2) -> safe o false (locked (writeL f)) Q c.
Proof.
  intros Hf HQ. apply safe_locked. intros c' Hc'%moved_itf Hl. apply safe_writeL. intros c2 Hc2%moved_itf.
  pose proof (moved_linv _ _ Hc2 Hl) as Hl2. assert (moved false c c2) as Hc02 by (eapply moved_trans; [done | by eapply moved_weaken]).
  split_and!; [apply Hf; [apply Hc02 | done] | done |]. intros c3 Hc3%moved_itf%moved_weaken. apply HQ.
  eapply moved_trans; [|done]. by apply moved_set_mem.
Qed.

(** ** Code that needs no facts about tasks *)

Definition harmless {A} (p : prog D A) : Prop :=
  forall c Q, coord_ok c -> dbinv (cdb c) -> (forall a c2, moved false c c2 -> Q false a c2) -> safe o false p Q c.

Lemma moved_refl h c : coord_ok c -> dbinv (cdb c) -> moved h c c.
Proof. by split. Qed.

Lemma harmless_ret {A} (a : A) : harmless (Ret a).
Proof. intros c Q Hok Hi HQ. by apply HQ, moved_refl. Qed.

Lemma harmless_bind {A B} (p : prog D A) (k : A -> prog D B) : harmless p -> (forall a, harmless (k a)) -> harmless (pbind p k).
Proof.
  intros Hp Hk c Q Hok Hi HQ. apply safe_bind, Hp; [done | done |]. intros a c2 Hc2.
  apply Hk; [apply Hc2 | apply Hc2 |]. intros b c3 Hc3. apply HQ. by eapply moved_trans.
Qed.

Lemma harmless_read {A} (m : M (St D) A) m' (P : A -> St AbsDB -> Prop) :
  refines st_abs st_ok m m' ->
  (forall s, wp m' s (fun a s' => st_db s' = st_db s /\ P a s) (fun s' => st_db s' = st_db s)) -> harmless (tx m).
Proof.
  intros Hm Hw c Q _ _ HQ. apply (safe_read false m m' (fun _ _ => True)); [done | |].
  - intros s. eapply wp_mono; [apply Hw | | done]. by intros a s' [? _].
  - intros a c' c2 H1' H2' _. apply HQ. by eapply moved_trans.
Qed.

Lemma harmless_now : harmless (tx now).
Proof. apply (harmless_read _ now (fun _ _ => True)); [apply sim_now |]. intros s. by apply wp_now. Qed.

Lemma harmless_UpdateWorkflowState w v : harmless (tx (UpdateWorkflowState w v)).
Proof.
  intros c Q _ _ HQ. apply (safe_other false _ (UpdateWorkflowState w v) (fun _ _ => True)); [apply sim_UpdateWorkflowState | |].
  - intros s. eapply wp_mono; [apply UpdateWorkflowState_spec | | done]. intros [e|] s' Hs; [by rewrite Hs |].
    destruct Hs as (r & _ & ->). done.
  - intros a c' c2 H1' H2' _. apply HQ. by eapply moved_trans.
Qed.

Lemma harmless_InitWorkflowState w : harmless (tx (InitWorkflowState w)).
Proof.
  intros c Q _ _ HQ. apply (safe_other false _ (InitWorkflowState w) (fun _ _ => True)); [apply sim_InitWorkflowState | |].
  - intros s. eapply wp_mono; [apply InitWorkflowState_spec | | done]. intros [e|] s' Hs; [by rewrite Hs |].
    destruct Hs as (r & ->). done.
  - intros a c' c2 H1' H2' _. apply HQ. by eapply moved_trans.
Qed.

Lemma harmless_free f : (forall m, guarded (f m) = guarded m) -> harmless (free f).
Proof. intros Hf c Q _ _ HQ. apply safe_unguarded; auto. Qed.

Lemma harmless_look {A} (f : Mem -> A) : harmless (Free (fun m => (m, f m)) Ret).
Proof. intros c Q _ _ HQ [s m] Hc'%moved_itf. by apply (HQ _ (mkCoordinator s m)). Qed.

Lemma harmless_newUUID : harmless newUUID.
Proof. intros c Q _ _ HQ. by apply safe_newUUID. Qed.

Lemma harmless_nextOrders k : harmless (nextOrders k).
Proof. intros c Q _ _ HQ. by apply safe_nextOrders. Qed.

Lemma harmless_locked_read {A} (f : Mem -> A) : harmless (locked (readL f)).
Proof. intros c Q _ _ HQ. apply safe_locked_read. intros c' Hc' _ c2 Hc2. apply HQ. by eapply moved_trans. Qed.

Lemma harmless_dequeue l : harmless (locked (writeL (dequeue_all l))).
Proof. intros c Q _ _ HQ. apply safe_locked_write; [|auto]. intros T m _. apply linv_dequeue. Qed.

Lemma harmless_skip k : harmless (tx (UpdateTaskState k TASK_SKIPPED)).
Proof.
  intros c Q _ _ HQ. eapply (safe_task false _ (UpdateTaskState k TASK_SKIPPED)); [apply sim_modifyTask | by apply UpdateTaskState_call |
    by left | intros; by apply HQ | intros; by apply HQ].
Qed.

Lemma harmless_cancel w : harmless (tx (CancelWorkflowTasks w)).
Proof.
  intros c Q _ _ HQ. apply (safe_tame false _ (CancelWorkflowTasks w) (fun _ _ _ => True)); [apply sim_CancelWorkflowTasks | |].
  - intros c' Hc'. simpl. eapply wp_mono; [apply CancelWorkflowTasks_spec | | done]. intros [l [e|]] s Hs _; simpl in Hs.
    + split; [by apply tame_same; rewrite Hs | done].
    + destruct Hs as (_ & T' & Hs & ->). split; [|done]. split; [done |]. simpl.
      apply (skipped_quiet (fun _ r => unfinished w r = true)); [apply Hc' | done |].
      unfold unfinished. intros k r _ [_ ?%negb_true_iff]%andb_true_iff. done.
  - intros a c' c2 H1' H2' _. apply HQ. by eapply moved_trans.
Qed.

#[local] Hint Resolve harmless_ret harmless_now harmless_UpdateWorkflowState harmless_InitWorkflowState harmless_newUUID
  harmless_nextOrders harmless_locked_read harmless_dequeue harmless_skip harmless_cancel harmless_look : harmless.
#[local] Hint Extern 1 (harmless (tx (GetTask _))) =>
  (eapply harmless_read; [apply sim_GetTask | apply GetTask_spec]) : harmless.
#[local] Hint Extern 1 (harmless (tx (IsWorkflowComplete _))) =>
  (eapply harmless_read; [apply sim_IsWorkflowComplete | apply IsWorkflowComplete_spec]) : harmless.
#[local] Hint Extern 1 (harmless (tx (GetTaskStatusesForWorkflow _))) =>
  (eapply harmless_read; [apply sim_GetTaskStatusesForWorkflow | apply GetTaskStatuses_spec]) : harmless.

(** Follow the code. *)
Ltac harm :=
  repeat first
    [ solve [auto with harmless nocore]
    | match goal with
      | |- harmless (pbind _ _) => apply harmless_bind; [| intros ?]
      | |- harmless (match ?x with _ => _ end) => destruct x
      | |- harmless (free _) => apply harmless_free; by intros []
      end ].

Lemma harmless_checkWorkflowCompletion w : harmless (checkWorkflowCompletion w).
Proof. unfold checkWorkflowCompletion. harm. Qed.
#[local] Hint Resolve harmless_checkWorkflowCompletion : harmless.

Lemma harmless_skipLoop n v q l : harmless (skipLoop n v q l).
Proof. revert v q l. induction n as [|n IH]; intros v [|k q] l; cbn [skipLoop]; cbv zeta; harm; apply IH. Qed.
#[local] Hint Resolve harmless_skipLoop : harmless.

Lemma sim_readFailed k : refines st_abs st_ok (readFailed (D := D) k) (readFailed k).
Proof.
  unfold readFailed. apply refines_bind; [apply sim_GetTask |]. intros r. apply refines_bind; [|intros n; apply refines_ret].
  apply refines_gets. intros s Hs. simpl. by rewrite task_each_abs.
Qed.

Lemma readFailed_spec k (s : St AbsDB) :
  wp (readFailed k) s (fun f s' => st_db s' = st_db s /\ (f.2 = open_edges ∅ (tasks_of s) /\
       forall r, f.1 = inr r -> tasks_of s !! k = Some r)) (fun s' => st_db s' = st_db s).
Proof.
  apply wp_bind. eapply wp_mono; [apply GetTask_spec | | done]. intros r s' [Hs Hr]. apply wp_bind, wp_gets, wp_ret.
  split_and!; [done | | done]. cbn [snd]. by rewrite edges_open, Hs.
Qed.

Lemma harmless_readFailed k : harmless (tx (readFailed k)).
Proof. eapply harmless_read; [apply sim_readFailed | apply readFailed_spec]. Qed.
#[local] Hint Resolve harmless_readFailed : harmless.

(** The bound of the loop holds whatever the others do: the tasks [T0] that there
    were keep their downstream ids, which are tasks of [T0]. *)
Lemma skipLoop_ends T0 n v q l c :
  tasks_inv T0 -> coord_ok c -> dbinv (cdb c) -> advances T0 (ctasks c) -> (forall k, k ∈ q -> is_Some (T0 !! k)) ->
  (length q + open_edges v T0 <= n)%nat -> safe o false (skipLoop n v q l) (fun _ r _ => r.1 = []) c.
Proof.
  intros Hti. revert v q l c. induction n as [|n IH]; intros v [|k q] l c Hok Hi Ha Hq Hn; cbn [skipLoop length] in *; [done | lia | done |].
  assert (forall x, x ∈ q -> is_Some (T0 !! x)) as Hq' by (intros; apply Hq; by right).
  case_bool_decide as Hk; [apply IH; [done.. | lia] |]. cbv zeta. pose proof (open_mono v T0 k) as Hmono.
  apply safe_bind. eapply (safe_read false _ (GetTask k) (fun r d => forall a, r = inr a -> AbsDB.tasks d !! k = Some a));
    [apply sim_GetTask | apply GetTask_spec |].
  intros r c' c2 [_ _ [G1 _] _] [Hok2 Hi2 [G2 _] _] Hr.
  assert (advances T0 (ctasks c')) as Ha' by (by etrans). assert (advances T0 (ctasks c2)) as Ha2 by (by etrans).
  destruct r as [e|r]; [apply IH; [done.. | lia] |]. specialize (Hr r eq_refl).
  destruct (Hq k ltac:(left)) as [r0 Hr0]. destruct (adv_record _ _ Ha' k r0 Hr0) as (r1 & Hr1 & _ & Hd & _).
  rewrite Hr in Hr1. injection Hr1 as <-.
  assert (forall x, x ∈ q ++ TR.DownstreamTaskIDs r -> is_Some (T0 !! x)) as Hq2.
  { intros x [?|Hx]%elem_of_app; [auto |]. rewrite Hd in Hx. by apply (ti_closed _ Hti k r0). }
  assert (length (q ++ TR.DownstreamTaskIDs r) + open_edges ({[k]} ∪ v) T0 <= n)%nat as Hn'.
  { rewrite length_app, Hd. rewrite (open_visit v T0 k r0 Hk Hr0) in Hn. unfold fanout in Hn. lia. }
  destruct (is_terminal _); [by apply IH |]. apply safe_bind, harmless_skip; [done | done |].
  intros e c3 [Hok3 Hi3 [G3 _] _]. assert (advances T0 (ctasks c3)) by (by etrans). destruct e; by apply IH.
Qed.

(** [SkipDownstreamTasks] never runs out of fuel. *)
Lemma skip_ends k c :
  coord_ok c -> dbinv (cdb c) ->
  safe o false (tx (readFailed k)) (fun _ f c2 => forall r, f.1 = inr r ->
    let q := TR.DownstreamTaskIDs r in safe o false (skipLoop (S (length q + f.2)) ∅ q []) (fun _ p _ => p.1 = []) c2) c.
Proof.
  intros _ _. eapply (safe_read false _ (readFailed k) (fun f d => f.2 = open_edges ∅ (AbsDB.tasks d) /\
    forall r, f.1 = inr r -> AbsDB.tasks d !! k = Some r)); [apply sim_readFailed | apply readFailed_spec |].
  intros f c' c2 [_ Hi' _ _] [Hok2 Hi2 [G2 _] _] [Hf Hk] r Hr. specialize (Hk r Hr).
  apply (skipLoop_ends (ctasks c')); [apply Hi' | done | done | done | | lia].
  intros x Hx. by apply (ti_closed _ (di_tasks _ Hi') k r).
Qed.

Lemma harmless_applyFailurePolicy w k p : harmless (applyFailurePolicy w k p).
Proof. unfold applyFailurePolicy, SkipDownstreamTasks. cbv zeta. harm. Qed.
#[local] Hint Resolve harmless_applyFailurePolicy : harmless.

Lemma harmless_CancelWorkflow w : harmless (CancelWorkflow w).
Proof. unfold CancelWorkflow. harm. Qed.

(** ** Critical sections *)

Lemma guarded_fields m m' : guarded m' = guarded m ->
  readyQueue m' = readyQueue m /\ runningTasks m' = runningTasks m /\ assignedTasks m' = assignedTasks m.
Proof. by intros [=]. Qed.

(** Inside a critical section that was entered from [c]. *)
Record inside (c c' : Coordinator D) : Prop := {
  in_moved : moved false c c';
  in_linv : linv (ctasks c') (mem c')
}.

Lemma inside_moved c c1 c2 : inside c c1 -> moved true c1 c2 -> inside c c2.
Proof. intros [H1' Hl] H2'. split; [eapply moved_trans; [done | by eapply moved_weaken] | by eapply moved_linv]. Qed.

Lemma inside_write c c1 f : inside c c1 -> linv (ctasks c1) (f (mem c1)) -> inside c (set_mem f c1).
Proof. intros [H1' _] Hl. split; [by apply moved_set_mem | done]. Qed.

Lemma safe_section {A} (p : prog D A) Q c :
  (forall c', inside c c' -> safe o true p (fun h a c2 => inside c c2 /\ h = true /\ forall c3, moved false c2 c3 -> Q false a c3) c') ->
  safe o false (locked p) Q c.
Proof.
  intros Hp. apply safe_locked. intros c' Hc'%moved_itf Hl. eapply safe_mono; [|by apply Hp].
  intros h a c2 ([? ?] & -> & HQ). split_and!; [done | done |]. intros c3 Hc3%moved_itf%moved_weaken. auto.
Qed.

(** Leaving it. *)
Lemma leave {A} (Q : bool -> A -> Coordinator D -> Prop) a c c1 :
  inside c c1 -> (forall a c2, moved false c c2 -> Q false a c2) ->
  inside c c1 /\ true = true /\ forall c3, moved false c1 c3 -> Q false a c3.
Proof. intros Hin HQ. split_and!; [done | done |]. intros c3 Hc3. apply HQ. eapply moved_trans; [apply Hin | done]. Qed.

Lemma safe_in_read {A B} (f : Mem -> A) (k : A -> prog D B) Q c c1 :
  inside c c1 -> (forall c2, inside c c2 -> moved true c1 c2 -> safe o true (k (f (mem c2))) Q c2) ->
  safe o true (pbind (readL f) k) Q c1.
Proof.
  intros Hin HQ. apply safe_bind, safe_readL. intros c2 Hc2%moved_itf. apply HQ; [by eapply inside_moved | done].
Qed.

Lemma safe_in_write {B} f (k : unit -> prog D B) Q c c1 :
  inside c c1 ->
  (forall c2, inside c c2 -> moved true c1 c2 -> linv (ctasks c2) (f (mem c2))) ->
  (forall c2, inside c (set_mem f c2) -> moved true c1 c2 -> safe o true (k tt) Q (set_mem f c2)) ->
  safe o true (pbind (writeL f) k) Q c1.
Proof.
  intros Hin Hl HQ. apply safe_bind, safe_writeL. intros c2 Hc2%moved_itf. pose proof (inside_moved _ _ _ Hin Hc2) as Hin2.
  apply HQ; [|done]. apply inside_write; auto.
Qed.

(** The last write of a section. *)
Lemma safe_in_last f (Q : bool -> unit -> Coordinator D -> Prop) c c1 :
  inside c c1 -> (forall m, same_tasks m (f m)) -> (forall a c2, moved false c c2 -> Q false a c2) ->
  safe o true (writeL f) (fun h a c2 => inside c c2 /\ h = true /\ forall c3, moved false c2 c3 -> Q false a c3) c1.
Proof.
  intros Hin Hf HQ. apply safe_writeL. intros c2 Hc2%moved_itf. pose proof (inside_moved _ _ _ Hin Hc2) as Hin2.
  apply leave; [|done]. apply inside_write; [done |]. eapply linv_same; [apply Hf | apply Hin2].
Qed.

Lemma harmless_GetReadyTask w : harmless (GetReadyTask w).
Proof.
  intros c Q Hok Hi HQ. apply safe_section. intros c0 H0'. apply (safe_in_read _ _ _ c c0); [done |]. intros c1 H1' _.
  destruct (readyQueue (mem c1)) as [|k q] eqn:Eq; [by apply leave |].
  assert (forall c2, moved true c1 c2 -> readyQueue (mem c2) = k :: q) as Hq.
  { intros c2 Hc2. destruct (guarded_fields _ _ (mv_mem _ _ _ Hc2 eq_refl)) as (-> & _). done. }
  apply (safe_in_write _ _ _ c); [done | |].
  { intros c2 Hin2 Hc2. apply (linv_pop _ _ k); [apply Hin2 | by apply Hq]. }
  intros c2 Hin2 Hc2. assert (open (ctasks (set_mem (set_readyQueue q) c2)) k) as Ho.
  { assert (linv (ctasks c2) (mem c2)) as Hl by (eapply moved_linv; [done | apply H1']). by apply (linv_pop _ _ k q Hl), Hq. }
  revert Hin2 Ho. generalize (set_mem (set_readyQueue q) c2). clear Hq Hc2 c2. intros c2 Hin2 Ho.
  apply (safe_in_read _ _ _ c); [done |]. intros c3 Hin3 Hc3. pose proof (moved_open _ _ _ _ Hc3 Ho) as Ho3.
  destruct (taskSpecCache (mem c3) !! k) as [spec|]; [|by apply leave].
  apply safe_bind, safe_newUUID. intros e c4 Hc4. pose proof (inside_moved _ _ _ Hin3 Hc4) as Hin4.
  pose proof (moved_open _ _ _ _ Hc4 Ho3) as Ho4. apply safe_bind.
  eapply (safe_task true _ (AssignTask k e)); [apply sim_modifyTask | apply AssignTask_call | right; split; [apply Ho4 | auto] | |].
  { intros err c5 Hc5. apply leave; [by eapply inside_moved | done]. }
  intros c5 Hc5 Ho5. specialize (Ho5 ltac:(apply Ho4)). pose proof (inside_moved _ _ _ Hin4 Hc5) as Hin5.
  apply (safe_in_write _ _ _ c); [done | |].
  { intros c6 Hin6 Hc6. apply linv_assign; [apply Hin6 | by eapply moved_open]. }
  intros c6 Hin6 _. apply (safe_in_write _ _ _ c); [done | |].
  { intros c7 Hin7 _. eapply linv_same; [apply same_gauge | apply Hin7]. }
  intros c7 Hin7 _. by apply leave.
Qed.

(** ** Code that may rely on what the lock told it *)

(** Facts about the records that stay true. *)
Definition lasting (R : Tasks -> Prop) : Prop := forall T T', grows T T' -> R T -> R T'.

Definition opens (l : list string) (T : Tasks) : Prop := forall k, k ∈ l -> open T k.

Lemma lasting_opens l : lasting (opens l).
Proof. intros T T' Hg Hl k Hk. eapply open_grows; [done | by apply Hl]. Qed.

Definition given {A} (R : Tasks -> Prop) (p : prog D A) : Prop :=
  forall c Q, coord_ok c -> dbinv (cdb c) -> R (ctasks c) -> (forall a c2, moved false c c2 -> Q false a c2) -> safe o false p Q c.

Lemma given_harmless {A} R (p : prog D A) : harmless p -> given R p.
Proof. intros Hp c Q Hok Hi _. by apply Hp. Qed.

Lemma given_bind {A B} R (p : prog D A) (k : A -> prog D B) :
  lasting R -> given R p -> (forall a, given R (k a)) -> given R (pbind p k).
Proof.
  intros HR Hp Hk c Q Hok Hi Hc HQ. apply safe_bind, Hp; [done | done | done |]. intros a c2 Hc2.
  apply Hk; [apply Hc2 | apply Hc2 | eapply HR; [apply Hc2 | done] |]. intros b c3 Hc3. apply HQ. by eapply moved_trans.
Qed.

Lemma given_then {A B} R (p : prog D A) (k : A -> prog D B) :
  lasting R -> harmless p -> (forall a, given R (k a)) -> given R (pbind p k).
Proof. intros HR Hp. apply given_bind; [done | by apply given_harmless]. Qed.

(** The assignments, read under the lock. *)
Lemma harmless_assigned {A} (k : gmap string string -> prog D A) :
  (forall m, given (opens (elements (dom m))) (k m)) -> harmless (pbind (locked (readL assignedTasks)) k).
Proof.
  intros Hk c Q Hok Hi HQ. apply safe_bind, safe_locked_read. intros c1 Hc1 Hl c2 Hc2.
  assert (moved false c c2) as Hmv by (by eapply moved_trans).
  apply Hk; [apply Hc2 | apply Hc2 | | intros a c3 Hc3; apply HQ; by eapply moved_trans].
  intros x [e He]%elem_of_elements%elem_of_dom. apply (moved_open _ _ _ _ Hc2), (li_assigned _ _ Hl x e He).
Qed.

(** A task leaves the assignments, open ones join the queue. *)
Lemma given_release k l :
  given (opens l) (locked (let* _ := writeL (release k) in let* _ := writeL (enqueue l) in writeL gauge_queue)).
Proof.
  intros c Q Hok Hi Hl HQ. apply safe_section. intros c1 H1'. apply (safe_in_write _ _ _ c); [done | |].
  { intros c2 Hin2 _. apply linv_release, Hin2. }
  intros c2 Hin2 _. apply (safe_in_write _ _ _ c); [done | |].
  { intros c3 Hin3 _. apply linv_enqueue; [apply Hin3 |]. by eapply lasting_opens; [apply Hin3 |]. }
  intros c3 Hin3 _. apply safe_in_last; [done | apply same_gauge | done].
Qed.

(** A task is requeued, and enqueued when that worked. *)
Lemma given_requeue {A} k e (f : option GoError -> prog D A) :
  (forall err, harmless (f (Some err))) -> given (opens [k]) (f None) ->
  given (opens [k]) (pbind (tx (RequeueTask k e)) f).
Proof.
  intros Hf Hn c Q Hok Hi Ho HQ. apply safe_bind. specialize (Ho k ltac:(by left)) as Hk.
  eapply (safe_task false _ (RequeueTask k e)); [apply sim_modifyTask | apply RequeueTask_call | right; split; [apply Hk | auto] | |].
  - intros err c2 Hc2. apply Hf; [apply Hc2 | apply Hc2 |]. intros a c3 Hc3. apply HQ. by eapply moved_trans.
  - intros c2 Hc2 _. apply Hn; [apply Hc2 | apply Hc2 | |]; [|intros a c3 Hc3; apply HQ; by eapply moved_trans].
    eapply lasting_opens; [apply Hc2 | done].
Qed.

(** A result is stored, and what became ready is open. *)
Lemma given_complete {A} k e output (f : list string * option GoError -> prog D A) :
  (forall l err, harmless (f (l, Some err))) -> (forall l, given (opens l) (f (l, None))) ->
  given (opens [k]) (pbind (tx (Store.CompleteTask k e output)) f).
Proof.
  intros Hf Hn c Q Hok Hi Ho HQ. apply safe_bind. eapply safe_tx; [apply sim_CompleteTask |]. intros c' Hc'.
  pose proof (moved_itf _ _ _ _ Hc') as Hmv. specialize (Ho k ltac:(by left)). apply (moved_open _ _ _ _ Hmv) in Ho.
  eapply wp_mono; [apply CompleteTask_spec, dbinv_stable, Hc' | | intros s ->; apply Hc'].
  intros [l [err|]] s Hs Hcalm; simpl in Hs.
  - split_and!; [by rewrite Hs; apply Hc' | rewrite Hs; apply guar_refl |]. intros c2 Hok2 Hd2 Hm2.
    apply Hf; [done | rewrite Hd2, Hs; apply Hc' |]. intros a c3 Hc3. apply HQ. eapply moved_trans; [exact Hmv |].
    eapply moved_trans; [|exact Hc3]. split; [done | rewrite Hd2, Hs; apply Hc' | by rewrite Hd2, Hs | done].
  - destruct (completed_step o _ _ _ _ _ _ (it_inv _ _ _ _ Hc') Hcalm Ho Hs) as (Hi' & Hg & Hop).
    split_and!; [done | done |]. intros c2 Hok2 Hd2 Hm2. rewrite <- Hd2 in *.
    apply Hn; [done | done | done |]. intros a c3 Hc3. apply HQ. eapply moved_trans; [exact Hmv |].
    eapply moved_trans; [|exact Hc3]. split; [done | done | apply Hg | done].
Qed.

Lemma given_each {X} R (f : X -> prog D unit) l : lasting R -> (forall x, x ∈ l -> given R (f x)) -> given R (each f l).
Proof.
  intros HR. induction l as [|x l IH]; intros Hf; simpl; [apply given_harmless, harmless_ret |].
  apply given_bind; [done | apply Hf; by left |]. intros _. apply IH. intros y Hy. apply Hf. by right.
Qed.

Lemma given_weaken {A} (R R' : Tasks -> Prop) (p : prog D A) : (forall T, R' T -> R T) -> given R p -> given R' p.
Proof. intros HR Hp c Q Hok Hi Hc. by apply Hp; [| | apply HR]. Qed.

Lemma opens_elem k l T : k ∈ l -> opens l T -> opens [k] T.
Proof. intros Hk Hl x ->%list_elem_of_singleton. auto. Qed.

Lemma opens_assigned k e (m : gmap string string) T : m !! k = Some e -> opens (elements (dom m)) T -> opens [k] T.
Proof. intros Hk. apply opens_elem. apply elem_of_elements, elem_of_dom. eauto. Qed.

Lemma harmless_CompleteTask k e output : harmless (CompleteTask k e output).
Proof.
  unfold CompleteTask, taskWorkflowID. apply harmless_assigned. intros m. destruct (m !! k) as [e'|] eqn:Em.
  - eapply given_weaken; [intros T; by eapply opens_assigned |]. destruct (negb _); [apply given_harmless; harm |].
    apply given_complete; [intros; harm |]. intros l. apply given_bind; [apply lasting_opens | apply given_release |].
    intros _. apply given_harmless. pose proof harmless_checkWorkflowCompletion. harm.
  - apply given_harmless. harm.
Qed.

(** A failure without retries left. *)
Lemma given_fail {A} k msg n (f : option GoError -> prog D A) :
  (forall err, harmless (f err)) -> given (opens [k]) (pbind (tx (Store.FailTask k msg n)) f).
Proof.
  intros Hf c Q Hok Hi Ho HQ. apply safe_bind. specialize (Ho k ltac:(by left)) as Hk.
  assert (forall err c2, moved false c c2 -> safe o false (f err) Q c2) as Hrest.
  { intros err c2 Hc2. apply Hf; [apply Hc2 | apply Hc2 |]. intros a c3 Hc3. apply HQ. by eapply moved_trans. }
  eapply (safe_task false _ (Store.FailTask k msg n)); [apply sim_modifyTask | apply FailTask_call | | auto | auto].
  right. split; [apply Hk | auto].
Qed.

(** A critical section that releases a task and looks up what else it needs. *)
Lemma harmless_release {A} k (f g : Mem -> string) (h : string -> Mem -> A) :
  harmless (locked (let* _ := writeL (release k) in let* w := readL f in let* p := readL (h w) in Ret (w, p))).
Proof.
  intros c Q Hok Hi HQ. apply safe_section. intros c1 H1'. apply (safe_in_write _ _ _ c); [done | |].
  { intros c2 Hin2 _. apply linv_release, Hin2. }
  intros c2 Hin2 _. apply (safe_in_read _ _ _ c); [done |]. intros c3 Hin3 _.
  apply (safe_in_read _ _ _ c); [done |]. intros c4 Hin4 _. by apply leave.
Qed.

Lemma harmless_FailTask k e msg : harmless (FailTask k e msg).
Proof.
  unfold FailTask. cbv zeta. apply harmless_assigned. intros m. case_bool_decide as Em; [|apply given_harmless; harm].
  eapply given_weaken; [intros T; by eapply opens_assigned |].
  apply given_then; [apply lasting_opens | harm |]. intros [err|r]; [apply given_harmless; harm |].
  apply given_then; [apply lasting_opens | harm |]. intros max. destruct (_ <? max).
  - apply given_then; [apply lasting_opens | harm |]. intros x. apply given_requeue; [intros; harm |].
    apply given_bind; [apply lasting_opens | apply given_release |]. intros _. apply given_harmless. harm.
  - apply given_fail. intros [err|]; [harm |]. apply harmless_bind; [by apply (harmless_release k _ (fun _ => k)) |].
    intros p. pose proof harmless_applyFailurePolicy. harm.
Qed.

(** The tasks of a worker, taken out of the assignments. *)
Lemma harmless_take {A} w ord (k : list string -> prog D A) :
  (forall l, given (opens l) (k l)) ->
  harmless (pbind (locked (
    let* l := readL (fun m => tasksOf w ord (runningTasks m)) in
    let* _ := writeL (fun m => foldl (fun m taskID => release taskID m) m l) in
    Ret l)) k).
Proof.
  intros Hk c Q Hok Hi HQ. apply safe_bind, safe_section. intros c1 H1'. apply (safe_in_read _ _ _ c); [done |].
  intros c2 Hin2 _. set (l := tasksOf _ _ _).
  assert (opens l (ctasks c2)) as Hl.
  { intros x Hx%elem_of_tasksOf. pose proof (in_linv _ _ Hin2) as Hli.
    assert (x ∈ dom (assignedTasks (mem c2))) as [e He]%elem_of_dom by (rewrite <- (li_running _ _ Hli); apply elem_of_dom; eauto).
    by eapply li_assigned. }
  clearbody l. apply (safe_in_write _ _ _ c); [done | |].
  { intros c3 Hin3 _. apply linv_release_all, Hin3. }
  intros c3 Hin3 Hc3. split_and!; [done | done |]. intros c4 Hc4.
  assert (moved false c c4) as Hmv by (eapply moved_trans; [apply Hin3 | done]).
  apply Hk; [apply Hc4 | apply Hc4 | | intros a c5 Hc5; apply HQ; by eapply moved_trans].
  eapply lasting_opens; [apply Hc4 |]. eapply lasting_opens; [apply Hc3 | done].
Qed.

Lemma given_enqueue l : given (opens l) (locked (writeL (enqueue l))).
Proof.
  intros c Q Hok Hi Hl HQ. apply safe_locked_write; [|auto]. intros T m Hg Hli. apply linv_enqueue; [done |].
  by eapply lasting_opens.
Qed.

Lemma harmless_HandleDeadWorker w : harmless (HandleDeadWorker w).
Proof.
  unfold HandleDeadWorker. apply harmless_bind; [harm | intros t]. apply harmless_bind; [harm | intros _].
  apply harmless_bind; [harm | intros ord]. apply harmless_take. intros l.
  apply given_bind; [apply lasting_opens | | intros _; apply given_harmless; harm].
  apply given_each; [apply lasting_opens |]. intros x Hx. eapply given_weaken; [intros T; by eapply opens_elem |].
  unfold requeueOne. apply given_then; [apply lasting_opens | harm |]. intros e.
  apply given_requeue; [intros; harm | apply given_enqueue].
Qed.

Lemma harmless_each {X} (f : X -> prog D unit) l : (forall x, harmless (f x)) -> harmless (each f l).
Proof. intros Hf. induction l as [|x l IH]; simpl; [harm |]. by apply harmless_bind. Qed.

Lemma harmless_heartbeatTick : harmless heartbeatTick.
Proof.
  unfold heartbeatTick. apply harmless_bind; [harm | intros t]. apply harmless_bind; [harm | intros ord].
  apply harmless_bind; [harm | intros l]. apply harmless_each. intros w.
  apply harmless_bind; [apply harmless_HandleDeadWorker | intros _]. harm.
Qed.

(** Every call but a submission. *)
Definition submits (a : call) : option WorkflowSpec :=
  match a with CallSubmit w => Some w | _ => None end.

Lemma harmless_body a : submits a = None -> harmless (body a).
Proof.
  pose proof harmless_CancelWorkflow. pose proof harmless_GetReadyTask. pose proof harmless_CompleteTask.
  pose proof harmless_FailTask. pose proof harmless_heartbeatTick.
  destruct a; cbn [submits body]; intros E; try discriminate E; unfold UpdateWorkerHeartbeat; harm.
Qed.

End Handlers.
