(* ===== verification/RelySubmit.v ===== *)
(** * A submission under interference

    [safe] for [SubmitWorkflow], whose thread has the ids of its workflow for itself,
    and from there for every call. *)

From S2P Require Import Prelude Proto Codec Env RecordDB Store StoreRefinement StoreSpec Dag DagProps Heartbeat.
From S2P Require Import Coordinator CoordinatorRefinement Invariant CoordinatorInv Submission.
From S2P Require Import Concurrent LockDiscipline ConcurrentProps Rely RelyHandlers.
Import Threads.

Section Submit.
Context `{Env} {D : Type} `{RecordDBLaws D} (w : WorkflowSpec).
Abbreviation ctasks c := (AbsDB.tasks (cdb c)).
Abbreviation own := (Some w).

(** What the thread knows of its ids between two transactions. *)
Record reserved (c : Coordinator D) : Prop := {
  rs_ok : coord_ok c;
  rs_inv : dbinv (cdb c);
  rs_fresh : fresh_ids (ctasks c) w
}.

Definition stored (c : Coordinator D) : Prop := AbsDB.workflows (cdb c) !! WF.WorkflowId w = Some w.

Lemma reserved_itf h c c' : itf own h c c' -> reserved c -> reserved c'.
Proof.
  intros Hc [_ _ Hf]. split; [apply Hc | apply Hc |]. intros t Ht. destruct (Hf t Ht) as [Hn ?]. split; [|done].
  apply (rl_claim _ _ _ (it_rely _ _ _ _ Hc)); [|done]. apply list_elem_of_fmap. eauto.
Qed.

Lemma stored_itf h c c' : itf own h c c' -> stored c -> stored c'.
Proof. intros Hc Hs. unfold stored. by rewrite (rl_workflow _ _ _ (it_rely _ _ _ _ Hc) w eq_refl). Qed.

(** Without its ids the thread is harmless. *)
Definition settles {A} (p : prog D A) (Q : bool -> A -> Coordinator D -> Prop) : Prop :=
  forall c, coord_ok c -> dbinv (cdb c) -> safe own false p Q c.

Lemma safe_StoreWorkflow {A} (f : option GoError -> prog D A) Q c :
  reserved c -> (forall e, settles (f (Some e)) Q) ->
  (forall c2, reserved c2 -> stored c2 -> safe own false (f None) Q c2) ->
  safe own false (pbind (tx (StoreWorkflow w)) f) Q c.
Proof.
  intros Hc He Hok. apply safe_bind. eapply safe_tx; [apply sim_StoreWorkflow |]. intros c' Hc'.
  pose proof (reserved_itf _ _ _ Hc' Hc) as [Hok' Hi' Hf'].
  eapply wp_mono; [apply StoreWorkflow_spec | | by intros s ->]. intros [e|] s Hs _; simpl in Hs; fold (cdb c') in Hs.
  - rewrite Hs. split_and!; [done | apply guar_refl |]. intros c2 Hok2 Hd2 _. apply He; [done |]. by rewrite Hd2.
  - rewrite Hs. split_and!; [by apply store_workflow_inv | |].
    + split; simpl; [done | intros k Hk [r Hr]; congruence |]. intros v. rewrite lookup_insert. case_decide; [right; eauto | by left].
    + intros c2 Hok2 Hd2 _. apply Hok; [split; [done | rewrite Hd2; by apply store_workflow_inv | by rewrite Hd2] |].
      unfold stored. rewrite Hd2. apply lookup_insert_eq.
Qed.

Lemma safe_InitWorkflowState {A} v (f : option GoError -> prog D A) Q c :
  reserved c -> stored c -> (forall e, settles (f (Some e)) Q) ->
  (forall c2, reserved c2 -> stored c2 -> safe own false (f None) Q c2) ->
  safe own false (pbind (tx (InitWorkflowState v)) f) Q c.
Proof.
  intros Hc Hst He Hok. apply safe_bind. eapply safe_tx; [apply sim_InitWorkflowState |]. intros c' Hc'.
  pose proof (reserved_itf _ _ _ Hc' Hc) as [Hok' Hi' Hf']. pose proof (stored_itf _ _ _ Hc' Hst) as Hst'.
  eapply wp_mono; [apply InitWorkflowState_spec | | by intros s ->]. intros [e|] s Hs _; simpl in Hs; fold (cdb c') in Hs.
  - rewrite Hs. split_and!; [done | apply guar_refl |]. intros c2 Hok2 Hd2 _. apply He; [done |]. by rewrite Hd2.
  - destruct Hs as (tm & Hs). assert (tame (cdb c') (st_db s)) as Ht by (apply tame_same; by rewrite Hs).
    pose proof (tame_dbinv _ _ Ht Hi') as Hi2. split_and!; [done | by apply tame_guar |].
    intros c2 Hok2 Hd2 _. apply Hok; [split; [done | by rewrite Hd2 | by rewrite Hd2, Hs] |].
    unfold stored. by rewrite Hd2, Hs.
Qed.

(** The records are created; those without dependencies may be queued. *)
Lemma initialized_guar d dag T' :
  dag_of (WF.Tasks w) dag -> fresh_ids (AbsDB.tasks d) w ->
  initialized (WF.WorkflowId w) (GetInDegree dag) (GetAllDownstream dag) (WF.Tasks w) (AbsDB.tasks d) T' ->
  tasks_inv (AbsDB.tasks d) -> unique_ids w -> closed w -> guar own d (with_tasks T' d).
Proof.
  intros Hdag Hf Hin Hti Hu Hcl. split; simpl; [split; [by eapply initialized_advances |] | | by left].
  - intros k r r' Hr Hr'. destruct (old_kept _ _ _ _ Hf Hin k r Hr) as [_ E]. by simplify_eq.
  - intros k Hk [r Hr]. destruct (new_lookup _ _ _ _ Hin k r Hr) as [[_ E] | (t & Ht & ->)]; [congruence |].
    apply list_elem_of_fmap. eauto.
Qed.

Lemma safe_InitializeTasks {A} dag (f : option GoError -> prog D A) Q c :
  reserved c -> stored c -> unique_ids w -> closed w -> dag_of (WF.Tasks w) dag ->
  (forall e, settles (f (Some e)) Q) ->
  (forall c2, coord_ok c2 -> dbinv (cdb c2) -> (forall s k, k ∈ GetReadyTasks s dag -> unblocked_task (ctasks c2) k) ->
     safe own false (f None) Q c2) ->
  safe own false (pbind (tx (InitializeTasksForWorkflow (WF.WorkflowId w) (WF.Tasks w) (GetInDegree dag) (GetAllDownstream dag))) f) Q c.
Proof.
  intros Hc Hst Hu Hcl Hdag He Hok. apply safe_bind. eapply safe_tx; [apply sim_InitializeTasksForWorkflow |]. intros c' Hc'.
  pose proof (reserved_itf _ _ _ Hc' Hc) as [Hok' Hi' Hf']. pose proof (stored_itf _ _ _ Hc' Hst) as Hst'.
  eapply wp_mono; [by apply Initialize_spec | | by intros s ->]. intros [e|] s Hs _; simpl in Hs; fold (cdb c') in Hs.
  - rewrite Hs. split_and!; [done | apply guar_refl |]. intros c2 Hok2 Hd2 _. apply He; [done |]. by rewrite Hd2.
  - destruct Hs as (T' & Hin & Hs).
    assert (dbinv (with_tasks T' (cdb c'))) as Hi2 by (by eapply initialized_inv).
    rewrite Hs. split_and!; [done | eapply initialized_guar; [done.. | apply Hi' | done | done] |].
    intros c2 Hok2 Hd2 _. apply Hok; [done | by rewrite Hd2 |]. intros s' k Hk. rewrite Hd2. simpl.
    destruct (ready_record w dag _ T' s' k (di_tasks _ Hi')) as (r & Hr & _ & Hb); [done.. |]. split; [eauto | done].
Qed.

(** The loop that queues them, inside the critical section. *)
Lemma safe_queue_ready l (Q : bool -> option GoError -> Coordinator D -> Prop) c c1 :
  inside c c1 -> (forall k, k ∈ l -> unblocked_task (ctasks c1) k) -> (forall a c2, moved false c c2 -> Q false a c2) ->
  safe own true (forEach (fun taskID =>
      let* e := tx (UpdateTaskState taskID TASK_QUEUED) in
      match e with
      | Some e => Ret (Some e)
      | None => let* _ := writeL (enqueue [taskID]) in Ret None
      end) l)
    (fun h a c2 => inside c c2 /\ h = true /\ forall c3, moved false c2 c3 -> Q false a c3) c1.
Proof.
  intros Hin Hl HQ. revert c1 Hin Hl. induction l as [|k l IH]; intros c1 Hin Hl; cbn [forEach]; [by apply leave |].
  apply safe_bind, safe_bind. specialize (Hl k ltac:(by left)) as Hk.
  eapply (safe_task own true _ (UpdateTaskState k TASK_QUEUED)); [apply sim_modifyTask | by apply UpdateTaskState_call | right; auto | |].
  - intros e c2 Hc2. apply leave; [by eapply inside_moved | done].
  - intros c2 Hc2 Ho. pose proof (inside_moved _ _ _ Hin Hc2) as Hin2. apply (safe_in_write _ _ _ _ c); [done | |].
    { intros c3 Hin3 Hc3. apply linv_enqueue; [apply Hin3 |]. intros x ->%list_elem_of_singleton. eapply moved_open; eauto. }
    intros c3 Hin3 Hc3. apply IH; [done |]. intros x Hx. apply (moved_unblocked true c2 c3 x Hc3).
    apply (moved_unblocked true c1 c2 x Hc2), Hl. by right.
Qed.

Lemma safe_SubmitWorkflow c : reserved c -> safe own false (SubmitWorkflow w) (fun _ _ _ => True) c.
Proof.
  intros Hc. unfold SubmitWorkflow. apply safe_bind. intros c1 Hc1. apply (reserved_itf _ _ _ Hc1) in Hc. clear Hc1.
  set (ord := fun i => order (orders (mem c1) + i)%nat). set (m1 := set_orders _ (mem c1)).
  assert (reserved (mkCoordinator (state c1) m1)) as Hc1 by (by destruct Hc). clearbody m1. revert Hc1.
  generalize (mkCoordinator (state c1) m1). clear Hc m1. intros c2 Hc2. cbn [safe].
  pose proof (validate_verdict ord w) as Hv. destruct (ValidateAndSort ord w) as [[e|dag]|]; [done | | done].
  destruct Hv as (Hu & Hcl & _ & Hdag). apply safe_StoreWorkflow; [done | done |]. intros c3 Hc3 Hs3.
  apply safe_InitWorkflowState; [done | done | done |]. intros c4 Hc4 Hs4.
  apply safe_InitializeTasks; [done.. |]. intros c5 Hok5 Hi5 Hr5.
  apply safe_section. intros c6 Hin6. apply (safe_in_write _ _ _ _ c5); [done | |].
  { intros c7 Hin7 _. eapply linv_same; [|apply Hin7]. apply (same_foldl (fun m p => cache_task _ p m)). intros. apply same_cache_task. }
  intros c7 Hin7 _. apply (safe_in_write _ _ _ _ c5); [done | |].
  { intros c8 Hin8 _. eapply linv_same; [apply same_cache_policy | apply Hin8]. }
  intros c8 Hin8 _. apply (safe_queue_ready _ (fun _ _ _ => True) c5); [done | | done]. intros k Hk.
  eapply moved_unblocked; [apply Hin8 |]. by apply (Hr5 _ _ Hk).
Qed.

End Submit.

(** Every call is safe, a submission when its ids are fresh. *)
Lemma safe_body `{Env} {D : Type} `{RecordDBLaws D} (a : call) (c : Coordinator D) :
  coord_ok c -> dbinv (cdb c) -> (forall w, submits a = Some w -> fresh_ids (AbsDB.tasks (cdb c)) w) ->
  safe (submits a) false (body a) (fun _ _ _ => True) c.
Proof.
  intros Hok Hi Hf. destruct (submits a) as [w|] eqn:E.
  - destruct a; try discriminate E. injection E as ->. cbn [body]. apply safe_bind.
    eapply safe_mono; [done | apply safe_SubmitWorkflow]. split; [done | done | by apply Hf].
  - by apply harmless_body.
Qed.
