(* ===== verification/Frame.v ===== *)
(** * What the handlers leave alone

    Most handlers write only task records and workflow states and never the cached
    specifications: for a part of the database that neither kind of record is in,
    and a relation on coordinators that holds when that part and the cache are kept,
    every such handler stays in the relation. First use: nothing a running coordinator
    does writes a worker record, since the operations of the store that do
    ([StoreWorker], [RemoveWorker]) have no caller. *)

From S2P Require Import Prelude Proto Codec Env RecordDB Store StoreSpec Dag Heartbeat Coordinator.
From S2P Require Import StoreRefinement CoordinatorRefinement Invariant CoordinatorInv Dashboard Service System.

Section Frame.
Context `{Env} `{Protobuf} {X : Type} (part : AbsDB -> X).
Context (part_tasks : forall wf ts ts' wk st, part (AbsDB.mk wf ts' wk st) = part (AbsDB.mk wf ts wk st)).
Context (part_wstates : forall wf ts wk st st', part (AbsDB.mk wf ts wk st') = part (AbsDB.mk wf ts wk st)).

Definition part_of (s : St AbsDB) : X := part (st_db s).
Abbreviation frame := (preserves part_of).

(** ** Transactions *)

Lemma frame_now : frame now.
Proof. by intros s. Qed.

Lemma frame_Update {C} (c0 : C) body : frame body -> frame (Update c0 body).
Proof.
  intros Hb s. specialize (Hb (next_tx s)). unfold wp, Update in *.
  destruct (fault _); [|done|..]; by destruct (body (next_tx s)) as [? [? [?|]] | ?].
Qed.

Lemma frame_View {C} (c0 : C) body : frame body -> frame (View c0 body).
Proof. intros Hb s. specialize (Hb (next_tx s)). unfold wp, View in *. by destruct (fault _). Qed.

Lemma frame_put f : (forall d d', f d = inr d' -> part d' = part d) -> frame (put f).
Proof. intros Hf s. unfold wp, put, agrees, part_of. destruct (f (st_db s)) eqn:E; simpl; eauto. Qed.

Lemma frame_putTask k r : frame (putTask k r).
Proof. apply frame_put. intros [] d'. simpl. destruct (map_put _ _ _ _ _); intros [= <-]. apply part_tasks. Qed.

Lemma frame_withRecord {A C} (f : C -> string -> A -> M (St AbsDB) (C * option GoError)) c p :
  (forall c k r, frame (f c k r)) -> frame (withRecord f c p).
Proof. intros Hf. unfold withRecord. destruct p.2; auto with respects nocore. Qed.

#[local] Hint Resolve frame_now frame_putTask : respects.

Ltac frame_store :=
  repeat first
    [ respects_step
    | apply frame_Update | apply frame_View | apply frame_withRecord; intros ? ? ?
    | unfold Update_, ViewPtr, fetchTask, modifyTask, GetTask, getWorkflowInTx, observe_tx; cbv zeta ].

Lemma frame_modifyTask k u : frame (modifyTask k u).
Proof. frame_store. Qed.

Lemma frame_GetTask k : frame (GetTask k).
Proof. frame_store. Qed.
#[local] Hint Resolve frame_modifyTask frame_GetTask : respects.

Lemma frame_wst_put g : frame (put (fun d => wst_put d (g d).1 (g d).2)).
Proof. apply frame_put. intros [] d'. simpl. destruct (map_put _ _ _ _ _); intros [= <-]. apply part_wstates. Qed.

Lemma frame_InitWorkflowState w : frame (InitWorkflowState w).
Proof. unfold InitWorkflowState. frame_store. apply (frame_wst_put (fun _ => (w, _))). Qed.

Lemma frame_UpdateWorkflowState w v : frame (UpdateWorkflowState w v).
Proof. unfold UpdateWorkflowState. frame_store. apply (frame_wst_put (fun _ => (w, _))). Qed.

Lemma frame_GetWorkflow w : frame (GetWorkflow w).
Proof. unfold GetWorkflow. frame_store. Qed.

Lemma frame_GetWorkflowState w : frame (GetWorkflowState w).
Proof. unfold GetWorkflowState. frame_store. Qed.

Lemma frame_GetAllWorkflowStates : frame GetAllWorkflowStates.
Proof. unfold GetAllWorkflowStates. frame_store. Qed.

Lemma frame_InitializeTasks w l i d : frame (InitializeTasksForWorkflow w l i d).
Proof. unfold InitializeTasksForWorkflow. frame_store. Qed.

Lemma frame_unblock l k : frame (unblock l k).
Proof.
  unfold unblock. apply respects_bind; [apply _ | frame_store |]. intros [| | |ds]; [frame_store.. |].
  destruct (negb _); [frame_store |]. cbv zeta.
  match goal with |- context [TR.InDegree ?r =? 0] => destruct (TR.InDegree r =? 0) end; frame_store.
Qed.
#[local] Hint Resolve frame_unblock : respects.

Lemma frame_CompleteTask k e o : frame (Store.CompleteTask k e o).
Proof. unfold Store.CompleteTask. frame_store. Qed.

Lemma frame_GetTasksInState v : frame (GetTasksInState v).
Proof. unfold GetTasksInState. frame_store. Qed.

Lemma frame_GetTaskStatuses w : frame (GetTaskStatusesForWorkflow w).
Proof. unfold GetTaskStatusesForWorkflow. frame_store. Qed.

Lemma frame_CancelWorkflowTasks w : frame (CancelWorkflowTasks w).
Proof. unfold CancelWorkflowTasks. frame_store. Qed.

Lemma frame_skipLoop n v q l : frame (skipLoop n v q l).
Proof.
  revert v q l. induction n as [|n IH]; intros v [|k q] l; simpl; unfold UpdateTaskState; frame_store; apply IH.
Qed.
#[local] Hint Resolve frame_skipLoop : respects.

Lemma frame_SkipDownstreamTasks k : frame (SkipDownstreamTasks k).
Proof. unfold SkipDownstreamTasks. frame_store. Qed.

Lemma frame_IsWorkflowComplete w : frame (IsWorkflowComplete w).
Proof. unfold IsWorkflowComplete. frame_store. Qed.

Lemma frame_serveHTTP path s : frame (serveHTTP path s).
Proof.
  intros st. unfold agrees, part_of. eapply wp_mono; [apply reads_serveHTTP | |]; [intros r s' -> | intros s' ->]; done.
Qed.

(** *** Submissions that are written to the bucket of workflows *)

Lemma frame_StoreWorkflow w :
  (forall wf wf' ts wk st, part (AbsDB.mk wf' ts wk st) = part (AbsDB.mk wf ts wk st)) -> frame (StoreWorkflow w).
Proof.
  intros Hp. unfold StoreWorkflow. frame_store. apply frame_put. intros [] d'. simpl.
  destruct (proto_Marshal w); [done |]. destruct (map_put _ _ _ _ _); intros [= <-]. apply Hp.
Qed.

#[local] Hint Resolve frame_InitWorkflowState frame_UpdateWorkflowState frame_GetWorkflow
  frame_GetWorkflowState frame_GetAllWorkflowStates frame_InitializeTasks frame_CompleteTask frame_GetTasksInState
  frame_GetTaskStatuses frame_CancelWorkflowTasks frame_SkipDownstreamTasks frame_IsWorkflowComplete
  frame_serveHTTP : respects.

(** ** Handlers *)

(** An invariant [I] of the coordinator that depends on the part and on the cache. *)
Section Handlers.
Context (I : CA -> Prop).
Context (I_kept : forall c c', part_of (state c') = part_of (state c) -> taskSpecCache (mem c') = taskSpecCache (mem c) -> I c -> I c').

Definition keeping (c c' : CA) : Prop := I c -> I c'.

#[export] Instance keeping_preorder : PreOrder keeping.
Proof. unfold keeping. split; [by intros c |]. intros c1 c2 c3. auto. Qed.

Abbreviation maintains := (respects keeping).

Lemma maintains_wp {A} (m : M CA A) : maintains m <-> forall c, I c -> wp m c (fun _ => I) I.
Proof.
  unfold respects, wp, keeping. split.
  - intros Hm c Hc. specialize (Hm c). destruct (m c); auto.
  - intros Hm c. specialize (Hm c). destruct (m c); auto.
Qed.

Lemma maintains_onStore {A} (m : M (St AbsDB) A) : frame m -> maintains (onStore m).
Proof. intros Hm c. apply wp_onStore. eapply wp_mono; [apply Hm | |]; unfold keeping; intros; by apply (I_kept c). Qed.

Lemma maintains_modm f : (forall m, taskSpecCache (f m) = taskSpecCache m) -> maintains (modm f).
Proof. intros Hf. apply respects_modify. intros c. unfold keeping. apply I_kept; [done | apply Hf]. Qed.

Lemma foldl_release l m : taskSpecCache (foldl (fun m k => release k m) m l) = taskSpecCache m.
Proof. revert m. induction l as [|k l IH]; intros m; simpl; [done |]. rewrite IH. by destruct m. Qed.

Ltac handler :=
  repeat first
    [ respects_step | apply maintains_onStore
    | apply maintains_modm; solve [by intros [] | intros m; apply foldl_release | intros []; simpl; by case_match]
    | progress unfold newUUID, nextOrders, taskWorkflowID, orElse, UpdateTaskState, AssignTask, RequeueTask,
        Store.FailTask, checkWorkflowCompletion, applyFailurePolicy, requeueOne ].

Lemma maintains_CompleteTask k e o : maintains (CompleteTask k e o).
Proof. unfold CompleteTask. handler. Qed.

Lemma maintains_FailTask k e m : maintains (FailTask k e m).
Proof. unfold FailTask. handler. Qed.

Lemma maintains_HandleDeadWorker w : maintains (HandleDeadWorker w).
Proof. unfold HandleDeadWorker. handler. Qed.
#[local] Hint Resolve maintains_CompleteTask maintains_FailTask maintains_HandleDeadWorker : respects.

Lemma maintains_onMessage w m : maintains (onMessage w m).
Proof.
  unfold onMessage, handlePayload, handleTaskRequest, handleHeartbeat, handleTaskResult, UpdateWorkerHeartbeat,
    GetReadyTask. handler.
Qed.

(** Submission and start-up also write the cache. *)
Definition submission_maintains (w : WorkflowSpec) : Prop :=
  maintains (onStore (StoreWorkflow w)) /\
  forall ord dag, ValidateAndSort ord w = Some (inr dag) ->
  maintains (modm (fun m => foldl (fun m p => cache_task (WF.WorkflowId w) p m) m (range_map (ord 3%nat) (GetAllTaskSpecs dag)))).

Lemma maintains_SubmitWorkflowRPC w : submission_maintains w -> maintains (SubmitWorkflowRPC w).
Proof.
  intros [Hs Hc]. unfold SubmitWorkflowRPC, SubmitWorkflow. respects_step; [|handler].
  apply respects_bind; [apply _ | handler |]. intros ord.
  destruct (ValidateAndSort ord w) as [[e|dag]|] eqn:E; [handler | | handler]. specialize (Hc ord dag E). handler.
Qed.

Lemma maintains_startup : (forall r, maintains (loadWorkflow r)) -> maintains startup.
Proof. intros Hl. unfold startup, LoadStateFromDB, PrepareRecovery. handler. Qed.

(** ** The running system *)

Context (scan dead : Z) (I_boot : forall c u o, I c -> I (NewCoordinator (state c) scan dead u o)).

Definition holds_of (p : Process AbsDB) : Prop :=
  match p with Up c _ => I c | Down st u o => I (NewCoordinator st scan dead u o) end.

Lemma serve_holds {A} (h : M CA A) next c : maintains h -> I c -> holds_of (serve h next c).
Proof. intros Hh Hc. specialize (Hh c). unfold wp, serve in *. destruct (h c); simpl; [by apply Hh | by apply I_boot, Hh]. Qed.

Lemma exec_holds ev (p : Process AbsDB) :
  (forall w, ev = EvSubmit w -> submission_maintains w) -> (forall r, maintains (loadWorkflow r)) ->
  holds_of p -> holds_of (exec scan dead ev p).
Proof.
  intros Hs Hl Hp. destruct p as [c ss | st u o]; destruct ev; simpl in *; try done; try (by apply I_boot);
  try solve [apply serve_holds; [unfold CancelWorkflowRPC, CancelWorkflow, GetWorkflowStatus, heartbeatTick, checkHungWorkflows; handler | done]].
  - apply serve_holds; [by apply maintains_SubmitWorkflowRPC, Hs | done].
  - destruct (ss !! stream); [|done]. apply serve_holds; [apply maintains_onMessage | done].
  - apply serve_holds; [by apply maintains_startup | done].
Qed.

End Handlers.
End Frame.

(** ** The bucket of workers *)

Section Workers.
Context `{Env} `{Protobuf} (scan dead : Z).

Definition no_workers (c : CA) : Prop := AbsDB.workers (st_db (state c)) = ∅.

Lemma exec_workers ev (p : Process AbsDB) :
  AbsDB.workers (st_db (store_of p)) = ∅ -> AbsDB.workers (st_db (store_of (exec scan dead ev p))) = ∅.
Proof.
  intros Hp. assert (holds_of no_workers scan dead (exec scan dead ev p)) as Hq; [|by destruct (exec scan dead ev p)].
  assert (forall f, respects (keeping no_workers) (modm f)) as Hm
    by (intros f; apply respects_modify; intros c; unfold keeping; done).
  assert (forall w, preserves (part_of AbsDB.workers) (StoreWorkflow w)) as Hs by (intros w; by apply frame_StoreWorkflow).
  assert (forall c c' : CA, part_of AbsDB.workers (state c') = part_of AbsDB.workers (state c) ->
    taskSpecCache (mem c') = taskSpecCache (mem c) -> no_workers c -> no_workers c') as Hk.
  { unfold no_workers, part_of. congruence. }
  apply (exec_holds AbsDB.workers); try done; [|intros r|by destruct p].
  - intros w _. split; [|done]. by apply (maintains_onStore AbsDB.workers).
  - unfold loadWorkflow. repeat first [respects_step | apply Hm]. apply (maintains_onStore AbsDB.workers); [done |].
    by apply frame_GetWorkflow.
Qed.

End Workers.

(** No reachable process has a worker record. *)
Section Reachable.
Context `{Env} {D : Type} `{RecordDBLaws D} (scan dead : Z).

Lemma reachable_workers p : reachable scan dead p -> AbsDB.workers (adb p) = ∅.
Proof.
  induction 1 as [st u o [_ Hnew] | p ev Hp IH Hal]; [unfold adb; simpl; by rewrite Hnew |].
  destruct (reachable_inv _ _ _ Hp) as [Hok _]. destruct (exec_abs scan dead ev p Hok) as [_ E].
  assert (forall q : Process D, AbsDB.workers (st_db (store_of (proc_abs q))) = AbsDB.workers (adb q)) as Hq by (by intros []).
  rewrite <- Hq, <- E. apply exec_workers. by rewrite Hq.
Qed.

End Reachable.
