(* ===== verification/Submitted.v ===== *)
(** * The specifications tasks are run from

    The workflows of the database and the specifications in the coordinator's cache
    are those of the workflows that were submitted, through restarts too; so an
    assignment carries the command, the environment and the timeout its task was
    submitted with. *)

From S2P Require Import Prelude Proto Codec Env RecordDB Store StoreSpec Dag DagProps Heartbeat Coordinator.
From S2P Require Import StoreRefinement CoordinatorRefinement Invariant CoordinatorInv Submission Dashboard Service System Frame.

(** [t] is the specification of task [k] in one of the workflows of [K]. *)
Definition described (K : WorkflowSpec -> Prop) (k : string) (t : TaskSpec) : Prop :=
  exists w, K w /\ t ∈ WF.Tasks w /\ TS.TaskId t = k.

(** Workflows and cached specifications come from [K]. *)
Record known (K : WorkflowSpec -> Prop) (c : CA) : Prop := {
  known_stored w spec : AbsDB.workflows (st_db (state c)) !! w = Some spec -> K spec;
  known_cached k t : taskSpecCache (mem c) !! k = Some t -> described K k t
}.

(** The specifications of an accepted workflow. *)
Lemma validated_specs ord w dag k t :
  ValidateAndSort ord w = Some (inr dag) -> GetAllTaskSpecs dag !! k = Some t -> t ∈ WF.Tasks w /\ TS.TaskId t = k.
Proof.
  intros E Hk. pose proof (validate_verdict ord w) as Hv. rewrite E in Hv. destruct Hv as (_ & _ & _ & Hd).
  assert (k ∈ dom (DAG.tasks dag)) as Hin by (apply elem_of_dom; eauto).
  rewrite (dag_dom_tasks _ _ Hd), elem_of_list_to_set in Hin. apply list_elem_of_fmap in Hin as (t' & -> & Ht').
  destruct (dag_task _ _ Hd t' Ht') as (Hl & _). unfold GetAllTaskSpecs in Hk. by simplify_eq.
Qed.

Lemma cached_foldl w l m k t :
  taskSpecCache (foldl (fun m p => cache_task w p m) m l) !! k = Some t -> (k, t) ∈ l \/ taskSpecCache m !! k = Some t.
Proof.
  revert m. induction l as [|[k' t'] l IH]; intros m; simpl; [by right |]. intros [Hin|Hk]%IH; [by left; right |].
  destruct m. simpl in *. rewrite lookup_insert in Hk. case_decide; [|by right]. simplify_eq. left. left.
Qed.

Section Known.
Context `{Env} `{Protobuf} (K : WorkflowSpec -> Prop) (scan dead : Z).

Abbreviation learns := (respects (keeping (known K))).

Lemma known_kept (c c' : CA) :
  part_of AbsDB.workflows (state c') = part_of AbsDB.workflows (state c) ->
  taskSpecCache (mem c') = taskSpecCache (mem c) -> known K c -> known K c'.
Proof. unfold part_of. intros E1 E2 [Hs Hc]. split; [by rewrite E1 | by rewrite E2]. Qed.

Lemma known_read c s : st_db s = st_db (state c) -> known K c -> known K (mkCoordinator s (mem c)).
Proof. intros Es. apply known_kept; [|done]. unfold part_of. simpl. by rewrite Es. Qed.

Lemma known_boot c u o : known K c -> known K (NewCoordinator (state c) scan dead u o).
Proof. intros [Hs _]. split; [done |]. simpl. intros k t. by rewrite lookup_empty. Qed.

(** Caching the specifications of a workflow of [K]. *)
Lemma learns_cache w n l :
  K w -> (forall k t, (k, t) ∈ l -> t ∈ WF.Tasks w /\ TS.TaskId t = k) ->
  learns (modm (fun m => foldl (fun m p => cache_task n p m) m l)).
Proof.
  intros Hw Hl. apply respects_modify. intros c [Hs Hc]. split; [done |]. simpl.
  intros k t [Hin|Hk]%cached_foldl; [|by apply Hc]. exists w. by destruct (Hl k t Hin).
Qed.

Lemma learns_submission w : K w -> submission_maintains (known K) w.
Proof.
  intros Hw. split.
  - intros c. apply wp_onStore. unfold keeping. eapply wp_mono; [apply StoreWorkflow_spec | |].
    + intros [e|] s Es Hc; [by apply known_read |]. destruct Hc as [Hs Hc].
      split; [|done]. simpl. rewrite Es. simpl. intros x spec. rewrite lookup_insert.
      case_decide; [by intros [= <-] | by apply Hs].
    + intros s Es. by apply known_read.
  - intros ord dag E. apply (learns_cache w); [done |]. intros k t Hin%elem_of_range_map. by eapply validated_specs.
Qed.

Lemma learns_loadWorkflow r : learns (loadWorkflow r).
Proof.
  intros c. unfold loadWorkflow. destruct (negb _); [by apply wp_ret; unfold keeping |]. apply wp_bind, wp_onStore.
  eapply wp_mono; [apply GetWorkflow_spec | |].
  - intros [e|spec] s [Es Hg]; [apply wp_ret; intros Hc; by apply known_read |].
    apply wp_bind, wp_modify, wp_modify. intros Hc. pose proof (known_stored _ _ Hc _ _ (Hg spec eq_refl)) as Hk.
    destruct Hc as [Hs Hc]. split; [simpl; by rewrite Es |]. simpl. intros k t.
    rewrite <- (foldl_fmap (fun m p => cache_task (WF.WorkflowId spec) p m) _ _ (fun task => (TS.TaskId task, task))).
    intros [(t' & [= -> ->] & Ht)%list_elem_of_fmap | Hin]%cached_foldl; [by exists spec |]. apply Hc.
    by destruct (mem c).
  - intros s Es. intros Hc. by apply known_read.
Qed.

Lemma exec_known ev (p : Process AbsDB) :
  (forall w, ev = EvSubmit w -> K w) -> holds_of (known K) scan dead p -> holds_of (known K) scan dead (exec scan dead ev p).
Proof.
  intros Hev. apply (exec_holds AbsDB.workflows); try done.
  - apply known_kept.
  - apply known_boot.
  - intros w ->. by apply learns_submission, Hev.
  - apply learns_loadWorkflow.
Qed.

End Known.
