(* ===== verification/Stuck.v ===== *)
(** * Tasks nobody will queue

    A PENDING task leaves that state when its last dependency completes, and only
    then: submission queues the tasks without dependencies itself, one transaction
    each, and start-up takes up QUEUED and RUNNING tasks only. A PENDING task that
    waits for nothing, as a submission cut short leaves it, is therefore never
    queued again; [frozen] is the invariant that says so. *)

From S2P Require Import Prelude Proto Codec Env RecordDB Store StoreRefinement StoreSpec Dag DagProps Heartbeat Coordinator.
From S2P Require Import CoordinatorRefinement Invariant CoordinatorInv Submission Dashboard TaskChanges Service System Frame.

(** ** The invariant *)

(** A record that keeps its id and gets no downstream task. *)
Definition in_place (r r' : TaskStateRecord) : Prop :=
  TR.TaskID r' = TR.TaskID r /\ forall y, y ∈ TR.DownstreamTaskIDs r' -> y ∈ TR.DownstreamTaskIDs r.

Lemma in_place_canon r r' : TR.TaskID r' = TR.TaskID r -> TR.DownstreamTaskIDs r' = TR.DownstreamTaskIDs r -> in_place r (canonTask r').
Proof. intros Hi Hd. split; [done |]. simpl. rewrite Hd. intros y. apply canonIDs_elem. Qed.

Section Stuck.
Context `{Env} `{Protobuf} (k : string) (F : string -> Prop) (Fk : F k).

(** [k] is PENDING or SKIPPED; [F] holds of [k] and of the tasks it depends on,
    which are COMPLETE. *)
Record frozen_db (T : Tasks) : Prop := {
  fz_key x r : T !! x = Some r -> TR.TaskID r = x;
  fz_task : exists r, T !! k = Some r /\ (TR.State r = TASK_PENDING \/ TR.State r = TASK_SKIPPED);
  fz_up x r : T !! x = Some r -> k ∈ TR.DownstreamTaskIDs r -> F x;
  fz_done x : F x -> x <> k -> exists r, T !! x = Some r /\ TR.State r = TASK_COMPLETE
}.

(** None of them is queued or assigned. *)
Definition frozen_mem (m : Mem) : Prop :=
  forall x, F x -> (x ∉ readyQueue m) /\ assignedTasks m !! x = None /\ runningTasks m !! x = None.

Record frozen (c : CA) : Prop := { fz_db : frozen_db (tasks c); fz_mem : frozen_mem (mem c) }.

Lemma frozen_state T x : frozen_db T -> F x -> exists r, T !! x = Some r /\
  (TR.State r = TASK_PENDING \/ TR.State r = TASK_SKIPPED \/ TR.State r = TASK_COMPLETE).
Proof.
  intros HT Hx. destruct (decide (x = k)) as [->|Hn].
  - destruct (fz_task _ HT) as (r & ? & [?|?]); eauto.
  - destruct (fz_done _ HT x Hx Hn) as (r & ? & ?); eauto.
Qed.

Lemma frozen_active T x r :
  frozen_db T -> T !! x = Some r -> TR.State r = TASK_QUEUED \/ TR.State r = TASK_RUNNING -> ~ F x.
Proof. intros HT Hr Hs Hx. destruct (frozen_state T x HT Hx) as (r' & Hr' & Hs'). simplify_eq. states. lia. Qed.

(** ** Changes of the task records *)

Lemma frozen_insert T x r r' : frozen_db T -> T !! x = Some r -> ~ F x -> in_place r r' -> frozen_db (<[x := r']> T).
Proof.
  intros [H1' H2' H3' H4'] Hr Hx [Hi Hd]. assert (x <> k) by congruence. split.
  - intros y ry. rewrite lookup_insert. case_decide; [intros [= <-]; subst; rewrite Hi | ]; eauto.
  - by rewrite lookup_insert_ne.
  - intros y ry. rewrite lookup_insert. case_decide; [intros [= <-]; subst | by eauto]. intros Hk. eauto.
  - intros y Hy Hn. rewrite lookup_insert_ne by congruence. eauto.
Qed.

Lemma frozen_skipped P T T' :
  skipped_map P T T' -> (forall x r, T !! x = Some r -> P x r -> is_terminal (TR.State r) = false) ->
  frozen_db T -> frozen_db T'.
Proof.
  intros Hs Hp [H1' H2' H3' H4']. assert (forall x r', T' !! x = Some r' -> exists r, T !! x = Some r /\ in_place r r') as Hin.
  { intros x r' Hr'. specialize (Hs x). destruct (T !! x) as [r|]; [|congruence]. exists r. split; [done |].
    destruct Hs as [(_ & tm & E) | [_ E]]; rewrite E in Hr'; injection Hr' as <-; [|done]. by apply in_place_canon; destruct r. }
  split.
  - intros x r' (r & Hr & Hi & _)%Hin. rewrite Hi. eauto.
  - destruct H2' as (r & Hr & Hst). specialize (Hs k). rewrite Hr in Hs. destruct Hs as [(_ & tm & E) | [_ E]]; [|by eauto].
    exists (canonTask (skip_record tm r)). split; [done |]. right. by destruct r.
  - intros x r' (r & Hr & _ & Hd)%Hin Hk. eauto.
  - intros x Hx Hn. destruct (H4' x Hx Hn) as (r & Hr & Hc). specialize (Hs x). rewrite Hr in Hs.
    destruct Hs as [(HP & _) | [_ E]]; [|by eauto]. apply (Hp x r Hr) in HP. rewrite Hc in HP. done.
Qed.

Lemma frozen_unblocked T x r r1 T' ready :
  frozen_db T -> T !! x = Some r -> ~ F x -> in_place r r1 -> unblocked (TR.DownstreamTaskIDs r) (<[x := r1]> T) T' ready ->
  frozen_db T' /\ forall y, y ∈ ready -> ~ F y.
Proof.
  intros HT Hr Hx Hp Hu. pose proof (frozen_insert T x r r1 HT Hr Hx Hp) as HT1.
  assert (k ∉ TR.DownstreamTaskIDs r) as Hk by (intros Hk; by eapply Hx, (fz_up _ HT)).
  set (T1 := <[x := r1]> T) in *. destruct HT1 as [H1' H2' H3' H4'].
  assert (forall y r', T' !! y = Some r' -> exists r0, T1 !! y = Some r0 /\ in_place r0 r') as Hin.
  { intros y r' (r0 & E & Hc)%(unb_back _ _ _ _ _ _ Hu). exists r0. split; [done |].
    destruct Hc as [[_ ->] | [_ (Hi & _ & Hd & _)%settled_same]]; [done |]. split; [done | by rewrite Hd]. }
  assert (forall y r0, T1 !! y = Some r0 -> (y = k \/ TR.State r0 = TASK_COMPLETE) -> T' !! y = Some r0) as Hsame.
  { intros y r0 E Hc. destruct (decide (TR.State r0 = TASK_PENDING)) as [Hs|Hs]; [|by eapply unb_other].
    destruct Hc as [-> | Hc]; [|states; lia]. destruct (unb_pending _ _ _ _ Hu k r0 E Hs) as (r2 & Hr2 & Hset).
    apply occ_zero in Hk. destruct Hset as [[_ ->] | (tm & ? & _)]; [done | lia]. }
  split; [split|].
  - intros y r' (r0 & E & Hi & _)%Hin. rewrite Hi. eauto.
  - destruct H2' as (r0 & E & Hs). exists r0. split; [|done]. apply Hsame; auto.
  - intros y r' (r0 & E & _ & Hd)%Hin Hy. eauto.
  - intros y Hy Hn. destruct (H4' y Hy Hn) as (r0 & E & Hc). exists r0. split; [|done]. apply Hsame; auto.
  - intros y (r0 & E & Hs & Ho & _)%(unb_ready _ _ _ _ Hu) Hy. destruct (decide (y = k)) as [->|Hn].
    + apply occ_zero in Hk. lia.
    + destruct (H4' y Hy Hn) as (r2 & ? & ?). simplify_eq. states. lia.
Qed.

Lemma frozen_initialized w ind ds l T T' :
  initialized w ind ds l T T' -> (forall t, t ∈ l -> ~ F (TS.TaskId t)) ->
  (forall x y, y ∈ default [] (ds !! x) -> y <> k) -> frozen_db T -> frozen_db T'.
Proof.
  intros Hi Hl Hds [H1' H2' H3' H4'].
  assert (forall x r', T' !! x = Some r' -> (exists t tm, t ∈ l /\ x = TS.TaskId t /\ r' = canonTask (initial_record w ind ds t tm)) \/
    T !! x = Some r') as Hin.
  { intros x r' Hr'. destruct (decide (x ∈ TS.TaskId <$> l)) as [(t & -> & Ht)%list_elem_of_fmap | Hn].
    - destruct (init_in _ _ _ _ _ _ Hi t Ht) as (_ & tm & E). simplify_eq. left. eauto.
    - rewrite (init_out _ _ _ _ _ _ Hi x Hn) in Hr'. by right. }
  assert (forall x, F x -> T' !! x = T !! x) as Hout.
  { intros x Hx. apply (init_out _ _ _ _ _ _ Hi). intros (t & -> & Ht)%list_elem_of_fmap. by eapply Hl. }
  split.
  - intros x r' [(t & tm & _ & -> & ->) | Hr]%Hin; eauto.
  - by rewrite Hout.
  - intros x r' [(t & tm & _ & -> & ->) | Hr]%Hin Hk; [|by eauto]. apply canonIDs_elem in Hk. simpl in Hk. by apply Hds in Hk.
  - intros x Hx Hn. rewrite Hout by done. eauto.
Qed.

(** ** Code that keeps them frozen *)

Abbreviation leaves := (respects (keeping frozen)).

Definition by_frozen (T T' : Tasks) : Prop := frozen_db T -> frozen_db T'.

#[export] Instance by_frozen_preorder : PreOrder by_frozen.
Proof. unfold by_frozen. split; [by intros T |]. intros T1 T2 T3. auto. Qed.

Abbreviation sleaves := (respects (by_tasks by_frozen)).

Lemma leaves_onStore {A} (m : M (St AbsDB) A) : sleaves m -> leaves (onStore m).
Proof.
  intros Hm c. apply wp_onStore. eapply wp_mono; [apply Hm | |]; unfold by_tasks, by_frozen, keeping;
  [intros a s Hs [Hd Hme] | intros s Hs [Hd Hme]]; (split; [by apply Hs | done]).
Qed.

Lemma leaves_modm f : (forall m, frozen_mem m -> frozen_mem (f m)) -> leaves (modm f).
Proof. intros Hf. apply respects_modify. intros c [Hd Hm]. split; [done | by apply Hf]. Qed.

Lemma leaves_same f : (forall m, same_tasks m (f m)) -> leaves (modm f).
Proof. intros Hf. apply leaves_modm. intros m Hm x Hx. destruct (Hf m) as (-> & -> & ->). by apply Hm. Qed.

(** What a piece of code returns decides what comes next. *)
Lemma leaves_bind {A B} (P : A -> Prop) (m : M CA A) (h : A -> M CA B) :
  (forall c, frozen c -> wp m c (fun a c' => frozen c' /\ P a) frozen) -> (forall a, P a -> leaves (h a)) -> leaves (bind m h).
Proof.
  intros Hm Hh. apply maintains_wp. intros c Hc. apply wp_bind. eapply wp_mono; [by apply Hm | | done].
  intros a c' [Hc' HP]. by apply maintains_wp; [apply Hh |].
Qed.

Lemma leaves_getm {A B} (P : A -> Prop) f (h : A -> M CA B) :
  (forall m, frozen_mem m -> P (f m)) -> (forall a, P a -> leaves (h a)) -> leaves (bind (getm f) h).
Proof. intros Hf Hh. apply (leaves_bind P); [|done]. intros c Hc. apply wp_gets. split; [done |]. apply Hf, Hc. Qed.

Lemma leaves_foldM {Y A} (g : A -> Y -> M CA A) a l : (forall a y, y ∈ l -> leaves (g a y)) -> leaves (foldM g a l).
Proof.
  intros Hg. revert a. induction l as [|y l IH]; intros a; simpl; [apply respects_ret; apply _ |].
  apply respects_bind; [apply _ | apply Hg; by left |]. intros a'. apply IH. intros a2 y' Hy. apply Hg. by right.
Qed.

Lemma leaves_forEach {Y C} (g : C -> Y -> M CA (C * option GoError)) a l :
  (forall a y, y ∈ l -> leaves (g a y)) -> leaves (forEach g a l).
Proof.
  intros Hg. revert a. induction l as [|y l IH]; intros a; simpl; [apply respects_ret; apply _ |].
  apply respects_bind; [apply _ | apply Hg; by left |]. intros [a' [e|]]; [apply respects_ret; apply _ |].
  apply IH. intros a2 y' Hy. apply Hg. by right.
Qed.

(** *** Operations of the store *)

Lemma sleaves_modifyTask x u :
  ~ F x -> (forall t r, TR.TaskID (u t r) = TR.TaskID r /\ TR.DownstreamTaskIDs (u t r) = TR.DownstreamTaskIDs r) ->
  sleaves (modifyTask x u).
Proof.
  intros Hx Hu. apply changes_modifyTask; [apply _ |]. intros T r t Hr HT. destruct (Hu t r).
  by eapply frozen_insert; [| | |apply in_place_canon].
Qed.

Lemma sleaves_Cancel w : sleaves (CancelWorkflowTasks w).
Proof. apply changes_CancelWorkflowTasks; [apply _ |]. intros P T T' Hs Hp HT. by eapply frozen_skipped. Qed.

Lemma sleaves_Skip x : sleaves (SkipDownstreamTasks x).
Proof. apply changes_SkipDownstreamTasks. intros P T T' Hs Hp HT. by eapply frozen_skipped. Qed.

Lemma sleaves_queue x : ~ F x -> sleaves (UpdateTaskState x TASK_QUEUED).
Proof. intros Hx. apply sleaves_modifyTask; [done |]. by intros t []. Qed.

Lemma sleaves_AssignTask x e : ~ F x -> sleaves (AssignTask x e).
Proof. intros Hx. apply sleaves_modifyTask; [done |]. by intros t []. Qed.

Lemma sleaves_RequeueTask x e : ~ F x -> sleaves (RequeueTask x e).
Proof. intros Hx. apply sleaves_modifyTask; [done |]. by intros t []. Qed.

Lemma sleaves_FailTask x e n : ~ F x -> sleaves (Store.FailTask x e n).
Proof. intros Hx. apply sleaves_modifyTask; [done |]. by intros t []. Qed.

(** *** Updates of the memory *)

Lemma leaves_enqueue l : (forall x, x ∈ l -> ~ F x) -> leaves (modm (enqueue l)).
Proof.
  intros Hl. apply leaves_modm. intros m Hm x Hx. destruct (Hm x Hx) as (Hq & Ha & Hr). destruct m; simpl in *.
  split; [|done]. intros [?|?]%elem_of_app; [done | by eapply Hl].
Qed.

Lemma leaves_pop q : (forall x, x ∈ q -> ~ F x) -> leaves (modm (set_readyQueue q)).
Proof.
  intros Hq. apply leaves_modm. intros m Hm x Hx. destruct (Hm x Hx) as (_ & Ha & Hr). destruct m; simpl in *.
  split; [|done]. intros ?. by eapply Hq.
Qed.

Lemma leaves_dequeue l : leaves (modm (dequeue_all l)).
Proof.
  apply leaves_modm. intros m Hm x Hx. destruct (Hm x Hx) as (Hq & Ha & Hr). destruct m; simpl in *.
  split; [|done]. by intros [_ ?]%list_elem_of_filter.
Qed.

Lemma frozen_release x m : frozen_mem m -> frozen_mem (release x m).
Proof.
  intros Hm y Hy. destruct (Hm y Hy) as (Hq & Ha & Hr). destruct m; simpl in *.
  split_and!; [done | |]; rewrite lookup_delete; by case_decide.
Qed.

Lemma leaves_release x : leaves (modm (release x)).
Proof. apply leaves_modm. intros m. apply frozen_release. Qed.

Lemma leaves_release_all l : leaves (modm (fun m => foldl (fun m x => release x m) m l)).
Proof.
  apply leaves_modm. intros m. revert m. induction l as [|x l IH]; intros m Hm; simpl; [done |]. by apply IH, frozen_release.
Qed.

Lemma leaves_assign x w e : ~ F x -> leaves (modm (assign x w e)).
Proof.
  intros Hx. apply leaves_modm. intros m Hm y Hy. destruct (Hm y Hy) as (Hq & Ha & Hr). destruct m; simpl in *.
  by rewrite !lookup_insert_ne by congruence.
Qed.

(** ** Handlers *)

#[local] Hint Resolve sleaves_Cancel sleaves_Skip sleaves_queue sleaves_AssignTask sleaves_RequeueTask sleaves_FailTask
  leaves_onStore leaves_enqueue leaves_pop leaves_dequeue leaves_release leaves_release_all leaves_assign : respects.

(** Follow the code. *)
Ltac leave :=
  repeat first
    [ respects_step
    | apply leaves_same; solve [by intros []]
    | match goal with |- leaves (orElse ?e _) => destruct e; simpl end
    | progress unfold newUUID, nextOrders, taskWorkflowID, UpdateWorkerHeartbeat ].

Lemma leaves_requeueOne x : ~ F x -> leaves (requeueOne x).
Proof.
  intros Hx. assert (leaves (modm (enqueue [x]))) by (apply leaves_enqueue; by intros y ->%list_elem_of_singleton).
  unfold requeueOne. leave.
Qed.

Lemma leaves_GetReadyTask w : leaves (GetReadyTask w).
Proof.
  unfold GetReadyTask. apply (leaves_getm (fun q => forall x, x ∈ q -> ~ F x)); [intros m Hm x Hq Hx; by apply (Hm x Hx) |].
  intros [|x q] Hq; [leave |]. assert (~ F x) by (apply Hq; left).
  assert (leaves (modm (set_readyQueue q))) by (apply leaves_pop; intros y Hy; apply Hq; by right). leave.
Qed.

Lemma leaves_checkWorkflowCompletion w : leaves (checkWorkflowCompletion w).
Proof. unfold checkWorkflowCompletion. leave. Qed.
#[local] Hint Resolve leaves_checkWorkflowCompletion : respects.

Lemma leaves_FailTask x e msg : leaves (FailTask x e msg).
Proof.
  unfold FailTask. apply (leaves_getm (fun a => forall y f, a !! y = Some f -> ~ F y)).
  { intros m Hm y f Ha Hy. destruct (Hm y Hy) as (_ & ? & _). congruence. }
  intros a Ha. case_bool_decide as Hx; [|leave]. apply Ha in Hx.
  assert (leaves (modm (enqueue [x]))) by (apply leaves_enqueue; by intros y ->%list_elem_of_singleton).
  unfold applyFailurePolicy. leave.
Qed.

(** The transaction of a completion. *)
Lemma Store_CompleteTask_frozen x e o c :
  cinv c -> frozen c -> ~ F x ->
  wp (onStore (Store.CompleteTask x e o)) c (fun r c' => frozen c' /\ (r.2 = None -> forall y, y ∈ r.1 -> ~ F y)) frozen.
Proof.
  intros Hc [HT Hm] Hx. apply wp_onStore. eapply wp_mono; [apply CompleteTask_spec, dbinv_stable, Hc | |].
  - intros [ready [er|]] s' Hs; simpl in *; [split; [split; [|done] | done]; unfold db; simpl; by rewrite Hs |].
    destruct Hs as [(r & Hr & He & [(_ & Hd & ->) | (_ & tm & T' & Hu & Hd)])].
    + split; [split; [|done] | set_solver]. unfold db. simpl. by rewrite Hd.
    + destruct (frozen_unblocked _ _ _ _ _ _ HT Hr Hx (in_place_canon r (completed_record o tm r) ltac:(by destruct r) ltac:(by destruct r)) Hu)
        as [HT' Hn]. split; [split; [|done] | done]. unfold db. simpl. by rewrite Hd.
  - intros s' Hs. split; [|done]. unfold db in *. simpl. by rewrite Hs.
Qed.

Lemma CompleteTask_frozen x e o c : cinv c -> frozen c -> wp (CompleteTask x e o) c (fun _ => frozen) frozen.
Proof.
  intros Hc Hf. unfold CompleteTask. apply wp_bind, wp_gets. destruct (assignedTasks (mem c) !! x) as [f|] eqn:Ex.
  2: { apply maintains_wp; [leave | done]. }
  destruct (negb _); [by apply wp_ret |]. assert (~ F x) as Hx.
  { intros Hx. destruct (fz_mem _ Hf x Hx) as (_ & ? & _). congruence. }
  apply wp_bind. eapply wp_mono; [by apply Store_CompleteTask_frozen | | done].
  intros [ready [er|]] c' [Hf' Hn]; simpl in *; [by apply wp_ret |]. specialize (Hn eq_refl). apply maintains_wp; [leave | done].
Qed.

Lemma onMessage_frozen w m c : cinv c -> frozen c -> wp (onMessage w m) c (fun _ => frozen) frozen.
Proof.
  intros Hc Hf. unfold onMessage. cbv zeta. apply wp_bind.
  pose proof leaves_GetReadyTask. pose proof leaves_FailTask.
  destruct (WorkerMessage.Payload m) as [n | ts l | res |]; unfold handlePayload.
  - apply (wp_mono _ _ (fun _ => frozen) _ frozen); [|intros; by apply wp_ret|done].
    apply maintains_wp; [unfold handleTaskRequest; leave | done].
  - apply (wp_mono _ _ (fun _ => frozen) _ frozen); [|intros; by apply wp_ret|done].
    apply maintains_wp; [unfold handleHeartbeat; leave | done].
  - apply wp_bind. unfold handleTaskResult. destruct (TaskResult.Success res).
    + apply wp_bind. eapply wp_mono; [by apply CompleteTask_frozen | | done]. intros. by apply wp_ret, wp_ret, wp_ret.
    + apply wp_bind, (wp_mono _ _ (fun _ => frozen) _ frozen); [by apply maintains_wp | | done]. intros. by apply wp_ret, wp_ret, wp_ret.
  - by apply wp_ret, wp_ret.
Qed.

Lemma leaves_HandleDeadWorker w : leaves (HandleDeadWorker w).
Proof.
  unfold HandleDeadWorker. do 3 (apply respects_bind; [apply _ | leave | intros ?]). apply (leaves_getm (fun l => forall x, x ∈ l -> ~ F x)).
  { intros m Hm x Hin Hx. apply list_elem_of_fmap in Hin as ([y v] & -> & [_ Hin]%list_elem_of_filter).
    apply elem_of_range_map in Hin. destruct (Hm y Hx) as (_ & _ & ?). congruence. }
  intros l Hl. assert (leaves (foldM (fun _ x => requeueOne x) tt l)).
  { apply leaves_foldM. intros [] x Hx. by apply leaves_requeueOne, Hl. }
  leave.
Qed.
#[local] Hint Resolve leaves_HandleDeadWorker : respects.

(** A list of tasks read from the database, QUEUED or RUNNING. *)
Lemma leaves_inState {B} v (h : list string * option GoError -> M CA B) :
  v = TASK_QUEUED \/ v = TASK_RUNNING ->
  (forall l, (forall x, x ∈ l -> ~ F x) -> leaves (h (l, None))) -> (forall l e, leaves (h (l, Some e))) ->
  leaves (bind (onStore (GetTasksInState v)) h).
Proof.
  intros Hv Hh He. apply (leaves_bind (fun r => r.2 = None -> forall x, x ∈ r.1 -> ~ F x)).
  - intros c [HT Hm]. apply wp_onStore. eapply wp_mono; [apply GetTasksInState_spec | |].
    + intros [l e] s' [Hs Hl]. split; [split; [|done]; unfold db; simpl; by rewrite Hs |]. simpl in *. intros -> x Hin Hx.
      rewrite (Hl eq_refl) in Hin. apply select_ids in Hin as (r & Hr & Hst%Z.eqb_eq); [|apply (fz_key _ HT)].
      eapply (frozen_active _ x r HT Hr); [by rewrite Hst | done].
    + intros s' Hs. split; [|done]. unfold db in *. simpl. by rewrite Hs.
  - intros [l [e|]] Hl; [apply He | by apply Hh, Hl].
Qed.

Lemma leaves_LoadStateFromDB : leaves LoadStateFromDB.
Proof.
  unfold LoadStateFromDB, loadWorkflow. apply respects_bind; [apply _ | leave |]. intros [l [e|]]; [leave |].
  apply respects_bind; [apply _ | leave; apply leaves_same; intros m; apply same_foldl; by intros [] |]. intros _.
  apply leaves_inState; [by left | intros q Hq; leave | intros q e; leave].
Qed.

Lemma leaves_PrepareRecovery : leaves PrepareRecovery.
Proof.
  unfold PrepareRecovery. do 2 (apply respects_bind; [apply _ | leave | intros ?]).
  apply leaves_inState; [by right | | intros q e; leave]. intros l Hl.
  assert (leaves (foldM (fun _ x => requeueOne x) tt l)); [|leave].
  apply leaves_foldM. intros [] x Hx. by apply leaves_requeueOne, Hl.
Qed.

(** Submission: the new tasks are not among the frozen ones. *)
Lemma leaves_SubmitWorkflowRPC w : (forall t, t ∈ WF.Tasks w -> ~ F (TS.TaskId t)) -> leaves (SubmitWorkflowRPC w).
Proof.
  intros Hw. unfold SubmitWorkflowRPC, SubmitWorkflow. apply respects_bind; [apply _ | | intros [e|]; leave].
  apply respects_bind; [apply _ | leave |]. intros ord. pose proof (validate_verdict ord w) as Hv.
  destruct (ValidateAndSort ord w) as [[e|dag]|]; [leave | | done]. destruct Hv as (Hu & _ & _ & Hd).
  assert (forall x, x ∈ TS.TaskId <$> WF.Tasks w -> ~ F x) as Hids by (intros x (t & -> & Ht)%list_elem_of_fmap; by apply Hw).
  assert (sleaves (InitializeTasksForWorkflow (WF.WorkflowId w) (WF.Tasks w) (GetInDegree dag) (GetAllDownstream dag))).
  { apply changes_InitializeTasks; [apply _ | done |]. intros T T' Hi HT. eapply frozen_initialized; [done | done | | done].
    intros x y Hy ->. by apply (Hids k); [apply (dag_downstream_ids _ _ Hd x) |]. }
  assert (forall x, x ∈ GetReadyTasks (ord 4%nat) dag -> ~ F x) as Hready.
  { intros x Hx. apply Hids. apply list_elem_of_fmap in Hx as ([y n] & -> & [_ Hin]%list_elem_of_filter).
    apply elem_of_range_map in Hin. rewrite <- (elem_of_list_to_set (C := gset string)), <- (dag_dom_inDegree _ _ Hd).
    apply elem_of_dom. eauto. }
  assert (leaves (forEach (fun _ taskID => let! e := onStore (UpdateTaskState taskID TASK_QUEUED) in
    match e with
    | Some e => ret (tt, Some e)
    | None => modm (enqueue [taskID]) ;; ret (tt, None)
    end) tt (GetReadyTasks (ord 4%nat) dag))).
  { apply leaves_forEach. intros [] x Hx%Hready.
    assert (leaves (modm (enqueue [x]))) by (apply leaves_enqueue; by intros y ->%list_elem_of_singleton). leave. }
  leave. apply leaves_same. intros m. apply same_foldl. by intros [].
Qed.

(** ** The running system *)

Context (scan dead : Z).

Lemma frozen_new u o : frozen_mem (newMem scan dead u o).
Proof. intros x _. simpl. split_and!; [set_solver | apply lookup_empty | apply lookup_empty]. Qed.

Lemma frozen_boot c u o : frozen c -> frozen (NewCoordinator (state c) scan dead u o).
Proof. intros [HT _]. split; [done | apply frozen_new]. Qed.

Lemma serve_frozen {A} (h : M CA A) next c :
  wp h c (fun _ => frozen) frozen -> holds_of frozen scan dead (serve h next c).
Proof. unfold wp, serve. destruct (h c); simpl; [done | apply frozen_boot]. Qed.

Lemma exec_frozen ev (p : Process AbsDB) :
  proc_inv p -> (forall w, ev = EvSubmit w -> fresh_ids (AbsDB.tasks (st_db (store_of p))) w) ->
  holds_of frozen scan dead p -> holds_of frozen scan dead (exec scan dead ev p).
Proof.
  intros Hinv Hfr Hp. destruct p as [c ss | st u o]; destruct ev; simpl in *; try done; try (by apply frozen_boot);
  try solve [apply serve_frozen, maintains_wp; [unfold GetWorkflowStatus, CancelWorkflowRPC, CancelWorkflow, heartbeatTick,
    checkHungWorkflows; leave | done]].
  - apply serve_frozen, maintains_wp; [|done]. apply leaves_SubmitWorkflowRPC. intros t Ht Hx.
    destruct (Hfr workflow eq_refl t Ht) as [Hn _]. destruct (frozen_state _ _ (fz_db _ Hp) Hx) as (r & Hr & _).
    unfold db in *. congruence.
  - destruct (ss !! stream); [|done]. by apply serve_frozen, onMessage_frozen.
  - apply serve_frozen, maintains_wp; [|done]. unfold startup. pose proof leaves_LoadStateFromDB. pose proof leaves_PrepareRecovery. leave.
Qed.

End Stuck.

(** ** Runs over any database *)

Section Runs.
Context `{Env} {D : Type} `{RecordDBLaws D} (scan dead : Z).

Lemma later_frozen k F p q :
  F k -> proc_ok p -> proc_inv (proc_abs p) -> holds_of (frozen k F) scan dead (proc_abs p) -> later scan dead p q ->
  holds_of (frozen k F) scan dead (proc_abs q).
Proof.
  intros Fk Hok Hinv Hp. induction 1 as [|p q ev Hl IH Hal]; [done |]. specialize (IH Hok Hinv Hp).
  destruct (later_inv _ _ p q Hok Hinv Hl) as (Hq & Hiq & _). destruct (exec_abs scan dead ev q Hq) as [_ <-].
  apply exec_frozen; [done | done | | done]. intros w ->. by rewrite <- proc_abs_db.
Qed.

(** A PENDING task that waits for nothing is frozen with its dependencies. *)
Definition settled_by (T : Tasks) (k x : string) : Prop := x = k \/ exists r, T !! x = Some r /\ k ∈ TR.DownstreamTaskIDs r.

Lemma orphan_frozen p k r :
  proc_inv p -> AbsDB.tasks (st_db (store_of p)) !! k = Some r -> TR.State r = TASK_PENDING -> TR.InDegree r = 0 ->
  holds_of (frozen k (settled_by (AbsDB.tasks (st_db (store_of p))) k)) scan dead p.
Proof.
  intros Hinv Hr Hs Hd. set (T := AbsDB.tasks (st_db (store_of p))) in *.
  assert (dbinv (st_db (store_of p))) as [Hti _] by (destruct p; [apply Hinv | done]). fold T in Hti.
  assert (blockers T k = 0%nat) as Hb by (pose proof (ti_pending _ Hti k r Hr Hs); lia).
  assert (forall x rx, T !! x = Some rx -> k ∈ TR.DownstreamTaskIDs rx -> TR.State rx = TASK_COMPLETE) as Hup by (by apply blockers_none).
  assert (frozen_db k (settled_by T k) T) as HT.
  { split; [apply Hti | by eauto | intros x rx Hx Hk; right; eauto |].
    intros x [->|(rx & Hx & Hk)] Hn; [done |]. eauto. }
  destruct p as [c ss|st u o]; [|split; [done | by apply (frozen_new k); left]].
  simpl. split; [done |]. destruct Hinv as [_ Hm]. intros x Hx.
  assert (exists rx, T !! x = Some rx /\ (TR.State rx = TASK_PENDING \/ TR.State rx = TASK_COMPLETE)) as (rx & Hrx & Hsx).
  { destruct Hx as [->|(rx & Hx & Hk)]; [by eauto |]. exists rx. split; [done | right; eauto]. }
  assert (assignedTasks (mem c) !! x = None) as Ha.
  { destruct (assignedTasks (mem c) !! x) as [e|] eqn:E; [|done].
    destruct (mi_assigned _ _ Hm x e E) as (r' & Hr' & _ & Hs' & _). change (T !! x = Some r') in Hr'. simplify_eq. states. lia. }
  split_and!; [|done|by eapply unassigned_not_running].
  intros Hq. destruct (mi_queued _ _ Hm x Hq) as (r' & Hr' & Hs'). change (T !! x = Some r') in Hr'. simplify_eq. states. lia.
Qed.

End Runs.
