(* ===== verification/Executions.v ===== *)
(** * Execution ids are never reused

    Where the execution ids of the task records come from: every handler leaves the
    id of a record as it was, or replaces it by an id that was issued during the
    call, whatever fails and wherever the process dies. *)

From S2P Require Import Prelude Proto Codec Env RecordDB Store StoreSpec Dag DagProps Heartbeat Coordinator.
From S2P Require Import Invariant CoordinatorInv Requeue Submission Dashboard TaskChanges Service System.

(** The records keep their execution ids. *)
Definition kept (T T' : Tasks) : Prop :=
  forall k r', T' !! k = Some r' -> exists r, T !! k = Some r /\ TR.ExecutionID r' = TR.ExecutionID r.

(** From [n] issued ids and records [T] to [n'] and [T']. *)
Record traced `{Env} (n : nat) (T : Tasks) (n' : nat) (T' : Tasks) : Prop := {
  tr_issued : (n <= n')%nat;
  tr_ids k r' : T' !! k = Some r' ->
    (exists r, T !! k = Some r /\ TR.ExecutionID r' = TR.ExecutionID r) \/
    (exists i, (n <= i < n')%nat /\ TR.ExecutionID r' = uuid i) \/
    TR.ExecutionID r' = EmptyString
}.

Abbreviation ctraced c c' := (traced (uuids (mem c)) (tasks c) (uuids (mem c')) (tasks c')).

#[export] Instance kept_preorder : PreOrder kept.
Proof.
  split; [by intros T k r' Hr; exists r' |]. intros T1 T2 T3 H12 H23 k r3 Hr3.
  destruct (H23 k r3 Hr3) as (r2 & Hr2 & ->). by apply H12.
Qed.

Lemma kept_insert T k r r' : T !! k = Some r -> TR.ExecutionID r' = TR.ExecutionID r -> kept T (<[k := r']> T).
Proof.
  intros Hr He x rx. rewrite lookup_insert. case_decide; [intros [= <-]; subst; eauto | eauto].
Qed.

Lemma kept_skipped P T T' : skipped_map P T T' -> kept T T'.
Proof.
  intros Hs k r' Hr'. specialize (Hs k). destruct (T !! k) as [r|]; [|congruence]. exists r. split; [done |].
  destruct Hs as [(_ & tm & E) | [_ E]]; rewrite E in Hr'; injection Hr' as <-; by destruct r.
Qed.

Section Traced.
Context `{Env} `{Protobuf}.

Lemma traced_refl n T : traced n T n T.
Proof. split; [done |]. intros k r' Hr. left. eauto. Qed.

Lemma traced_trans n1 T1 n2 T2 n3 T3 : traced n1 T1 n2 T2 -> traced n2 T2 n3 T3 -> traced n1 T1 n3 T3.
Proof.
  intros [L1 I1] [L2 I2]. split; [lia |]. intros k r3 Hr3.
  destruct (I2 k r3 Hr3) as [(r2 & Hr2 & E) | [(i & Hi & E) | E]]; [| |auto].
  - destruct (I1 k r2 Hr2) as [(r1 & Hr1 & E1) | [(i & Hi & E1) | E1]]; rewrite E.
    + left. eauto.
    + right; left. exists i. split; [lia | done].
    + auto.
  - right; left. exists i. split; [lia | done].
Qed.

Lemma traced_kept n n' T T' : (n <= n')%nat -> kept T T' -> traced n T n' T'.
Proof. intros Hn Hk. split; [done |]. intros k r' Hr'. left. by apply Hk. Qed.

(** ** Handlers *)

Definition moves_on (c c' : CA) : Prop := ctraced c c'.

#[local] Instance moves_on_preorder : PreOrder moves_on.
Proof. split; [intros c; apply traced_refl |]. intros c1 c2 c3. apply traced_trans. Qed.

Abbreviation tracks := (respects moves_on).

Lemma tracks_modm f : (forall m, uuids (f m) = uuids m) -> tracks (modm f).
Proof. intros Hf. apply respects_modify. intros c. unfold moves_on. simpl. rewrite Hf. apply traced_refl. Qed.

Lemma tracks_nextOrders k : tracks (nextOrders k).
Proof.
  unfold nextOrders, getm. repeat respects_step. apply tracks_modm. by intros [].
Qed.

(** Operations of the store that keep the execution ids. *)
Abbreviation keeps_ids := (respects (by_tasks kept)).

Lemma tracks_onStore {A} (m : M (St AbsDB) A) : keeps_ids m -> tracks (onStore m).
Proof. intros Hm c. apply wp_onStore. eapply wp_mono; [apply Hm | |]; intros; by apply traced_kept. Qed.

Lemma keeps_ids_modifyTask k u :
  (forall t r, TR.ExecutionID (u t r) = TR.ExecutionID r) -> keeps_ids (modifyTask k u).
Proof. intros Hu. apply changes_modifyTask; [apply _ |]. intros T r t Hr. eapply kept_insert; [done |]. simpl. by rewrite Hu. Qed.

Lemma keeps_ids_UpdateTaskState k v : keeps_ids (UpdateTaskState k v).
Proof. apply keeps_ids_modifyTask. by intros t []. Qed.

Lemma keeps_ids_FailTask k msg n : keeps_ids (Store.FailTask k msg n).
Proof. apply keeps_ids_modifyTask. by intros t []. Qed.

Lemma keeps_ids_Cancel w : keeps_ids (CancelWorkflowTasks w).
Proof. apply changes_CancelWorkflowTasks; [apply _ |]. intros P T T' Hs _. by eapply kept_skipped. Qed.

Lemma keeps_ids_Skip k : keeps_ids (SkipDownstreamTasks k).
Proof. apply changes_SkipDownstreamTasks. intros P T T' Hs _. by eapply kept_skipped. Qed.

Lemma decremented_id r : TR.ExecutionID (decremented r) = TR.ExecutionID r.
Proof. unfold decremented. cbv zeta. repeat case_match; by destruct r. Qed.

Lemma keeps_ids_CompleteTask k e o : keeps_ids (Store.CompleteTask k e o).
Proof.
  apply changes_CompleteTask; [apply _ | |].
  - intros T r tm Hr _. eapply kept_insert; [done |]. by destruct r.
  - intros T x r tm Hr _. eapply kept_insert; [done |]. rewrite <- (decremented_id r). by destruct (decremented r).
Qed.

(** The records of new tasks have no execution id. *)
Lemma tracks_InitializeTasks w l ind ds :
  NoDup (TS.TaskId <$> l) -> tracks (onStore (InitializeTasksForWorkflow w l ind ds)).
Proof.
  intros Hnd c. apply wp_onStore. eapply wp_mono; [by apply Initialize_spec | |]; simpl.
  - intros [e|] s'; unfold moves_on, db; simpl; [intros ->; apply traced_refl |]. intros (m' & Hin & ->). split; [done |].
    simpl. intros k r' Hr'. destruct (decide (k ∈ TS.TaskId <$> l)) as [(t & -> & Ht)%list_elem_of_fmap | Hn].
    + destruct (init_in _ _ _ _ _ _ Hin t Ht) as (_ & tm & E). rewrite E in Hr'. injection Hr' as <-. auto.
    + rewrite (init_out _ _ _ _ _ _ Hin k Hn) in Hr'. eauto.
  - intros s'. unfold moves_on, db. simpl. intros ->. apply traced_refl.
Qed.

(** A new id is issued and stored. *)
Lemma tracks_issue {B} k u (h : string -> option GoError -> M CA B) :
  (forall e t r, TR.ExecutionID (u e t r) = e) -> (forall e r, tracks (h e r)) ->
  tracks (let! e := newUUID in let! r := onStore (modifyTask k (u e)) in h e r).
Proof.
  intros Hu Hh c. unfold newUUID. apply wp_bind, wp_bind, wp_gets, wp_bind, wp_modify, wp_ret, wp_bind, wp_onStore.
  set (c1 := set_mem _ c). assert (uuids (mem c1) = S (uuids (mem c))) as Hu1 by (unfold c1; simpl; by destruct (mem c)).
  assert (tasks c1 = tasks c) as Ht1 by done. clearbody c1.
  assert (forall s', st_db s' = st_db (state c1) -> ctraced c (mkCoordinator s' (mem c1))) as Hsame.
  { intros s' Hs'. apply traced_kept; [simpl; lia |]. unfold db in *. simpl. by rewrite Hs', Ht1. }
  eapply wp_mono; [apply modifyTask_spec | | intros s' Hs'; by apply Hsame].
  intros e s' Hs'. apply respects_from; [apply _ | done |]. destruct e as [e|]; [by apply Hsame |].
  destruct Hs' as (r & t & Hr & _ & Hs'). unfold moves_on, db in *. split; simpl; [lia |]. rewrite Hs'. simpl. intros x rx.
  rewrite lookup_insert. case_decide.
  - intros [= <-]. right; left. exists (uuids (mem c)). split; [lia |]. simpl. by rewrite Hu.
  - rewrite Ht1. eauto.
Qed.

(** ** Handlers of the coordinator *)

#[local] Hint Resolve keeps_ids_UpdateTaskState
  keeps_ids_FailTask keeps_ids_Cancel keeps_ids_Skip keeps_ids_CompleteTask
  tracks_nextOrders tracks_onStore : respects.

(** Follow the code; what is left are updates of the memory that keep the counter. *)
Ltac track :=
  repeat first
    [ solve [auto with respects nocore]
    | match goal with
      | |- tracks (bind newUUID _) =>
          apply (tracks_issue _ (fun e t r => set_LastUpdated t (set_ExecutionID e (set_State _ r))));
            [by intros ? ? [] | intros ? ?]
      | |- tracks (modm _) => apply tracks_modm; intros ?
      | |- tracks (orElse ?e _) => destruct e; simpl
      | |- uuids _ = uuids ?m => solve [by destruct m]
      end
    | respects_step ].

Lemma tracks_GetReadyTask w : tracks (GetReadyTask w).
Proof. unfold GetReadyTask, AssignTask. track. Qed.

Lemma tracks_checkWorkflowCompletion w : tracks (checkWorkflowCompletion w).
Proof. unfold checkWorkflowCompletion. track. Qed.
#[local] Hint Resolve tracks_checkWorkflowCompletion : respects.

Lemma tracks_CompleteTask k e o : tracks (CompleteTask k e o).
Proof. unfold CompleteTask, taskWorkflowID. track. Qed.

Lemma tracks_applyFailurePolicy w k p : tracks (applyFailurePolicy w k p).
Proof. unfold applyFailurePolicy. track. Qed.
#[local] Hint Resolve tracks_applyFailurePolicy : respects.

Lemma tracks_FailTask k e m : tracks (FailTask k e m).
Proof. unfold FailTask, taskWorkflowID, RequeueTask. track. Qed.

Lemma tracks_CancelWorkflow w : tracks (CancelWorkflow w).
Proof. unfold CancelWorkflow. track. Qed.

Lemma tracks_requeueOne k : tracks (requeueOne k).
Proof. unfold requeueOne, RequeueTask. track. Qed.
#[local] Hint Resolve tracks_requeueOne : respects.

Lemma tracks_HandleDeadWorker w : tracks (HandleDeadWorker w).
Proof. unfold HandleDeadWorker. track. apply release_all_rest. Qed.
#[local] Hint Resolve tracks_HandleDeadWorker : respects.

Lemma tracks_heartbeatTick : tracks heartbeatTick.
Proof. unfold heartbeatTick. track. Qed.

(** Filling the caches keeps the counter. *)
Lemma cache_all_uuids {X} (f : X -> string * TaskSpec) w l m :
  uuids (foldl (fun m x => cache_task w (f x) m) m l) = uuids m.
Proof. revert m. induction l as [|x l IH]; intros m; simpl; [done |]. rewrite IH. by destruct m. Qed.

Lemma tracks_startup : tracks startup.
Proof.
  unfold startup, LoadStateFromDB, PrepareRecovery, loadWorkflow. track.
  apply (cache_all_uuids (fun t => (TS.TaskId t, t))).
Qed.

Lemma tracks_checkHungWorkflows : tracks checkHungWorkflows.
Proof. unfold checkHungWorkflows. track. Qed.

Lemma tracks_SubmitWorkflowRPC w : tracks (SubmitWorkflowRPC w).
Proof.
  unfold SubmitWorkflowRPC. respects_step; [|destruct a; apply respects_ret; apply _].
  unfold SubmitWorkflow. apply respects_bind; [apply _ | apply tracks_nextOrders |]. intros ord.
  pose proof (validate_verdict ord w) as Hv. destruct (ValidateAndSort ord w) as [[e|dag]|]; [track | | done].
  destruct Hv as (Hu & _). track; [by apply tracks_InitializeTasks | apply (cache_all_uuids (fun p => p))].
Qed.

Lemma tracks_CancelWorkflowRPC w : tracks (CancelWorkflowRPC w).
Proof. unfold CancelWorkflowRPC. pose proof tracks_CancelWorkflow. track. Qed.

Lemma tracks_GetWorkflowStatus w : tracks (GetWorkflowStatus w).
Proof. unfold GetWorkflowStatus. track. Qed.

Lemma tracks_serveHTTP path s : tracks (onStore (serveHTTP path s)).
Proof. apply tracks_onStore, changes_serveHTTP. apply _. Qed.

Lemma tracks_onMessage w m : tracks (onMessage w m).
Proof.
  unfold onMessage, handlePayload, handleTaskRequest, handleHeartbeat, handleTaskResult, UpdateWorkerHeartbeat.
  pose proof tracks_GetReadyTask. pose proof tracks_CompleteTask. pose proof tracks_FailTask. track.
Qed.

(** ** The running system *)

Definition issued {D} (p : Process D) : nat := match p with Up c _ => uuids (mem c) | Down _ u _ => u end.

Lemma serve_traced {A} (h : M CA A) next c :
  tracks h -> traced (uuids (mem c)) (tasks c) (issued (serve h next c)) (AbsDB.tasks (st_db (store_of (serve h next c)))).
Proof. intros Hh. specialize (Hh c). unfold wp, serve in *. by destruct (h c). Qed.

#[local] Hint Resolve tracks_serveHTTP tracks_SubmitWorkflowRPC tracks_CancelWorkflowRPC tracks_GetWorkflowStatus tracks_onMessage
  tracks_heartbeatTick tracks_checkHungWorkflows tracks_startup : respects.

Lemma exec_traced scan dead ev (p : Process AbsDB) :
  traced (issued p) (AbsDB.tasks (st_db (store_of p)))
    (issued (exec scan dead ev p)) (AbsDB.tasks (st_db (store_of (exec scan dead ev p)))).
Proof.
  destruct p as [c ss | st u o]; destruct ev; simpl; try apply traced_refl;
  try (apply serve_traced; solve [auto with respects nocore]).
  - destruct (ss !! stream); [apply serve_traced; auto with respects nocore | apply traced_refl].
  - apply (serve_traced startup _ (NewCoordinator st scan dead u o)), tracks_startup.
Qed.

End Traced.

(** Along the runs of the system over any database. *)
Section Runs.
Context `{Env} {D : Type} `{RecordDBLaws D} (scan dead : Z).

Lemma later_traced p q :
  proc_ok p -> later scan dead p q ->
  proc_ok q /\ traced (issued p) (AbsDB.tasks (adb p)) (issued q) (AbsDB.tasks (adb q)).
Proof.
  intros Hok. induction 1 as [|p q ev _ IH Hal]; [split; [done | apply traced_refl] |].
  destruct (IH Hok) as [Hq Ht]. destruct (exec_abs scan dead ev q Hq) as [Hq' E]. split; [done |].
  eapply traced_trans; [exact Ht |]. pose proof (exec_traced scan dead ev (proc_abs q)) as Hx. rewrite E in Hx.
  rewrite !proc_abs_db. by destruct q, (exec scan dead ev _).
Qed.

End Runs.
