(* ===== verification/Sample.v ===== *)
(** * Sample inputs

    A workflow of two tasks, the interfaces of [Env] instantiated by their models,
    and a run of the system on them: concrete inputs for the theorems. *)

From S2P Require Import Prelude Proto Codec Env RecordDB Store StoreRefinement StoreSpec Dag Heartbeat.
From S2P Require Import Coordinator CoordinatorRefinement Invariant CoordinatorInv Service System.
#[export] Existing Instances GBolt.bolt GBolt.laws GBolt.stable GProto.protobuf GProto.laws
  GEnv.env GEnv.no_faults GEnv.fresh.

(** The database on buckets that are finite maps. *)
Abbreviation GDB := (BoltDB GBolt.bucket).

Definition emptyStore : St GDB := mkSt (BoltDB.mk b_new b_new b_new b_new b_new) aux0.

Definition taskA : TaskSpec := TS.mk "a" [] "echo a" ∅ 0 0.
Definition taskB : TaskSpec := TS.mk "b" ["a"%string] "echo b" ∅ 0 1.
Definition workflow1 : WorkflowSpec := WF.mk "w" [taskA; taskB] FAIL_FAST.

Definition said (p : WorkerPayload) : event := EvMessage 0 (WorkerMessage.mk "worker-1" p).
Definition result (task exec : string) (ok : bool) : WorkerPayload :=
  TaskResultMsg (TaskResult.mk task exec ok "out" "err" 7).

Abbreviation sample_exec := (exec (D := GDB) (5 * Second) (15 * Second)).
Definition sample_run (evs : list event) : Process GDB :=
  foldl (fun p ev => sample_exec ev p) (Down emptyStore 0 0) evs.

(** The workflow is submitted and a worker has connected: task [a] is queued. *)
Definition submitted : list event := [EvBoot; EvSubmit workflow1; EvOpen 0].
(** The worker asks for work and gets task [a]. *)
Definition assigned_a : list event := [EvBoot; EvSubmit workflow1; EvOpen 0; said (TaskRequest 4)].
(** The result of [a] arrives, the worker gets [b]. *)
Definition assigned_b : list event := assigned_a ++ [said (result "a" "uuid-0" true); said (TaskRequest 4)].

(** ** Runs are reachable *)

#[export] Instance fresh_ids_dec T w : Decision (fresh_ids T w).
Proof.
  refine (cast_if (decide (Forall (fun t => T !! TS.TaskId t = None /\
    Z.of_nat (length (TS.Dependencies t)) < 2 ^ 31) (WF.Tasks w)))); by rewrite ?Forall_forall in *.
Defined.

#[export] Instance allowed_dec ev (p : Process GDB) : Decision (allowed ev p).
Proof. destruct ev; simpl; apply _. Defined.

Fixpoint all_allowed (evs : list event) (p : Process GDB) : bool :=
  match evs with
  | [] => true
  | ev :: evs => bool_decide (allowed ev p) && all_allowed evs (sample_exec ev p)
  end.

Lemma run_later evs p q :
  later (5 * Second) (15 * Second) p q -> all_allowed evs q = true ->
  later (5 * Second) (15 * Second) p (foldl (fun p ev => sample_exec ev p) q evs).
Proof.
  revert q. induction evs as [|ev evs IH]; intros q Hq Ha; simpl in *; [done |].
  apply andb_true_iff in Ha as [Ha1%bool_decide_eq_true Ha2]. apply IH; [by constructor | done].
Qed.

Lemma sample_new : new_store emptyStore.
Proof. apply (bolt_new (B := GBolt.bucket)). Qed.

Lemma sample_reachable evs :
  all_allowed evs (Down emptyStore 0 0) = true -> reachable (5 * Second) (15 * Second) (sample_run evs).
Proof.
  intros Ha. unfold sample_run.
  assert (forall evs p, reachable (5 * Second) (15 * Second) p -> all_allowed evs p = true ->
    reachable (5 * Second) (15 * Second) (foldl (fun p ev => sample_exec ev p) p evs)) as Hr.
  { clear. induction evs as [|ev evs IH]; intros p Hp Ha; simpl in *; [done |].
    apply andb_true_iff in Ha as [Ha1%bool_decide_eq_true Ha2]. apply IH; [by constructor | done]. }
  apply Hr; [constructor; apply sample_new | done].
Qed.

(** ** Parts of a run *)

Definition coord_of (p : Process GDB) : Coordinator GDB :=
  match p with Up c _ => c | Down st u o => NewCoordinator st 0 0 u o end.
Definition streams_of (p : Process GDB) : gmap nat string :=
  match p with Up _ ss => ss | Down _ _ _ => ∅ end.
Definition is_up (p : Process GDB) : bool := match p with Up _ _ => true | Down _ _ _ => false end.

Lemma up_parts p : is_up p = true -> Up (coord_of p) (streams_of p) = p.
Proof. by destruct p. Qed.

(** The state a call leaves. *)
Definition after {T A} (h : M T A) (t : T) : T := match h t with Done t' _ => t' | Crashed t' => t' end.

Lemma done_after {T A} (h : M T A) t a (same : A -> bool) :
  (forall x, same x = true -> x = a) -> match h t with Done _ x => same x | Crashed _ => false end = true ->
  h t = Done (after h t) a.
Proof. intros Hs. unfold after. destruct (h t) as [t' x|]; [|done]. intros Hx. by rewrite (Hs x Hx). Qed.

Lemma none_after {T A} (h : M T (option A)) t :
  match h t with Done _ None => true | _ => false end = true -> h t = Done (after h t) None.
Proof. intros Hx. apply (done_after h t None (fun x => match x with None => true | _ => false end)); [by intros [] |]. by destruct (h t) as [? []|]. Qed.

Lemma sample_up evs :
  is_up (sample_run evs) && all_allowed evs (Down emptyStore 0 0) = true ->
  reachable (5 * Second) (15 * Second) (Up (coord_of (sample_run evs)) (streams_of (sample_run evs))).
Proof.
  intros [Hup Ha]%andb_true_iff. pose proof (sample_reachable evs Ha) as Hr.
  by destruct (sample_run evs).
Qed.

(** The store of a run, and what the theorems about it assume. *)
Definition store_after (evs : list event) : St GDB := store_of (sample_run evs).

Lemma sample_store evs :
  all_allowed evs (Down emptyStore 0 0) = true ->
  st_ok (store_after evs) /\ dbinv (db_abs (st_db (store_after evs))).
Proof.
  intros Ha. pose proof (sample_reachable evs Ha) as Hr. split.
  - by destruct (reachable_inv _ _ _ Hr).
  - by apply (reachable_dbinv (5 * Second) (15 * Second)).
Qed.
