(* ===== verification/RecoveryGaps.v ===== *)
(** * What recovery does not recover

    Submission and failure are sequences of transactions. A process that dies
    between two of them leaves records that start-up does not take up again; the
    theorem says which, the runs show that a crash produces them. *)

From S2P Require Import Prelude Proto Codec Env RecordDB Store StoreRefinement StoreSpec Dag Heartbeat.
From S2P Require Import Coordinator CoordinatorRefinement Invariant CoordinatorInv Dashboard Service System Frame Stuck Sample.

(** A PENDING record that counts no open dependency, or one with a FAILED one. *)
Definition lost (T : Tasks) (k : string) : Prop :=
  exists r, T !! k = Some r /\ TR.State r = TASK_PENDING /\
    (TR.InDegree r = 0 \/ exists x rx, T !! x = Some rx /\ TR.State rx = TASK_FAILED /\ k ∈ TR.DownstreamTaskIDs rx).

Section Gaps.
Context `{Env} {D : Type} `{RecordDBLaws D} (scan dead : Z).

(** A task with a FAILED dependency is not started. *)
Lemma failed_blocks T k x rx :
  tasks_inv T -> T !! x = Some rx -> TR.State rx = TASK_FAILED -> k ∈ TR.DownstreamTaskIDs rx ->
  forall r, T !! k = Some r -> TR.State r = TASK_PENDING \/ TR.State r = TASK_SKIPPED.
Proof.
  intros Hti Hx Hs Hk r Hr. destruct (started (TR.State r)) eqn:Es.
  - pose proof (blockers_none T k (ti_started _ Hti k r Hr Es) x rx Hx Hk). states. lia.
  - pose proof (ti_state _ Hti k r Hr). unfold started in Es. rewrite !orb_false_iff, !Z.eqb_neq in Es. states. lia.
Qed.

(** C11. Crash recovery does not resume a submission or a failure policy. In a reachable
    state (handlers one at a time, submissions with unused task ids), a task that is PENDING although it waits for nothing, or waits for a task
    that FAILED, is never queued, run or finished in any later state, whatever
    restarts, ticks and messages follow: it stays PENDING until a cancellation or a
    failure policy skips it. *)
Theorem unrecovered p q k :
  reachable scan dead p -> later scan dead p q -> lost (AbsDB.tasks (adb p)) k ->
  exists r, AbsDB.tasks (adb q) !! k = Some r /\ (TR.State r = TASK_PENDING \/ TR.State r = TASK_SKIPPED).
Proof.
  intros [Hok Hinv]%reachable_inv Hl (r & Hr & Hs & Hcase). destruct (later_inv _ _ p q Hok Hinv Hl) as (Hq & Hiq & Hadv).
  destruct Hcase as [Hd | (x & rx & Hx & Hf & Hk)].
  - rewrite proc_abs_db in Hr. pose proof (orphan_frozen scan dead _ k r Hinv Hr Hs Hd) as Hp.
    pose proof (later_frozen scan dead k _ p q (or_introl eq_refl) Hok Hinv Hp Hl) as Hfz. rewrite proc_abs_db.
    destruct (proc_abs q); apply Hfz.
  - destruct (adv_record _ _ Hadv x rx Hx) as (rx' & Hx' & _ & _ & Hfin). rewrite (Hfin (or_intror Hf)) in Hx'.
    destruct (adv_record _ _ Hadv k r Hr) as (r' & Hr' & _). exists r'. split; [done |].
    eapply failed_blocks; [|apply Hx'|done|done|done]. rewrite proc_abs_db in *. destruct (proc_abs q); apply Hiq.
Qed.

End Gaps.

(** ** Runs with a crash *)

Section Crash.
Context (n : nat).

(** The process is killed in its [n]-th transaction. *)
#[local] Instance killed_at : Env := {|
  clock := clock; uuid := uuid; order := order; fault i := if (i =? n)%nat then TxKill else TxOk
|}.

Abbreviation crash_exec := (exec (D := GDB) (5 * Second) (15 * Second)).
Definition crash_from (p : Process GDB) (evs : list event) : Process GDB := foldl (fun p ev => crash_exec ev p) p evs.
Definition crash_run (evs : list event) : Process GDB := crash_from (Down emptyStore 0 0) evs.

Fixpoint crash_allowed (evs : list event) (p : Process GDB) : bool :=
  match evs with
  | [] => true
  | ev :: evs => bool_decide (allowed ev p) && crash_allowed evs (crash_exec ev p)
  end.

Lemma crash_later evs p q :
  later (5 * Second) (15 * Second) p q -> crash_allowed evs q = true -> later (5 * Second) (15 * Second) p (crash_from q evs).
Proof.
  revert q. induction evs as [|ev evs IH]; intros q Hq Ha; simpl in *; [done |].
  apply andb_true_iff in Ha as [Ha1%bool_decide_eq_true Ha2]. apply IH; [by constructor | done].
Qed.

Lemma later_reachable p q :
  reachable (5 * Second) (15 * Second) p -> later (5 * Second) (15 * Second) p q -> reachable (D := GDB) (5 * Second) (15 * Second) q.
Proof. intros Hp. induction 1; [done | by constructor; auto]. Qed.

Lemma crash_reachable evs : crash_allowed evs (Down emptyStore 0 0) = true -> reachable (5 * Second) (15 * Second) (crash_run evs).
Proof. intros Ha. eapply later_reachable, crash_later; [constructor; apply sample_new | constructor | done]. Qed.

End Crash.

(** Killed when task [a] is about to be queued; the process is started again. *)
Definition cut_submission : list event := [EvBoot; EvSubmit workflow1; EvBoot; EvOpen 0].

(** [a] fails its only attempt; killed when the failure policy is about to be applied. *)
Definition one_attempt : WorkflowSpec := WF.mk "w" [TS.mk "a" [] "echo a" ∅ 0 1; taskB] FAIL_FAST.
Definition cut_policy : list event :=
  [EvBoot; EvSubmit one_attempt; EvOpen 0; said (TaskRequest 4); said (result "a" "uuid-0" false); EvBoot; EvOpen 0].

Definition afterwards : list event := [said (TaskRequest 4); EvTick; EvKill; EvBoot; EvOpen 0; said (TaskRequest 4)].

(** ** Witness *)

Lemma unrecovered_witness :
  (exists r, AbsDB.tasks (adb (crash_from 6 (crash_run 6 cut_submission) afterwards)) !! "a"%string = Some r /\
     (TR.State r = TASK_PENDING \/ TR.State r = TASK_SKIPPED)) /\
  (exists r, AbsDB.tasks (adb (crash_from 10 (crash_run 10 cut_policy) afterwards)) !! "b"%string = Some r /\
     (TR.State r = TASK_PENDING \/ TR.State r = TASK_SKIPPED)).
Proof.
  split.
  - apply (unrecovered (H := killed_at 6) (5 * Second) (15 * Second) (crash_run 6 cut_submission)).
    + apply crash_reachable. vm_refl.
    + apply crash_later; [constructor | vm_refl].
    + eexists. split; [vm_refl |]. split; [reflexivity |]. left. reflexivity.
  - apply (unrecovered (H := killed_at 10) (5 * Second) (15 * Second) (crash_run 10 cut_policy)).
    + apply crash_reachable. vm_refl.
    + apply crash_later; [constructor | vm_refl].
    + eexists. split; [vm_refl |]. split; [reflexivity |]. right. exists "a"%string. eexists. split; [vm_refl |].
      split; [reflexivity | left].
Defined.
