(* ===== verification/Races.v ===== *)
(** * Races between a result and a dead worker

    [HandleDeadWorker] takes the tasks of a worker out of the assignments and
    requeues them afterwards, without looking at their records again; a result that
    was checked before and is stored in between is undone. Interleavings of the
    threads of [Concurrent] from a state the system reaches. *)

From S2P Require Import Prelude Proto Codec Env RecordDB Store StoreRefinement StoreSpec Dag Heartbeat.
From S2P Require Import Coordinator CoordinatorRefinement Invariant CoordinatorInv Dashboard Service System Concurrent.
From S2P Require Import LockDiscipline ConcurrentProps Sample.
Import Threads.

(** ** Interleavings *)

(** A call arrives, or thread [i] does its next [n] actions (fewer when it ends). *)
Inductive move :=
  | Arrives (a : call)
  | Acts (i n : nat).

Section Interleave.
Context `{Env} {D : Type} `{RecordDB D}.

Fixpoint acts (i n : nat) (g : config (D := D)) : scheduled :=
  match n with
  | O => Stepped g
  | S n =>
      match threads g !! i with
      | Some (Ret _) => Stepped g
      | _ => match sched i g with Stepped g' => acts i n g' | r => r end
      end
  end.

Fixpoint interleave (l : list move) (g : config (D := D)) : scheduled :=
  match l with
  | [] => Stepped g
  | Arrives a :: l => interleave l (mkConfig (coord g) (holder g) (threads g ++ [body a]))
  | Acts i n :: l => match acts i n g with Stepped g' => interleave l g' | r => r end
  end.

Lemma acts_steps i n g g' : acts i n g = Stepped g' -> steps g g'.
Proof.
  revert g. induction n as [|n IH]; intros g; simpl; [by intros [= <-] |]. intros Ha.
  destruct (threads g !! i) as [[]|]; try (by injection Ha as <-);
  (destruct (sched i g) as [| g1 |] eqn:E; [done | | done]); (eapply rtc_l; [by eapply step_sched | by apply IH]).
Qed.

Lemma interleave_steps l g g' : interleave l g = Stepped g' -> steps g g'.
Proof.
  revert g. induction l as [|[a | i n] l IH]; intros g; simpl; [by intros [= <-] | |].
  - intros Hl. eapply rtc_l; [apply step_call | by apply IH].
  - destruct (acts i n g) as [| g1 |] eqn:E; [done | | done]. intros Hl.
    etrans; [by eapply acts_steps | by apply IH].
Qed.

End Interleave.

(** ** The state the races start from *)

(** Task [d] waits for [a] and [b], which two workers run. *)
Definition joined : WorkflowSpec :=
  WF.mk "w" [TS.mk "a" [] "a" ∅ 0 0; TS.mk "b" [] "b" ∅ 0 0; TS.mk "d" ["a"; "b"]%string "d" ∅ 0 0] FAIL_FAST.

Definition both_running : list event :=
  [EvBoot; EvSubmit joined; EvOpen 0; EvOpen 1;
   EvMessage 0 (WorkerMessage.mk "worker-1" (TaskRequest 1));
   EvMessage 1 (WorkerMessage.mk "worker-2" (TaskRequest 1));
   EvMessage 0 (WorkerMessage.mk "worker-1" (Heartbeat (-20000) ["a"%string]));
   EvMessage 1 (WorkerMessage.mk "worker-2" (Heartbeat 1000000 ["b"%string]))].

Definition start : Coordinator GDB := coord_of (sample_run both_running).

Definition state_of (k : string) (g : config (D := GDB)) : option TaskState :=
  TR.State <$> AbsDB.tasks (db_abs (st_db (state (coord g)))) !! k.

(** The result of [a] is checked; the tick takes [a] from the dead worker; the
    result is stored; the tick requeues [a]. *)
Definition late_requeue (a e : string) : list move :=
  [Arrives (CallComplete a e "out"); Arrives CallTick; Acts 0 3; Acts 1 10; Acts 0 1].

Definition requeued (a e : string) : list move := late_requeue a e ++ [Acts 1 100; Acts 0 100].

(** Then [a] runs again and its result counts a second time. *)
Definition counted_twice : list move :=
  [Arrives (CallRequest "worker-3"); Acts 2 100; Arrives (CallComplete "a" "uuid-3" "again"); Acts 3 100].

(** The configuration an interleaving ends in. *)
Definition reached (l : list move) (g : config (D := GDB)) : config (D := GDB) :=
  match interleave l g with Stepped g' => g' | _ => g end.

Lemma reached_steps l g : steps g (reached l g).
Proof. unfold reached. destruct (interleave l g) eqn:E; [done | by eapply interleave_steps | done]. Qed.

(** A stored result can be undone. From a state of the sample run there is an interleaving
    of a worker's result with the tick that declares the worker dead in which the
    task is COMPLETE in the database and QUEUED afterwards; when it has run again,
    its second result makes a task QUEUED that depends on another task still
    RUNNING. *)
Theorem result_race :
  reachable (5 * Second) (15 * Second) (Up start (streams_of (sample_run both_running))) /\
  exists g1 g2 g3, steps (idle start) g1 /\ steps g1 g2 /\ steps g2 g3 /\
    state_of "a" g1 = Some TASK_COMPLETE /\ state_of "a" g2 = Some TASK_QUEUED /\
    state_of "b" g3 = Some TASK_RUNNING /\ state_of "d" g3 = Some TASK_QUEUED.
Proof.
  split; [apply sample_up; vm_refl |].
  set (g1 := reached (late_requeue "a" "uuid-0") (idle start)). set (g2 := reached [Acts 1 100; Acts 0 100] g1).
  exists g1, g2, (reached counted_twice g2). split_and!; try apply reached_steps; vm_refl.
Qed.

(** A failure report and the tick both put the task back: it is queued twice. *)
Lemma queued_twice :
  exists g, steps (idle start) g /\ readyQueue (mem (coord g)) = ["a"; "a"]%string.
Proof.
  exists (reached [Arrives (CallFail "a" "uuid-0" "err"); Arrives CallTick; Acts 0 3; Acts 1 100; Acts 0 100] (idle start)).
  split; [apply reached_steps | vm_refl].
Qed.

(** ** Witnesses *)

(** Two requests, the first of which has entered its critical section. *)
Definition entered : config (D := GDB) :=
  reached [Arrives (CallRequest "worker-1"); Arrives (CallRequest "worker-2"); Acts 0 1] (idle start).

Lemma mutual_exclusion_witness :
  match threads entered !! 0%nat with Some (Local _ _) => holder entered = Some 0%nat | _ => False end.
Proof.
  assert (match threads entered !! 0%nat with Some (Local _ _) => true | _ => false end = true) as Hl by vm_refl.
  destruct (threads entered !! 0%nat) as [p|] eqn:E; [|discriminate Hl].
  pose proof (mutual_exclusion start entered 0%nat p (reached_steps _ _) E) as Hm.
  destruct p; try discriminate Hl. exact Hm.
Defined.

Lemma calls_return_witness : length (threads entered) = 2%nat /\ exists l, all_returned (schedule l entered).
Proof. split; [vm_refl |]. apply (calls_return start), reached_steps. Defined.
