(* ===== verification/StoreWitness.v ===== *)
(** * Witnesses for the theorems about the store

    Each theorem of [StoreProps] that has hypotheses, applied to the store of a
    sample run on the models of [Env]. *)

From S2P Require Import Prelude Proto Codec Env RecordDB Store StoreRefinement StoreSpec NoFault Skip.
From S2P Require Import StoreProps Dag Heartbeat Invariant Service System Sample.

Lemma store_refinement_witness :
  let ops := [OpGetTask "a"; OpWrite (OpCompleteTask "a" "uuid-0" "out"); OpGetTasksInState TASK_QUEUED] in
  let s := store_after assigned_a in
  exists s' replies, run_ops ops s = Done s' replies /\
    bolt_ok (st_db s') /\ run_ops (D := AbsDB) ops (st_abs s) = Done (st_abs s') replies.
Proof.
  intros ops s. pose proof (store_refinement (B := GBolt.bucket) ops s) as Hr.
  assert (bolt_ok (st_db s)) as Hs by (apply sample_store; vm_refl).
  destruct (run_ops ops s) as [s' replies | s'] eqn:E.
  - exists s', replies. split; [reflexivity | exact (Hr eq_refl Hs)].
  - assert (match run_ops ops s with Done _ _ => true | Crashed _ => false end = true) as Hd by vm_refl. by rewrite E in Hd.
Defined.

Lemma complete_unblocks_witness :
  let s := store_after assigned_a in
  let s' := after (CompleteTask "a" "uuid-0" "out") s in
  exists ready, ready = ["b"%string] /\ NoDup ready /\
    exists r', atasks s' !! "a"%string = Some r' /\ TR.State r' = TASK_COMPLETE /\ TR.Output r' = "out"%string.
Proof.
  intros s s'. exists ["b"%string]. split; [reflexivity |].
  destruct (sample_store assigned_a) as [Hok Hinv]; [vm_refl |].
  edestruct (complete_unblocks "a" "uuid-0" "out" s s' ["b"%string]) as ((r' & Hr' & Hs' & Ho' & _) & _ & _ & _ & Hnd & _).
  - exact Hok.
  - exact (dbinv_stable _ Hinv).
  - vm_refl.
  - vm_refl.
  - vm_compute. discriminate.
  - split; [exact Hnd |]. exists r'. split; [exact Hr' | split; [exact Hs' | exact Ho']].
Defined.

Lemma stale_completion_witness :
  let s := store_after assigned_a in
  match CompleteTask "a" "old" "out" s with
  | Done s' (ready, err) =>
      ready = [] /\ err <> None /\ st_db s' = st_db s /\ (NoFaults -> err = Some ErrStaleExecution)
  | Crashed s' => st_db s' = st_db s
  end.
Proof.
  intros s. destruct (sample_store assigned_a) as [Hok _]; [vm_refl |].
  eapply (stale_completion "a" "old" "out" s).
  - exact Hok.
  - vm_refl.
  - vm_compute. discriminate.
Defined.

Lemma repeated_completion_witness :
  let s := store_after assigned_b in
  exists s', CompleteTask "a" "uuid-0" "again" s = Done s' ([], None) /\ atasks s' = atasks s.
Proof.
  intros s. destruct (sample_store assigned_b) as [Hok _]; [vm_refl |].
  eapply (repeated_completion "a" "uuid-0" "again" s).
  - exact Hok.
  - vm_refl.
  - reflexivity.
  - reflexivity.
Defined.

Lemma cancel_effect_witness :
  let s := store_after assigned_b in
  let s' := after (CancelWorkflowTasks "w") s in
  NoDup ["b"%string] /\ atasks s' !! "a"%string = atasks s !! "a"%string.
Proof.
  intros s s'. destruct (sample_store assigned_b) as [Hok Hinv]; [vm_refl |].
  destruct (cancel_effect "w" s s' ["b"%string]) as (Hnd & _ & Hk).
  - exact Hok.
  - exact (ti_key _ (di_tasks _ Hinv)).
  - vm_refl.
  - split; [exact Hnd |]. specialize (Hk "a"%string). destruct (atasks s !! "a"%string) eqn:E; [|exact Hk].
    destruct Hk as [[Hin _] | [_ Hk]]; [|exact Hk].
    apply list_elem_of_singleton in Hin. discriminate Hin.
Defined.

Lemma skip_terminates_witness :
  let s := store_after assigned_a in
  exists s' skipped, skipLoop (S (length ["b"%string] + edges (task_each (st_db s)))) ∅ ["b"%string] [] s
    = Done s' ([], skipped).
Proof.
  intros s. destruct (sample_store assigned_a) as [Hok _]; [vm_refl |].
  destruct (skipLoop (S (length ["b"%string] + edges (task_each (st_db s)))) ∅ ["b"%string] [] s)
    as [s' [rest skipped] | s'] eqn:E.
  - exists s', skipped. rewrite (skip_terminates ["b"%string] s s' rest skipped Hok E). reflexivity.
  - assert (match skipLoop (S (length ["b"%string] + edges (task_each (st_db s)))) ∅ ["b"%string] [] s with
            | Done _ _ => true | Crashed _ => false end = true) as Hd by vm_refl. by rewrite E in Hd.
Defined.

Lemma workflow_complete_iff_witness :
  let s := store_after assigned_b in
  false = true <-> forall k r, atasks s !! k = Some r -> TR.WorkflowID r = "w"%string -> is_terminal (TR.State r) = true.
Proof.
  intros s. destruct (sample_store assigned_b) as [Hok _]; [vm_refl |].
  apply (workflow_complete_iff "w" s (after (IsWorkflowComplete "w") s) false).
  - exact Hok.
  - vm_refl.
Defined.
