(* ===== verification/SystemProps.v ===== *)
(** * What the running system guarantees

    The theorems about reachable processes, for every database that keeps the
    promise of [RecordDBLaws] (bbolt under the laws of [Env], [ForEachPutStable]
    included), every fault, every map order and every sequence of events. They are about the process that runs its
    handlers one at a time, and whose clients do not reuse task ids; what holds of
    interleaved handlers is in [InterleavingProps], and what does not in [Races]. *)

From S2P Require Import Prelude Proto Codec Env RecordDB Store StoreRefinement StoreSpec Dag Heartbeat.
From S2P Require Import Coordinator CoordinatorRefinement Invariant CoordinatorInv Service System Executions Failure Sample.

Section Props.
Context `{Env} {D : Type} `{RecordDBLaws D} (scan dead : Z).

(** The dependency [x] of task [t] of workflow [w], as the stored specification has it. *)
Definition stored_dependency (d : AbsDB) (w : string) (t : TaskSpec) (x : string) : Prop :=
  exists spec, AbsDB.workflows d !! w = Some spec /\ t ∈ WF.Tasks spec /\ x ∈ TS.Dependencies t.

(** C2. Dependency safety. In every state the system can reach when its handlers run
    one at a time (each ends before the next begins) and submissions use unused task
    ids, through any sequence of submissions, worker messages, ticks, kills and
    restarts, and whatever transactions fail: a task that is queued, running,
    complete or failed has all the dependencies its stored specification lists
    COMPLETE. Interleaved handlers need the condition of [interleaved_safety]. *)
Theorem dependency_safety p w t x r :
  reachable scan dead p -> stored_dependency (adb p) w t x ->
  AbsDB.tasks (adb p) !! TS.TaskId t = Some r -> TR.WorkflowID r = w -> started (TR.State r) = true ->
  exists rx, AbsDB.tasks (adb p) !! x = Some rx /\ TR.State rx = TASK_COMPLETE.
Proof.
  intros Hp (spec & Hs & Ht & Hx) Hr Hw Hst. apply reachable_dbinv in Hp.
  by eapply (dependencies_met (adb p) w spec t x r).
Qed.

(** C7. Assignment safety. When handlers run one at a time and submissions use unused
    task ids: when a worker's request is answered with an assignment in a reachable
    state, the assigned task was at the head of the ready queue,
    its record is RUNNING under the execution id that is handed out, and all the
    dependencies of the task are COMPLETE. *)
Theorem assignment_safety c ss w c' a :
  reachable scan dead (Up c ss) -> GetReadyTask w c = Done c' (Some a) ->
  exists r q, AbsDB.tasks (adb (Up c' ss)) !! TaskAssignment.TaskId a = Some r /\
    TR.State r = TASK_RUNNING /\ TR.ExecutionID r = TaskAssignment.ExecutionId a /\
    readyQueue (mem c) = TaskAssignment.TaskId a :: q /\ readyQueue (mem c') = q /\
    forall t x, TS.TaskId t = TaskAssignment.TaskId a ->
      stored_dependency (adb (Up c' ss)) (TR.WorkflowID r) t x ->
      exists rx, AbsDB.tasks (adb (Up c' ss)) !! x = Some rx /\ TR.State rx = TASK_COMPLETE.
Proof.
  intros [Hok Hinv]%reachable_inv E.
  destruct (refines_done _ _ _ _ _ (csim_GetReadyTask w) Hok E) as [_ E'].
  pose proof (GetReadyTask_spec w _ _ (good_refl _ Hinv)) as Hwp. unfold wp in Hwp. rewrite E' in Hwp.
  destruct Hwp as [[Hg _] Ho]. destruct (Ho a eq_refl) as (q & spec & r & Hq & Hq' & _ & _ & _ & _ & Hr & Hs & He).
  exists r, q. split_and!; try done. intros t x Ht (spec' & Hw & Hin & Hx).
  eapply (dependencies_met (db (coord_abs c'))); [apply Hg | done | done | done | by rewrite Ht | done | by rewrite Hs].
Qed.

(** C5. Results are final. When handlers run one at a time and no submission reuses a
    task id: a record that is COMPLETE or FAILED in a reachable state is found
    unchanged (its state, its execution id, its output and error, its attempt count)
    in every later state, after restarts and cancellations too. A result that is
    stored between two steps of another handler can be undone ([Races.result_race]). *)
Theorem results_final p q k r :
  reachable scan dead p -> later scan dead p q ->
  AbsDB.tasks (adb p) !! k = Some r -> TR.State r = TASK_COMPLETE \/ TR.State r = TASK_FAILED ->
  AbsDB.tasks (adb q) !! k = Some r.
Proof.
  intros [Hok Hinv]%reachable_inv Hl Hr Hs. destruct (later_inv _ _ p q Hok Hinv Hl) as (_ & _ & Ha).
  destruct (adv_record _ _ Ha k r Hr) as (r' & Hr' & _ & _ & Hf). by rewrite (Hf Hs) in Hr'.
Qed.

(** C6. One execution wins. When handlers run one at a time and no submission reuses a
    task id: if the coordinator accepts a completion of a task
    under one execution id and, any number of events and restarts later, accepts a
    completion of the same task again, then the execution id is the same and the
    stored record is the one the first completion wrote. *)
Theorem single_winner c ss c1 c2 ss2 c3 k e1 e2 o1 o2 :
  reachable scan dead (Up c ss) -> CompleteTask k e1 o1 c = Done c1 None ->
  later scan dead (Up c1 ss) (Up c2 ss2) -> CompleteTask k e2 o2 c2 = Done c3 None ->
  e1 = e2 /\ exists r, AbsDB.tasks (adb (Up c1 ss)) !! k = Some r /\ AbsDB.tasks (adb (Up c3 ss2)) !! k = Some r.
Proof.
  intros [Hok Hinv]%reachable_inv E1 Hl E2.
  destruct (refines_done _ _ _ _ _ (csim_CompleteTask k e1 o1) Hok E1) as [Hok1 E1'].
  pose proof (CompleteTask_accepted k e1 o1 _ _ (good_refl _ Hinv)) as Hw1. unfold wp in Hw1. rewrite E1' in Hw1.
  destruct Hw1 as [[Hinv1 _] Hr1]. destruct (Hr1 eq_refl) as (r1 & Hr & Hs1 & He1).
  destruct (later_inv _ _ (Up c1 ss) (Up c2 ss2) Hok1 Hinv1 Hl) as (Hok2 & Hinv2 & Ha).
  destruct (refines_done _ _ _ _ _ (csim_CompleteTask k e2 o2) Hok2 E2) as [_ E2'].
  pose proof (CompleteTask_accepted k e2 o2 _ _ (good_refl _ Hinv2)) as Hw2. unfold wp in Hw2. rewrite E2' in Hw2.
  destruct Hw2 as [[_ Ha2] Hr2]. destruct (Hr2 eq_refl) as (r2 & Hr2' & Hs2 & He2).
  destruct (adv_record _ _ Ha k r1 Hr) as (r & Hk & _ & _ & Hf). rewrite (Hf ltac:(by left)) in Hk.
  destruct (adv_record _ _ Ha2 k r1 Hk) as (r' & Hk' & _ & _ & Hf'). rewrite (Hf' ltac:(by left)) in Hk'.
  split; [congruence |]. exists r1. done.
Qed.

(** C8. The queue and the assignments. In every state of a running coordinator that is
    reachable with handlers run one at a time and unused task ids: no task is twice in the ready queue; a queued task is QUEUED in
    the database and not assigned; an assigned task is RUNNING (or was skipped by a
    cancellation) under the assigned execution id; and the two maps of assigned
    tasks have the same keys. *)
Theorem scheduler_state c ss :
  reachable scan dead (Up c ss) ->
  NoDup (readyQueue (mem c)) /\
  (forall k, k ∈ readyQueue (mem c) -> assignedTasks (mem c) !! k = None /\
     exists r, AbsDB.tasks (adb (Up c ss)) !! k = Some r /\ TR.State r = TASK_QUEUED) /\
  (forall k e, assignedTasks (mem c) !! k = Some e ->
     exists r, AbsDB.tasks (adb (Up c ss)) !! k = Some r /\ TR.ExecutionID r = e /\
       (TR.State r = TASK_RUNNING \/ TR.State r = TASK_SKIPPED)) /\
  dom (runningTasks (mem c)) = dom (assignedTasks (mem c)).
Proof.
  intros [_ [Hdb Hm]]%reachable_inv. change (mem (coord_abs c)) with (mem c) in Hm.
  split_and!; [apply Hm | | | apply Hm].
  - intros k Hk. split; [by eapply queued_not_assigned |]. by apply (mi_queued _ _ Hm).
  - intros k e He. destruct (mi_assigned _ _ Hm k e He) as (r & ? & ? & ? & _). eauto.
Qed.

(** C20. Superseded executions. When handlers run one at a time and submissions use
    unused task ids: an execution id that was issued and is not the one in
    the record of a task (because the task was requeued, reassigned or belongs to
    another id) is refused for that task ever after, restarts included: no
    completion and no failure under it is accepted, and a failure changes nothing.
    UUIDs are assumed to be distinct and not empty. *)
Theorem superseded_execution `{!FreshUUIDs} c ss n k c2 ss2 :
  reachable scan dead (Up c ss) -> (n < uuids (mem c))%nat -> uuid n <> EmptyString ->
  (forall r, AbsDB.tasks (adb (Up c ss)) !! k = Some r -> TR.ExecutionID r <> uuid n) ->
  later scan dead (Up c ss) (Up c2 ss2) ->
  (forall o c3, CompleteTask k (uuid n) o c2 <> Done c3 None) /\
  (forall msg, FailTask k (uuid n) msg c2 = Done c2 (Some ErrStaleExecution)).
Proof.
  intros Hr Hn Hne Hk Hl. destruct (reachable_inv _ _ _ Hr) as [Hok Hinv].
  destruct (later_traced _ _ _ _ Hok Hl) as [_ Ht]. destruct (later_inv _ _ _ _ Hok Hinv Hl) as (Hok2 & Hinv2 & _).
  assert (forall c3, traced (uuids (mem c2)) (AbsDB.tasks (adb (Up c2 ss2))) (uuids (mem c3)) (tasks c3) ->
    forall r, tasks c3 !! k = Some r -> TR.ExecutionID r <> uuid n) as Hnot.
  { intros c3 Ht3 r Hr3 He. destruct (tr_ids _ _ _ _ (traced_trans _ _ _ _ _ _ Ht Ht3) k r Hr3)
      as [(r1 & Hr1 & E) | [(i & Hi & E) | E]]; [|rewrite E in He; apply fresh_uuids in He; simpl in *; lia | congruence].
    apply (Hk r1 Hr1). congruence. }
  split.
  - intros o c3 E. destruct (refines_done _ _ _ _ _ (csim_CompleteTask k (uuid n) o) Hok2 E) as [_ E'].
    destruct (wp_done _ _ _ _ _ _ (CompleteTask_accepted k (uuid n) o _ _ (good_refl _ Hinv2)) E') as [_ Ha].
    destruct (Ha eq_refl) as (r & Hr3 & _ & He). pose proof (tracks_CompleteTask k (uuid n) o (coord_abs c2)) as Hx.
    exact (Hnot (coord_abs c3) (wp_done _ _ _ _ _ _ Hx E') r Hr3 He).
  - intros msg. apply FailTask_stale. intros Ha. destruct Hinv2 as [_ Hm].
    destruct (mi_assigned _ _ Hm k _ Ha) as (r & Hr2 & He & _).
    exact (Hnot (coord_abs c2) (traced_refl _ _) r Hr2 He).
Qed.

(** C27. Stored records are well typed. In every state that is reachable with handlers
    run one at a time and unused task ids, a task record is stored under its own id; its state is one of the six the protocol defines, with the name
    [String] prints; its counters and its timestamp have the range of their Go
    types and its in-degree is not negative, and while it is PENDING the number of
    its dependencies that are not COMPLETE; its downstream ids have records; and
    its encoding, when shorter than 2^31 bytes, decodes to the same record. *)
Theorem records_typed p k r :
  reachable scan dead p -> AbsDB.tasks (adb p) !! k = Some r ->
  TR.TaskID r = k /\ TASK_PENDING <= TR.State r <= TASK_SKIPPED /\
  TaskState_name !! Z.to_nat (TR.State r) = Some (TaskState_String (TR.State r)) /\
  is_int32 (TR.AttemptCount r) /\ is_int64 (TR.LastUpdated r) /\ 0 <= TR.InDegree r < 2 ^ 31 /\
  (TR.State r = TASK_PENDING -> TR.InDegree r = Z.of_nat (blockers (AbsDB.tasks (adb p)) k)) /\
  (forall x, x ∈ TR.DownstreamTaskIDs r -> is_Some (AbsDB.tasks (adb p) !! x)) /\
  (Z.of_nat (length (marshalTaskRecord r)) < 2 ^ 31 -> unmarshalTaskRecord (marshalTaskRecord r) = ROk r []).
Proof.
  intros Hp Hr. destruct (di_tasks _ (reachable_dbinv _ _ _ Hp)) as [H1' H2' H3' H4' H5' _ _ H8'].
  pose proof (H2' k r Hr) as Hst. pose proof (H8' k r Hr) as Hs. pose proof (H3' k r Hr) as Hn.
  destruct (proj1 (stable_fields r) Hst) as (_ & Ha & Hl & Hi & _).
  split; [eauto |]. split; [done |]. split; [apply TaskState_named; states; lia |]. split; [done |]. split; [done |].
  split; [unfold is_int32 in Hi; lia |]. split; [eauto |]. split; [eauto |].
  intros Hlen. rewrite unmarshal_marshal_task by done. by rewrite Hst.
Qed.

End Props.

(** ** Witnesses *)

Lemma dependency_safety_witness :
  exists rx, AbsDB.tasks (adb (sample_run assigned_b)) !! "a"%string = Some rx /\ TR.State rx = TASK_COMPLETE.
Proof.
  eapply (dependency_safety (5 * Second) (15 * Second) _ "w"%string taskB "a"%string).
  - apply sample_reachable. vm_refl.
  - exists workflow1. split; [vm_refl |]. split; [right; left | left].
  - vm_refl.
  - reflexivity.
  - reflexivity.
Defined.

Lemma assignment_safety_witness :
  let c := coord_of (sample_run submitted) in
  let ss := streams_of (sample_run submitted) in
  let c' := after (GetReadyTask "worker-1") c in
  exists r q, AbsDB.tasks (adb (Up c' ss)) !! "a"%string = Some r /\
    TR.State r = TASK_RUNNING /\ TR.ExecutionID r = "uuid-0"%string /\
    readyQueue (mem c) = "a"%string :: q /\ readyQueue (mem c') = q /\
    forall t x, TS.TaskId t = "a"%string ->
      stored_dependency (adb (Up c' ss)) (TR.WorkflowID r) t x ->
      exists rx, AbsDB.tasks (adb (Up c' ss)) !! x = Some rx /\ TR.State rx = TASK_COMPLETE.
Proof.
  intros c ss c'.
  apply (assignment_safety (5 * Second) (15 * Second) c ss "worker-1" c'
           (TaskAssignment.mk "a" "uuid-0" "echo a" ∅ 0)).
  - apply sample_up. vm_refl.
  - vm_refl.
Defined.

Lemma results_final_witness :
  exists r, AbsDB.tasks (adb (sample_run assigned_b)) !! "a"%string = Some r /\
    AbsDB.tasks (adb (sample_run (assigned_b ++ [EvCancel "w"%string; EvKill; EvBoot]))) !! "a"%string = Some r.
Proof.
  eexists. split; [vm_refl |].
  apply (results_final (5 * Second) (15 * Second) (sample_run assigned_b)).
  - apply sample_reachable. vm_refl.
  - unfold sample_run. rewrite foldl_app. apply run_later; [constructor | vm_refl].
  - vm_refl.
  - left. reflexivity.
Defined.

Lemma single_winner_witness :
  let c := coord_of (sample_run assigned_a) in
  let ss := streams_of (sample_run assigned_a) in
  let c1 := after (CompleteTask "a" "uuid-0" "out") c in
  let p2 := foldl (fun p ev => sample_exec ev p) (Up c1 ss) [said (TaskRequest 4); EvKill; EvBoot] in
  let c3 := after (CompleteTask "a" "uuid-0" "again") (coord_of p2) in
  "uuid-0"%string = "uuid-0"%string /\
  exists r, AbsDB.tasks (adb (Up c1 ss)) !! "a"%string = Some r /\
            AbsDB.tasks (adb (Up c3 (streams_of p2))) !! "a"%string = Some r.
Proof.
  intros c ss c1 p2 c3.
  apply (single_winner (5 * Second) (15 * Second) c ss c1 (coord_of p2) (streams_of p2) c3 "a"
           "uuid-0" "uuid-0" "out" "again").
  - apply sample_up. vm_refl.
  - refine (none_after (CompleteTask "a" "uuid-0" "out") c _). vm_refl.
  - rewrite (up_parts p2) by vm_refl.
    apply run_later; [constructor | vm_refl].
  - refine (none_after (CompleteTask "a" "uuid-0" "again") (coord_of p2) _). vm_refl.
Defined.

Lemma scheduler_state_witness :
  let c := coord_of (sample_run assigned_a) in
  assignedTasks (mem c) !! "a"%string = Some "uuid-0"%string /\
  exists r, AbsDB.tasks (adb (Up c ∅)) !! "a"%string = Some r /\ TR.ExecutionID r = "uuid-0"%string /\
    (TR.State r = TASK_RUNNING \/ TR.State r = TASK_SKIPPED).
Proof.
  intros c. split; [vm_refl |].
  destruct (scheduler_state (5 * Second) (15 * Second) c (streams_of (sample_run assigned_a))) as (_ & _ & Ha & _).
  - apply sample_up. vm_refl.
  - apply (Ha "a"%string). vm_refl.
Defined.

(** The task was assigned under [uuid-0], and requeued under [uuid-1] by a restart. *)
Definition restarted : list event := assigned_a ++ [EvKill; EvBoot].

Lemma superseded_execution_witness :
  let p2 := foldl (fun p ev => sample_exec ev p) (sample_run restarted) [EvOpen 0; said (TaskRequest 4)] in
  (forall o c3, CompleteTask "a" (uuid 0) o (coord_of p2) <> Done c3 None) /\
  (forall msg, FailTask "a" (uuid 0) msg (coord_of p2) = Done (coord_of p2) (Some ErrStaleExecution)).
Proof.
  intros p2.
  apply (superseded_execution (5 * Second) (15 * Second) (coord_of (sample_run restarted))
           (streams_of (sample_run restarted)) 0 "a" (coord_of p2) (streams_of p2)).
  - apply sample_up. vm_refl.
  - vm_compute. lia.
  - vm_compute. discriminate.
  - vm_compute. intros r [= <-]. discriminate.
  - rewrite (up_parts p2) by vm_refl.
    rewrite (up_parts (sample_run restarted)) by vm_refl.
    apply run_later; [constructor | vm_refl].
Defined.

Lemma records_typed_witness :
  exists r, AbsDB.tasks (adb (sample_run assigned_b)) !! "b"%string = Some r /\ TR.TaskID r = "b"%string /\
    TaskState_name !! Z.to_nat (TR.State r) = Some (TaskState_String (TR.State r)).
Proof.
  destruct (AbsDB.tasks (adb (sample_run assigned_b)) !! "b"%string) as [r|] eqn:E.
  - exists r. split; [reflexivity |].
    destruct (records_typed (5 * Second) (15 * Second) (sample_run assigned_b) "b"%string r) as (H1 & _ & H2 & _);
      [apply sample_reachable; vm_refl | exact E | split; assumption].
  - assert (match AbsDB.tasks (adb (sample_run assigned_b)) !! "b"%string with Some _ => true | None => false end = true)
      as Hd by vm_refl. rewrite E in Hd. discriminate Hd.
Defined.
