(* ===== verification/InterleavingProps.v ===== *)
(** * What the interleaved handlers guarantee

    The calls of clients, workers and timers arrive at any time and their threads
    interleave at will. As long as no transaction overwrites a COMPLETE or FAILED
    record, the dependencies are respected; [Races] shows that the condition is
    needed. *)

From S2P Require Import Prelude Proto Codec Env RecordDB Store StoreRefinement StoreSpec Dag DagProps Heartbeat.
From S2P Require Import Coordinator CoordinatorRefinement Invariant CoordinatorInv Submission Dashboard Service System.
From S2P Require Import Concurrent LockDiscipline ConcurrentProps Rely RelyHandlers RelySubmit Sample SystemProps Races.
Import Threads.

Section Interleavings.
Context `{Env} {D : Type} `{RecordDBLaws D} (scan dead : Z).
Abbreviation ctasks c := (AbsDB.tasks (cdb c)).

(** ** Calm executions *)

Definition is_ret (p : prog D unit) : bool := match p with Ret _ => true | _ => false end.

(** The workflows that are being submitted. *)
Definition claims (ps : list (prog D unit)) (calls : list call) : list (option WorkflowSpec) :=
  zip_with (fun p a => if is_ret p then None else submits a) ps calls.

(** A call arrives: a submission brings task ids that no record and no submission in
    progress has, and a workflow id that no submission in progress has. Or a thread
    acts, and overwrites no final record. *)
Inductive calm_step : config (D := D) * list call -> config (D := D) * list call -> Prop :=
  | calm_call a g calls :
      (forall w, submits a = Some w -> fresh_ids (ctasks (coord g)) w) ->
      Forall (separate (submits a)) (claims (threads g) calls) ->
      calm_step (g, calls) (mkConfig (coord g) (holder g) (threads g ++ [body a]), calls ++ [a])
  | calm_act i g g' calls :
      sched i g = Stepped g' -> calm (cdb (coord g)) (cdb (coord g')) -> calm_step (g, calls) (g', calls).

(** ** The invariant *)

Lemma separate_sym o o' : separate o o' -> separate o' o.
Proof. intros [H1' H2']. split; [eauto |]. intros w w' E E' E2. eapply H2'; eauto. Qed.

Lemma separate_none o : separate None o.
Proof. split; done. Qed.

(** A thread that has returned claims nothing. *)
Lemma config_weaken g cl cl' :
  config_safe g cl -> length cl' = length cl ->
  (forall i o', cl' !! i = Some o' -> cl !! i = Some o' \/ (o' = None /\ exists a, threads g !! i = Some (Ret a))) ->
  config_safe g cl'.
Proof.
  intros [] Hlen Hcl. split; try done; [congruence | |].
  - intros i j o o' Hi Hj Hne. destruct (Hcl i o Hi) as [Hi' | [-> _]]; [|apply separate_none].
    destruct (Hcl j o' Hj) as [Hj' | [-> _]]; [eauto | apply separate_sym, separate_none].
  - intros i p o Hp Ho. destruct (Hcl i o Ho) as [Hi | [-> [a Ha]]]; [eauto |]. simplify_eq.
    exists (coord g). split; [by apply itf_refl | done].
Qed.

Lemma sched_threads i g g' : sched i g = Stepped g' ->
  exists p p', threads g !! i = Some p /\ is_ret p = false /\ threads g' = <[i := p']> (threads g).
Proof.
  unfold sched. destruct (threads g !! i) as [p|]; [|done]. intros E. exists p.
  destruct p; simpl in E; repeat case_match; simplify_eq; simpl; eauto.
Qed.

Lemma config_call g cl a :
  config_safe g cl -> (forall w, submits a = Some w -> fresh_ids (ctasks (coord g)) w) ->
  Forall (separate (submits a)) cl ->
  config_safe (mkConfig (coord g) (holder g) (threads g ++ [body a])) (cl ++ [submits a]).
Proof.
  intros Hg Hf Hs. pose proof (cs_claims _ _ Hg) as Hlen.
  split; simpl; try apply Hg; [by apply (orderly_step _ _ (cs_orderly _ _ Hg)), step_call | by rewrite !length_app, Hlen | |].
  - rewrite Forall_forall in Hs.
    assert (forall i o, cl !! i = Some o -> separate (submits a) o) as Hs' by (intros i o Hi; apply Hs; by eapply list_elem_of_lookup_2).
    intros i j o o' [Hi | [Hi Ei]]%lookup_app_Some [Hj | [Hj Ej]]%lookup_app_Some Hne;
    try (apply list_lookup_singleton_Some in Ei as [Ei <-]); try (apply list_lookup_singleton_Some in Ej as [Ej <-]).
    + by apply (cs_separate _ _ Hg i j).
    + by apply separate_sym, (Hs' i).
    + by apply (Hs' j).
    + lia.
  - intros i p o [Hp | [Hlt Hp]]%lookup_app_Some Ho.
    + apply (cs_threads _ _ Hg i p o Hp). rewrite lookup_app_l in Ho; [done |]. rewrite Hlen. by eapply lookup_lt_Some.
    + apply list_lookup_singleton_Some in Hp as [Hz <-].
      rewrite lookup_app_r in Ho by lia. rewrite Hlen in Ho. apply list_lookup_singleton_Some in Ho as [_ <-].
      assert (bool_decide (holder g = Some i) = false) as ->.
      { apply bool_decide_eq_false. intros E%(ord_holder g (cs_orderly _ _ Hg)). lia. }
      exists (coord g). split; [apply itf_refl; apply Hg |]. by apply safe_body; [apply Hg | apply Hg |].
Qed.

Record calm_inv (x : config (D := D) * list call) : Prop := {
  ca_length : length x.2 = length (threads x.1);
  ca_safe : config_safe x.1 (claims (threads x.1) x.2)
}.

Lemma lookup_claims ps calls i o : claims ps calls !! i = Some o <->
  exists p a, ps !! i = Some p /\ calls !! i = Some a /\ o = if is_ret p then None else submits a.
Proof. unfold claims. rewrite lookup_zip_with_Some. naive_solver. Qed.

Lemma calm_inv_step x y : calm_inv x -> calm_step x y -> calm_inv y.
Proof.
  intros Hx Hs. destruct Hs as [a g calls Hf Hsep | i g g' calls E Hcalm]; destruct Hx as [Hlen Hg]; simpl in *.
  - split; simpl; [rewrite !length_app; simpl; lia |].
    eapply config_weaken; [by apply config_call | unfold claims; rewrite length_zip_with, !length_app, length_zip_with; simpl; lia |].
    intros i o (p & a' & Hp & Ha & ->)%lookup_claims. simpl.
    destruct (is_ret p) eqn:Hr; [right; split; [done |]; destruct p; try discriminate Hr; eauto |]. left.
    apply lookup_app_Some in Hp as [Hp | [Hlt Hp]].
    + rewrite lookup_app_l in Ha by (rewrite Hlen; by eapply lookup_lt_Some).
      rewrite lookup_app_l; [apply lookup_claims; exists p, a'; by rewrite Hr |].
      unfold claims. rewrite length_zip_with, Hlen, Nat.min_id. by eapply lookup_lt_Some.
    + apply list_lookup_singleton_Some in Hp as [Hz <-]. rewrite lookup_app_r in Ha by lia.
      apply list_lookup_singleton_Some in Ha as [_ <-].
      rewrite lookup_app_r; unfold claims; rewrite length_zip_with, Hlen, Nat.min_id; [by rewrite Hz | lia].
  - destruct (sched_threads _ _ _ E) as (p0 & p1 & Hp0 & Hr0 & Ht). split; simpl; [by rewrite Ht, length_insert |].
    eapply config_weaken; [by eapply config_sched | unfold claims; by rewrite !length_zip_with, Ht, length_insert |].
    intros j o (p & a & Hp & Ha & ->)%lookup_claims.
    destruct (is_ret p) eqn:Hr; [right; split; [done |]; destruct p; try discriminate Hr; eauto |]. left. apply lookup_claims.
    destruct (decide (i = j)) as [<-|Hne]; [exists p0, a; by rewrite Hr0 |].
    rewrite Ht, list_lookup_insert_ne in Hp by done. exists p, a. by rewrite Hr.
Qed.

Lemma calm_inv_idle c ss : reachable scan dead (Up c ss) -> calm_inv (idle c, []).
Proof.
  intros [Hok [Hdb Hm]]%reachable_inv. split; [done |]. split; simpl; [by apply orderly_idle | done | done | | done | done | done].
  intros _. split.
  - intros k Hk. destruct (mi_queued _ _ Hm k Hk) as (r & Hr & Hs). split; [split; [by exists r |] |].
    2: { intros r' Hr'. pose proof (eq_trans (eq_sym Hr) Hr') as [= <-]. by rewrite Hs. }
    apply (ti_started _ (di_tasks _ Hdb) k r Hr). by rewrite Hs.
  - intros k e Hk. destruct (mi_assigned _ _ Hm k e Hk) as (r & Hr & _ & Hs & Hb). split; [split; [by exists r | done] |].
    intros r' Hr'. pose proof (eq_trans (eq_sym Hr) Hr') as [= <-]. states. lia.
  - apply Hm.
Qed.

Lemma calm_inv_steps c ss x : reachable scan dead (Up c ss) -> rtc calm_step (idle c, []) x -> calm_inv x.
Proof. intros Hc%calm_inv_idle Hs. induction Hs; [done |]. eauto using calm_inv_step. Qed.

(** ** Dependency safety *)

(** Every task that was queued, run or finished has its dependencies COMPLETE. *)
Definition dependencies_respected (d : AbsDB) : Prop :=
  forall w t x r, stored_dependency d w t x -> AbsDB.tasks d !! TS.TaskId t = Some r -> TR.WorkflowID r = w ->
    started (TR.State r) = true -> exists rx, AbsDB.tasks d !! x = Some rx /\ TR.State rx = TASK_COMPLETE.

Lemma dbinv_respected d : dbinv d -> dependencies_respected d.
Proof. intros Hd w t x r (spec & Hs & Ht & Hx) Hr Hw Hst. by eapply (dependencies_met d w spec t x r). Qed.

(** C1. Dependency safety of the interleaved process. From every reachable state, however
    the threads of any number of calls interleave, as long as no transaction overwrites a
    COMPLETE or FAILED record and the submissions in progress have workflow ids and
    task ids of their own, which no record has: no task is queued, run or finished before its
    dependencies are COMPLETE; while no thread holds [c.mu], every queued or assigned
    task has left PENDING and waits for nothing; and a transaction in which the
    process dies leaves a database in which the dependencies are respected. *)
Theorem interleaved_safety c ss g calls :
  reachable scan dead (Up c ss) -> rtc calm_step (idle c, []) (g, calls) ->
  dependencies_respected (cdb (coord g)) /\
  (holder g = None -> forall k, k ∈ readyQueue (mem (coord g)) \/ is_Some (assignedTasks (mem (coord g)) !! k) ->
     exists r, ctasks (coord g) !! k = Some r /\ TR.State r <> TASK_PENDING /\
       forall x rx, ctasks (coord g) !! x = Some rx -> k ∈ TR.DownstreamTaskIDs rx -> TR.State rx = TASK_COMPLETE) /\
  (forall i st, sched i g = Died st -> dependencies_respected (db_abs (st_db st))).
Proof.
  intros Hc Hs. pose proof (ca_safe _ (calm_inv_steps _ _ _ Hc Hs)) as Hg. simpl in Hg.
  split_and!; [apply dbinv_respected, Hg | | intros i st E; apply dbinv_respected; by eapply config_died].
  intros Hh k Hk. pose proof (cs_lock _ _ Hg Hh) as Hl.
  assert (open (ctasks (coord g)) k) as [[[r Hr] Hb] Hp] by (destruct Hk as [?|[e He]]; [by apply Hl | by eapply li_assigned]).
  exists r. split_and!; [done | by apply Hp | by apply blockers_none].
Qed.

End Interleavings.

(** ** Calm executions, computed *)

#[export] Instance TaskStateRecord_eq_dec : EqDecision TaskStateRecord.
Proof. solve_decision. Defined.

#[export] Instance calm_dec d d' : Decision (calm d d').
Proof.
  refine (cast_if (decide (map_Forall (fun k r =>
    (TR.State r = TASK_COMPLETE \/ TR.State r = TASK_FAILED) -> AbsDB.tasks d' !! k = Some r) (AbsDB.tasks d)))); done.
Defined.

#[export] Instance separate_dec o o' : Decision (separate o o').
Proof.
  refine (match o, o' with
          | Some w, Some w' => cast_if (decide (Forall (fun k => k ∉ ids (WF.Tasks w')) (ids (WF.Tasks w)) /\ WF.WorkflowId w <> WF.WorkflowId w'))
          | _, _ => left _
          end); rewrite ?Forall_forall in *; unfold separate; simpl; naive_solver.
Defined.

Definition allowed_call (a : call) (x : config (D := GDB) * list call) : bool :=
  match submits a with Some w => bool_decide (fresh_ids (AbsDB.tasks (cdb (coord x.1))) w) | None => true end &&
  bool_decide (Forall (separate (submits a)) (claims (threads x.1) x.2)).

(** Thread [i] acts [n] times, or until it returns. *)
Fixpoint calm_acts (i n : nat) (g : config (D := GDB)) : option (config (D := GDB)) :=
  match n with
  | O => Some g
  | S n =>
      match threads g !! i with
      | Some (Ret _) => Some g
      | _ => match sched i g with
             | Stepped g' => if decide (calm (cdb (coord g)) (cdb (coord g'))) then calm_acts i n g' else None
             | _ => None
             end
      end
  end.

Fixpoint calm_interleave (l : list move) (x : config (D := GDB) * list call) : option (config (D := GDB) * list call) :=
  match l with
  | [] => Some x
  | Arrives a :: l =>
      if allowed_call a x
      then calm_interleave l (mkConfig (coord x.1) (holder x.1) (threads x.1 ++ [body a]), x.2 ++ [a]) else None
  | Acts i n :: l => match calm_acts i n x.1 with Some g => calm_interleave l (g, x.2) | None => None end
  end.

Lemma calm_acts_steps i n g g' calls : calm_acts i n g = Some g' -> rtc calm_step (g, calls) (g', calls).
Proof.
  revert g. induction n as [|n IH]; intros g; simpl; [by intros [= <-] |]. intros Ha.
  destruct (threads g !! i) as [[]|]; try (by injection Ha as <-);
  (destruct (sched i g) as [| g1 |] eqn:E; [done | | done]); destruct (decide _); try discriminate Ha;
  (eapply rtc_l; [by eapply calm_act | by apply IH]).
Qed.

Lemma calm_interleave_steps l x y : calm_interleave l x = Some y -> rtc calm_step x y.
Proof.
  revert x. induction l as [|[a | i n] l IH]; intros [g calls]; simpl; [by intros [= <-] | |].
  - unfold allowed_call. simpl. destruct (_ && _) eqn:E; [|done]. intros Hl. apply andb_true_iff in E as [E1 E2%bool_decide_eq_true].
    eapply rtc_l; [apply (calm_call a); [|done] | by apply IH]. intros w Hw. rewrite Hw in E1. by apply bool_decide_eq_true in E1.
  - destruct (calm_acts i n g) as [g1|] eqn:E; [|done]. intros Hl. etrans; [by eapply calm_acts_steps | by apply IH].
Qed.

(** Both workers report while a second workflow is submitted; the threads take turns. *)
Definition turns : list move :=
  [Arrives (CallComplete "a" "uuid-0" "out"); Arrives (CallSubmit (WF.mk "v" [TS.mk "e" [] "e" ∅ 0 0] FAIL_FAST));
   Arrives (CallComplete "b" "uuid-1" "out"); Acts 0 3; Acts 1 3; Acts 2 4; Acts 0 100; Acts 1 100; Acts 2 100;
   Arrives (CallRequest "worker-1"); Acts 3 100].
Definition turned : config (D := GDB) * list call := default (idle start, []) (calm_interleave turns (idle start, [])).

Lemma turned_steps : rtc calm_step (idle start, []) turned.
Proof.
  assert (match calm_interleave turns (idle start, []) with Some _ => true | None => false end = true) as Hc by vm_refl.
  unfold turned. destruct (calm_interleave turns (idle start, [])) as [y|] eqn:Hy; [by eapply calm_interleave_steps | done].
Qed.

Lemma interleaved_safety_witness :
  state_of "d" turned.1 = Some TASK_RUNNING /\ dependencies_respected (cdb (coord turned.1)).
Proof.
  split; [vm_refl |]. pose proof (interleaved_safety (5 * Second) (15 * Second) start (streams_of (sample_run both_running)) turned.1 turned.2) as Hs.
  destruct Hs as (Hd & _); [apply sample_up; vm_refl | | exact Hd].
  rewrite <- surjective_pairing. apply turned_steps.
Defined.
