(* ===== verification/DashboardProps.v ===== *)
(** * What the dashboard shows

    The answers of the HTTP handlers in the states the system can reach. *)

From S2P Require Import Prelude Proto Codec Env RecordDB Store StoreRefinement StoreSpec NoFault Dag Heartbeat.
From S2P Require Import Coordinator CoordinatorRefinement Invariant CoordinatorInv Dashboard Service Steady System Frame Sample.

(** ** Counting *)

(** The records of a workflow whose state satisfies [P]. *)
Definition count (T : Tasks) (w : string) (P : TaskState -> bool) : Z :=
  Z.of_nat (length (select (fun r => String.eqb (TR.WorkflowID r) w && P (TR.State r)) T)).

Definition is_done (s : TaskState) : bool := (s =? TASK_COMPLETE) || (s =? TASK_SKIPPED).
Definition is_failed (s : TaskState) : bool := s =? TASK_FAILED.

Lemma filter_andb {A} (P Q : A -> bool) (l : list A) :
  filter (fun x => P x && Q x = true) l = filter (fun x => Q x = true) (filter (fun x => P x = true) l).
Proof.
  induction l as [|x l IH]; [done |]. rewrite !filter_cons. destruct (P x) eqn:EP; simpl; [|done].
  rewrite filter_cons. by destruct (Q x); simpl; rewrite IH.
Qed.

Lemma countTaskDoneAndFailed_spec l :
  countTaskDoneAndFailed (status_of <$> l) =
  (Z.of_nat (length (filter (fun r => is_done (TR.State r) = true) l)),
   Z.of_nat (length (filter (fun r => is_failed (TR.State r) = true) l))).
Proof.
  unfold countTaskDoneAndFailed.
  assert (forall l a b, foldl (fun '(done, failed) t =>
    if (TaskStatus.State t =? TASK_COMPLETE) || (TaskStatus.State t =? TASK_SKIPPED) then (done + 1, failed)
    else if TaskStatus.State t =? TASK_FAILED then (done, failed + 1) else (done, failed)) (a, b) (status_of <$> l) =
    (a + Z.of_nat (length (filter (fun r => is_done (TR.State r) = true) l)),
     b + Z.of_nat (length (filter (fun r => is_failed (TR.State r) = true) l)))) as Hl.
  { clear. unfold is_done, is_failed. induction l as [|r l IH]; intros a b; simpl; [f_equal; lia |].
    rewrite !filter_cons. destruct (Z.eqb_spec (TR.State r) TASK_COMPLETE) as [E|], (Z.eqb_spec (TR.State r) TASK_SKIPPED) as [E'|],
      (Z.eqb_spec (TR.State r) TASK_FAILED) as [E''|]; simpl; rewrite IH; try (f_equal; simpl; lia);
    exfalso; rewrite ?E, ?E' in *; states; lia. }
  by rewrite Hl.
Qed.

(** Done and failed tasks are all tasks exactly when every task is terminal. *)
Lemma counts_terminal (l : list TaskStateRecord) :
  let n P := length (filter (fun r => P (TR.State r) = true) l) in
  (n is_done + n is_failed <= length l)%nat /\
  ((n is_done + n is_failed)%nat = length l <-> Forall (fun r => is_terminal (TR.State r) = true) l).
Proof.
  unfold is_done, is_failed, is_terminal. simpl. induction l as [|r l [IH1 IH2]]; [by split |].
  rewrite !filter_cons, Forall_cons, <- IH2. simpl.
  destruct (Z.eqb_spec (TR.State r) TASK_COMPLETE) as [E|], (Z.eqb_spec (TR.State r) TASK_SKIPPED) as [E'|],
    (Z.eqb_spec (TR.State r) TASK_FAILED) as [E''|]; simpl;
  try (exfalso; rewrite ?E, ?E' in *; states; lia); (split; [lia |]); intuition (try done; lia).
Qed.

(** What a row of the workflow table says: the fields of the record of the
    workflow, and how many of its tasks are done and failed; the two counts make
    up the task count exactly when all tasks have ended. *)
Record summarises (now : Z) (T : Tasks) (w policy : string) (wf : WorkflowStateRecord) (row : WorkflowSummary.t) : Prop := {
  sum_id : WorkflowSummary.ID row = WR.WorkflowID wf;
  sum_state : WorkflowSummary.State row = WorkflowState_String (WR.State wf);
  sum_submitted : WorkflowSummary.SubmittedAtMs row = WR.SubmittedAtMs wf;
  sum_completed : WorkflowSummary.CompletedAtMs row = WR.CompletedAtMs wf;
  sum_duration : WorkflowSummary.DurationMs row = computeDuration wf now;
  sum_policy : WorkflowSummary.FailurePolicy row = policy;
  sum_tasks : WorkflowSummary.TaskCount row = count T w (fun _ => true);
  sum_done : WorkflowSummary.DoneCount row = count T w is_done;
  sum_failed : WorkflowSummary.FailedCount row = count T w is_failed;
  sum_le : WorkflowSummary.DoneCount row + WorkflowSummary.FailedCount row <= WorkflowSummary.TaskCount row;
  sum_ended : WorkflowSummary.DoneCount row + WorkflowSummary.FailedCount row = WorkflowSummary.TaskCount row <->
    forall k r, T !! k = Some r -> TR.WorkflowID r = w -> is_terminal (TR.State r) = true
}.

Definition statuses (T : Tasks) (w : string) : list TaskStatus :=
  status_of <$> select (fun r => String.eqb (TR.WorkflowID r) w) T.

Lemma select_elem P (T : Tasks) r : r ∈ select P T <-> P r = true /\ exists k, T !! k = Some r.
Proof.
  unfold select. rewrite list_elem_of_filter. f_equiv. rewrite list_elem_of_fmap. split.
  - intros ([k r'] & -> & Hk). exists k. by apply elem_of_sorted_entries.
  - intros [k Hk]. exists (k, r). split; [done |]. by apply elem_of_sorted_entries.
Qed.

Lemma row_summarises now T w policy wf : summarises now T w policy wf (workflowRow now wf (statuses T w) policy).
Proof.
  unfold workflowRow, statuses. rewrite countTaskDoneAndFailed_spec. simpl.
  set (l := select (fun r => String.eqb (TR.WorkflowID r) w) T).
  assert (forall P, count T w P = Z.of_nat (length (filter (fun r => P (TR.State r) = true) l))) as Hc.
  { intros P. unfold count, select. by rewrite (filter_andb (fun r => String.eqb (TR.WorkflowID r) w) (fun r => P (TR.State r))). }
  destruct (counts_terminal l) as [Hle Hall].
  split; simpl; rewrite ?Hc, ?length_fmap; try done.
  - f_equal. clear. induction l as [|r l IH]; [done |]. rewrite filter_cons_True by done. simpl. by f_equal.
  - lia.
  - transitivity (Forall (fun r => is_terminal (TR.State r) = true) l); [rewrite <- Hall; lia |]. rewrite Forall_forall.
    split.
    + intros Hl k r Hr Hw. apply Hl, select_elem. split; [by apply String.eqb_eq | eauto].
    + intros Hl r [Hw%String.eqb_eq [k Hk]]%select_elem. eauto.
Qed.

(** ** The handlers, when no transaction fails *)

Section Answers.
Context `{Env} `{!NoFaults} `{Protobuf}.
Abbreviation SA := (St AbsDB).

Lemma GetAllWorkers_ok (s : SA) (Q : list WorkerRecord * option GoError -> SA -> Prop) E :
  (forall s', st_db s' = st_db s -> Q ((sorted_entries (AbsDB.workers (st_db s))).*2, None) s') -> wp GetAllWorkers s Q E.
Proof.
  intros HQ. apply wp_View_ok, wp_bind, wp_gets. simpl.
  eapply wp_mono; [apply (wp_fold _ (fun c _ r => c ++ [r]) _ _ _ (fun _ => False)); done | | done].
  intros r s' [-> ->]. rewrite foldl_values. by apply HQ.
Qed.

Lemma rows_ok now states acc (s : SA) (Q : list WorkflowSummary.t -> SA -> Prop) E :
  (forall s', st_db s' = st_db s ->
     Q (acc ++ ((fun wf => workflowRow now wf (statuses (tasks_of s) (WR.WorkflowID wf)) EmptyString) <$> states)) s') ->
  wp (foldM (fun result wf =>
        let! r := GetTaskStatusesForWorkflow (WR.WorkflowID wf) in
        ret (result ++ [workflowRow now wf r.1 EmptyString])) acc states) s Q E.
Proof.
  revert acc s. induction states as [|wf states IH]; intros acc s HQ; simpl.
  - apply wp_ret. specialize (HQ s eq_refl). by rewrite app_nil_r in HQ.
  - apply wp_bind, wp_bind, GetTaskStatuses_ok. intros s1 Hs1. apply wp_ret, IH. intros s2 Hs2.
    rewrite <- app_assoc. simpl. rewrite Hs1. apply HQ. congruence.
Qed.

Lemma list_ok sd (s : SA) :
  wp (serveHTTP "/api/workflows" sd) s
    (fun resp s' => exists now l, resp = WorkflowListJSON l /\ StronglySorted (descending WorkflowSummary.SubmittedAtMs) l /\
       exists rows, l ≡ₚ rows /\
         Forall2 (fun wf => summarises now (tasks_of s) (WR.WorkflowID wf) EmptyString wf)
           (sorted_entries (AbsDB.wstates (st_db s))).*2 rows)
    (fun _ => False).
Proof.
  unfold serveHTTP. simpl. unfold handleAPIWorkflowList. apply wp_bind, GetAllWorkflowStates_ok. intros s1 Hs1.
  apply wp_bind, wp_now. intros t s2 Hs2. apply wp_bind, rows_ok. intros s3 Hs3. apply wp_ret. rewrite Hs2, Hs1.
  eexists t, _. split_and!; [done | apply sortSlice_sorted |]. eexists. split; [apply sortSlice_perm |]. simpl.
  apply Forall2_fmap_r, Forall_Forall2_diag, Forall_forall. intros wf _. apply row_summarises.
Qed.

Lemma workers_ok sd (s : SA) :
  AbsDB.workers (st_db s) = ∅ -> wp (serveHTTP "/api/workers" sd) s (fun resp _ => resp = WorkersJSON []) (fun _ => False).
Proof.
  intros Hw. unfold serveHTTP. simpl. unfold handleAPIWorkers. apply wp_bind, GetAllWorkers_ok. intros s1 Hs1.
  apply wp_bind, wp_now. intros t s2 Hs2. apply wp_ret. rewrite Hw. unfold sortSlice. by destruct sd.
Qed.

(** *** The detail page *)

(** The statuses by id are the records of the workflow. *)
Lemma statusByID_lookup (T : Tasks) w k :
  (forall k r, T !! k = Some r -> TR.TaskID r = k) ->
  (foldl (fun m ts => <[TaskStatus.TaskId ts := ts]> m) ∅ (statuses T w) : gmap string TaskStatus) !! k =
  match T !! k with
  | Some r => if String.eqb (TR.WorkflowID r) w then Some (status_of r) else None
  | None => None
  end.
Proof.
  intros Hkey. set (l := statuses T w).
  assert (forall k st, st ∈ l /\ TaskStatus.TaskId st = k <->
    exists r, T !! k = Some r /\ String.eqb (TR.WorkflowID r) w = true /\ st = status_of r) as Hl.
  { intros x st. unfold l, statuses. rewrite list_elem_of_fmap. split.
    - intros [(r & -> & [Hw [y Hy]]%select_elem) E]. simpl in E. pose proof (Hkey y r Hy). exists r. split_and!; congruence.
    - intros (r & Hr & Hw & ->). split; [|by apply Hkey]. exists r. split; [done |]. apply select_elem. eauto. }
  assert (forall l m, (foldl (fun m ts => <[TaskStatus.TaskId ts := ts]> m) m l : gmap string TaskStatus) !! k = m !! k /\
      (forall st, st ∈ l -> TaskStatus.TaskId st <> k) \/
    exists st, st ∈ l /\ TaskStatus.TaskId st = k /\
      (foldl (fun m ts => <[TaskStatus.TaskId ts := ts]> m) m l : gmap string TaskStatus) !! k = Some st) as Hf.
  { clear. induction l as [|st l IH]; intros m; simpl; [left; split; [done | by intros ? ?%elem_of_nil] |].
    destruct (IH (<[TaskStatus.TaskId st := st]> m)) as [[E Hn] | (st' & ? & ? & E)].
    - rewrite lookup_insert in E. case_decide as Hd; [right; exists st; split_and!; [by left | done | done] |].
      left. split; [done |]. intros st' [->|?]%elem_of_cons; auto.
    - right. exists st'. split_and!; [by right | done | done]. }
  destruct (Hf l ∅) as [[-> Hn] | (st & Hst & Hk & ->)].
  - rewrite lookup_empty. destruct (T !! k) as [r|] eqn:Hr; [|done]. destruct (String.eqb _ _) eqn:Hw; [|done].
    destruct (proj2 (Hl k (status_of r)) ltac:(eauto)) as [Hin E]. by destruct (Hn _ Hin).
  - destruct (proj1 (Hl k st) ltac:(done)) as (r & -> & -> & ->). done.
Qed.

(** What the page says of a task of the specification: its static fields, and the
    fields of its record when the record is one of the workflow. *)
Definition detailed (T : Tasks) (w : string) (t : TaskSpec) (d : TaskDetail.t) : Prop :=
  TaskDetail.ID d = TS.TaskId t /\ TaskDetail.Command d = TS.Command t /\
  TaskDetail.Dependencies d = TS.Dependencies t /\ TaskDetail.MaxRetries d = TS.MaxRetries t /\
  forall r, T !! TS.TaskId t = Some r -> TR.WorkflowID r = w ->
    TaskDetail.State d = TaskState_String (TR.State r) /\ TaskDetail.AttemptCount d = TR.AttemptCount r /\
    TaskDetail.Error d = TR.Error r /\ TaskDetail.Output d = trimOutput (TR.Output r) 512.

(** The answer for the path of workflow [w]. *)
Definition detail_answer (d : AbsDB) (w : string) (resp : response) : Prop :=
  if String.eqb w EmptyString then resp = HttpError 400 (inl "missing workflow id"%string)
  else match AbsDB.wstates d !! w with
       | None => resp = HttpError 404 (inr ErrWorkflowNotFound)
       | Some wf => exists now det, resp = WorkflowDetailJSON det /\
           match AbsDB.workflows d !! w with
           | Some spec =>
               summarises now (AbsDB.tasks d) w (FailurePolicy_String (WF.FailurePolicy spec)) wf (WorkflowDetail.summary det) /\
               Forall2 (detailed (AbsDB.tasks d) w) (WF.Tasks spec) (WorkflowDetail.Tasks det)
           | None =>
               summarises now (AbsDB.tasks d) w EmptyString wf (WorkflowDetail.summary det) /\
               WorkflowDetail.Tasks det = statusDetail <$> statuses (AbsDB.tasks d) w
           end
       end.

Lemma specDetail_detailed (T : Tasks) w t :
  (forall k r, T !! k = Some r -> TR.TaskID r = k) ->
  detailed T w t (specDetail (foldl (fun m ts => <[TaskStatus.TaskId ts := ts]> m) ∅ (statuses T w)) t).
Proof.
  intros Hkey. unfold detailed, specDetail. rewrite statusByID_lookup by done.
  split_and!; [by repeat case_match.. |]. intros r Hr Hw. by rewrite Hr, Hw, String.eqb_refl.
Qed.

(** The identifier of a path. *)
Lemma detail_id w :
  String.prefix "/api/workflows/" (String.append "/api/workflows/" w) = true /\
  String.substring 15 (String.length (String.append "/api/workflows/" w)) (String.append "/api/workflows/" w) = w.
Proof.
  split; [simpl; by destruct w |].
  change (String.substring 15 (String.length (String.append "/api/workflows/" w)) (String.append "/api/workflows/" w))
    with (String.substring 0 (15 + String.length w) w). by rewrite slice_all by lia.
Qed.

(** The path of a workflow is routed to its detail. *)
Lemma detail_path w sd : serveHTTP (D := AbsDB) (String.append "/api/workflows/" w) sd =
  handleAPIWorkflowDetail (String.append "/api/workflows/" w).
Proof. unfold serveHTTP. simpl. by destruct w. Qed.

Lemma detail_ok w sd (s : SA) :
  (forall k r, tasks_of s !! k = Some r -> TR.TaskID r = k) ->
  wp (serveHTTP (String.append "/api/workflows/" w) sd) s (fun resp _ => detail_answer (st_db s) w resp) (fun _ => False).
Proof.
  intros Hkey. rewrite detail_path. unfold handleAPIWorkflowDetail, detail_answer.
  destruct (detail_id w) as [-> ->]. destruct (String.eqb w EmptyString); [by apply wp_ret |].
  apply wp_bind, GetWorkflowState_ok. intros s1 Hs1. destruct (AbsDB.wstates (st_db s) !! w) as [wf|]; [|by apply wp_ret].
  apply wp_bind, GetTaskStatuses_ok. intros s2 Hs2. cbv zeta. apply wp_bind, GetWorkflow_ok. intros s3 Hs3.
  rewrite Hs2, Hs1. destruct (AbsDB.workflows (st_db s) !! w) as [spec|]; apply wp_bind, wp_now; intros t s4 Hs4; apply wp_ret;
  eexists t, _; (split; [done |]); simpl; rewrite ?Hs1; (split; [apply row_summarises |]); [|done].
  apply Forall2_fmap_r, Forall_Forall2_diag, Forall_forall. intros x _. by apply specDetail_detailed.
Qed.

End Answers.

(** *** Whatever fails *)

(** What a detail page shows of workflow [w]: the row of its record, and the tasks of
    the stored specification, or the statuses of the records when the specification
    could not be read. *)
Definition detail_shown (d : AbsDB) (w : string) (det : WorkflowDetail.t) : Prop :=
  exists now wf policy, AbsDB.wstates d !! w = Some wf /\
    summarises now (AbsDB.tasks d) w policy wf (WorkflowDetail.summary det) /\
    ((exists spec, AbsDB.workflows d !! w = Some spec /\ policy = FailurePolicy_String (WF.FailurePolicy spec) /\
        Forall2 (detailed (AbsDB.tasks d) w) (WF.Tasks spec) (WorkflowDetail.Tasks det)) \/
     (policy = EmptyString /\ WorkflowDetail.Tasks det = statusDetail <$> statuses (AbsDB.tasks d) w)).

Section Faulty.
Context `{Env} `{Protobuf}.
Abbreviation SA := (St AbsDB).

Lemma detail_shown_spec w sd (s : SA) :
  (forall k r, tasks_of s !! k = Some r -> TR.TaskID r = k) ->
  wp (serveHTTP (String.append "/api/workflows/" w) sd) s
    (fun resp _ => forall det, resp = WorkflowDetailJSON det -> detail_shown (st_db s) w det) (fun _ => True).
Proof.
  intros Hkey. rewrite detail_path. unfold handleAPIWorkflowDetail. destruct (detail_id w) as [-> ->].
  destruct (String.eqb w EmptyString); [by apply wp_ret |].
  apply wp_bind. eapply wp_mono; [apply GetWorkflowState_spec | | done]. intros [e|wf] s1 [Hs1 Hwf]; [by apply wp_ret |].
  specialize (Hwf wf eq_refl). apply wp_bind. eapply wp_mono; [apply GetTaskStatuses_spec | | done].
  intros [sts [e|]] s2 [Hs2 Hsts]; [by apply wp_ret |]. simpl in Hsts. specialize (Hsts eq_refl). rewrite Hs1 in Hsts. subst sts.
  cbv zeta. apply wp_bind. eapply wp_mono; [apply GetWorkflow_spec | | done]. rewrite Hs2, Hs1.
  intros [e|spec] s3 [_ Hspec]; apply wp_bind, wp_now; intros t s4 _; apply wp_ret; intros det [= <-];
  eexists t, wf, _; (split; [done |]); (split; [apply row_summarises |]); [by right | left].
  exists spec. split_and!; [by apply Hspec | done |].
  apply Forall2_fmap_r, Forall_Forall2_diag, Forall_forall. intros x _. by apply specDetail_detailed.
Qed.

Lemma row_state now wf l p : WorkflowSummary.State (workflowRow now wf l p) = WorkflowState_String (WR.State wf).
Proof. unfold workflowRow. by destruct (countTaskDoneAndFailed l). Qed.

(** The rows have the states of the records, also when the statuses of the tasks
    could not be read. *)
Lemma rows_states now states acc (s : SA) :
  wp (foldM (fun result wf =>
        let! r := GetTaskStatusesForWorkflow (WR.WorkflowID wf) in
        ret (result ++ [workflowRow now wf r.1 EmptyString])) acc states) s
    (fun rows _ => WorkflowSummary.State <$> rows =
       (WorkflowSummary.State <$> acc) ++ ((fun wf => WorkflowState_String (WR.State wf)) <$> states)) (fun _ => True).
Proof.
  revert acc s. induction states as [|wf states IH]; intros acc s; simpl.
  - apply wp_ret. by rewrite app_nil_r.
  - apply wp_bind, wp_bind, wp_any; [|done]. intros r s1. apply wp_ret. eapply wp_mono; [apply IH | | done].
    intros rows s2 ->. rewrite fmap_app, <- app_assoc. simpl. by rewrite row_state.
Qed.

Lemma list_states sd (s : SA) :
  wp (serveHTTP "/api/workflows" sd) s
    (fun resp _ => forall l, resp = WorkflowListJSON l -> WorkflowSummary.State <$> l ≡ₚ
       (fun wf => WorkflowState_String (WR.State wf)) <$> (sorted_entries (AbsDB.wstates (st_db s))).*2) (fun _ => True).
Proof.
  unfold serveHTTP. simpl. unfold handleAPIWorkflowList. apply wp_bind.
  eapply wp_mono; [apply GetAllWorkflowStates_spec | | done]. intros [states [e|]] s1 [_ Hst]; [by apply wp_ret |].
  simpl in Hst. specialize (Hst eq_refl). subst states. apply wp_bind, wp_now. intros t s2 _. apply wp_bind.
  eapply wp_mono; [apply rows_states | | done]. intros rows s3 Hrows. apply wp_ret. intros l [= <-].
  by rewrite sortSlice_perm, Hrows.
Qed.

End Faulty.

(** ** In the running system *)

Lemma status_ok `{Env} `{Protobuf} path sd (s : St AbsDB) :
  wp (serveHTTP path sd) s (fun resp _ => statusCode resp ∈ [200; 400; 404; 500]) (fun _ => True).
Proof.
  unfold serveHTTP, handleAPIWorkflowList, handleAPIWorkflowDetail, handleAPIWorkers. cbv zeta.
  repeat first [ apply wp_ret; simpl; set_solver
               | match goal with
                 | |- wp (bind _ _) _ _ _ => apply wp_bind, wp_any; [intros ? ?; simpl | done]
                 | |- wp (match ?x with _ => _ end) _ _ _ => destruct x
                 end ].
Qed.

Section Props.
Context `{Env} {D : Type} `{RecordDBLaws D} (scan dead : Z).

(** The dashboard only reads. Whatever is requested and whatever fails, a
    request changes neither the database nor the coordinator, and its status is
    200, 400, 404 or 500. *)
Theorem dashboard_read_only c ss path s :
  reachable scan dead (Up c ss) ->
  wp (onStore (serveHTTP path s)) c
    (fun resp c' => (adb (Up c' ss) = adb (Up c ss) /\ mem c' = mem c) /\ statusCode resp ∈ [200; 400; 404; 500])
    (fun c' => (adb (Up c' ss) = adb (Up c ss) /\ mem c' = mem c) /\ True).
Proof.
  intros Hr. apply (reachable_wp _ _ c ss _ _
    (fun resp c' => (db c' = db (coord_abs c) /\ mem c' = mem (coord_abs c)) /\ statusCode resp ∈ [200; 400; 404; 500])
    (fun c' => (db c' = db (coord_abs c) /\ mem c' = mem (coord_abs c)) /\ True) Hr (csim_serveHTTP path s)).
  intros _. apply wp_onStore, wp_and; [|apply status_ok].
  eapply wp_mono; [apply reads_serveHTTP | |]; by intros.
Qed.

(** What an answer says, whatever fails. *)
Lemma request_said c ss path s c' resp (P : response -> Prop) :
  reachable scan dead (Up c ss) ->
  (cinv (coord_abs c) -> wp (serveHTTP path s) (state (coord_abs c)) (fun resp _ => P resp) (fun _ => True)) ->
  onStore (serveHTTP path s) c = Done c' resp -> P resp.
Proof.
  intros Hr Hp E. refine (wp_done _ _ _ _ _ _ (reachable_wp _ _ c ss _ _ (fun resp _ => P resp) (fun _ => True) Hr
    (csim_serveHTTP path s) _) E). intros Hc. by apply wp_onStore, Hp.
Qed.

(** An answer that is known over maps of records, when no transaction fails. *)
Lemma request_answered c ss path s (P : response -> Prop) :
  reachable scan dead (Up c ss) -> steady (state c) ->
  (cinv (coord_abs c) -> wp (@serveHTTP (faultless H) _ _ path s) (state (coord_abs c)) (fun resp _ => P resp) (fun _ => False)) ->
  exists c' resp, onStore (serveHTTP path s) c = Done c' resp /\ P resp.
Proof.
  intros Hr Hq Hp. apply (wp_returns _ _ (fun resp _ => P resp)).
  apply (reachable_wp _ _ c ss _ _ (fun resp _ => P resp) (fun _ => False) Hr (csim_serveHTTP path s)).
  intros Hc. apply wp_onStore. exact (steady_wp steady _ _ (state (coord_abs c)) _ _ (steady_serveHTTP path s) Hq (Hp Hc)).
Qed.

(** The workflow table. When no transaction fails from here on, the list has one row
    per stored workflow, the latest submission first; a row has the state and times
    of the record, counts the tasks of the workflow by their stored states, and is
    full exactly when all have ended. *)
Theorem dashboard_list c ss s :
  reachable scan dead (Up c ss) -> steady (state c) ->
  exists c' now l rows, onStore (serveHTTP "/api/workflows" s) c = Done c' (WorkflowListJSON l) /\
    StronglySorted (descending WorkflowSummary.SubmittedAtMs) l /\ l ≡ₚ rows /\
    Forall2 (fun wf => summarises now (AbsDB.tasks (adb (Up c ss))) (WR.WorkflowID wf) EmptyString wf)
      (sorted_entries (AbsDB.wstates (adb (Up c ss)))).*2 rows.
Proof.
  intros Hr Hq. destruct (request_answered c ss _ s _ Hr Hq (fun _ => list_ok (H := faultless H) s (state (coord_abs c))))
    as (c' & resp & E & now & l & -> & Hs & rows & Hp & Hf).
  exists c', now, l, rows. done.
Qed.

(** The page of a workflow. When no transaction fails from here on, the path without
    an id is refused with 400, an unknown workflow with 404; otherwise the answer has
    the row of the workflow and the tasks of its stored specification, in order, with
    the state, attempts, error and trimmed output of their records. *)
Theorem dashboard_detail c ss w s :
  reachable scan dead (Up c ss) -> steady (state c) ->
  exists c' resp, onStore (serveHTTP (String.append "/api/workflows/" w) s) c = Done c' resp /\
    detail_answer (adb (Up c ss)) w resp.
Proof.
  intros Hr Hq. apply (request_answered c ss _ s _ Hr Hq). intros [Hdb _]. apply (detail_ok (H := faultless H)), Hdb.
Qed.

(** The worker table is empty. In every state the system can reach, when no
    transaction fails from there on, the list of workers is empty, whatever workers
    are connected. *)
Theorem dashboard_workers c ss s :
  reachable scan dead (Up c ss) -> steady (state c) ->
  exists c', onStore (serveHTTP "/api/workers" s) c = Done c' (WorkersJSON []).
Proof.
  intros Hr Hq. destruct (request_answered c ss _ s _ Hr Hq
    (fun _ => workers_ok (H := faultless H) s (state (coord_abs c)) (reachable_workers _ _ _ Hr)))
    as (c' & resp & E & ->). eauto.
Qed.

End Props.

(** ** Witnesses *)

Definition shown_c : Coordinator GDB := coord_of (sample_run assigned_b).
Definition shown_ss : gmap nat string := streams_of (sample_run assigned_b).

Lemma dashboard_read_only_witness :
  wp (onStore (serveHTTP "/api/workflows/w" [])) shown_c
    (fun resp c' => (adb (Up c' shown_ss) = adb (Up shown_c shown_ss) /\ mem c' = mem shown_c) /\ statusCode resp ∈ [200; 400; 404; 500])
    (fun c' => (adb (Up c' shown_ss) = adb (Up shown_c shown_ss) /\ mem c' = mem shown_c) /\ True).
Proof. apply (dashboard_read_only (5 * Second) (15 * Second)), sample_up. vm_compute. reflexivity. Defined.

Lemma dashboard_list_witness :
  exists c' now l rows, onStore (serveHTTP "/api/workflows" []) shown_c = Done c' (WorkflowListJSON l) /\
    StronglySorted (descending WorkflowSummary.SubmittedAtMs) l /\ l ≡ₚ rows /\
    Forall2 (fun wf => summarises now (AbsDB.tasks (adb (Up shown_c shown_ss))) (WR.WorkflowID wf) EmptyString wf)
      (sorted_entries (AbsDB.wstates (adb (Up shown_c shown_ss)))).*2 rows.
Proof.
  apply (dashboard_list (5 * Second) (15 * Second)).
  - apply sample_up. vm_compute. reflexivity.
  - intros n _. reflexivity.
Defined.

Lemma dashboard_detail_witness :
  exists c' resp, onStore (serveHTTP (String.append "/api/workflows/" "w") []) shown_c = Done c' resp /\
    detail_answer (adb (Up shown_c shown_ss)) "w" resp.
Proof.
  apply (dashboard_detail (5 * Second) (15 * Second)).
  - apply sample_up. vm_compute. reflexivity.
  - intros n _. reflexivity.
Defined.

Lemma dashboard_workers_witness :
  exists c', onStore (serveHTTP "/api/workers" []) shown_c = Done c' (WorkersJSON []).
Proof.
  apply (dashboard_workers (5 * Second) (15 * Second) shown_c shown_ss).
  - apply sample_up. vm_compute. reflexivity.
  - intros n _. reflexivity.
Defined.

(** The answer on the sample run: [a] is complete and [b] is running. *)
Example dashboard_sample :
  match onStore (serveHTTP "/api/workflows/w" []) shown_c with
  | Done _ (WorkflowDetailJSON d) =>
      WorkflowSummary.DoneCount (WorkflowDetail.summary d) = 1 /\ WorkflowSummary.TaskCount (WorkflowDetail.summary d) = 2 /\
      (TaskDetail.State <$> WorkflowDetail.Tasks d) = ["TASK_COMPLETE"; "TASK_RUNNING"]%string
  | _ => False
  end.
Proof. vm_compute. done. Qed.
