(* ===== verification/HandlerProps.v ===== *)
(** * What the handlers do

    The effect of each event of a reachable system: submissions, results, failures,
    dead workers, restarts, streams and status requests. Handlers run one at a time,
    the store keeps [RecordDBLaws], and clients do not reuse task ids. *)

From S2P Require Import Prelude Proto Codec Env RecordDB Store StoreRefinement StoreSpec NoFault Skip StoreProps Dag DagProps.
From S2P Require Import Heartbeat Coordinator CoordinatorRefinement Invariant CoordinatorInv Requeue.
From S2P Require Import Submission Failure Service Total Steady System Sample.

(** ** Over maps of records *)

Section Abstract.
Context `{Env} `{Protobuf}.

(** What depends on a task that is not COMPLETE has not started. *)
Lemma dependents_wait (T : Tasks) f rf k :
  tasks_inv T -> T !! f = Some rf -> TR.State rf <> TASK_COMPLETE -> tc (edge T) f k ->
  exists r, T !! k = Some r /\ (TR.State r = TASK_PENDING \/ TR.State r = TASK_SKIPPED).
Proof.
  intros Hti Hf Hn Htc.
  assert (forall x y rx, T !! x = Some rx -> TR.State rx <> TASK_COMPLETE -> edge T x y ->
    exists r, T !! y = Some r /\ (TR.State r = TASK_PENDING \/ TR.State r = TASK_SKIPPED)) as Hone.
  { intros x y rx Hx Hnx (rx' & Hx' & Hy). rewrite Hx in Hx'. injection Hx' as <-.
    destruct (ti_closed _ Hti x rx Hx y Hy) as [r Hr]. exists r. split; [done |].
    assert (started (TR.State r) <> true) as Hns.
    { intros Hst. apply Hnx. exact (blockers_none T y (ti_started _ Hti y r Hr Hst) x rx Hx Hy). }
    pose proof (ti_state _ Hti y r Hr). states. lia. }
  revert rf Hf Hn. induction Htc as [x y Hxy | x y z Hxy _ IH]; intros rx Hx Hnx; [by eapply Hone |].
  destruct (Hone x y rx Hx Hnx Hxy) as (r & Hr & Hs). apply (IH r Hr). states. lia.
Qed.

(** A result under an execution id that is not the assigned one. *)
Lemma CompleteTask_stale k e o (c : CA) :
  assignedTasks (mem c) !! k <> Some e ->
  wp (CompleteTask k e o) c
    (fun r c' => db c' = db c /\ mem c' = mem c /\
       (r = None -> exists rec, tasks c !! k = Some rec /\ TR.State rec = TASK_COMPLETE /\ TR.ExecutionID rec = e))
    (fun c' => db c' = db c).
Proof.
  intros Hn. unfold CompleteTask. apply wp_bind, wp_gets. destruct (assignedTasks (mem c) !! k) as [e'|].
  - destruct (String.eqb_spec e' e) as [->|]; [done |]. simpl. by apply wp_ret.
  - apply wp_bind, wp_onStore. eapply wp_mono; [apply GetTask_spec | | done].
    intros [e1|r] s [Hs Hr]; [by apply wp_ret |]. specialize (Hr r eq_refl). go_case; [|by apply wp_ret].
    destruct (String.eqb_spec (TR.ExecutionID r) e); simpl; apply wp_ret; (split_and!; [done | done |]); [|done].
    intros _. exists r. split_and!; [done | lia | done].
Qed.

(** A failure that is reported for the assigned execution. *)
Lemma FailTask_outcome k e msg (c : CA) :
  cinv c ->
  wp (FailTask k e msg) c
    (fun res c' => res = None -> assignedTasks (mem c) !! k = Some e /\
       exists r, tasks c !! k = Some r /\
         if retries_left k r (mem c) then retried k r c' else exhausted k msg r c') (fun _ => True).
Proof.
  intros Hc. destruct (decide (assignedTasks (mem c) !! k = Some e)) as [Ha|Hn].
  2: { unfold wp. by rewrite FailTask_stale. }
  assert (exists r, tasks c !! k = Some r) as [r Hr].
  { destruct Hc as [_ Hm]. destruct (mi_assigned _ _ Hm k e Ha) as (r & Hr & _). eauto. }
  destruct (retries_left k r (mem c)) eqn:E.
  - eapply wp_mono; [by apply (FailTask_retry k e msg r) | | done]. intros res c' Hret Hres.
    split; [done |]. exists r. rewrite E. auto.
  - eapply wp_mono; [by apply (FailTask_exhausted k e msg r) | | done]. intros res c' Hret Hres.
    split; [done |]. exists r. rewrite E. auto.
Qed.

Lemma GetWorkflowStatus_spec w (c : CA) :
  wp (GetWorkflowStatus w) c
    (fun res c' => db c' = db c /\ mem c' = mem c /\
       forall s, res = inr s -> exists ws, AbsDB.wstates (db c) !! w = Some ws /\
         s = WorkflowStatus.mk w (WR.State ws)
               (status_of <$> select (fun r => String.eqb (TR.WorkflowID r) w) (tasks c))
               (WR.SubmittedAtMs ws) (WR.CompletedAtMs ws)) (fun c' => db c' = db c).
Proof.
  unfold GetWorkflowStatus. apply wp_bind, wp_onStore. eapply wp_mono; [apply GetWorkflowState_spec | | done].
  intros [e|ws] s1 [Hs1 Hw]; [by apply wp_ret |]. specialize (Hw ws eq_refl).
  apply wp_bind, wp_onStore. eapply wp_mono; [apply GetTaskStatuses_spec | |].
  - intros [l [e|]] s2 [Hs2 Hl]; simpl in *; apply wp_ret; unfold db in *; simpl in *;
    (split_and!; [congruence | done |]); [done |]. intros s [= <-]. exists ws. split; [done |].
    by rewrite (Hl eq_refl), Hs1.
  - intros s2 Hs2. unfold db in *; simpl in *. congruence.
Qed.

(** The record that an assignment writes. *)
Definition assign_record (e : string) (tm : Z) (r : TaskStateRecord) : TaskStateRecord :=
  set_LastUpdated tm (set_ExecutionID e (set_State TASK_RUNNING r)).

(** The assignment of task [k] with specification [spec] under execution id [e]. *)
Definition assignment (k e : string) (spec : TaskSpec) : TaskAssignment :=
  TaskAssignment.mk k e (TS.Command spec) (TS.Env spec) (TS.TimeoutSeconds spec).

(** The two answers to a request for work when [k], with record [r], heads the queue:
    its assignment, or no task when bbolt refuses the record of the assignment. *)
Definition answered (w k e : string) (spec : TaskSpec) (r : TaskStateRecord) (m : CoordinatorMessage) (c c' : CA) : Prop :=
  exists tm,
    (put_error k (marshalTaskRecord (assign_record e tm r)) = None /\ m = TaskAssignmentMsg (assignment k e spec) /\
     runningTasks (mem c') !! k = Some w /\ assignedTasks (mem c') !! k = Some e /\
     tasks c' = <[k := canonTask (assign_record e tm r)]> (tasks c)) \/
    (put_error k (marshalTaskRecord (assign_record e tm r)) <> None /\ m = NoTask 1000 /\ db c' = db c).

Lemma handleTaskRequest_ok `{!NoFaults} w k q spec (c : CA) :
  cinv c -> readyQueue (mem c) = k :: q -> taskSpecCache (mem c) !! k = Some spec ->
  wp (handleTaskRequest w) c
    (fun m c' => readyQueue (mem c') = q /\ exists r, tasks c !! k = Some r /\ TR.State r = TASK_QUEUED /\
       answered w k (uuid (uuids (mem c))) spec r m c c') (fun _ => False).
Proof.
  intros [_ Hm] Hq Hs. destruct (mi_queued _ _ Hm k) as (r & Hr & Hst); [rewrite Hq; by left |]. clear Hm.
  unfold handleTaskRequest, GetReadyTask, newUUID. apply wp_bind, wp_bind, wp_gets. rewrite Hq.
  apply wp_bind, wp_modify, wp_bind, wp_gets.
  replace (taskSpecCache _) with (taskSpecCache (mem c)) by (simpl; by destruct (mem c)). rewrite Hs.
  apply wp_bind, wp_bind, wp_gets, wp_bind, wp_modify, wp_ret.
  replace (uuids _) with (uuids (mem c)) by (simpl; by destruct (mem c)).
  apply wp_bind, wp_onStore, modifyTask_ok; unfold db in *; simpl in *.
  - intros Hn. congruence.
  - intros r1 tm e s' Hr1 He Hd. rewrite Hr in Hr1. injection Hr1 as <-. do 2 apply wp_ret. simpl.
    split; [by destruct (mem c) |]. exists r. split_and!; [done | done |]. exists tm. right.
    unfold assign_record. by rewrite He.
  - intros r1 tm s' Hr1 He Hd. rewrite Hr in Hr1. injection Hr1 as <-.
    apply wp_bind, wp_modify, wp_bind, wp_modify. do 2 apply wp_ret. simpl.
    split; [by destruct (mem c) |]. exists r. split_and!; [done | done |]. exists tm. left.
    unfold db. simpl. rewrite Hd. split_and!; [done | done | | | done]; destruct (mem c); simpl; apply lookup_insert_eq.
Qed.

(** The warning about one workflow. *)
Definition hung (nowMs : Z) (ws : WorkflowStateRecord) (w : string) (age : Z) : Prop :=
  WR.State ws = WORKFLOW_RUNNING /\ WR.WorkflowID ws = w /\
  watchdogHungThresholdMs < int64 (nowMs - WR.SubmittedAtMs ws) /\
  age = Z.quot (int64 (nowMs - WR.SubmittedAtMs ws)) 1000.

Lemma checkHungWorkflows_ok `{!NoFaults} (c : CA) :
  wp checkHungWorkflows c
    (fun l c' => db c' = db c /\ mem c' = mem c /\ exists nowMs, forall w age,
       (w, age) ∈ l <-> exists k ws, AbsDB.wstates (db c) !! k = Some ws /\ hung nowMs ws w age) (fun _ => False).
Proof.
  unfold checkHungWorkflows. apply wp_bind, wp_onStore, GetAllWorkflowStates_ok. intros s1 Hs1.
  apply wp_bind, wp_onStore, wp_now. intros nowMs s2 Hs2. apply wp_ret. unfold db in *. simpl in *.
  split_and!; [congruence | done |]. exists nowMs. intros w age. rewrite list_elem_of_omap. split.
  - intros (ws & ([k ws'] & -> & Hin%elem_of_sorted_entries)%list_elem_of_fmap & E). exists k, ws'. split; [done |].
    simpl in *.
    destruct (Z.eqb_spec (WR.State ws') WORKFLOW_RUNNING); [|done]. simpl in E.
    destruct (Z.ltb_spec watchdogHungThresholdMs (int64 (nowMs - WR.SubmittedAtMs ws'))); [|done].
    injection E as <- <-. done.
  - intros (k & ws & Hk & Hst & <- & Hage & ->). exists ws. split.
    + apply list_elem_of_fmap. exists (k, ws). split; [done |]. by apply elem_of_sorted_entries.
    + rewrite Hst. simpl. by rewrite (proj2 (Z.ltb_lt _ _) Hage).
Qed.

End Abstract.

(** ** Streams *)

(** The messages of a stream that the transport delivers. *)
Abbreviation delivered msgs := ((fun m => Recv m None) <$> msgs).


Section Streams.
Context `{Env} {D : Type} `{RecordDBLaws D} (scan dead : Z).


Lemma csim_handleTaskRequest w : refines coord_abs coord_ok (handleTaskRequest w) (handleTaskRequest w).
Proof. unfold handleTaskRequest. repeat first [ solve [auto with sim nocore] | refines_step ]. Qed.



End Streams.

(** ** In the running system *)

Section Props.
Context `{Env} {D : Type} `{RecordDBLaws D} (scan dead : Z).

(** Stale results. A result under an execution id that is not the one the task
    is assigned under changes nothing: a failure is refused as stale, and a
    completion leaves the database and the memory as they were; it is acknowledged
    only when the stored record is COMPLETE under that very id. *)
Theorem stale_result c ss k e o msg c' r :
  reachable scan dead (Up c ss) -> assignedTasks (mem c) !! k <> Some e ->
  CompleteTask k e o c = Done c' r ->
  FailTask k e msg c = Done c (Some ErrStaleExecution) /\
  adb (Up c' ss) = adb (Up c ss) /\ mem c' = mem c /\
  (r = None -> exists rec, AbsDB.tasks (adb (Up c ss)) !! k = Some rec /\
     TR.State rec = TASK_COMPLETE /\ TR.ExecutionID rec = e).
Proof.
  intros Hr Hn E. split; [by apply FailTask_stale |].
  apply (wp_done _ _ _ _ _ _ (reachable_wp _ _ c ss _ _ _ _ Hr (csim_CompleteTask k e o)
    (fun _ => CompleteTask_stale k e o (coord_abs c) Hn)) E).
Qed.

(** C24. Failures. A failure that the coordinator accepts was reported under the
    assigned execution id; the task is queued again when the test on the attempt
    counter leaves a retry, and is FAILED with the reported error and the
    incremented counter otherwise. *)
Theorem failure_outcome c ss k e msg c' :
  reachable scan dead (Up c ss) -> FailTask k e msg c = Done c' None ->
  assignedTasks (mem c) !! k = Some e /\
  exists r, AbsDB.tasks (adb (Up c ss)) !! k = Some r /\
    if retries_left k r (mem c) then retried k r (coord_abs c') else exhausted k msg r (coord_abs c').
Proof.
  intros Hr E. apply (wp_done _ _ _ _ _ _ (reachable_wp _ _ c ss _ _ _ _ Hr (csim_FailTask k e msg)
    (FailTask_outcome k e msg (coord_abs c))) E eq_refl).
Qed.

(** C25. The attempt counter is never stored by a retry, so a task whose
    specification allows two or more attempts is queued again by every failure that
    is accepted, however many there were before. *)
Theorem retries_unbounded c ss k e msg c' :
  reachable scan dead (Up c ss) -> 2 <= maxRetries k (mem c) -> FailTask k e msg c = Done c' None ->
  exists r', AbsDB.tasks (adb (Up c' ss)) !! k = Some r' /\ TR.State r' = TASK_QUEUED /\
    TR.AttemptCount r' = 0 /\ k ∈ readyQueue (mem c').
Proof.
  intros Hr Hmax E.
  destruct (wp_done _ _ _ _ _ _ (reachable_wp _ _ c ss _ _ _ _ Hr (csim_FailTask k e msg)
    (FailTask_outcome k e msg (coord_abs c))) E eq_refl) as (Ha & r & Hk & Hout).
  destruct (reachable_inv _ _ _ Hr) as [_ [Hdb Hm]].
  destruct (mi_assigned _ _ Hm k e Ha) as (r1 & Hr1 & _ & Hs & _). rewrite Hk in Hr1. injection Hr1 as <-.
  assert (TR.AttemptCount r = 0) as Hzero.
  { apply (ti_attempts _ (di_tasks _ Hdb) k r Hk). states. lia. }
  replace (retries_left k r (mem (coord_abs c))) with true in Hout.
  2: { unfold retries_left. rewrite Hzero. change (int32 (0 + 1)) with 1. change (mem (coord_abs c)) with (mem c). lia. }
  destruct Hout as (r' & Hr' & Hs' & Ha' & Hq & _). exists r'. by rewrite Ha', Hzero.
Qed.

(** C22. Submission. When a submission with unused task ids, run without another handler
    in between, returns no error, the specification and the RUNNING state of the
    workflow are stored, every task has a record that counts its dependencies and
    lists the tasks that wait for it, and is in the caches; exactly the tasks without
    dependencies are QUEUED, and the ready queue is the old one followed by exactly
    these, once each; the older records are kept and there are no others. *)
Theorem submission_accepted c ss w c' :
  reachable scan dead (Up c ss) -> fresh_ids (AbsDB.tasks (adb (Up c ss))) w ->
  SubmitWorkflow w c = Done c' None -> accepted w (coord_abs c) (coord_abs c').
Proof.
  intros Hr Hf E.
  apply (wp_done _ _ _ _ _ _ (reachable_wp _ _ c ss _ _ _ _ Hr (csim_SubmitWorkflow w)
    (fun Hc => SubmitWorkflow_spec w _ _ (good_refl _ Hc) Hf)) E). done.
Qed.

(** C23. Refused submissions. A workflow with a duplicate task id, a missing
    dependency or a cycle is answered with the error of the validation, and leaves
    the database and the scheduler as they were. *)
Theorem submission_refused c w :
  ~ (unique_ids w /\ closed w /\ ~ cyclic w) ->
  exists c' e, SubmitWorkflowRPC w c = Done c' (SubmitWorkflowResponse.mk (WF.WorkflowId w) false
                 (Some (Errorf ["invalid DAG"%string] e))) /\
    state (D := D) c' = state c /\ mem c' = set_orders (orders (mem c) + 5) (mem c).
Proof.
  intros Hn. unfold SubmitWorkflowRPC, bind at 1. destruct (SubmitWorkflow_invalid w c Hn) as (e & ->).
  by eexists _, e.
Qed.

(** Status. The answer to a status request is the stored state of the
    workflow and the status of every stored task of it; nothing is changed. *)
Theorem status_correct c ss w c' s :
  reachable scan dead (Up c ss) -> GetWorkflowStatus w c = Done c' (inr s) ->
  adb (Up c' ss) = adb (Up c ss) /\ mem c' = mem c /\
  exists ws, AbsDB.wstates (adb (Up c ss)) !! w = Some ws /\
    s = WorkflowStatus.mk w (WR.State ws)
          (status_of <$> select (fun r => String.eqb (TR.WorkflowID r) w) (AbsDB.tasks (adb (Up c ss))))
          (WR.SubmittedAtMs ws) (WR.CompletedAtMs ws).
Proof.
  intros Hr E. destruct (wp_done _ _ _ _ _ _ (reachable_wp _ _ c ss _ _ _ _ Hr (csim_GetWorkflowStatus w)
    (fun _ => GetWorkflowStatus_spec w (coord_abs c))) E) as (Hd & Hm & Hs). auto.
Qed.

(** A handler whose transactions are not killed returns. *)
Lemma exec_up ev c ss :
  reachable scan dead (Up c ss) -> ev <> EvKill ->
  match exec scan dead ev (Up c ss) with
  | Up _ _ => True
  | Down st _ _ => killed (txs (state c)) (txs st)
  end.
Proof.
  intros [Hok _]%reachable_inv Hev.
  assert (forall A (h : M (Coordinator D) A) h' next, refines coord_abs coord_ok h h' -> total h' ->
    match serve h next c with Up _ _ => True | Down st _ _ => killed (txs (state c)) (txs st) end) as Hs.
  { intros A h h' next Hh Ht. specialize (Hh c Hok). specialize (Ht (coord_abs c)). unfold serve, wp in *.
    destruct (h c); destruct Hh as [_ Hh]; rewrite Hh in Ht; [done | exact Ht]. }
  destruct ev; simpl; eauto; try (eapply Hs; solve [auto with sim total nocore]); try done.
  destruct (ss !! stream); [|done]. eapply Hs; auto with sim total nocore.
Qed.

(** C26. No handler panics. Whatever errors its transactions meet (a transaction that
    cannot begin, a commit that fails, a record bbolt refuses), no handler of a
    running coordinator reaches a panic of the code: an event other than a kill
    leaves the process up, or the process was killed inside one of the transactions
    of that very handler. *)
Theorem stays_up ev c ss :
  reachable scan dead (Up c ss) -> ev <> EvKill ->
  match exec scan dead ev (Up c ss) with
  | Up _ _ => True
  | Down st _ _ => exists n, (x_tx (st_aux (state c)) <= n < x_tx (st_aux st))%nat /\ fault n = TxKill
  end.
Proof. apply exec_up. Qed.


(** *** When no transaction of the handler fails *)

(** C19. Skipping is exact. When no transaction fails from here on (earlier ones may
    have) and bbolt accepts the records, [SkipDownstreamTasks] for a task that is not
    COMPLETE skips exactly the PENDING tasks that depend on it directly or through
    other tasks. None of its dependents is QUEUED, RUNNING, COMPLETE or FAILED, so no
    running task is skipped by it; a skipped record keeps everything but its state and
    timestamp, and no other record changes. *)
Theorem skip_exact c ss f rf :
  let T := AbsDB.tasks (adb (Up c ss)) in
  reachable scan dead (Up c ss) -> steady (state c) -> skippable T ->
  T !! f = Some rf -> TR.State rf <> TASK_COMPLETE ->
  exists s' skipped, SkipDownstreamTasks f (state c) = Done s' (skipped, None) /\
    (forall k, k ∈ skipped <-> tc (edge T) f k /\ exists r, T !! k = Some r /\ TR.State r = TASK_PENDING) /\
    (forall k, tc (edge T) f k -> exists r, T !! k = Some r /\ (TR.State r = TASK_PENDING \/ TR.State r = TASK_SKIPPED)) /\
    skipped_map (fun k _ => k ∈ skipped) T (AbsDB.tasks (db_abs (st_db s'))).
Proof.
  intros T Hr Hq Hfit Hf Hn. destruct (reachable_inv _ _ _ Hr) as [Hok [Hdb _]].
  pose proof (fun k => dependents_wait T f rf k (di_tasks _ Hdb) Hf Hn) as Hwait.
  pose proof (steady_wp steady _ _ (st_abs (state c)) _ _ (steady_SkipDownstreamTasks f) Hq
    (skip_spec (H := faultless H) f rf (st_abs (state c)) Hfit Hf)) as Hw.
  pose proof (sim_SkipDownstreamTasks f (state c) Hok) as Hs. unfold wp in Hw.
  destruct (SkipDownstreamTasks f (state c)) as [s' [skipped e] | s']; destruct Hs as [_ Hs]; rewrite Hs in Hw; [|done].
  destruct Hw as (He & Hk & T' & Hd & Hm). simpl in He. subst e. exists s', skipped. split_and!; [done | | done |].
  - intros k. rewrite (Hk k). split; intros [Htc (r' & Hr' & Hs')]; (split; [done |]); destruct (Hwait k Htc) as (r & Hkr & Hst);
    exists r'; (split; [done |]); assert (r' = r) as -> by (change (T !! k = Some r') in Hr'; congruence);
    destruct Hst as [Hst|Hst]; rewrite Hst in Hs' |- *; done.
  - change (db_abs (st_db s')) with (st_db (st_abs s')). rewrite Hd. exact Hm.
Qed.

(** The effects do not mention faults. *)
Lemma buried_faultless w (c c' : CA) : buried (H := faultless H) w c c' -> buried w c c'.
Proof. intros []. by split. Qed.

Lemma recovered_faultless (c c' : CA) : recovered (H := faultless H) c c' -> recovered c c'.
Proof. intros []. by split. Qed.

(** C12. Dead workers. When no transaction fails from here on (earlier ones may
    have), the handler of a dead worker returns; every task it ran is QUEUED under a
    new execution id and in the ready queue (or bbolt refused the record, which is
    then kept as it was), and is no longer assigned; the other tasks are as they were
    and nothing else is added to the queue; the monitor has forgotten the worker. *)
Theorem dead_worker_requeued c ss w :
  reachable scan dead (Up c ss) -> steady (state c) ->
  exists c', HandleDeadWorker w c = Done c' None /\ buried w (coord_abs c) (coord_abs c').
Proof.
  intros Hr Hq. destruct (wp_returns _ _ _ (reachable_wp _ _ c ss _ _ _ (fun _ => False) Hr (csim_HandleDeadWorker w)
    (fun Hc => steady_wp steadyc _ _ (coord_abs c) _ _ (steady_HandleDeadWorker w) Hq
       (HandleDeadWorker_ok (H := faultless H) w (coord_abs c) Hc)))) as (c' & e & E & -> & Hb).
  exists c'. split; [done | by apply buried_faultless].
Qed.

(** C10. Restart. A coordinator that starts on the database that any run left,
    whatever transactions failed or were killed in it, and none of whose own
    transactions fails, comes up with no assignments; the QUEUED tasks are in its
    ready queue, once each; the tasks that were RUNNING are QUEUED under a new
    execution id and in the queue (or bbolt refused the record, which is then kept as
    it was); all other records are as they were and not in the queue. *)
Theorem recovery st u o :
  reachable scan dead (Down st u o) -> steady st ->
  exists c, exec scan dead EvBoot (Down st u o) = Up c ∅ /\
    recovered (coord_abs (NewCoordinator st scan dead u o)) (coord_abs c) /\
    assignedTasks (mem c) = ∅ /\ NoDup (readyQueue (mem c)).
Proof.
  intros Hr Hq. destruct (reachable_inv _ _ _ Hr) as [Hok Hinv].
  assert (reachable scan dead (exec scan dead EvBoot (Down st u o))) as Hr' by (by constructor).
  assert (wp startup (coord_abs (NewCoordinator st scan dead u o))
    (fun _ c' => recovered (coord_abs (NewCoordinator st scan dead u o)) c' /\ assignedTasks (mem c') = ∅)
    (fun _ => False)) as Hw.
  { apply (steady_wp steadyc _ _ (coord_abs (NewCoordinator st scan dead u o)) _ _ steady_startup Hq).
    eapply wp_mono; [apply (startup_ok (H := faultless H)); [apply Hinv | done] | | done].
    intros _ c' [Hrec Ha]. split; [by apply recovered_faultless | done]. }
  destruct (wp_returns _ _ _ (refines_wp _ _ (NewCoordinator st scan dead u o) _ (fun _ => False) csim_startup Hok Hw))
    as (c & [] & E & _ & Hrec & Ha).
  simpl in *. unfold serve in *. rewrite E in *. exists c. split_and!; [done | done | done |].
  destruct (reachable_inv _ _ _ Hr') as [_ [_ Hm]]. apply Hm.
Qed.

(** The watchdog. When no transaction fails from here on, a check changes nothing and
    warns about exactly the stored workflows that are RUNNING and were submitted more
    than ten minutes ago. *)
Theorem watchdog_reports c ss :
  reachable scan dead (Up c ss) -> steady (state c) ->
  exists c' l nowMs, checkHungWorkflows c = Done c' l /\ adb (Up c' ss) = adb (Up c ss) /\ mem c' = mem c /\
    forall w age, (w, age) ∈ l <->
      exists k ws, AbsDB.wstates (adb (Up c ss)) !! k = Some ws /\ hung nowMs ws w age.
Proof.
  intros Hr Hq. destruct (wp_returns _ _ _ (reachable_wp _ _ c ss _ _ _ (fun _ => False) Hr csim_checkHungWorkflows
    (fun _ => steady_wp steadyc _ _ (coord_abs c) _ _ steady_checkHungWorkflows Hq
       (checkHungWorkflows_ok (H := faultless H) (coord_abs c))))) as (c' & l & E & Hd & Hm & nowMs & Hl).
  exists c', l, nowMs. done.
Qed.

(** C31. Requests for work. When no transaction fails from here on and the task at the head
    of the queue has a cached specification, a worker that asks gets its assignment:
    the command, environment and timeout of the specification under a new execution
    id, stored as RUNNING and assigned to that worker. The one other answer is "no
    task", when bbolt refuses the record. *)
Theorem request_served c ss w k q spec :
  reachable scan dead (Up c ss) -> steady (state c) ->
  readyQueue (mem c) = k :: q -> taskSpecCache (mem c) !! k = Some spec ->
  exists c' m r, handleTaskRequest w c = Done c' m /\ readyQueue (mem c') = q /\
    AbsDB.tasks (adb (Up c ss)) !! k = Some r /\ TR.State r = TASK_QUEUED /\
    answered w k (uuid (uuids (mem c))) spec r m (coord_abs c) (coord_abs c').
Proof.
  intros Hr Hqt Hq Hs. destruct (wp_returns _ _ _ (reachable_wp _ _ c ss _ _ _ (fun _ => False) Hr (csim_handleTaskRequest w)
    (fun Hc => steady_wp steadyc _ _ (coord_abs c) _ _ (steady_handleTaskRequest w) Hqt
       (handleTaskRequest_ok (H := faultless H) w k q spec (coord_abs c) Hc Hq Hs))))
    as (c' & m & E & Hq' & r & Hk & Hst & Ha).
  exists c', m, r. done.
Qed.

End Props.

(** ** Opening the database *)

(** The buckets of a database file by name. *)
Definition file_of {B} (d : BoltDB B) : gmap string B :=
  <["workflows" := BoltDB.workflows d]> (<["task_state" := BoltDB.task_state d]> (<["workers" := BoltDB.workers d]>
    (<["meta" := BoltDB.meta d]> {["workflow_state" := BoltDB.workflow_state d]})))%string.

(** Opening. On a new file [New] makes a database without records, from which the
    runs of the system start; on the file of an earlier process it keeps every
    bucket as it is; and it fails exactly when the file cannot be opened or the
    transaction that creates the buckets fails. *)
Theorem store_opened {B} `{BoltLaws B} `{!ForEachPutStable B} `{ProtobufLaws} :
  (exists st, NewStore (inr ∅) None = inr st /\ new_store st) /\
  (forall d : BoltDB B, NewStore (inr (file_of d)) None = inr (mkSt d aux0)) /\
  (forall opened committed, (exists e, NewStore opened committed = inl e) <->
     (exists e, opened = inl e) \/ (exists e, committed = Some e)).
Proof.
  split_and!.
  - exists (mkSt (BoltDB.mk b_new b_new b_new b_new b_new) aux0). split; [reflexivity |]. apply bolt_new.
  - intros []. reflexivity.
  - intros [e|file] [e'|]; simpl; (split; [intros [? [=]] | intros [[? [=]] | [? [=]]]]; eauto).
Qed.

(** A late result revives a cancelled workflow: the worker's result for the
    running task of a cancelled workflow is accepted: the SKIPPED task becomes
    COMPLETE, and the CANCELLED workflow COMPLETE. *)
Theorem cancelled_revived :
  let cancelled := adb (sample_run (assigned_a ++ [EvCancel "w"%string])) in
  let late := adb (sample_run (assigned_a ++ [EvCancel "w"%string; said (result "a" "uuid-0" true)])) in
  (TR.State <$> AbsDB.tasks cancelled !! "a"%string) = Some TASK_SKIPPED /\
  (WR.State <$> AbsDB.wstates cancelled !! "w"%string) = Some WORKFLOW_CANCELLED /\
  (TR.State <$> AbsDB.tasks late !! "a"%string) = Some TASK_COMPLETE /\
  (WR.State <$> AbsDB.wstates late !! "w"%string) = Some WORKFLOW_COMPLETE.
Proof. vm_compute. done. Qed.
