(* ===== verification/HandlerWitness.v ===== *)
(** * The theorems about handlers on concrete runs

    Each theorem of [HandlerProps] that has hypotheses, at a state of a run of
    [Sample]. *)

From S2P Require Import Prelude Proto Codec Env RecordDB Store StoreRefinement StoreSpec NoFault Skip Dag DagProps.
From S2P Require Import Heartbeat Coordinator CoordinatorRefinement Invariant CoordinatorInv Requeue.
From S2P Require Import Submission Failure Service Total Steady System Sample HandlerProps.

(** The states of the run: nothing submitted, task [a] queued, task [a] assigned. *)
Definition idle_c : Coordinator GDB := coord_of (sample_run [EvBoot]).
Definition queued_c : Coordinator GDB := coord_of (sample_run submitted).
Definition busy_c : Coordinator GDB := coord_of (sample_run assigned_a).
Definition busy_ss : gmap nat string := streams_of (sample_run assigned_a).

(** A workflow whose task names a dependency it does not have. *)
Definition workflow2 : WorkflowSpec := WF.mk "w2" [taskB] FAIL_FAST.

Lemma stale_result_witness :
  let c' := after (CompleteTask "a" "old" "out") busy_c in
  FailTask "a" "old" "err" busy_c = Done busy_c (Some ErrStaleExecution) /\
  adb (Up c' busy_ss) = adb (Up busy_c busy_ss) /\ mem c' = mem busy_c /\
  (Some ErrStaleExecution = None -> exists rec, AbsDB.tasks (adb (Up busy_c busy_ss)) !! "a"%string = Some rec /\
     TR.State rec = TASK_COMPLETE /\ TR.ExecutionID rec = "old"%string).
Proof.
  intros c'. apply (stale_result (5 * Second) (15 * Second) busy_c busy_ss "a" "old" "out" "err" c' (Some ErrStaleExecution)).
  - apply sample_up. vm_refl.
  - vm_compute. discriminate.
  - vm_refl.
Defined.

Lemma failure_outcome_witness :
  let c' := after (FailTask "a" "uuid-0" "err") busy_c in
  assignedTasks (mem busy_c) !! "a"%string = Some "uuid-0"%string /\
  exists r, AbsDB.tasks (adb (Up busy_c busy_ss)) !! "a"%string = Some r /\
    if retries_left "a" r (mem busy_c) then retried "a" r (coord_abs c') else exhausted "a" "err" r (coord_abs c').
Proof.
  intros c'. apply (failure_outcome (5 * Second) (15 * Second) busy_c busy_ss "a" "uuid-0" "err" c').
  - apply sample_up. vm_refl.
  - refine (none_after (FailTask "a" "uuid-0" "err") busy_c _). vm_refl.
Defined.

Lemma retries_unbounded_witness :
  let c' := after (FailTask "a" "uuid-0" "err") busy_c in
  exists r', AbsDB.tasks (adb (Up c' busy_ss)) !! "a"%string = Some r' /\ TR.State r' = TASK_QUEUED /\
    TR.AttemptCount r' = 0 /\ "a"%string ∈ readyQueue (mem c').
Proof.
  intros c'. apply (retries_unbounded (5 * Second) (15 * Second) busy_c busy_ss "a" "uuid-0" "err" c').
  - apply sample_up. vm_refl.
  - vm_compute. discriminate.
  - refine (none_after (FailTask "a" "uuid-0" "err") busy_c _). vm_refl.
Defined.

Lemma submission_accepted_witness :
  accepted workflow1 (coord_abs idle_c) (coord_abs (after (SubmitWorkflow workflow1) idle_c)).
Proof.
  apply (submission_accepted (5 * Second) (15 * Second) idle_c (streams_of (sample_run [EvBoot]))).
  - apply sample_up. vm_refl.
  - apply (bool_decide_eq_true_1 (fresh_ids _ _)). vm_refl.
  - refine (none_after (SubmitWorkflow workflow1) idle_c _). vm_refl.
Defined.

Lemma submission_refused_witness :
  exists c' e, SubmitWorkflowRPC workflow2 idle_c = Done c' (SubmitWorkflowResponse.mk "w2" false
                 (Some (Errorf ["invalid DAG"%string] e))) /\
    state c' = state idle_c /\ mem c' = set_orders (orders (mem idle_c) + 5) (mem idle_c).
Proof.
  apply (submission_refused idle_c workflow2). intros (_ & Hc & _).
  assert ("a"%string ∈ TS.TaskId <$> WF.Tasks workflow2) as Hin by (apply (Hc "b"%string); exists taskB; split_and!; [left | reflexivity | left]).
  vm_compute in Hin. inversion Hin as [|? ? ? Hin']. inversion Hin'.
Defined.

Lemma status_correct_witness :
  let c' := after (GetWorkflowStatus "w") busy_c in
  adb (Up c' busy_ss) = adb (Up busy_c busy_ss) /\ mem c' = mem busy_c /\
  exists ws, AbsDB.wstates (adb (Up busy_c busy_ss)) !! "w"%string = Some ws /\
    WorkflowStatus.mk "w" WORKFLOW_RUNNING
      [TaskStatus.mk "a" TASK_RUNNING 0 "" ""; TaskStatus.mk "b" TASK_PENDING 0 "" ""] 1001 0 =
    WorkflowStatus.mk "w" (WR.State ws)
      (status_of <$> select (fun r => String.eqb (TR.WorkflowID r) "w") (AbsDB.tasks (adb (Up busy_c busy_ss))))
      (WR.SubmittedAtMs ws) (WR.CompletedAtMs ws).
Proof.
  intros c'. apply (status_correct (5 * Second) (15 * Second) busy_c busy_ss "w" c').
  - apply sample_up. vm_refl.
  - vm_refl.
Defined.

Lemma skip_exact_witness :
  let T := AbsDB.tasks (adb (Up busy_c busy_ss)) in
  exists s' skipped, SkipDownstreamTasks "a" (state busy_c) = Done s' (skipped, None) /\
    (forall k, k ∈ skipped <-> tc (edge T) "a"%string k /\ exists r, T !! k = Some r /\ TR.State r = TASK_PENDING) /\
    (forall k, tc (edge T) "a"%string k ->
       exists r, T !! k = Some r /\ (TR.State r = TASK_PENDING \/ TR.State r = TASK_SKIPPED)) /\
    skipped_map (fun k _ => k ∈ skipped) T (AbsDB.tasks (db_abs (st_db s'))).
Proof.
  intros T. eapply (skip_exact (5 * Second) (15 * Second) busy_c busy_ss "a").
  - apply sample_up. vm_refl.
  - intros n _. reflexivity.
  - apply skippable_stored. apply (bool_decide_eq_true_1 _). vm_refl.
  - vm_refl.
  - vm_compute. discriminate.
Defined.

Lemma dead_worker_requeued_witness :
  exists c', HandleDeadWorker "worker-1" busy_c = Done c' None /\
    buried "worker-1" (coord_abs busy_c) (coord_abs c').
Proof.
  apply (dead_worker_requeued (5 * Second) (15 * Second) busy_c busy_ss).
  - apply sample_up. vm_refl.
  - intros n _. reflexivity.
Defined.

Lemma recovery_witness :
  let st := store_after (assigned_a ++ [EvKill]) in
  exists c, sample_exec EvBoot (Down st 1 5) = Up c ∅ /\
    recovered (coord_abs (NewCoordinator st (5 * Second) (15 * Second) 1 5)) (coord_abs c) /\
    assignedTasks (mem c) = ∅ /\ NoDup (readyQueue (mem c)).
Proof.
  intros st. apply (recovery (5 * Second) (15 * Second) st 1 5).
  - replace (Down st 1 5) with (sample_run (assigned_a ++ [EvKill])) by vm_refl.
    apply sample_reachable. vm_refl.
  - intros n _. reflexivity.
Defined.

Lemma stays_up_witness :
  match sample_exec (said (result "a" "uuid-0" true)) (Up busy_c busy_ss) with
  | Up _ _ => True
  | Down st _ _ => exists n, (x_tx (st_aux (state busy_c)) <= n < x_tx (st_aux st))%nat /\ fault n = TxKill
  end.
Proof.
  apply (stays_up (5 * Second) (15 * Second)); [|discriminate]. apply sample_up. vm_refl.
Defined.


Lemma watchdog_reports_witness :
  exists c' l nowMs, checkHungWorkflows busy_c = Done c' l /\
    adb (Up c' busy_ss) = adb (Up busy_c busy_ss) /\ mem c' = mem busy_c /\
    forall w age, (w, age) ∈ l <->
      exists k ws, AbsDB.wstates (adb (Up busy_c busy_ss)) !! k = Some ws /\ hung nowMs ws w age.
Proof.
  apply (watchdog_reports (5 * Second) (15 * Second) busy_c busy_ss).
  - apply sample_up. vm_refl.
  - intros n _. reflexivity.
Defined.

Lemma request_served_witness :
  exists c' m r, handleTaskRequest "worker-1" queued_c = Done c' m /\ readyQueue (mem c') = [] /\
    AbsDB.tasks (adb (Up queued_c (streams_of (sample_run submitted)))) !! "a"%string = Some r /\
    TR.State r = TASK_QUEUED /\
    answered "worker-1" "a" (uuid (uuids (mem queued_c))) taskA r m (coord_abs queued_c) (coord_abs c').
Proof.
  apply (request_served (5 * Second) (15 * Second) queued_c (streams_of (sample_run submitted)) "worker-1" "a" [] taskA).
  - apply sample_up. vm_refl.
  - intros n _. reflexivity.
  - vm_refl.
  - vm_refl.
Defined.

Lemma store_opened_witness :
  (exists st : St GDB, NewStore (inr ∅) None = inr st /\ new_store st) /\
  (forall d : GDB, NewStore (inr (file_of d)) None = inr (mkSt d aux0)) /\
  (forall (opened : GoError + gmap string GBolt.bucket) committed, (exists e, NewStore opened committed = inl e) <->
     (exists e, opened = inl e) \/ (exists e, committed = Some e)).
Proof. apply (store_opened (B := GBolt.bucket)). Defined.
