(* ===== verification/Cli.v ===== *)
(** * The command line client

    [cmd/cli/main.go]: the commands that submit, watch and cancel workflows. The
    connection is an interface, [SchedulerClient]; a command is code over whatever
    state the connection has. Reading the file, decoding its JSON, and the host's
    time zone are inputs. *)

From Stdlib Require Import Ascii.
From stdpp Require Import pretty.
From S2P Require Import Prelude Proto Env Heartbeat.
Open Scope string_scope.
Open Scope list_scope.
Open Scope Z_scope.

(** ** Text *)

Definition esc (s : string) : string := String (Ascii.ascii_of_nat 27) s.

(** [%-32s]: the width counts characters, which in UTF-8 text are the bytes that
    do not continue another. *)
Fixpoint runeCount (s : string) : nat :=
  match s with
  | EmptyString => 0
  | String c s =>
      let n := Ascii.nat_of_ascii c in
      if ((128 <=? n) && (n <? 192))%nat then runeCount s else S (runeCount s)
  end.

Fixpoint spaces (n : nat) : string := match n with O => EmptyString | S n => String " "%char (spaces n) end.

Definition padRight (width : nat) (s : string) : string := s +:+ spaces (width - runeCount s).

(** [strings.ToUpper], as far as a comparison with ASCII text can tell: the two
    letters outside ASCII whose upper case is in ASCII are the dotless i and the
    long s. *)
Definition upperASCII (c : Ascii.ascii) : Ascii.ascii :=
  let n := Ascii.nat_of_ascii c in
  if ((97 <=? n) && (n <=? 122))%nat then Ascii.ascii_of_nat (n - 32) else c.

Fixpoint toUpper (s : string) : string :=
  match s with
  | EmptyString => EmptyString
  | String c s' =>
      match Ascii.nat_of_ascii c, s' with
      | 196%nat, String d s'' => if (Ascii.nat_of_ascii d =? 177)%nat then String "I"%char (toUpper s'') else String c (toUpper s')
      | 197%nat, String d s'' => if (Ascii.nat_of_ascii d =? 191)%nat then String "S"%char (toUpper s'') else String c (toUpper s')
      | _, _ => String (upperASCII c) (toUpper s')
      end
  end.

(** [time.Duration.Round(time.Millisecond)] and [time.Duration.String]. *)
Definition minDuration : Z := - 2 ^ 63.
Definition maxDuration : Z := 2 ^ 63 - 1.

Definition roundDuration (d : Z) : Z :=
  let m := Millisecond in
  if d <? 0
  then let r := - Z.rem d m in
       if r + r <? m then d + r else if d - m + r <? minDuration then minDuration else d - m + r
  else let r := Z.rem d m in
       if r + r <? m then d - r else if maxDuration <? d + m - r then maxDuration else d + m - r.

(** The [prec] digits of [v] behind the point, without trailing zeros. *)
Fixpoint fracDigits (prec : nat) (v : Z) (acc : string) : string :=
  match prec with
  | O => acc
  | S prec =>
      let digit := v mod 10 in
      fracDigits prec (v / 10)
        (if (digit =? 0) && String.eqb acc EmptyString then EmptyString else pretty digit +:+ acc)
  end.

Definition fraction (prec : nat) (v : Z) : string :=
  let ds := fracDigits prec (v mod 10 ^ Z.of_nat prec) EmptyString in
  pretty (v / 10 ^ Z.of_nat prec) +:+ (if String.eqb ds EmptyString then EmptyString else "." +:+ ds).

Definition durationString (d : Z) : string :=
  let u := Z.abs d in
  let text :=
    if u =? 0 then "0s"
    else if u <? 1000 then pretty u +:+ "ns"
    else if u <? Millisecond then fraction 3 u +:+ "µs"
    else if u <? Second then fraction 6 u +:+ "ms"
    else
      let secs := fraction 9 (u mod (60 * Second)) +:+ "s" in
      let mins := u / (60 * Second) in
      if mins =? 0 then secs
      else if mins / 60 =? 0 then pretty mins +:+ "m" +:+ secs
      else pretty (mins / 60) +:+ "h" +:+ pretty (mins mod 60) +:+ "m" +:+ secs in
  if d <? 0 then "-" +:+ text else text.

(** ** The connection *)

(** The calls of [scheduler.SchedulerClient], and the pause between two polls. *)
Record SchedulerClient (T : Type) := mkClient {
  callSubmit : WorkflowSpec -> M T (GoError + SubmitWorkflowResponse.t);
  callStatus : string -> M T (GoError + WorkflowStatus.t);
  callCancel : string -> M T (GoError + CancelWorkflowResponse.t);
  sleep : M T unit
}.
Arguments callSubmit {T}.
Arguments callStatus {T}.
Arguments callCancel {T}.
Arguments sleep {T}.

(** Why a command ended with status 1: the usage text, or [log.Fatal]. *)
Inductive fatal :=
  | PrintUsage
  | UsageOf (text : string)
  | UnknownCommand (name : string)
  | ReadFailed (err : GoError)
  | ParseFailed (err : GoError)
  | RPCFailed (name : string) (err : GoError)
  | Refused (what : string) (err : option GoError).

(** What a command printed, and how it ended; [None] is status 0. *)
Definition ended : Type := list string * option fatal.

(** ** [submit] *)

(** The structure the JSON file is decoded into. *)
Module PayloadTask.
Record t := mk {
  TaskID : string;
  Dependencies : list string;
  Command : string;
  Env : gmap string string;
  TimeoutSec : Z;
  MaxRetries : Z
}.
End PayloadTask.

Module Payload.
Record t := mk { WorkflowID : string; FailurePolicy : string; Tasks : list PayloadTask.t }.
End Payload.

Definition parsePolicy (name : string) : FailurePolicy :=
  let name := toUpper name in
  if String.eqb name "SKIP_DOWNSTREAM" then SKIP_DOWNSTREAM
  else if String.eqb name "CONTINUE_INDEPENDENT" then CONTINUE_INDEPENDENT
  else FAIL_FAST.

Definition taskSpecOf (t : PayloadTask.t) : TaskSpec :=
  TS.mk (PayloadTask.TaskID t) (PayloadTask.Dependencies t) (PayloadTask.Command t) (PayloadTask.Env t)
    (PayloadTask.TimeoutSec t) (PayloadTask.MaxRetries t).

Definition workflowSpecOf (payload : Payload.t) : WorkflowSpec :=
  WF.mk (Payload.WorkflowID payload) (taskSpecOf <$> Payload.Tasks payload) (parsePolicy (Payload.FailurePolicy payload)).

Definition submittedLines (workflowId : string) : list string :=
  ["Submitted workflow: " +:+ workflowId; "Run `cli status " +:+ workflowId +:+ " --watch` to follow execution."].

Section Commands.
Context {T : Type} (client : SchedulerClient T).
Context (readFile : string -> GoError + bytes) (unmarshal : bytes -> GoError + Payload.t).
Context (formatTime : Z -> string).

Definition runSubmit (args : list string) : M T ended :=
  match args with
  | [] => ret ([], Some (UsageOf "Usage: submit <workflow.json>"))
  | path :: _ =>
      match readFile path with
      | inl err => ret ([], Some (ReadFailed err))
      | inr data =>
          match unmarshal data with
          | inl err => ret ([], Some (ParseFailed err))
          | inr payload =>
              let! r := callSubmit client (workflowSpecOf payload) in
              match r with
              | inl err => ret ([], Some (RPCFailed "SubmitWorkflow" err))
              | inr res =>
                  if negb (SubmitWorkflowResponse.Success res)
                  then ret ([], Some (Refused "submit" (SubmitWorkflowResponse.Error res)))
                  else ret (submittedLines (SubmitWorkflowResponse.WorkflowId res), None)
              end
          end
      end
  end.

(** ** [status] *)

Definition colorReset : string := esc "[0m".
Definition colorGreen : string := esc "[32m".
Definition colorRed : string := esc "[31m".
Definition colorYellow : string := esc "[33m".
Definition colorCyan : string := esc "[36m".
Definition colorGray : string := esc "[90m".

Definition stateIcon (s : TaskState) : string :=
  if s =? TASK_COMPLETE then "✓" else if s =? TASK_FAILED then "✗" else if s =? TASK_RUNNING then "▶"
  else if s =? TASK_QUEUED then "⋯" else if s =? TASK_SKIPPED then "⊘" else "○".

Definition colorForTaskState (s : TaskState) : string :=
  if s =? TASK_COMPLETE then colorGreen else if s =? TASK_FAILED then colorRed else if s =? TASK_RUNNING then colorCyan
  else if s =? TASK_QUEUED then colorYellow else if s =? TASK_SKIPPED then colorGray else colorGray.

Definition colorForWorkflowState (s : WorkflowState) : string :=
  if s =? WORKFLOW_COMPLETE then colorGreen else if s =? WORKFLOW_FAILED then colorRed
  else if s =? WORKFLOW_CANCELLED then colorGray else colorCyan.

Definition isTerminalState (s : WorkflowState) : bool :=
  (s =? WORKFLOW_COMPLETE) || (s =? WORKFLOW_FAILED) || (s =? WORKFLOW_CANCELLED).

Definition taskLines (t : TaskStatus) : list string :=
  let attempts := if 0 <? TaskStatus.AttemptCount t
                  then " [" +:+ pretty (TaskStatus.AttemptCount t) +:+ " attempt(s)]" else EmptyString in
  ("    " +:+ colorForTaskState (TaskStatus.State t) +:+ stateIcon (TaskStatus.State t) +:+ "  " +:+
     padRight 32 (TaskStatus.TaskId t) +:+ " " +:+ TaskState_String (TaskStatus.State t) +:+ attempts +:+ colorReset)
  :: (if String.eqb (TaskStatus.Error t) EmptyString then [] else ["         error: " +:+ TaskStatus.Error t]).

Definition printWorkflowStatus (res : WorkflowStatus.t) : list string :=
  let state := WorkflowStatus.State res in
  ["╔══════════════════════════════════════════════════╗";
   "  Workflow  : " +:+ WorkflowStatus.WorkflowId res;
   "  State     : " +:+ colorForWorkflowState state +:+ WorkflowState_String state +:+ colorReset]
  ++ (if 0 <? WorkflowStatus.SubmittedAtUnixMs res
      then ["  Submitted : " +:+ formatTime (WorkflowStatus.SubmittedAtUnixMs res)] else [])
  ++ (if 0 <? WorkflowStatus.CompletedAtUnixMs res
      then
        let dur := int64 (int64 (WorkflowStatus.CompletedAtUnixMs res - WorkflowStatus.SubmittedAtUnixMs res) * Millisecond) in
        ["  Completed : " +:+ formatTime (WorkflowStatus.CompletedAtUnixMs res) +:+
           "  (elapsed " +:+ durationString (roundDuration dur) +:+ ")"]
      else [])
  ++ ["╚══════════════════════════════════════════════════╝"; EmptyString;
      "  Tasks (" +:+ pretty (Z.of_nat (length (WorkflowStatus.TaskStatuses res))) +:+ "):"]
  ++ mjoin (taskLines <$> WorkflowStatus.TaskStatuses res) ++ [EmptyString].

Definition clearScreen : string := esc "[H" +:+ esc "[2J".

(** One round of the loop prints an answer; [None] is a loop that is still
    watching after [polls] rounds. *)
Fixpoint statusLoop (polls : nat) (workflowID : string) (watch : bool) (printed : list string)
  : M T (list string * option (option fatal)) :=
  match polls with
  | O => ret (printed, None)
  | S polls =>
      let! r := callStatus client workflowID in
      match r with
      | inl err => ret (printed, Some (Some (RPCFailed "GetWorkflowStatus" err)))
      | inr res =>
          let printed := printed ++ (if watch then [clearScreen] else []) ++ printWorkflowStatus res in
          if negb watch || isTerminalState (WorkflowStatus.State res) then ret (printed, Some None)
          else sleep client ;; statusLoop polls workflowID watch printed
      end
  end.

Definition runStatus (polls : nat) (args : list string) : M T (list string * option (option fatal)) :=
  match args with
  | [] => ret ([], Some (Some (UsageOf "Usage: status <workflow_id> [--watch]")))
  | workflowID :: rest =>
      let watch := match rest with arg :: _ => String.eqb arg "--watch" | [] => false end in
      statusLoop polls workflowID watch []
  end.

(** ** [cancel] *)

Definition runCancel (args : list string) : M T ended :=
  match args with
  | [] => ret ([], Some (UsageOf "Usage: cancel <workflow_id>"))
  | workflowID :: _ =>
      let! r := callCancel client workflowID in
      match r with
      | inl err => ret ([], Some (RPCFailed "CancelWorkflow" err))
      | inr res =>
          if negb (CancelWorkflowResponse.Success res)
          then ret ([], Some (Refused "cancel" (CancelWorkflowResponse.Error res)))
          else ret (["Cancelled workflow: " +:+ workflowID], None)
      end
  end.

(** ** [main] *)

Definition usageLines : list string :=
  ["Usage: cli [--addr <host:port>] <command> [args]"; EmptyString; "Commands:";
   "  submit <workflow.json>         Submit a workflow from a JSON file";
   "  status <workflow_id> [--watch] Show workflow status (--watch polls every 2s)";
   "  cancel <workflow_id>           Cancel a running workflow"].

Definition main (polls : nat) (args : list string) : M T (list string * option (option fatal)) :=
  match args with
  | [] => ret (usageLines, Some (Some PrintUsage))
  | "submit" :: args => let! r := runSubmit args in ret (r.1, Some r.2)
  | "status" :: args => runStatus polls args
  | "cancel" :: args => let! r := runCancel args in ret (r.1, Some r.2)
  | name :: _ => ret ([], Some (Some (UnknownCommand name)))
  end.

End Commands.
