(* ===== verification/CliProps.v ===== *)
(** * What the command line client does

    The commands against a connection that answers, and against the coordinator. *)

From S2P Require Import Prelude Proto Codec Env RecordDB Store StoreRefinement StoreSpec Dag DagProps Heartbeat.
From S2P Require Import Coordinator CoordinatorRefinement Invariant CoordinatorInv Submission Service System Sample Cli.

(** ** Policies *)

(** Policy names. The client reads the name the server prints for a policy as
    that policy; it selects one of the two other policies exactly when the text is
    its name in any capitals, and FAIL_FAST for every other text. *)
Theorem policy_names name :
  (forall p, p ∈ [FAIL_FAST; SKIP_DOWNSTREAM; CONTINUE_INDEPENDENT] -> parsePolicy (FailurePolicy_String p) = p) /\
  (parsePolicy name = SKIP_DOWNSTREAM <-> toUpper name = FailurePolicy_String SKIP_DOWNSTREAM) /\
  (parsePolicy name = CONTINUE_INDEPENDENT <-> toUpper name = FailurePolicy_String CONTINUE_INDEPENDENT) /\
  (parsePolicy name = FAIL_FAST <->
     toUpper name <> FailurePolicy_String SKIP_DOWNSTREAM /\ toUpper name <> FailurePolicy_String CONTINUE_INDEPENDENT).
Proof.
  split.
  - intros p Hp. rewrite !elem_of_cons, elem_of_nil in Hp. by destruct Hp as [-> | [-> | [-> | []]]].
  - change (FailurePolicy_String SKIP_DOWNSTREAM) with "SKIP_DOWNSTREAM"%string.
    change (FailurePolicy_String CONTINUE_INDEPENDENT) with "CONTINUE_INDEPENDENT"%string. unfold parsePolicy.
    generalize (toUpper name). intros u.
    destruct (String.eqb_spec u "SKIP_DOWNSTREAM") as [->|]; [naive_solver |].
    destruct (String.eqb_spec u "CONTINUE_INDEPENDENT") as [->|]; naive_solver.
Qed.

(** ** Watching *)

(** A connection whose status calls have the given answers, in order. *)
Definition answering : SchedulerClient (list (GoError + WorkflowStatus.t)) := mkClient _
  (fun _ => ret (inl ErrEOF))
  (fun _ l => match l with a :: l => Done l a | [] => Done [] (inl ErrEOF) end)
  (fun _ => ret (inl ErrEOF)) (ret tt).

Definition unfinished_answer (a : GoError + WorkflowStatus.t) : bool :=
  match a with inr s => negb (isTerminalState (WorkflowStatus.State s)) | inl _ => false end.

(** What a round of watching prints. *)
Definition frame (formatTime : Z -> string) (a : GoError + WorkflowStatus.t) : list string :=
  match a with inr s => clearScreen :: printWorkflowStatus formatTime s | inl _ => [] end.

Lemma watch_step formatTime w s l n printed :
  statusLoop answering formatTime (S n) w true printed (inr s :: l) =
  if isTerminalState (WorkflowStatus.State s) then Done l (printed ++ frame formatTime (inr s), Some None)
  else statusLoop answering formatTime n w true (printed ++ frame formatTime (inr s)) l.
Proof. cbn [statusLoop]. unfold bind at 1. cbn [callStatus answering]. by destruct (isTerminalState _). Qed.

Lemma watch_runs formatTime w pre rest n printed :
  Forall (fun a => unfinished_answer a = true) pre ->
  statusLoop answering formatTime (length pre + n) w true printed (pre ++ rest) =
  statusLoop answering formatTime n w true (printed ++ mjoin (frame formatTime <$> pre)) rest.
Proof.
  intros Hp. revert printed. induction Hp as [|a pre Ha _ IH]; intros printed; [by rewrite app_nil_r |].
  destruct a as [e|s]; [done |]. apply negb_true_iff in Ha. cbn [length Nat.add app]. rewrite watch_step, Ha, IH, <- app_assoc.
  done.
Qed.

(** Watching ends. [status --watch] prints every answer and polls again as long
    as the workflow has not ended; it stops at the first answer that says it has
    (with status 0) and at the first failed call (with status 1), and makes no call
    after that. *)
Theorem watch_stops formatTime w pre last rest polls :
  Forall (fun a => unfinished_answer a = true) pre -> unfinished_answer last = false -> (length pre < polls)%nat ->
  runStatus answering formatTime polls [w; "--watch"%string] (pre ++ last :: rest) =
  Done rest (mjoin (frame formatTime <$> (pre ++ [last])),
             Some match last with inl e => Some (RPCFailed "GetWorkflowStatus" e) | inr _ => None end).
Proof.
  intros Hp Hl Hn. replace polls with (length pre + S (polls - length pre - 1))%nat by lia.
  unfold runStatus. rewrite watch_runs by done. rewrite fmap_app, join_app.
  destruct last as [e|s]; [unfold mjoin at 3; simpl; by rewrite app_nil_r |].
  apply negb_false_iff in Hl. rewrite watch_step, Hl. unfold mjoin at 3. cbn [fmap list_fmap list_join]. by rewrite app_nil_r.
Qed.

(** ** Submitting to the coordinator *)

(** An ideal connection to a coordinator: every call is served, without a failure or a
    timeout of the transport on the way. [runSubmit] itself takes any client. *)
Definition connected `{Env} {D} `{RecordDB D} : SchedulerClient (Coordinator D) := mkClient _
  (fun w => let! r := SubmitWorkflowRPC w in ret (inr r))
  GetWorkflowStatus
  (fun w => let! r := CancelWorkflowRPC w in ret (inr r))
  (ret tt).

Section Props.
Context `{Env} {D : Type} `{RecordDBLaws D} (scan dead : Z).
Context (readFile : string -> GoError + bytes) (unmarshal : bytes -> GoError + Payload.t).

(** C40. Submitting. For a file that decodes, [submit] prints the confirmation and
    exits with status 0 only when the coordinator has accepted the workflow of the
    file (with unused task ids); otherwise it prints nothing and exits with the
    coordinator's error. A file with duplicate task ids, missing dependencies or a
    cycle is refused, and leaves the store as it was. *)
Theorem cli_submit c ss path rest data payload c' lines exit :
  reachable scan dead (Up c ss) -> readFile path = inr data -> unmarshal data = inr payload ->
  fresh_ids (AbsDB.tasks (adb (Up c ss))) (workflowSpecOf payload) ->
  runSubmit connected readFile unmarshal (path :: rest) c = Done c' (lines, exit) ->
  match exit with
  | None => lines = submittedLines (Payload.WorkflowID payload) /\
            accepted (workflowSpecOf payload) (coord_abs c) (coord_abs c')
  | Some f => lines = [] /\ exists e, f = Refused "submit" (Some e) /\ SubmitWorkflow (workflowSpecOf payload) c = Done c' (Some e)
  end /\
  (~ (unique_ids (workflowSpecOf payload) /\ closed (workflowSpecOf payload) /\ ~ cyclic (workflowSpecOf payload)) ->
   exit <> None /\ state c' = state c).
Proof.
  intros Hr Hfile Hjson Hf. unfold runSubmit. rewrite Hfile, Hjson. set (w := workflowSpecOf payload) in *.
  unfold connected, SubmitWorkflowRPC, bind. simpl.
  destruct (SubmitWorkflow w c) as [c1 [e|] | c1] eqn:E; simpl; intros [= <- <- <-].
  - split; [by eauto |]. intros Hn. destruct (SubmitWorkflow_invalid w c Hn) as (e' & E'). rewrite E' in E.
    by injection E as <- _.
  - split; [split; [done |] | intros Hn; destruct (SubmitWorkflow_invalid w c Hn) as (e' & E'); by rewrite E' in E].
    by apply (wp_done _ _ _ _ _ _ (reachable_wp _ _ c ss _ _ _ _ Hr (csim_SubmitWorkflow w)
      (fun Hc => SubmitWorkflow_spec w _ _ (good_refl _ Hc) Hf)) E).
Qed.

End Props.

(** ** Witnesses *)

Definition sample_status (st : WorkflowState) : WorkflowStatus.t :=
  WorkflowStatus.mk "w" st [TaskStatus.mk "a" TASK_COMPLETE 0 "out" EmptyString] 1001 (if isTerminalState st then 2501 else 0).

Lemma policy_names_witness :
  parsePolicy (FailurePolicy_String SKIP_DOWNSTREAM) = SKIP_DOWNSTREAM.
Proof. apply (policy_names "skip"%string). right; left. Defined.

Lemma watch_stops_witness :
  runStatus answering pretty.pretty 5 ["w"; "--watch"]%string
    [inr (sample_status WORKFLOW_RUNNING); inr (sample_status WORKFLOW_COMPLETE); inl ErrEOF] =
  Done [inl ErrEOF] (mjoin (frame pretty.pretty <$> [inr (sample_status WORKFLOW_RUNNING); inr (sample_status WORKFLOW_COMPLETE)]),
                     Some None).
Proof.
  apply (watch_stops pretty.pretty "w" [inr (sample_status WORKFLOW_RUNNING)] (inr (sample_status WORKFLOW_COMPLETE)) [inl ErrEOF] 5).
  - repeat constructor.
  - reflexivity.
  - simpl. lia.
Defined.

(** The workflow of [Sample] as a file. *)
Definition sample_payload : Payload.t :=
  Payload.mk "w" "fail_fast"
    [PayloadTask.mk "a" [] "echo a" ∅ 0 0; PayloadTask.mk "b" ["a"%string] "echo b" ∅ 0 1].

Definition sample_submit : M (Coordinator GDB) ended :=
  runSubmit connected (fun _ => inr []) (fun _ => inr sample_payload) ["w.json"%string].

Lemma cli_submit_witness :
  let c := coord_of (sample_run [EvBoot]) in
  submittedLines "w" = submittedLines (Payload.WorkflowID sample_payload) /\
  accepted (workflowSpecOf sample_payload) (coord_abs c) (coord_abs (after sample_submit c)).
Proof.
  intros c. apply (cli_submit (5 * Second) (15 * Second) (fun _ => inr []) (fun _ => inr sample_payload) c
    (streams_of (sample_run [EvBoot])) "w.json" [] [] sample_payload (after sample_submit c) _ None).
  - apply sample_up. vm_compute. reflexivity.
  - reflexivity.
  - reflexivity.
  - apply (bool_decide_eq_true_1 (fresh_ids _ _)). vm_compute. reflexivity.
  - vm_compute. reflexivity.
Defined.

(** What [status] prints for a complete workflow. *)
Example status_printed :
  printWorkflowStatus (fun _ => "2024-01-01 00:00:00"%string) (sample_status WORKFLOW_COMPLETE) =
  ["╔══════════════════════════════════════════════════╗"; "  Workflow  : w";
   String.append "  State     : " (String.append colorGreen (String.append "WORKFLOW_COMPLETE" colorReset));
   "  Submitted : 2024-01-01 00:00:00"; "  Completed : 2024-01-01 00:00:00  (elapsed 1.5s)";
   "╚══════════════════════════════════════════════════╝"; EmptyString; "  Tasks (1):";
   String.append "    " (String.append colorGreen (String.append "✓  a                                TASK_COMPLETE" colorReset));
   EmptyString]%string.
Proof. vm_compute. reflexivity. Qed.
