(* ===== verification/Agent.v ===== *)
(** * The worker agent

    [cmd/worker/main.go]: the process that asks the coordinator for tasks, runs
    their commands and reports the results. Its goroutines (the loop of [runOnce],
    [recvLoop] and one [executeTask] per assignment) share the map [running]; a
    step of the agent is one pass of a loop or one phase of [executeTask]. The
    transport, the clock and the commands are inputs: what [Recv] and [Send] return
    and how a command ends. *)

From stdpp Require Import pretty.
From S2P Require Import Prelude Proto Heartbeat.
Open Scope Z_scope.

(** ** Results *)

Definition maxOutputBytes : Z := 64 * 1024.

Definition truncated : string := String (Ascii.ascii_of_nat 10) "[output truncated]".

(** [outputStr[:maxOutputBytes] + ...] when the output is longer. *)
Definition truncateOutput (outputStr : string) : string :=
  if maxOutputBytes <? Z.of_nat (String.length outputStr)
  then String.append (String.substring 0 (Z.to_nat maxOutputBytes) outputStr) truncated
  else outputStr.

(** How a command ended: its combined output, the text of the error of
    [CombinedOutput], whether the deadline of its context had passed, and the time
    it took. *)
Record commandOutcome := mkOutcome {
  cmd_output : string;
  cmd_error : option string;
  cmd_deadline : bool;
  cmd_durationMs : Z
}.

(** The timeout of the command's context; without one it has the worker's context. *)
Definition taskTimeout (assignment : TaskAssignment) : option Z :=
  if 0 <? TaskAssignment.TimeoutSeconds assignment
  then Some (int64 (TaskAssignment.TimeoutSeconds assignment * Second)) else None.

(** The environment of the command: [os.Environ()] and the variables of the task. *)
Definition commandEnv (environ : list string) (s : seed) (assignment : TaskAssignment) : list string :=
  environ ++ ((fun p => String.append p.1 (String.append "=" p.2)) <$> range_map s (TaskAssignment.Env assignment)).

Definition errorMessage (assignment : TaskAssignment) (o : commandOutcome) (err : string) : string :=
  if cmd_deadline o
  then String.append "task timed out after " (String.append (pretty (TaskAssignment.TimeoutSeconds assignment)) "s")
  else String.append "execution error: " err.

(** The result that [executeTask] builds. *)
Definition taskResult (assignment : TaskAssignment) (o : commandOutcome) : TaskResult.t :=
  match cmd_error o with
  | None => TaskResult.mk (TaskAssignment.TaskId assignment) (TaskAssignment.ExecutionId assignment) true
              (truncateOutput (cmd_output o)) EmptyString (cmd_durationMs o)
  | Some err => TaskResult.mk (TaskAssignment.TaskId assignment) (TaskAssignment.ExecutionId assignment) false
              (truncateOutput (cmd_output o)) (errorMessage assignment o err) (cmd_durationMs o)
  end.

(** ** The worker and its goroutines *)

(** A goroutine of [executeTask]: spawned by [recvLoop], entered in [running], its
    result handed to [Send]. *)
Inductive phase := Spawned | Started | Sent.

#[export] Instance phase_eq_dec : EqDecision phase.
Proof. solve_decision. Defined.

(** [Worker], with the live goroutines of [executeTask]. *)
Record Worker := mkWorker {
  id : string;
  capacity : Z;
  running : gset string;
  executions : list (TaskAssignment * phase)
}.

Definition NewWorker (id : string) (capacity : Z) : Worker := mkWorker id capacity ∅ [].

Definition set_running (r : gset string) (w : Worker) : Worker :=
  mkWorker (id w) (capacity w) r (executions w).
Definition set_executions (l : list (TaskAssignment * phase)) (w : Worker) : Worker :=
  mkWorker (id w) (capacity w) (running w) l.

Definition runningCount (w : Worker) : Z := Z.of_nat (size (running w)).

(** A message handed to [stream.Send], and what it returned. *)
Definition attempt : Type := WorkerMessage.t * option GoError.

(** ** [runOnce] *)

(** What the [select] of [runOnce] takes. *)
Inductive selected :=
  | CtxDone
  | RecvEnded (err : option GoError)
  | HeartbeatTick (s : seed) (nowMs : Z) (send : option GoError)
  | RequestTick (send : option GoError).

(** [if err := stream.Send(msg); err != nil && err != io.EOF { return err }]. *)
Definition sendOrReturn (send : option GoError) : option (option GoError) :=
  match send with
  | None => None
  | Some ErrEOF => None
  | Some err => Some (Some err)
  end.

(** [available := w.capacity - int32(w.runningCount())]. *)
Definition available (w : Worker) : Z := int32 (capacity w - int32 (runningCount w)).

(** One pass of the loop: the messages handed to [Send], and the result when
    [runOnce] returns. *)
Definition runOncePass (sel : selected) (w : Worker) : list attempt * option (option GoError) :=
  match sel with
  | CtxDone => ([], Some None)
  | RecvEnded err => ([], Some err)
  | HeartbeatTick s nowMs send =>
      ([(WorkerMessage.mk (id w) (Heartbeat nowMs (shuffle s (elements (running w)))), send)], sendOrReturn send)
  | RequestTick send =>
      if available w <=? 0 then ([], None)
      else ([(WorkerMessage.mk (id w) (TaskRequest (available w)), send)], sendOrReturn send)
  end.

(** ** [recvLoop] *)

Inductive received :=
  | RecvEOF
  | RecvErr (err : GoError)
  | RecvMsg (payload : option CoordinatorMessage).

(** One pass: an assignment spawns an execution, [NoTask] only sleeps. *)
Definition recvPass (r : received) (w : Worker) : Worker * option (option GoError) :=
  match r with
  | RecvEOF => (w, Some None)
  | RecvErr err => (w, Some (Some err))
  | RecvMsg (Some (TaskAssignmentMsg a)) => (set_executions (executions w ++ [(a, Spawned)]) w, None)
  | RecvMsg (Some (NoTask _)) => (w, None)
  | RecvMsg (Some (Ping _)) => (w, None)
  | RecvMsg None => (w, None)
  end.

(** ** [executeTask] *)

(** The [i]-th execution enters its task in [running]. *)
Definition executeStart (i : nat) (w : Worker) : Worker :=
  match executions w !! i with
  | Some (a, Spawned) =>
      set_executions (<[i := (a, Started)]> (executions w))
        (set_running ({[TaskAssignment.TaskId a]} ∪ running w) w)
  | _ => w
  end.

(** Its command has ended: the result is handed to [Send]. *)
Definition executeSend (i : nat) (o : commandOutcome) (send : option GoError) (w : Worker) : Worker * list attempt :=
  match executions w !! i with
  | Some (a, Started) =>
      (set_executions (<[i := (a, Sent)]> (executions w)) w,
       [(WorkerMessage.mk (id w) (TaskResultMsg (taskResult a o)), send)])
  | _ => (w, [])
  end.

(** The deferred [delete(w.running, assignment.TaskId)], and the goroutine ends. *)
Definition executeEnd (i : nat) (w : Worker) : Worker :=
  match executions w !! i with
  | Some (a, Sent) =>
      set_executions (delete i (executions w)) (set_running (running w ∖ {[TaskAssignment.TaskId a]}) w)
  | _ => w
  end.

(** ** Steps of the agent *)

Inductive agentEvent :=
  | ASelect (sel : selected)
  | ARecv (r : received)
  | AStart (i : nat)
  | ASend (i : nat) (o : commandOutcome) (send : option GoError)
  | AEnd (i : nat).

Definition agentStep (ev : agentEvent) (w : Worker) : Worker * list attempt :=
  match ev with
  | ASelect sel => (w, (runOncePass sel w).1)
  | ARecv r => ((recvPass r w).1, [])
  | AStart i => (executeStart i w, [])
  | ASend i o send => executeSend i o send w
  | AEnd i => (executeEnd i w, [])
  end.

Fixpoint agentRun (evs : list agentEvent) (w : Worker) : Worker * list attempt :=
  match evs with
  | [] => (w, [])
  | ev :: evs =>
      let '(w, out) := agentStep ev w in
      let '(w, out') := agentRun evs w in
      (w, out ++ out')
  end.

(** ** A session *)

(** What happens while [runOnce] has a stream open: its [select] takes a case, its
    [recvLoop] returns from [Recv], or another goroutine makes a step (an execution,
    or the [recvLoop] of an earlier stream). *)
Inductive sessionEvent :=
  | SSelect (sel : selected)
  | SRecv (r : received)
  | SOther (ev : agentEvent).

(** The case of [recvErrCh] is ready once [recvLoop] has returned, with its error. *)
Definition readyCase (sel : selected) (recvErrCh : option (option GoError)) : option selected :=
  match sel with RecvEnded _ => RecvEnded <$> recvErrCh | _ => Some sel end.

(** The loop of [runOnce] with the goroutines beside it: the messages handed to
    [Send], and the result when it returned. *)
Fixpoint sessionLoop (evs : list sessionEvent) (recvErrCh : option (option GoError)) (w : Worker)
  : Worker * list attempt * option (option GoError) :=
  match evs with
  | [] => (w, [], None)
  | SOther ev :: evs =>
      let '(w, out) := agentStep ev w in
      let '(w, out', res) := sessionLoop evs recvErrCh w in (w, out ++ out', res)
  | SRecv r :: evs =>
      match recvErrCh with
      | Some _ => sessionLoop evs recvErrCh w
      | None => let '(w, ended) := recvPass r w in sessionLoop evs ended w
      end
  | SSelect sel :: evs =>
      match readyCase sel recvErrCh with
      | None => sessionLoop evs recvErrCh w
      | Some sel =>
          match runOncePass sel w with
          | (out, Some res) => (w, out, Some res)
          | (out, None) => let '(w, out', res) := sessionLoop evs recvErrCh w in (w, out ++ out', res)
          end
      end
  end.

(** [runOnce]: the error of opening the stream, if any, and what happens then. *)
Definition runOnce (opened : option GoError) (evs : list sessionEvent) (w : Worker)
  : Worker * list attempt * option (option GoError) :=
  match opened with
  | Some err => (w, [], Some (Some err))
  | None => sessionLoop evs None w
  end.

(** ** [Run] *)

Definition maxBackoff : Z := 30 * Second.

(** One round of the loop: whether the context was cancelled before it, the session,
    whether the context was cancelled after it, and during the wait. *)
Record session := mkSession {
  cancelledBefore : bool;
  opened : option GoError;
  sessionEvents : list sessionEvent;
  cancelledAfter : bool;
  cancelledWaiting : bool
}.

(** The messages handed to [Send], the waits, and whether [Run] has returned (it is
    in a session or between two otherwise). *)
Fixpoint runLoop (backoff : Z) (sessions : list session) (w : Worker) : list attempt * list Z * bool :=
  match sessions with
  | [] => ([], [], false)
  | s :: sessions =>
      if cancelledBefore s then ([], [], true)
      else
        match runOnce (opened s) (sessionEvents s) w with
        | (_, out, None) => (out, [], false)
        | (w, out, Some (Some _)) =>
            if cancelledAfter s then (out, [], true)
            else if cancelledWaiting s then (out, [backoff], true)
            else
              let backoff' := if backoff <? maxBackoff then int64 (backoff * 2) else backoff in
              let '(out', waits, returned) := runLoop backoff' sessions w in
              (out ++ out', backoff :: waits, returned)
        | (_, out, Some None) => (out, [], true)
        end
  end.

Definition Run (sessions : list session) (w : Worker) : list attempt * list Z * bool := runLoop Second sessions w.
