(* ===== verification/AgentProps.v ===== *)
(** * What the worker agent guarantees

    The theorems about [cmd/worker/main.go]. *)

From S2P Require Import Prelude Proto Heartbeat Agent.

(** ** Executions and results *)

(** The assignments of the executions whose result is not sent yet, and of those
    that are entered in [running]. *)
Definition unsent (w : Worker) : list TaskAssignment := (filter (fun p => p.2 <> Sent) (executions w)).*1.
Definition active (w : Worker) : list TaskAssignment := (filter (fun p => p.2 <> Spawned) (executions w)).*1.

(** What the coordinator sent during a run, and the results sent back. *)
Definition assignmentOf (ev : agentEvent) : option TaskAssignment :=
  match ev with ARecv (RecvMsg (Some (TaskAssignmentMsg a))) => Some a | _ => None end.
Definition assignments (evs : list agentEvent) : list TaskAssignment := omap assignmentOf evs.

Definition resultOf (m : attempt) : option TaskResult.t :=
  match WorkerMessage.Payload m.1 with TaskResultMsg r => Some r | _ => None end.
Definition results (out : list attempt) : list TaskResult.t := omap resultOf out.

(** The task and the execution a message is about. *)
Definition akey (a : TaskAssignment) : string * string := (TaskAssignment.TaskId a, TaskAssignment.ExecutionId a).
Definition rkey (r : TaskResult.t) : string * string := (TaskResult.TaskId r, TaskResult.ExecutionId r).

Lemma rkey_taskResult a o : rkey (taskResult a o) = akey a.
Proof. unfold taskResult. by destruct (cmd_error o). Qed.

(** Replacing or removing an execution, seen through a filter. *)
Lemma filter_replace (P : TaskAssignment * phase -> Prop) `{forall x, Decision (P x)} l i a x y :
  l !! i = Some (a, x) -> P (a, y) -> filter P (<[i := (a, y)]> l) ≡ₚ (a, y) :: filter P (delete i l).
Proof. intros Hi Hy. rewrite (insert_Permutation _ _ _ _ Hi). by rewrite filter_cons_True. Qed.

Lemma filter_remove (P : TaskAssignment * phase -> Prop) `{forall x, Decision (P x)} l i p :
  l !! i = Some p -> filter P l ≡ₚ (if decide (P p) then [p] else []) ++ filter P (delete i l).
Proof. intros Hi. rewrite (delete_Permutation l i p Hi) at 1. rewrite filter_cons. by case_decide. Qed.

(** One step: what it takes in is in flight or reported afterwards. *)
Lemma step_accounts ev w :
  let '(w', out) := agentStep ev w in
  (akey <$> unsent w) ++ (akey <$> assignments [ev]) ≡ₚ (akey <$> unsent w') ++ (rkey <$> results out).
Proof.
  unfold unsent. destruct ev as [sel|r|i|i o send|i]; cbn [agentStep].
  - assert (results (runOncePass sel w).1 = []) as ->.
    { destruct sel as [|err|s t send|send]; simpl; [done..|]. by case_match. }
    by rewrite !app_nil_r.
  - destruct r as [|e|[[a|ms|ts]|]]; simpl; rewrite ?app_nil_r; try done.
    by rewrite filter_app, !fmap_app.
  - rewrite !app_nil_r. unfold executeStart. destruct (executions w !! i) as [[a []]|] eqn:E; try done. simpl.
    rewrite (filter_replace _ _ i a Spawned Started E) by done. by rewrite (filter_remove _ _ i _ E).
  - rewrite !app_nil_r. unfold executeSend. destruct (executions w !! i) as [[a []]|] eqn:E; simpl; rewrite ?app_nil_r; try done.
    rewrite rkey_taskResult, (insert_Permutation _ _ _ _ E), filter_cons_False by auto.
    rewrite (filter_remove _ _ i _ E). simpl. by rewrite Permutation_app_comm.
  - rewrite !app_nil_r. unfold executeEnd. destruct (executions w !! i) as [[a []]|] eqn:E; try done. simpl.
    rewrite (filter_remove _ _ i _ E). by rewrite decide_False by auto.
Qed.

Lemma run_accounts evs w :
  let '(w', out) := agentRun evs w in
  (akey <$> unsent w) ++ (akey <$> assignments evs) ≡ₚ (akey <$> unsent w') ++ (rkey <$> results out).
Proof.
  revert w. induction evs as [|ev evs IH]; intros w; [by simpl |]. cbn [agentRun].
  pose proof (step_accounts ev w) as Hs. destruct (agentStep ev w) as [w1 out1]. specialize (IH w1).
  destruct (agentRun evs w1) as [w2 out2]. unfold results. rewrite omap_app, fmap_app.
  assert (akey <$> assignments (ev :: evs) = (akey <$> assignments [ev]) ++ (akey <$> assignments evs)) as E.
  { unfold assignments. simpl. by destruct (assignmentOf ev). }
  rewrite E, app_assoc, Hs. rewrite <- app_assoc, (Permutation_app_comm _ (akey <$> assignments evs)), app_assoc, IH.
  rewrite <- !app_assoc. f_equiv. apply Permutation_app_comm.
Qed.

(** *** The tasks in [running] *)

Abbreviation ids l := (TaskAssignment.TaskId <$> l).

(** Every task in [running] belongs to an active execution. *)
Definition tracked (w : Worker) : Prop := forall k, k ∈ running w -> k ∈ ids (active w).

(** Exactly the active executions, when no task is executed twice at a time. *)
Definition exact (w : Worker) : Prop := running w = list_to_set (ids (active w)).

Lemma active_start w i a :
  executions w !! i = Some (a, Spawned) -> active (executeStart i w) ≡ₚ a :: active w.
Proof.
  intros E. unfold executeStart, active. rewrite E. simpl.
  rewrite (filter_replace _ _ i a Spawned Started E) by done. by rewrite (filter_remove _ _ i _ E).
Qed.

Lemma active_send w i o send : active (executeSend i o send w).1 ≡ₚ active w.
Proof.
  unfold executeSend, active. destruct (executions w !! i) as [[a []]|] eqn:E; try done. simpl.
  rewrite (filter_replace _ _ i a Started Sent E) by done. by rewrite (filter_remove _ _ i _ E).
Qed.

Lemma active_end w i a :
  executions w !! i = Some (a, Sent) -> active w ≡ₚ a :: active (executeEnd i w).
Proof. intros E. unfold executeEnd, active. rewrite E. simpl. by rewrite (filter_remove _ _ i _ E). Qed.

(** A step keeps the executions, adds an assignment or ends an execution. *)
Lemma step_ids ev w :
  exists rest, ids (executions w).*1 ++ ids (assignments [ev]) ≡ₚ ids (executions (agentStep ev w).1).*1 ++ rest.
Proof.
  destruct ev as [sel|r|i|i o send|i]; cbn [agentStep fst].
  - exists []. done.
  - exists []. destruct r as [|e|[[a|ms|ts]|]]; simpl; rewrite ?app_nil_r; try done. by rewrite !fmap_app.
  - exists []. rewrite !app_nil_r. unfold executeStart. destruct (executions w !! i) as [[a []]|] eqn:E; try done. simpl.
    rewrite (insert_Permutation _ _ _ _ E). by rewrite (delete_Permutation _ _ _ E) at 1.
  - exists []. rewrite !app_nil_r. unfold executeSend. destruct (executions w !! i) as [[a []]|] eqn:E; try done. simpl.
    rewrite (insert_Permutation _ _ _ _ E). by rewrite (delete_Permutation _ _ _ E) at 1.
  - unfold executeEnd. rewrite app_nil_r. destruct (executions w !! i) as [[a []]|] eqn:E; try (exists []; by rewrite app_nil_r).
    exists [TaskAssignment.TaskId a]. simpl. rewrite (delete_Permutation _ _ _ E) at 1. simpl. apply Permutation_cons_append.
Qed.

Lemma tracked_step ev w : tracked w -> tracked (agentStep ev w).1.
Proof.
  intros Ht. destruct ev as [sel|r|i|i o send|i]; cbn [agentStep fst]; [done| | | |].
  - destruct r as [|e|[[a|ms|ts]|]]; simpl; try done. intros k Hk%Ht. revert Hk. unfold active. simpl.
    rewrite filter_app, fmap_app, fmap_app, elem_of_app. auto.
  - destruct (executions w !! i) as [[a []]|] eqn:E; try (unfold executeStart; by rewrite E).
    intros k. rewrite (active_start w i a E). unfold executeStart. rewrite E. simpl.
    rewrite elem_of_union, elem_of_singleton, elem_of_cons. intros [?|?%Ht]; auto.
  - intros k. rewrite (active_send w i o send). intros Hk. apply Ht. revert Hk. unfold executeSend.
    by destruct (executions w !! i) as [[a []]|].
  - destruct (executions w !! i) as [[a []]|] eqn:E; try (unfold executeEnd; by rewrite E).
    intros k. unfold executeEnd at 1. rewrite E. simpl. rewrite elem_of_difference, elem_of_singleton. intros [Hk%Ht Hn].
    rewrite (active_end w i a E) in Hk. simpl in Hk. by apply elem_of_cons in Hk as [?|?].
Qed.

Lemma exact_step ev w :
  NoDup (ids (executions w).*1) -> exact w -> exact (agentStep ev w).1.
Proof.
  unfold exact. intros Hnd He. destruct ev as [sel|r|i|i o send|i]; cbn [agentStep fst]; [done| | | |].
  - destruct r as [|e|[[a|ms|ts]|]]; simpl; try done. rewrite He. unfold active. simpl.
    by rewrite filter_app, filter_cons_False, app_nil_r by auto.
  - destruct (executions w !! i) as [[a []]|] eqn:E; try (unfold executeStart; by rewrite E).
    apply set_eq. intros k. rewrite elem_of_list_to_set, (active_start w i a E). unfold executeStart. rewrite E. simpl.
    rewrite He. set_solver.
  - replace (running (executeSend i o send w).1) with (running w)
      by (unfold executeSend; by destruct (executions w !! i) as [[a []]|]).
    rewrite He. apply set_eq. intros k. by rewrite !elem_of_list_to_set, (active_send w i o send).
  - destruct (executions w !! i) as [[a []]|] eqn:E; try (unfold executeEnd; by rewrite E).
    assert (TaskAssignment.TaskId a ∉ ids (active (executeEnd i w))) as Hn.
    { rewrite (delete_Permutation _ _ _ E) in Hnd. simpl in Hnd. apply NoDup_cons in Hnd as [Hn _].
      contradict Hn. unfold active, executeEnd in Hn. rewrite E in Hn. simpl in Hn.
      apply list_elem_of_fmap in Hn as (x & -> & (p & -> & [_ Hp]%list_elem_of_filter)%list_elem_of_fmap).
      apply list_elem_of_fmap. exists p.1. split; [done |]. by apply list_elem_of_fmap_2. }
    apply set_eq. intros k. unfold executeEnd at 1. rewrite E. simpl. rewrite He.
    rewrite elem_of_difference, !elem_of_list_to_set, elem_of_singleton, (active_end w i a E). simpl.
    rewrite elem_of_cons. clear - Hn. naive_solver.
Qed.

Lemma run_exact evs w :
  NoDup (ids (executions w).*1 ++ ids (assignments evs)) -> exact w -> exact (agentRun evs w).1.
Proof.
  revert w. induction evs as [|ev evs IH]; intros w Hnd He; [done |]. cbn [agentRun].
  assert (ids (assignments (ev :: evs)) = ids (assignments [ev]) ++ ids (assignments evs)) as E.
  { unfold assignments. simpl. by destruct (assignmentOf ev). }
  rewrite E, app_assoc in Hnd. destruct (step_ids ev w) as [rest Hr]. rewrite Hr in Hnd.
  assert (exact (agentStep ev w).1) as He'.
  { apply exact_step; [|done]. apply NoDup_app in Hnd as (Hnd & _ & _). rewrite <- Hr in Hnd. by apply NoDup_app in Hnd as (? & _). }
  destruct (agentStep ev w) as [w1 out1]. specialize (IH w1). simpl in *.
  destruct (agentRun evs w1) as [w2 out2]. simpl in *. apply IH; [|done].
  rewrite <- app_assoc, (Permutation_app_comm rest), app_assoc in Hnd. by apply NoDup_app in Hnd as (? & _).
Qed.

Lemma run_tracked evs w : tracked w -> tracked (agentRun evs w).1.
Proof.
  revert w. induction evs as [|ev evs IH]; intros w Ht; [done |]. cbn [agentRun].
  apply (tracked_step ev) in Ht. destruct (agentStep ev w) as [w1 out1]. specialize (IH w1 Ht).
  by destruct (agentRun evs w1).
Qed.

(** *** Reconnecting *)

Definition backoffAt (i : nat) : Z := Z.min (2 ^ Z.of_nat i) 32 * Second.

Lemma backoff_next i :
  (if backoffAt i <? maxBackoff then int64 (backoffAt i * 2) else backoffAt i) = backoffAt (S i).
Proof.
  unfold backoffAt, maxBackoff, Second, Millisecond. rewrite Nat2Z.inj_succ, Z.pow_succ_r by lia.
  destruct (decide (i < 5)%nat) as [Hi|Hi].
  - do 5 (destruct i as [|i]; [vm_compute; reflexivity |]). lia.
  - assert (2 ^ 5 <= 2 ^ Z.of_nat i) by (apply Z.pow_le_mono_r; lia).
    rewrite (Z.min_r (2 ^ Z.of_nat i)), (Z.min_r (2 * 2 ^ Z.of_nat i)) by lia. done.
Qed.

(** *** The end of a session *)

(** Where an error of the session comes from. *)
Definition caused (evs : list sessionEvent) (out : list attempt) (err : GoError) : Prop :=
  SRecv (RecvErr err) ∈ evs \/ (err <> ErrEOF /\ exists m, (m, Some err) ∈ out).

Lemma caused_mono e evs out out' err : caused evs out err -> caused (e :: evs) (out' ++ out) err.
Proof.
  intros [?|(? & m & ?)]; [left; by right | right; split; [done |]; exists m; apply elem_of_app; by right].
Qed.

(** A pass that returns. *)
Lemma pass_returns sel w out res :
  runOncePass sel w = (out, Some res) ->
  match sel with
  | CtxDone => res = None
  | RecvEnded err => res = err
  | _ => exists err m, res = Some err /\ err <> ErrEOF /\ (m, Some err) ∈ out
  end.
Proof.
  assert (forall m (send : option GoError), ([(m, send)], sendOrReturn send) = (out, Some res) ->
    exists err m, res = Some err /\ err <> ErrEOF /\ (m, Some err) ∈ out) as Hsend.
  { intros m send [= <- Hs]. destruct send as [err|]; [|done]. exists err, m. unfold sendOrReturn in Hs.
    split_and!; [by destruct err; simplify_eq | by intros -> | left]. }
  destruct sel as [|err|s t send|send]; simpl; [by intros [= _ <-] | by intros [= _ <-] | apply Hsend |].
  case_match; [done | apply Hsend].
Qed.

Lemma session_result evs ch w w' out res :
  sessionLoop evs ch w = (w', out, Some res) ->
  match res with
  | None => SSelect CtxDone ∈ evs \/ SRecv RecvEOF ∈ evs \/ ch = Some None
  | Some err => caused evs out err \/ ch = Some (Some err)
  end.
Proof.
  revert ch w w' out. induction evs as [|[sel|r|ev] evs IH]; intros ch w w' out; cbn [sessionLoop]; [done | | |].
  - destruct (readyCase sel ch) as [sel'|] eqn:Er.
    + destruct (runOncePass sel' w) as [out1 [res1|]] eqn:Ep.
      * intros [= <- <- <-]. apply pass_returns in Ep. destruct sel; simpl in Er; simplify_eq.
        -- left. left.
        -- destruct ch as [e|]; simplify_eq/=. destruct e; auto.
        -- destruct Ep as (err & m & -> & ? & ?). left. right. eauto.
        -- destruct Ep as (err & m & -> & ? & ?). left. right. eauto.
      * destruct (sessionLoop evs ch w) as [[w2 out2] res2] eqn:E. intros [= <- <- ->]. apply IH in E.
        destruct res as [err|]; [|set_solver]. destruct E as [?|?]; [left; by apply caused_mono | auto].
    + intros E%IH. destruct res as [err|]; [|set_solver]. destruct E as [?|?]; [left; by apply (caused_mono _ _ _ []) | auto].
  - destruct ch as [e|]; [intros E%IH; destruct res; [destruct E as [?|?]; [left; by apply (caused_mono _ _ _ []) | auto] | set_solver] |].
    destruct (recvPass r w) as [w1 ended] eqn:Er. intros E%IH. destruct res as [err|].
    + destruct E as [?| ->]; [left; by apply (caused_mono _ _ _ []) |]. left. left.
      destruct r as [|e|[[]|]]; simpl in Er; simplify_eq. left.
    + destruct E as [?|[?| ->]]; [set_solver.. |]. right. left. destruct r as [|e|[[]|]]; simpl in Er; simplify_eq. left.
  - destruct (agentStep ev w) as [w1 out1]. destruct (sessionLoop evs ch w1) as [[w2 out2] res2] eqn:E. intros [= <- <- ->].
    apply IH in E. destruct res as [err|]; [|set_solver]. destruct E as [?|?]; [left; by apply caused_mono | auto].
Qed.

(** What makes the agent stop: its context is cancelled, or the coordinator ends a
    stream. *)
Definition stops (s : session) : Prop :=
  cancelledBefore s = true \/ cancelledAfter s = true \/ cancelledWaiting s = true \/
  SSelect CtxDone ∈ sessionEvents s \/ SRecv RecvEOF ∈ sessionEvents s.

Lemma runOnce_stops s w w' out :
  runOnce (opened s) (sessionEvents s) w = (w', out, Some None) -> stops s.
Proof.
  unfold runOnce. destruct (opened s); [done |]. intros [?|[?|?]]%session_result; unfold stops; [auto 6.. | done].
Qed.

(** A run of sessions that failed one after the other, none of them cancelled: what
    they handed to [Send], and the agent after them. *)
Inductive failedRounds : list session -> Worker -> list attempt -> Worker -> Prop :=
  | rounds_nil w : failedRounds [] w [] w
  | rounds_cons s l w out e w1 out' w2 :
      cancelledBefore s = false -> runOnce (opened s) (sessionEvents s) w = (w1, out, Some (Some e)) ->
      cancelledAfter s = false -> cancelledWaiting s = false ->
      failedRounds l w1 out' w2 -> failedRounds (s :: l) w (out ++ out') w2.

(** The first [n] waits, when [i] were done before. *)
Definition backoffs (i n : nat) : list Z := backoffAt <$> seq i n.

(** How the loop goes on with [rest] when the agent is [w], has sent [out] and has
    waited [n] times: it waits for a session to begin or to end, or a session ends it. *)
Definition goesOn (result : list attempt * list Z * bool) (rest : list session) (w : Worker) (out : list attempt) (i n : nat) : Prop :=
  match rest with
  | [] => result = (out, backoffs i n, false)
  | s :: _ =>
      if cancelledBefore s then result = (out, backoffs i n, true)
      else
        let '(_, out', res) := runOnce (opened s) (sessionEvents s) w in
        match res with
        | None => result = (out ++ out', backoffs i n, false)
        | Some None => stops s /\ result = (out ++ out', backoffs i n, true)
        | Some (Some _) =>
            if cancelledAfter s then result = (out ++ out', backoffs i n, true)
            else cancelledWaiting s = true /\ result = (out ++ out', backoffs i (S n), true)
        end
  end.

Lemma goesOn_cons rest w out out' i n out1 waits returned :
  goesOn (out1, waits, returned) rest w out (S i) n ->
  goesOn (out' ++ out1, backoffAt i :: waits, returned) rest w (out' ++ out) i (S n).
Proof.
  unfold goesOn, backoffs. destruct rest as [|s rest]; [intros [= -> -> ->]; done |].
  destruct (cancelledBefore s); [intros [= -> -> ->]; done |].
  destruct (runOnce _ _ w) as [[w2 out2] [[e|]|]]; rewrite <- app_assoc.
  - destruct (cancelledAfter s); [intros [= -> -> ->]; done |]. intros [? [= -> -> ->]]. done.
  - intros [? [= -> -> ->]]. done.
  - intros [= -> -> ->]. done.
Qed.

Lemma runLoop_rounds i sessions w :
  exists pre rest out w1, sessions = pre ++ rest /\ failedRounds pre w out w1 /\
    goesOn (runLoop (backoffAt i) sessions w) rest w1 out i (length pre).
Proof.
  revert i w. induction sessions as [|s sessions IH]; intros i w.
  { exists [], [], [], w. split_and!; [done | constructor | done]. }
  assert (goesOn (runLoop (backoffAt i) (s :: sessions) w) (s :: sessions) w [] i 0 ->
    exists pre rest out w1, s :: sessions = pre ++ rest /\ failedRounds pre w out w1 /\
      goesOn (runLoop (backoffAt i) (s :: sessions) w) rest w1 out i (length pre)) as Hlast.
  { intros Hg. exists [], (s :: sessions), [], w. split_and!; [done | constructor | exact Hg]. }
  cbn [runLoop goesOn] in *. destruct (cancelledBefore s) eqn:E1; [by apply Hlast |].
  destruct (runOnce _ _ w) as [[w' out] [[e|]|]] eqn:Eo; [|by apply Hlast; split; [eapply runOnce_stops |] | by apply Hlast].
  destruct (cancelledAfter s) eqn:E2; [by apply Hlast |]. destruct (cancelledWaiting s) eqn:E3; [by apply Hlast |]. clear Hlast.
  destruct (IH (S i) w') as (pre & rest & out' & w1 & -> & Hf & Hg).
  exists (s :: pre), rest, (out ++ out'), w1. split; [done |]. split; [by econstructor |].
  rewrite backoff_next. destruct (runLoop (backoffAt (S i)) (pre ++ rest) w') as [[out1 waits] returned]. by apply goesOn_cons.
Qed.

(** ** The theorems *)

(** C35. Results. The result of a command names the task and the execution that were
    assigned, is a success exactly when the command ended without an error, and
    carries the whole output up to 64 KB, else a prefix of it of 64 KB with a mark
    of 19 bytes. *)
Theorem result_bounded a o :
  let r := taskResult a o in
  let n := Z.of_nat (String.length (cmd_output o)) in
  rkey r = akey a /\ (TaskResult.Success r = true <-> cmd_error o = None) /\
  Z.of_nat (String.length (TaskResult.Output r)) <= maxOutputBytes + 19 /\
  (n <= maxOutputBytes -> TaskResult.Output r = cmd_output o) /\
  (maxOutputBytes < n -> exists p, TaskResult.Output r = String.append p truncated /\
     String.prefix p (cmd_output o) = true /\ Z.of_nat (String.length p) = maxOutputBytes).
Proof.
  cbv zeta. split; [apply rkey_taskResult |].
  assert (TaskResult.Output (taskResult a o) = truncateOutput (cmd_output o)) as ->
    by (unfold taskResult; by destruct (cmd_error o)).
  split; [unfold taskResult; by destruct (cmd_error o) |]. unfold truncateOutput.
  set (p := String.substring 0 (Z.to_nat maxOutputBytes) (cmd_output o)).
  assert (String.length p = Nat.min (Z.to_nat maxOutputBytes) (String.length (cmd_output o))) as Hp by apply length_slice.
  assert (String.prefix p (cmd_output o) = true) as Hpre by apply prefix_slice. clearbody p.
  assert (0 <= maxOutputBytes) by (unfold maxOutputBytes; lia).
  destruct (Z.ltb_spec maxOutputBytes (Z.of_nat (String.length (cmd_output o)))) as [Hlt|Hle].
  - split_and!; [|lia|]; [rewrite length_append, Hp; change (String.length truncated) with 19%nat; lia |].
    intros _. exists p. split_and!; [done | done | lia].
  - split_and!; [lia | done | lia].
Qed.

(** Sessions. A session ends with an error only when the stream could not be opened,
    [Recv] failed, or a [Send] failed otherwise than at the end of the stream; it ends
    without one only when the context is cancelled or the coordinator ends the stream. *)
Theorem session_end err evs w w' out res :
  runOnce err evs w = (w', out, Some res) ->
  match res with
  | None => SSelect CtxDone ∈ evs \/ SRecv RecvEOF ∈ evs
  | Some e => err = Some e \/ SRecv (RecvErr e) ∈ evs \/ (e <> ErrEOF /\ exists m, (m, Some e) ∈ out)
  end.
Proof.
  unfold runOnce. destruct err as [e|]; [intros [= _ _ <-]; by left |].
  intros Hr%session_result. destruct res as [e|]; [right; by destruct Hr |]. destruct Hr as [?|[?|?]]; auto. done.
Qed.

(** C36. Reconnecting. Whatever happens in its sessions, the agent goes on past every
    session that fails without a cancellation: it waits once after each of them, for
    1, 2, 4, 8, 16 and 32 seconds and 32 seconds from then on, and begins the next
    session with what the failed ones have sent kept. What the loop does with the first
    round that is not such a failure is exact: it is waiting for it or in it, or it
    returns, which takes a cancellation or a stream that the coordinator ended. *)
Theorem reconnects sessions w :
  exists pre rest out w1, sessions = pre ++ rest /\ failedRounds pre w out w1 /\
    goesOn (Run sessions w) rest w1 out 0 (length pre) /\
    (forall i, (i < length pre)%nat -> backoffs 0 (length pre) !! i = Some (Z.min (2 ^ Z.of_nat i) 32 * Second)).
Proof.
  destruct (runLoop_rounds 0 sessions w) as (pre & rest & out & w1 & E & Hf & Hg). exists pre, rest, out, w1.
  split_and!; [done | done | exact Hg |]. intros i Hi. unfold backoffs. rewrite list_lookup_fmap, lookup_seq_lt by done. done.
Qed.

(** Requests. On a tick the agent asks for work exactly when it counts fewer
    running tasks than its capacity, and asks for the difference, which is between
    one and its capacity. *)
Theorem request_capacity send w :
  0 <= capacity w < 2 ^ 31 -> runningCount w < 2 ^ 31 ->
  if decide (runningCount w < capacity w)
  then exists n, (runOncePass (RequestTick send) w).1 = [(WorkerMessage.mk (id w) (TaskRequest n), send)] /\
         n = capacity w - runningCount w /\ 1 <= n <= capacity w
  else runOncePass (RequestTick send) w = ([], None).
Proof.
  intros Hc Hr. assert (0 <= runningCount w) by (unfold runningCount; lia).
  assert (available w = capacity w - runningCount w) as Ha.
  { unfold available. rewrite (int32_id (runningCount w)), int32_id by (unfold is_int32; lia). done. }
  unfold runOncePass. rewrite Ha. case_decide as Hd.
  - rewrite (proj2 (Z.leb_gt _ _)) by lia. eexists. split; [done |]. lia.
  - by rewrite (proj2 (Z.leb_le _ _)) by lia.
Qed.

(** C34. No assignment is lost or reported twice by the agent. After any run of a new
    agent, the assignments it received are, one for one, the executions whose result
    is not sent yet and the results handed to the stream. *)
Theorem assignments_accounted i n evs :
  let '(w, out) := agentRun evs (NewWorker i n) in
  akey <$> assignments evs ≡ₚ (akey <$> unsent w) ++ (rkey <$> results out).
Proof. pose proof (run_accounts evs (NewWorker i n)) as Hr. by destruct (agentRun evs (NewWorker i n)). Qed.

(** The tasks counted as running. Every task in [running] has an execution that
    has started and not ended; when no task is assigned twice during the run,
    [running] is exactly the set of those tasks. *)
Theorem running_tracked i n evs :
  let w := (agentRun evs (NewWorker i n)).1 in
  (forall k, k ∈ running w -> k ∈ ids (active w)) /\
  (NoDup (ids (assignments evs)) -> running w = list_to_set (ids (active w))).
Proof.
  split.
  - by apply run_tracked.
  - intros Hnd. by apply run_exact.
Qed.

(** ** Witnesses *)

Lemma request_capacity_witness :
  exists n, (runOncePass (RequestTick None) (NewWorker "w" 4)).1 = [(WorkerMessage.mk "w" (TaskRequest n), None)] /\
    n = 4 /\ 1 <= n <= 4.
Proof.
  pose proof (request_capacity None (NewWorker "w" 4)) as Hr. apply Hr; [simpl; lia | vm_compute; reflexivity].
Defined.

Lemma running_tracked_witness :
  let a := TaskAssignment.mk "a" "e1" "true" ∅ 0 in
  let b := TaskAssignment.mk "b" "e2" "true" ∅ 0 in
  let evs := [ARecv (RecvMsg (Some (TaskAssignmentMsg a))); ARecv (RecvMsg (Some (TaskAssignmentMsg b))); AStart 0; AStart 1] in
  running (agentRun evs (NewWorker "w" 1)).1 = {["a"%string; "b"%string]}.
Proof.
  intros a b evs. destruct (running_tracked "w" 1 evs) as [_ Hr]. rewrite Hr; [reflexivity |].
  apply (bool_decide_eq_true_1 (NoDup _)). vm_compute. reflexivity.
Defined.

(** The capacity is not a bound on the running tasks: the agent asks again before
    the answers to its earlier requests arrive, and runs what it is sent. *)
Example capacity_exceeded :
  let a := TaskAssignment.mk "a" "e1" "true" ∅ 0 in
  let b := TaskAssignment.mk "b" "e2" "true" ∅ 0 in
  let evs := [ASelect (RequestTick None); ASelect (RequestTick None);
              ARecv (RecvMsg (Some (TaskAssignmentMsg a))); ARecv (RecvMsg (Some (TaskAssignmentMsg b))); AStart 0; AStart 1] in
  let '(w, out) := agentRun evs (NewWorker "w" 1) in
  length out = 2%nat /\ runningCount w = 2 /\ capacity w = 1.
Proof. vm_compute. done. Qed.

(** The agent stops for good when the coordinator ends a stream without an error: no
    later session is opened. *)
Example stops_at_eof later w :
  Run (mkSession false None [SRecv RecvEOF; SSelect (RecvEnded None)] false false :: later) w = ([], [], true).
Proof. reflexivity. Qed.

(** It reconnects after an error. *)
Example reconnects_after_error w :
  let failed := mkSession false None [SRecv (RecvErr ErrKeyRequired); SSelect (RecvEnded None)] false false in
  Run [failed; failed; failed] w = ([], [Second; 2 * Second; 4 * Second], false).
Proof. vm_compute. done. Qed.

Lemma session_end_witness :
  SRecv (RecvErr ErrKeyRequired) ∈ [SRecv (RecvErr ErrKeyRequired); SSelect (RecvEnded None)].
Proof.
  destruct (session_end None [SRecv (RecvErr ErrKeyRequired); SSelect (RecvEnded None)] (NewWorker "w" 1) (NewWorker "w" 1) []
    (Some ErrKeyRequired)) as [Hn|[Hr|(_ & m & Hm)]]; [reflexivity | done | exact Hr |]. by apply elem_of_nil in Hm.
Defined.
