(* ===== verification/Cluster.v ===== *)
(** * The cluster

    The coordinator, the worker agents and the streams between them, composed: what
    an agent hands to [Send] travels, in order, to the coordinator, and what
    [StreamHandler] sends travels back. Streams break, agents die, the coordinator
    is killed and started again; the messages of a broken stream are lost. *)

From S2P Require Import Prelude Proto Codec Env RecordDB Store StoreRefinement StoreSpec Dag Heartbeat.
From S2P Require Import Coordinator CoordinatorRefinement Invariant CoordinatorInv Dashboard Service System.
From S2P Require Import Completions Frame Submitted Agent AgentProps.

(** A stream: its agent, and the messages under way in each direction. *)
Record Link := mkLink {
  peer : nat;
  toCoordinator : list WorkerMessage.t;
  toAgent : list CoordinatorMessage
}.

(** The processes and the streams, with what happened so far: the workflows that
    were submitted, and the commands that were run to their end. *)
Record Cluster (D : Type) := mkCluster {
  process : Process D;
  agents : gmap nat Worker;
  links : gmap nat Link;
  submissions : list WorkflowSpec;
  runs : list (TaskAssignment * commandOutcome)
}.
Arguments mkCluster {D}.
Arguments process {D}.
Arguments agents {D}.
Arguments links {D}.
Arguments submissions {D}.
Arguments runs {D}.

Inductive clusterEvent :=
  | AtCoordinator (ev : event)
  | StartAgent (a : nat) (id : string) (capacity : Z)
  | StopAgent (a : nat)
  | OpenStream (i a : nat)
  | AtAgent (a i : nat) (ev : agentEvent)
  | ToCoordinator (i : nat) (answered : bool)
  | ToAgent (i : nat)
  | BreakStream (i : nat).

(** The events of the coordinator that are not about streams. *)
Definition own_event (ev : event) : bool :=
  match ev with EvOpen _ | EvMessage _ _ | EvClose _ => false | _ => true end.

(** An agent receives messages only from its streams. *)
Definition own_step (ev : agentEvent) : bool :=
  match ev with ARecv (RecvMsg _) => false | _ => true end.

(** The messages that [Send] accepted. *)
Definition accepted (out : list attempt) : list WorkerMessage.t :=
  omap (fun m => match m.2 with None => Some m.1 | Some _ => None end) out.

(** The command that ends in a step of an agent. *)
Definition ended (ev : agentEvent) (w : Worker) : list (TaskAssignment * commandOutcome) :=
  match ev with
  | ASend i o _ => match executions w !! i with Some (a, Started) => [(a, o)] | _ => [] end
  | _ => []
  end.

Definition submitted_by (ev : event) : list WorkflowSpec :=
  match ev with EvSubmit w => [w] | _ => [] end.

Section Cluster.
Context `{Env} {D : Type} `{RecordDB D} (scanInterval deadThreshold : Z).

Abbreviation exec := (exec scanInterval deadThreshold).

(** What the coordinator sends in answer to a message on stream [i]. *)
Definition answer (i : nat) (m : WorkerMessage.t) (p : Process D) : option CoordinatorMessage :=
  match p with
  | Up c ss =>
      match ss !! i with
      | Some workerID => match onMessage workerID m c with Done _ r => r.2 | Crashed _ => None end
      | None => None
      end
  | Down _ _ _ => None
  end.

Definition at_process (f : Process D -> Process D) (x : Cluster D) : Cluster D :=
  mkCluster (f (process x)) (agents x) (links x) (submissions x) (runs x).
Definition at_links (f : gmap nat Link -> gmap nat Link) (x : Cluster D) : Cluster D :=
  mkCluster (process x) (agents x) (f (links x)) (submissions x) (runs x).
Definition at_agents (f : gmap nat Worker -> gmap nat Worker) (x : Cluster D) : Cluster D :=
  mkCluster (process x) (f (agents x)) (links x) (submissions x) (runs x).

(** The messages [ms] of agent [a] enter stream [i], if it is the agent's. *)
Definition transmit (i a : nat) (ms : list WorkerMessage.t) (ls : gmap nat Link) : gmap nat Link :=
  match ls !! i with
  | Some l => if (peer l =? a)%nat then <[i := mkLink a (toCoordinator l ++ ms) (toAgent l)]> ls else ls
  | None => ls
  end.

(** The first message of stream [i] reaches the coordinator, whose answer is sent
    or, when [Send] fails, ends the stream. *)
Definition receive (i : nat) (answered : bool) (x : Cluster D) : Cluster D :=
  match links x !! i with
  | Some (mkLink a (m :: ms) back) =>
      let x' := at_process (exec (EvMessage i m)) x in
      match answer i m (process x), answered with
      | Some r, true => at_links (insert i (mkLink a ms (back ++ [r]))) x'
      | Some r, false => at_links (insert i (mkLink a ms back)) (at_process (exec (EvClose i)) x')
      | None, _ => at_links (insert i (mkLink a ms back)) x'
      end
  | _ => x
  end.

(** The first message of stream [i] reaches its agent. *)
Definition deliver (i : nat) (x : Cluster D) : Cluster D :=
  match links x !! i with
  | Some (mkLink a ms (r :: back)) =>
      let x' := at_links (insert i (mkLink a ms back)) x in
      match agents x !! a with
      | Some w => at_agents (insert a (agentStep (ARecv (RecvMsg (Some r))) w).1) x'
      | None => x'
      end
  | _ => x
  end.

Definition clusterExec (e : clusterEvent) (x : Cluster D) : Cluster D :=
  match e with
  | AtCoordinator ev =>
      if own_event ev
      then mkCluster (exec ev (process x)) (agents x) (links x) (submissions x ++ submitted_by ev) (runs x)
      else x
  | StartAgent a id capacity => at_agents (insert a (NewWorker id capacity)) x
  | StopAgent a => at_agents (delete a) x
  | OpenStream i a =>
      match process x, links x !! i with
      | Up _ _, None => at_links (insert i (mkLink a [] [])) (at_process (exec (EvOpen i)) x)
      | _, _ => x
      end
  | AtAgent a i ev =>
      match agents x !! a with
      | Some w =>
          if own_step ev
          then
            let '(w', out) := agentStep ev w in
            mkCluster (process x) (<[a := w']> (agents x)) (transmit i a (accepted out) (links x))
              (submissions x) (runs x ++ ended ev w)
          else x
      | None => x
      end
  | ToCoordinator i answered => receive i answered x
  | ToAgent i => deliver i x
  | BreakStream i => at_links (delete i) (at_process (exec (EvClose i)) x)
  end.

End Cluster.

(** ** Steps of an agent *)

(** An execution was there before, or is of the assignment that came in. *)
Lemma step_executions ev w a ph :
  (a, ph) ∈ executions (agentStep ev w).1 -> assignmentOf ev = Some a \/ exists ph', (a, ph') ∈ executions w.
Proof.
  assert (forall (l : list (TaskAssignment * phase)) (i : nat) b p q, l !! i = Some (b, p) -> (a, ph) ∈ <[i := (b, q)]> l -> exists ph', (a, ph') ∈ l) as Hins.
  { intros l i b p q Hi. rewrite (insert_Permutation _ _ _ _ Hi), elem_of_cons. setoid_rewrite (delete_Permutation l i _ Hi) at 2.
    intros [[= -> _]|Hin]; [exists p; by left | exists ph; by right]. }
  destruct ev as [sel|r|i|i o send|i]; cbn [agentStep fst]; [by eauto | | | |].
  - destruct r as [|e|[[b|ms|ts]|]]; simpl; [by eauto.. | | by eauto | by eauto | by eauto].
    rewrite elem_of_app, list_elem_of_singleton. intros [?|[= -> _]]; [by eauto | by left].
  - unfold executeStart. destruct (executions w !! i) as [[b []]|] eqn:E; simpl; eauto.
  - unfold executeSend. destruct (executions w !! i) as [[b []]|] eqn:E; simpl; eauto.
  - unfold executeEnd. destruct (executions w !! i) as [[b []]|] eqn:E; simpl; [by eauto.. | | by eauto].
    intros Hin. right. exists ph. rewrite (delete_Permutation _ _ _ E). by right.
Qed.

(** A result is that of the command that ends in the step. *)
Lemma step_results ev w m r :
  m ∈ accepted (agentStep ev w).2 -> WorkerMessage.Payload m = TaskResultMsg r ->
  exists a o, (a, o) ∈ ended ev w /\ r = taskResult a o.
Proof.
  unfold accepted. intros ([m' send] & Hin & Hm)%list_elem_of_omap Hp. simpl in Hm. destruct send; [done |]. injection Hm as ->.
  destruct ev as [sel|rc|i|i o send|i]; cbn [agentStep snd] in Hin; [|set_solver|set_solver| |set_solver].
  - destruct sel as [|err|s t send|send]; simpl in Hin; [set_solver.. | |].
    + apply list_elem_of_singleton in Hin as [= -> _]. done.
    + case_match; [set_solver |]. simpl in Hin. apply list_elem_of_singleton in Hin as [= -> _]. done.
  - revert Hin. unfold executeSend. simpl. destruct (executions w !! i) as [[b []]|] eqn:E; simpl; [set_solver | | set_solver..].
    intros [= -> _]%list_elem_of_singleton. simpl in Hp. injection Hp as <-. exists b, o. split; [by left | done].
Qed.

Lemma ended_executions ev w a o : (a, o) ∈ ended ev w -> (a, Started) ∈ executions w.
Proof.
  destruct ev as [| | |i o' send|]; simpl; [set_solver.. | | set_solver].
  destruct (executions w !! i) as [[b []]|] eqn:E; [set_solver | | set_solver..].
  intros [= -> _]%list_elem_of_singleton. by eapply list_elem_of_lookup_2.
Qed.

(** ** Answers of the coordinator *)

(** An assignment is of a task that waits for nothing, with its cached specification. *)
Definition assigns (c c' : CA) (a : TaskAssignment) : Prop :=
  unblocked_task (tasks c') (TaskAssignment.TaskId a) /\
  exists t, taskSpecCache (mem c) !! TaskAssignment.TaskId a = Some t /\
    TaskAssignment.Command a = TS.Command t /\ TaskAssignment.Env a = TS.Env t /\
    TaskAssignment.TimeoutSeconds a = TS.TimeoutSeconds t.

Section Answers.
Context `{Env} `{Protobuf}.

Lemma onMessage_assigns w m (c : CA) :
  cinv c -> wp (onMessage w m) c (fun r c' => forall a, r.2 = Some (TaskAssignmentMsg a) -> assigns c c' a) (fun _ => True).
Proof.
  intros Hc. unfold onMessage. cbv zeta. apply wp_bind.
  destruct (WorkerMessage.Payload m) as [n | ts l | res |]; unfold handlePayload; apply wp_bind || apply wp_ret.
  - unfold handleTaskRequest. apply wp_bind.
    eapply wp_mono; [apply (GetReadyTask_spec _ c c (good_refl _ Hc)) | | done].
    intros [a|] c' [[[Hdb _] _] Ho]; repeat first [apply wp_ret | apply wp_bind]; simpl; [|done].
    intros a' [= <-]. destruct (Ho a eq_refl) as (q & t & r & _ & _ & Ht & -> & _ & _ & Hr & Hs & _). split.
    + split; [by exists r |]. apply (ti_started _ (di_tasks _ Hdb) _ r); [done | by rewrite Hs].
    + exists t. done.
  - apply wp_any; [|done]. intros; by apply wp_ret, wp_ret.
  - apply wp_any; [|done]. intros; by apply wp_ret, wp_ret.
  - by apply wp_ret.
Qed.

End Answers.

(** ** Reachable clusters *)

Section Reachable.
Context `{Env} {D : Type} `{RecordDBLaws D} (scanInterval deadThreshold : Z).

Abbreviation clusterExec := (clusterExec scanInterval deadThreshold).

Definition callowed (e : clusterEvent) (x : Cluster D) : Prop :=
  match e with AtCoordinator ev => allowed ev (process x) | _ => True end.

(** It starts with a new database, and no agent. *)
Inductive creachable : Cluster D -> Prop :=
  | creach_new st u o : new_store st -> creachable (mkCluster (Down st u o) ∅ ∅ [] [])
  | creach_step x e : creachable x -> callowed e x -> creachable (clusterExec e x).

(** ** The invariant *)

Abbreviation ctasks x := (AbsDB.tasks (adb (process x))).
Abbreviation submitted x := (fun w => w ∈ submissions x).

(** An assignment of a task whose dependencies are COMPLETE, with what its task was
    submitted with. *)
Definition authorised (x : Cluster D) (a : TaskAssignment) : Prop :=
  unblocked_task (ctasks x) (TaskAssignment.TaskId a) /\
  exists t, described (submitted x) (TaskAssignment.TaskId a) t /\
    TaskAssignment.Command a = TS.Command t /\ TaskAssignment.Env a = TS.Env t /\
    TaskAssignment.TimeoutSeconds a = TS.TimeoutSeconds t.

(** A result that reports a command that was run. *)
Definition reported (x : Cluster D) (r : TaskResult.t) : Prop :=
  exists a o, (a, o) ∈ runs x /\ r = taskResult a o.

Definition explained (x : Cluster D) (k : string) (r : TaskStateRecord) : Prop :=
  exists res, reported x res /\ made_by res k r.

Definition link_ok (x : Cluster D) (l : Link) : Prop :=
  (forall a, TaskAssignmentMsg a ∈ toAgent l -> authorised x a) /\
  (forall m r, m ∈ toCoordinator l -> WorkerMessage.Payload m = TaskResultMsg r -> reported x r).

Definition agent_ok (x : Cluster D) (w : Worker) : Prop := forall a ph, (a, ph) ∈ executions w -> authorised x a.

Record cluster_inv (x : Cluster D) : Prop := {
  ci_reachable : reachable scanInterval deadThreshold (process x);
  ci_known : holds_of (known (submitted x)) scanInterval deadThreshold (proc_abs (process x));
  ci_links : map_Forall (fun _ => link_ok x) (links x);
  ci_agents : map_Forall (fun _ => agent_ok x) (agents x);
  ci_runs a o : (a, o) ∈ runs x -> authorised x a;
  ci_finals k r : ctasks x !! k = Some r -> final r -> explained x k r
}.

(** *** It grows *)

Record extends (x x' : Cluster D) : Prop := {
  ext_tasks : advances (ctasks x) (ctasks x');
  ext_submissions w : w ∈ submissions x -> w ∈ submissions x';
  ext_runs p : p ∈ runs x -> p ∈ runs x'
}.

Lemma authorised_extends x x' a : extends x x' -> authorised x a -> authorised x' a.
Proof.
  intros [Ht Hs _] [Hu (t & (w & Hw & Hin) & Ha)]. split; [by eapply unblocked_advances |].
  exists t. split; [|done]. exists w. auto.
Qed.

Lemma reported_extends x x' r : extends x x' -> reported x r -> reported x' r.
Proof. intros [_ _ Hr] (a & o & Hin & ->). exists a, o. auto. Qed.

Lemma link_ok_extends x x' l : extends x x' -> link_ok x l -> link_ok x' l.
Proof. intros He [Ha Hm]. split; [intros a Hin; eapply authorised_extends | intros m r Hin Hp; eapply reported_extends]; eauto. Qed.

Lemma agent_ok_extends x x' w : extends x x' -> agent_ok x w -> agent_ok x' w.
Proof. intros He Hw a ph Hin. eapply authorised_extends; eauto. Qed.

Lemma links_extend x x' (ls : gmap nat Link) :
  extends x x' -> map_Forall (fun _ => link_ok x) ls -> map_Forall (fun _ => link_ok x') ls.
Proof. intros He Hl. eapply map_Forall_impl; [done |]. intros i l. by apply link_ok_extends. Qed.

Lemma agents_extend x x' (ws : gmap nat Worker) :
  extends x x' -> map_Forall (fun _ => agent_ok x) ws -> map_Forall (fun _ => agent_ok x') ws.
Proof. intros He Hw. eapply map_Forall_impl; [done |]. intros a w. by apply agent_ok_extends. Qed.

(** *** Steps of the coordinator *)

Definition with_process (p : Process D) (subs : list WorkflowSpec) (x : Cluster D) : Cluster D :=
  mkCluster p (agents x) (links x) (submissions x ++ subs) (runs x).

Lemma process_step ev subs x :
  cluster_inv x -> allowed ev (process x) -> (forall w, ev = EvSubmit w -> w ∈ subs) ->
  (forall k r, event_brings ev k r -> explained x k r) ->
  let x' := with_process (exec scanInterval deadThreshold ev (process x)) subs x in
  cluster_inv x' /\ extends x x'.
Proof.
  intros [Hr Hk Hl Ha Hru Hf] Hal Hs Hb x'. destruct (reachable_inv _ _ _ Hr) as [Hok Hinv].
  destruct (step_inv scanInterval deadThreshold ev _ Hok Hinv Hal) as (Hok' & Hinv' & Hadv).
  assert (extends x x') as He by (split; [done | intros w Hw; simpl; apply elem_of_app; by left | done]).
  split; [|done]. split.
  - by constructor.
  - simpl. destruct (exec_abs scanInterval deadThreshold ev (process x) Hok) as [_ <-]. apply exec_known.
    + intros w Hw. apply elem_of_app. right. by apply Hs.
    + revert Hk. clear. unfold holds_of. destruct (proc_abs (process x)); intros [Hst Hc]; (split; [intros; apply elem_of_app; left; eauto |]);
      intros k t (w & Hw & ?)%Hc; (exists w; split; [apply elem_of_app; by left | done]).
  - by apply (links_extend x).
  - by apply (agents_extend x).
  - intros a o Hin. apply (authorised_extends x); [done | by eapply Hru].
  - intros k r Hrr Hfin. destruct (step_finals scanInterval deadThreshold ev (process x) Hok k r Hrr Hfin) as [?|?].
    + destruct (Hf k r) as (res & ? & ?); [done.. |]. exists res. split; [by eapply reported_extends | done].
    + destruct (Hb k r) as (res & ? & ?); [done.. |]. exists res. split; [by eapply reported_extends | done].
Qed.

(** The answer to a message, in the state it leaves. *)
Lemma answer_authorised i m a x :
  cluster_inv x -> answer i m (process x) = Some (TaskAssignmentMsg a) ->
  authorised (with_process (exec scanInterval deadThreshold (EvMessage i m) (process x)) [] x) a.
Proof.
  intros [Hr Hk _ _ _ _] Ha. destruct (reachable_inv _ _ _ Hr) as [Hok Hinv]. destruct x as [p ws ls subs rs]. simpl in *.
  destruct p as [c ss|]; [|done]. simpl in *. destruct (ss !! i) as [wid|]; [|done].
  destruct (onMessage wid m c) as [c' [v r]|c'] eqn:E; [|done]. simpl in Ha. subst r.
  destruct (refines_done _ _ _ _ _ (csim_onMessage wid m) Hok E) as [_ E'].
  pose proof (onMessage_assigns wid m _ Hinv) as Hw. unfold wp in Hw. rewrite E' in Hw.
  destruct (Hw a eq_refl) as [Hu (t & Ht & Hrest)]. unfold authorised, with_process, serve. simpl. rewrite E, app_nil_r. split; [done |].
  exists t. split; [|done]. by apply (known_cached _ _ Hk).
Qed.

(** *** Steps outside the coordinator *)

(** Links and agents change, and commands end, while the coordinator does nothing. *)
Lemma outside_step x ws ls es :
  cluster_inv x ->
  let x' := mkCluster (process x) ws ls (submissions x) (runs x ++ es) in
  (extends x x' -> map_Forall (fun _ => link_ok x') ls) -> (extends x x' -> map_Forall (fun _ => agent_ok x') ws) ->
  (forall a o, (a, o) ∈ es -> authorised x a) -> cluster_inv x'.
Proof.
  intros [Hr Hk Hl Ha Hru Hf] x' Hls Hws Hes.
  assert (extends x x') as He by (split; simpl; [done | done | intros p Hp; apply elem_of_app; by left]).
  split; [done | done | by apply Hls | by apply Hws | |].
  - intros a o [Hin|Hin]%elem_of_app; apply (authorised_extends x); eauto.
  - intros k r Hrr Hfin. destruct (Hf k r Hrr Hfin) as (res & ? & ?). exists res. split; [by eapply reported_extends | done].
Qed.

Lemma links_step x ls : cluster_inv x -> map_Forall (fun _ => link_ok x) ls -> cluster_inv (at_links (fun _ => ls) x).
Proof.
  intros Hx Hls. pose proof (outside_step x (agents x) ls [] Hx) as Ho. cbv zeta in Ho. rewrite app_nil_r in Ho.
  apply Ho; [intros He; by apply (links_extend x) | intros He; apply (agents_extend x); [done | apply Hx] | set_solver].
Qed.

Lemma agents_step x ws : cluster_inv x -> map_Forall (fun _ => agent_ok x) ws -> cluster_inv (at_agents (fun _ => ws) x).
Proof.
  intros Hx Hws. pose proof (outside_step x ws (links x) [] Hx) as Ho. cbv zeta in Ho. rewrite app_nil_r in Ho.
  apply Ho; [intros He; apply (links_extend x); [done | apply Hx] | intros He; by apply (agents_extend x) | set_solver].
Qed.

(** A step of an agent. *)
Lemma agent_ok_step x ev w :
  agent_ok x w -> (forall a, assignmentOf ev = Some a -> authorised x a) -> agent_ok x (agentStep ev w).1.
Proof. intros Hw Ha a ph [Hin|[ph' Hin]]%step_executions; eauto. Qed.

Lemma transmit_ok x i a ms ls :
  map_Forall (fun _ => link_ok x) ls ->
  (forall m r, m ∈ ms -> WorkerMessage.Payload m = TaskResultMsg r -> reported x r) ->
  map_Forall (fun _ => link_ok x) (transmit i a ms ls).
Proof.
  intros Hl Hm. unfold transmit. destruct (ls !! i) as [l|] eqn:E; [|done]. destruct (_ =? _)%nat; [|done].
  apply map_Forall_insert_2; [|done]. destruct (Hl i l E) as [Ha Hr]. split; [done |]. simpl.
  intros m r [Hin|Hin]%elem_of_app; eauto.
Qed.

Lemma agent_step x a i ev w :
  cluster_inv x -> agents x !! a = Some w -> own_step ev = true ->
  cluster_inv (mkCluster (process x) (<[a := (agentStep ev w).1]> (agents x))
    (transmit i a (accepted (agentStep ev w).2) (links x)) (submissions x) (runs x ++ ended ev w)).
Proof.
  intros Hx Hw Hev. pose proof (ci_agents _ Hx a w Hw) as Hwo. apply outside_step; [done | | |].
  - intros He. apply transmit_ok; [apply (links_extend x); [done | apply Hx] |]. intros m r Hin Hp.
    destruct (step_results ev w m r Hin Hp) as (b & o & Hbo & ->). exists b, o. split; [|done]. apply elem_of_app. by right.
  - intros He. apply map_Forall_insert_2; [|apply (agents_extend x); [done | apply Hx]].
    apply agent_ok_step; [by apply (agent_ok_extends x) |]. by destruct ev as [|[| |]| | |].
  - intros b o Hin%ended_executions. by apply (Hwo b Started).
Qed.

Lemma close_step x i : cluster_inv x -> cluster_inv (at_process (exec scanInterval deadThreshold (EvClose i)) x).
Proof.
  intros Hx. destruct (process_step (EvClose i) [] x Hx) as [Hx' _]; [done.. |].
  unfold with_process in Hx'. by rewrite app_nil_r in Hx'.
Qed.

Lemma receive_step x i answered : cluster_inv x -> cluster_inv (receive scanInterval deadThreshold i answered x).
Proof.
  intros Hx. unfold receive. destruct (links x !! i) as [[a [|m ms] back]|] eqn:E; try done. cbv zeta.
  destruct (ci_links _ Hx i _ E) as [Hta Hre]. simpl in Hta, Hre.
  destruct (process_step (EvMessage i m) [] x Hx) as [Hx' He]; [done | done | |].
  { unfold event_brings, brings. intros k r. destruct (WorkerMessage.Payload m) as [| |res|] eqn:Ep; [done.. | | done].
    intros Hm. exists res. split; [apply (Hre m); [left | done] | done]. }
  pose proof (fun b => answer_authorised i m b x Hx) as Han. unfold with_process in *. rewrite app_nil_r in *.
  set (x' := at_process (exec scanInterval deadThreshold (EvMessage i m)) x) in *.
  change (mkCluster (exec _ _ _ _) _ _ _ _) with x' in Hx', He, Han.
  assert (link_ok x' (mkLink a ms back)) as Hl.
  { apply (link_ok_extends x); [done |]. split; [done |]. simpl. intros m' r Hin. apply Hre. by right. }
  assert (forall l, link_ok x' l -> map_Forall (fun _ => link_ok x') (<[i := l]> (links x'))) as Hins.
  { intros l Hl'. apply map_Forall_insert_2; [done | apply Hx']. }
  destruct (answer i m (process x)) as [r|]; [destruct answered |].
  - apply (links_step x'); [done |]. apply Hins. destruct Hl as [Hl1 Hl2]. split; [|done]. simpl.
    intros b [Hin|<-%list_elem_of_singleton]%elem_of_app; [by apply Hl1 | by apply Han].
  - exact (close_step _ i (links_step x' (<[i := _]> (links x')) Hx' (Hins _ Hl))).
  - apply (links_step x'); [done | by apply Hins].
Qed.

Lemma deliver_step x i : cluster_inv x -> cluster_inv (deliver i x).
Proof.
  intros Hx. unfold deliver. destruct (links x !! i) as [[a ms [|r back]]|] eqn:E; try done. cbv zeta.
  destruct (ci_links _ Hx i _ E) as [Hta Hre]. simpl in Hta, Hre.
  set (x' := at_links (insert i (mkLink a ms back)) x).
  assert (cluster_inv x') as Hx'.
  { apply (links_step x); [done |]. apply map_Forall_insert_2; [|apply Hx]. split; [|done]. intros b Hin. apply Hta. by right. }
  destruct (agents x !! a) as [w|] eqn:Ew; [|done]. apply (agents_step x' (<[a := _]> (agents x'))); [done |].
  apply map_Forall_insert_2; [|apply Hx']. apply agent_ok_step; [by apply (ci_agents _ Hx' a) |].
  intros b. destruct r as [b'|ms'|ts]; simpl; intros [= <-]. apply (authorised_extends x); [done |]. apply Hta. left.
Qed.

Lemma cluster_step e x : cluster_inv x -> callowed e x -> cluster_inv (clusterExec e x).
Proof.
  intros Hx Hal. destruct e as [ev|a id cap|a|i a|a i ev|i answered|i|i]; cbn [Cluster.clusterExec].
  - destruct (own_event ev) eqn:E; [|done]. apply (process_step ev (submitted_by ev) x Hx); [done | by intros w ->; left |].
    by destruct ev.
  - apply (agents_step x (<[a := _]> (agents x))); [done |]. apply map_Forall_insert_2; [|apply Hx]. intros b ph. simpl. set_solver.
  - apply (agents_step x (delete a (agents x))); [done |]. by apply map_Forall_delete, Hx.
  - destruct (process x) eqn:Ep; [|done]. destruct (links x !! i) eqn:El; [done |].
    destruct (process_step (EvOpen i) [] x Hx) as [Hx' _]; [done.. |]. unfold with_process in Hx'. rewrite app_nil_r in Hx'.
    apply (links_step _ (<[i := mkLink a [] []]> (links x)) Hx'). apply map_Forall_insert_2; [|apply Hx'].
    split; simpl; set_solver.
  - destruct (agents x !! a) as [w|] eqn:E; [|done]. destruct (own_step ev) eqn:Eo; [|done].
    pose proof (agent_step x a i ev w Hx E Eo). by destruct (agentStep ev w).
  - by apply receive_step.
  - by apply deliver_step.
  - apply (close_step _ i) in Hx. apply (links_step _ (delete i (links x)) Hx). apply map_Forall_delete. apply Hx.
Qed.

Lemma creachable_inv x : creachable x -> cluster_inv x.
Proof.
  induction 1 as [st u o [Hok Hnew] | x e _ IH Hal]; [|by apply cluster_step].
  split; simpl; [by constructor | | apply map_Forall_empty | apply map_Forall_empty | set_solver |].
  - unfold st_abs. split; simpl; [rewrite Hnew; simpl; intros ? ?; by rewrite lookup_empty | intros ? ?; by rewrite lookup_empty].
  - unfold adb. simpl. rewrite Hnew. simpl. intros k r. by rewrite lookup_empty.
Qed.

End Reachable.
