(* ===== verification/ClusterProps.v ===== *)
(** * What the cluster guarantees

    The theorems about the coordinator, the agents and their streams together, from
    a new database and through any interleaving of messages, lost streams, dead
    agents and restarts of the coordinator. The coordinator runs its handlers one at a
    time, its store keeps [RecordDBLaws], and clients do not reuse task ids. *)

From S2P Require Import Prelude Proto Codec Env RecordDB Store StoreRefinement StoreSpec Dag Heartbeat.
From S2P Require Import Coordinator CoordinatorRefinement Invariant CoordinatorInv Dashboard Service System.
From S2P Require Import Completions Frame Submitted Sample SystemProps Agent AgentProps Cluster.

Section Props.
Context `{Env} {D : Type} `{RecordDBLaws D} (scan dead : Z).

Abbreviation ctasks x := (AbsDB.tasks (adb (process x))).

(** C4. No command runs early. When the coordinator runs its handlers one at a time and
    submissions use unused task ids: while an agent holds an execution of a task, received,
    running or reported, every dependency of the task is COMPLETE in the database
    of the coordinator, whatever happened to the coordinator, the stream and the
    other agents since the task was assigned. *)
Theorem cluster_safety x n w a ph r t y :
  creachable scan dead x -> agents x !! n = Some w -> (a, ph) ∈ executions w ->
  ctasks x !! TaskAssignment.TaskId a = Some r -> TS.TaskId t = TaskAssignment.TaskId a ->
  stored_dependency (adb (process x)) (TR.WorkflowID r) t y ->
  exists ry, ctasks x !! y = Some ry /\ TR.State ry = TASK_COMPLETE.
Proof.
  intros Hx%creachable_inv Hw Hin Hr Ht (spec & Hs & Hts & Hy).
  destruct (ci_agents _ _ _ Hx n w Hw a ph Hin) as [[_ Hb] _].
  eapply (unblocked_dependencies (adb (process x))); [|done|done|done|by rewrite Ht|done|by rewrite Ht].
  by eapply reachable_dbinv, ci_reachable.
Qed.

(** C21. Agents run what was submitted. The command, the environment and the timeout of
    an execution are those of a task of that id in a submitted workflow, and the
    task has a record. *)
Theorem commands_submitted x n w a ph :
  creachable scan dead x -> agents x !! n = Some w -> (a, ph) ∈ executions w ->
  is_Some (ctasks x !! TaskAssignment.TaskId a) /\
  exists wf t, wf ∈ submissions x /\ t ∈ WF.Tasks wf /\ TS.TaskId t = TaskAssignment.TaskId a /\
    TaskAssignment.Command a = TS.Command t /\ TaskAssignment.Env a = TS.Env t /\
    taskTimeout a = (if 0 <? TS.TimeoutSeconds t then Some (int64 (TS.TimeoutSeconds t * Second)) else None).
Proof.
  intros Hx%creachable_inv Hw Hin. destruct (ci_agents _ _ _ Hx n w Hw a ph Hin) as [[Hs _] (t & (wf & Hwf & Ht & Hid) & Hc & He & Hto)].
  split; [done |]. exists wf, t. unfold taskTimeout. by rewrite Hto.
Qed.

(** C3. Where results come from. A record is COMPLETE only if an agent ran a command
    for that task under the recorded execution id, the command ended without error
    and the record has its output, up to the limit; it is FAILED only if a command
    for that task ended in an error, and the record has its message. The command
    was the one submitted for the task. *)
Theorem completion_provenance x k r :
  creachable scan dead x -> ctasks x !! k = Some r -> TR.State r = TASK_COMPLETE \/ TR.State r = TASK_FAILED ->
  exists a o, (a, o) ∈ runs x /\ TaskAssignment.TaskId a = k /\
    (exists wf t, wf ∈ submissions x /\ t ∈ WF.Tasks wf /\ TS.TaskId t = k /\ TaskAssignment.Command a = TS.Command t) /\
    if TR.State r =? TASK_COMPLETE
    then cmd_error o = None /\ TR.ExecutionID r = TaskAssignment.ExecutionId a /\ TR.Output r = truncateOutput (cmd_output o)
    else exists err, cmd_error o = Some err /\ TR.Error r = errorMessage a o err.
Proof.
  intros Hx%creachable_inv Hr Hf. destruct (ci_finals _ _ _ Hx k r Hr Hf) as (res & (a & o & Hin & ->) & Hk & Hm).
  destruct (ci_runs _ _ _ Hx a o Hin) as [_ (t & (wf & Hwf & Ht & Hid) & Hc & _)].
  exists a, o. unfold taskResult in *. destruct (cmd_error o) as [err|]; simpl in *; subst k.
  - destruct Hm as [-> He]. split_and!; [done | done | by exists wf, t |]. by exists err.
  - destruct Hm as (-> & He & Ho). split_and!; [done | done | by exists wf, t |]. done.
Qed.

End Props.

(** ** A run *)

Abbreviation sample_cluster := (clusterExec (D := GDB) (5 * Second) (15 * Second)).
Definition cluster_run (es : list clusterEvent) : Cluster GDB :=
  foldl (fun x e => sample_cluster e x) (mkCluster (Down emptyStore 0 0) ∅ ∅ [] []) es.

#[export] Instance callowed_dec e (x : Cluster GDB) : Decision (callowed e x).
Proof. destruct e; simpl; apply _. Defined.

Fixpoint all_callowed (es : list clusterEvent) (x : Cluster GDB) : bool :=
  match es with
  | [] => true
  | e :: es => bool_decide (callowed e x) && all_callowed es (sample_cluster e x)
  end.

Lemma cluster_reachable es :
  all_callowed es (mkCluster (Down emptyStore 0 0) ∅ ∅ [] []) = true -> creachable (5 * Second) (15 * Second) (cluster_run es).
Proof.
  unfold cluster_run. set (x0 := mkCluster _ _ _ _ _). assert (creachable (5 * Second) (15 * Second) x0) as Hx by (constructor; apply sample_new).
  clearbody x0. revert x0 Hx. induction es as [|e es IH]; intros x Hx Ha; simpl in *; [done |].
  apply andb_true_iff in Ha as [Ha1%bool_decide_eq_true Ha2]. apply IH; [by constructor | done].
Qed.

(** An agent connects, gets task [a] and runs it; the coordinator is killed and
    started again before the result is on its way, and refuses it: the execution
    was superseded. On a new stream the agent gets both tasks in turn. *)
Definition ok_outcome : commandOutcome := mkOutcome "hello" None false 3.
Definition fetch (i : nat) : list clusterEvent := [AtAgent 0 i (ASelect (RequestTick None)); ToCoordinator i true; ToAgent i].
Definition carry_out (i : nat) : list clusterEvent :=
  [AtAgent 0 i (AStart 0); AtAgent 0 i (ASend 0 ok_outcome None); AtAgent 0 i (AEnd 0); ToCoordinator i true].

Definition until_b : list clusterEvent :=
  [AtCoordinator EvBoot; AtCoordinator (EvSubmit workflow1); StartAgent 0 "worker-1" 4; OpenStream 0 0] ++ fetch 0 ++
  [AtCoordinator EvKill; AtCoordinator EvBoot] ++ carry_out 0 ++ [BreakStream 0; OpenStream 1 0] ++
  fetch 1 ++ carry_out 1 ++ fetch 1 ++ [AtAgent 0 1 (AStart 0)].
Definition until_end : list clusterEvent := until_b ++
  [AtAgent 0 1 (ASend 0 (mkOutcome "bad" (Some "exit status 1"%string) false 3) None); ToCoordinator 1 true].

(** What the run shows: a command can be run more than once, under different
    execution ids, and only the execution that is recorded completes the task. *)
Example superseded_run :
  let x := cluster_run until_b in
  (TaskAssignment.ExecutionId <$> (runs x).*1) = ["uuid-0"; "uuid-2"]%string /\
  (TR.ExecutionID <$> AbsDB.tasks (adb (process x)) !! "a"%string) = Some "uuid-2"%string.
Proof. vm_compute. done. Qed.

(** ** Witnesses *)

Definition agent0 (x : Cluster GDB) : Worker := default (NewWorker EmptyString 0) (agents x !! 0%nat).
Definition assigned_b_to_0 : TaskAssignment := TaskAssignment.mk "b" "uuid-3" "echo b" ∅ 0.

Lemma cluster_safety_witness :
  exists ry, AbsDB.tasks (adb (process (cluster_run until_b))) !! "a"%string = Some ry /\ TR.State ry = TASK_COMPLETE.
Proof.
  eapply (cluster_safety (5 * Second) (15 * Second) (cluster_run until_b) 0 (agent0 (cluster_run until_b)) assigned_b_to_0 Started _ taskB).
  - apply cluster_reachable. vm_refl.
  - vm_refl.
  - apply (list_elem_of_lookup_2 _ 0). vm_refl.
  - vm_refl.
  - reflexivity.
  - exists workflow1. split; [vm_refl |]. split; [right; left | left].
Defined.

Lemma commands_submitted_witness :
  exists wf t, wf ∈ submissions (cluster_run until_b) /\ t ∈ WF.Tasks wf /\ TS.TaskId t = "b"%string /\
    TS.Command t = "echo b"%string.
Proof.
  destruct (commands_submitted (5 * Second) (15 * Second) (cluster_run until_b) 0 (agent0 (cluster_run until_b)) assigned_b_to_0 Started)
    as [_ (wf & t & ? & ? & ? & ? & _)]; [apply cluster_reachable; vm_refl | vm_refl | apply (list_elem_of_lookup_2 _ 0); vm_refl |].
  exists wf, t. auto.
Defined.

Definition record_at (x : Cluster GDB) (k : string) : TaskStateRecord :=
  default (TR.mk EmptyString EmptyString 0 EmptyString 0 0 EmptyString EmptyString 0 []) (AbsDB.tasks (adb (process x)) !! k).

Lemma completion_provenance_witness :
  (exists a o, (a, o) ∈ runs (cluster_run until_end) /\ TaskAssignment.TaskId a = "a"%string /\ cmd_error o = None /\
    TR.ExecutionID (record_at (cluster_run until_end) "a") = TaskAssignment.ExecutionId a) /\
  (exists a o err, (a, o) ∈ runs (cluster_run until_end) /\ TaskAssignment.TaskId a = "b"%string /\ cmd_error o = Some err).
Proof.
  assert (creachable (5 * Second) (15 * Second) (cluster_run until_end)) as Hx by (apply cluster_reachable; vm_refl).
  assert (TR.State (record_at (cluster_run until_end) "a") = TASK_COMPLETE /\
          TR.State (record_at (cluster_run until_end) "b") = TASK_FAILED) as [Ea Eb] by (split; vm_refl).
  split.
  - destruct (completion_provenance (5 * Second) (15 * Second) (cluster_run until_end) "a" (record_at (cluster_run until_end) "a") Hx)
      as (a & o & Hin & Hk & _ & Hc); [vm_refl | by left |].
    rewrite Ea in Hc. destruct Hc as (Ho & He & _). exists a, o. auto.
  - destruct (completion_provenance (5 * Second) (15 * Second) (cluster_run until_end) "b" (record_at (cluster_run until_end) "b") Hx)
      as (a & o & Hin & Hk & _ & Hc); [vm_refl | by right |].
    rewrite Eb in Hc. destruct Hc as (err & He & _). exists a, o, err. auto.
Defined.
