(* ===== verification/ProgressProps.v ===== *)
(** * Completion

    The theorem of [Progress] over every database that implements the store, and a
    run of it. *)

From S2P Require Import Prelude Proto Codec Env RecordDB Store StoreRefinement StoreSpec NoFault Dag DagProps Heartbeat Coordinator.
From S2P Require Import CoordinatorRefinement Invariant CoordinatorInv Submission Dashboard Service System Room Progress Sample.

Section ProgressProps.
Context `{Env} {D : Type} `{RecordDBLaws D} (scan dead : Z).
Context `{!NoFaults}.

Abbreviation run := (foldl (fun p ev => exec scan dead ev p)).

(** A run over bbolt is a run over maps of records. *)
Lemma run_abs evs p :
  proc_ok p -> foldl (fun p ev => exec (D := AbsDB) scan dead ev p) (proc_abs p) evs = proc_abs (run p evs).
Proof.
  revert p. induction evs as [|ev evs IH]; intros p Hp; [done |]. destruct (exec_abs scan dead ev p Hp) as [Hp' E].
  simpl. rewrite E. by apply IH.
Qed.

(** A submission that returns no error was valid. *)
Lemma submission_valid w (c c' : Coordinator D) :
  SubmitWorkflow w c = Done c' None -> exists order d, ValidateAndSort order w = Some (inr d).
Proof.
  unfold SubmitWorkflow, nextOrders, getm, modm, gets, modify. unfold bind at 1 2 3, ret at 1 2.
  destruct (ValidateAndSort _ w) as [[e|d]|] eqn:Ev; [by unfold ret | eauto | by unfold panic].
Qed.

(** C9. Completion. After the submission of a workflow with a task to an idle
    coordinator is accepted, one connected worker completes it when no transaction
    ever fails or is killed and bbolt has room for the records: at most two messages per task, requests
    and successes, lead to a state in which every task is COMPLETE with the output
    the worker reported and the workflow is COMPLETE. *)
Theorem workflow_completes w m out c ss c' i wid :
  reachable scan dead (Up c ss) -> fresh_ids (AbsDB.tasks (adb (Up c ss))) w -> at_rest w (coord_abs c) ->
  SubmitWorkflow w c = Done c' None -> WF.Tasks w <> [] -> 0 < len (WF.WorkflowId w) <= MaxKeySize ->
  ss !! i = Some wid -> roomy m (AbsDB.tasks (adb (Up c' ss))) ->
  (forall j k, (uuids (mem c') <= j < uuids (mem c') + length (WF.Tasks w))%nat -> len (uuid j) + len (out k) <= m) ->
  exists evs c2 ss2, run (Up c' ss) evs = Up c2 ss2 /\ Forall (succeeding out i wid) evs /\
    (length evs <= 2 * length (WF.Tasks w))%nat /\ all_complete w out (adb (Up c2 ss2)).
Proof.
  intros Hr Hf Hrest E Hne Hk Hi HT Hm. destruct (submission_valid w c c' E) as (order & d & Hv).
  destruct (reachable_inv _ _ _ Hr) as [Hok Hinv].
  destruct (refines_done _ _ c c' None (csim_SubmitWorkflow w) Hok E) as [Hok' E'].
  destruct (wp_done _ _ _ _ _ _ (SubmitWorkflow_spec w _ _ (good_refl _ Hinv) Hf) E') as [[Hinv' _] Hac].
  destruct (accepted_completes w m out scan dead i wid order d (coord_abs c) (coord_abs c') ss Hinv Hinv' Hf Hrest (Hac eq_refl) Hne Hv Hk Hi HT Hm)
    as (evs & c2 & ss2 & Erun & Hevs & Hlen & Hall).
  pose proof (run_abs evs (Up c' ss) Hok') as Er. simpl proc_abs at 1 in Er. rewrite Erun in Er.
  destruct (run (Up c' ss) evs) as [c3 ss3|] eqn:E3; [|done]. simpl in Er. injection Er as -> ->.
  exists evs, c3, ss3. done.
Qed.

End ProgressProps.

(** ** A run *)

#[export] Instance fits_dec m r : Decision (fits m r).
Proof. unfold fits. apply _. Defined.

Lemma roomy_dec m T : bool_decide (map_Forall (fun k r => TR.TaskID r = k /\ fits m r) T) = true -> roomy m T.
Proof. by intros Hall%bool_decide_eq_true. Qed.

(** A worker has connected and asked for work; nothing is submitted. *)
Definition waiting : list event := [EvBoot; EvOpen 0; said (TaskRequest 4)].
Definition waiting_c : Coordinator GDB := coord_of (sample_run waiting).
Definition waiting_ss : gmap nat string := streams_of (sample_run waiting).
Definition given_c : Coordinator GDB := after (SubmitWorkflow workflow1) waiting_c.

Lemma workflow_completes_witness :
  exists evs c2 ss2, foldl (fun p ev => sample_exec ev p) (Up given_c waiting_ss) evs = Up c2 ss2 /\
    Forall (succeeding (fun _ => "out"%string) 0 "worker-1") evs /\ (length evs <= 4)%nat /\
    all_complete workflow1 (fun _ => "out"%string) (adb (Up c2 ss2)).
Proof.
  apply (workflow_completes (5 * Second) (15 * Second) workflow1 4096 (fun _ => "out"%string) waiting_c waiting_ss given_c 0 "worker-1").
  - apply sample_up. vm_refl.
  - apply (bool_decide_eq_true_1 (fresh_ids _ _)). vm_refl.
  - split; [vm_refl |]. refine (bool_decide_eq_true_1 _ _). vm_refl.
  - refine (none_after (SubmitWorkflow workflow1) waiting_c _). vm_refl.
  - done.
  - done.
  - vm_refl.
  - apply roomy_dec. vm_refl.
  - assert (uuids (mem given_c) = 0%nat) as -> by vm_refl. intros [|[|j]] k Hj; [done | done | simpl in Hj; lia].
Defined.
