(* ===== verification/Main.v ===== *)
(** * The processes

    The [main] functions of cmd/coordinator and cmd/worker: what has to succeed before
    a process serves, the order of recovery, background loops and services, and the
    shutdown after a signal. Opening the database file, listening and dialling are
    library calls whose outcome is an input; what gRPC's [GracefulStop] still serves
    and when it returns are parameters. *)

From S2P Require Import Prelude Proto Codec Env RecordDB Store StoreRefinement StoreSpec Heartbeat Coordinator.
From S2P Require Import CoordinatorRefinement Dashboard Service System Agent.

(** ** The coordinator *)

Module Flags.
Record t := mk { port : Z; metricsPort : Z; dbPath : string; scanInterval : Z; deadThreshold : Z }.
End Flags.

(** The flags when none is given. *)
Definition defaultFlags : Flags.t := Flags.mk 50051 9090 "/tmp/scheduler.db" (5 * Second) (15 * Second).

(** The process serves; it has got a signal and waits in [GracefulStop]; it has ended
    with an exit code and left its database, when it could open it; it was killed. *)
Inductive MainState (D : Type) :=
  | Serving (c : Coordinator D) (streams : gmap nat string)
  | Stopping (c : Coordinator D) (streams : gmap nat string)
  | Exited (code : Z) (remains : option (Process D))
  | Died (remains : Process D).
Arguments Serving {D}. Arguments Stopping {D}. Arguments Exited {D}. Arguments Died {D}.

(** A signal, or an event of the process. *)
Inductive mainEvent := Signal | Happens (ev : event).

(** The two loops [Start] starts and [Stop] ends, by cancelling their context. *)
Definition background (ev : event) : bool := match ev with EvTick | EvWatchdog => true | _ => false end.

(** The gRPC server once [GracefulStop] is called: which events of the process it
    still lets happen, and whether the call has returned while the given worker
    streams are open. Both are the library's. *)
Class GracefulServer := {
  gs_serves : event -> bool;
  gs_returned : gmap nat string -> bool
}.

(** What can happen between [coord.Stop] and the end of [main]: the loops of the
    coordinator have ended, and the server decides about the rest. *)
Definition afterStop `{GracefulServer} (ev : event) : bool := negb (background ev) && gs_serves ev.

Section Main.
Context `{Env} {D : Type} `{RecordDB D} `{GracefulServer}.

(** [main] up to the services. [logger.Fatal] exits with 1, after recovery when it is
    the listener that fails. *)
Definition mainStart (f : Flags.t) (opened : option (St D)) (u o : nat) (listening : bool) : MainState D :=
  match opened with
  | None => Exited 1 None
  | Some st =>
      match exec (Flags.scanInterval f) (Flags.deadThreshold f) EvBoot (Down st u o) with
      | Up c streams => if listening then Serving c streams else Exited 1 (Some (kill c))
      | p => Died p
      end
  end.

(** [main] waits in [GracefulStop] until it returns, and then returns itself. *)
Definition stopping (p : Process D) : MainState D :=
  match p with
  | Up c streams => if gs_returned streams then Exited 0 (Some (kill c)) else Stopping c streams
  | p => Died p
  end.

Definition mainStep (f : Flags.t) (x : MainState D) (ev : mainEvent) : MainState D :=
  match x, ev with
  | Serving c streams, Happens ev =>
      match exec (Flags.scanInterval f) (Flags.deadThreshold f) ev (Up c streams) with
      | Up c streams => Serving c streams
      | p => Died p
      end
  | Serving c streams, Signal => stopping (Up c streams)
  | Stopping c streams, Happens ev =>
      if afterStop ev then stopping (exec (Flags.scanInterval f) (Flags.deadThreshold f) ev (Up c streams)) else x
  | Stopping _ _, Signal => x
  | _, _ => x
  end.

Definition mainRun (f : Flags.t) (x : MainState D) (evs : list mainEvent) : MainState D := foldl (mainStep f) x evs.

(** The process of a state. *)
Definition process_of (x : MainState D) : option (Process D) :=
  match x with
  | Serving c streams | Stopping c streams => Some (Up c streams)
  | Exited _ remains => remains
  | Died p => Some p
  end.

End Main.

(** ** Runs of [main] are runs of the system *)

Section Runs.
Context `{Env} {D : Type} `{RecordDBLaws D} `{GracefulServer} (f : Flags.t).
Abbreviation reachable := (reachable (D := D) (Flags.scanInterval f) (Flags.deadThreshold f)).

Definition sound_main (x : MainState D) : Prop := forall p, process_of x = Some p -> reachable p.

Lemma kill_reachable c ss : reachable (Up c ss) -> reachable (kill c).
Proof. intros Hr. exact (reach_step _ _ (Up c ss) EvKill Hr I). Qed.

Lemma start_sound st u o listening : reachable (Down st u o) -> sound_main (mainStart f (Some st) u o listening).
Proof.
  intros Hr. pose proof (reach_step _ _ (Down st u o) EvBoot Hr I) as Hb. unfold sound_main, mainStart.
  destruct (exec _ _ EvBoot (Down st u o)) as [c ss|st' u' o'] eqn:E; [destruct listening |]; intros p [= <-]; [done | | done].
  by eapply kill_reachable.
Qed.

Lemma stopping_sound p : reachable p -> sound_main (stopping p).
Proof.
  intros Hr p'. destruct p as [c ss|]; simpl; [|by intros [= <-]]. destruct (gs_returned _); intros [= <-]; [by eapply kill_reachable | done].
Qed.

(** Every state of [main] is one of the system, as long as clients keep their promise. *)
Lemma step_sound x ev :
  sound_main x -> (forall e p, ev = Happens e -> process_of x = Some p -> allowed e p) -> sound_main (mainStep f x ev).
Proof.
  intros Hx Ha. destruct x as [c ss|c ss|code r|p], ev as [|ev]; cbn [mainStep]; try done.
  - by apply stopping_sound, Hx.
  - assert (reachable (exec (Flags.scanInterval f) (Flags.deadThreshold f) ev (Up c ss))) as Hr.
    { constructor; [by apply Hx | by apply (Ha ev)]. }
    destruct (exec _ _ ev (Up c ss)); by intros p [= <-].
  - destruct (afterStop ev); [|done]. apply stopping_sound. constructor; [by apply Hx | by apply (Ha ev)].
Qed.

(** Whatever the server does during the shutdown, the database that [main] leaves is
    one the system can leave. *)
Lemma run_sound st u o listening evs :
  reachable (Down st u o) ->
  (forall pre e post p, evs = pre ++ Happens e :: post ->
     process_of (mainRun f (mainStart f (Some st) u o listening) pre) = Some p -> allowed e p) ->
  sound_main (mainRun f (mainStart f (Some st) u o listening) evs).
Proof.
  intros Hr. induction evs as [|ev evs IH] using rev_ind; intros Ha; [by apply start_sound |].
  unfold mainRun in *. rewrite foldl_app. simpl. apply step_sound.
  - apply IH. intros pre e post p -> Hp. apply (Ha pre e (post ++ [ev]) p); [by rewrite <- app_assoc | done].
  - intros e p -> Hp. by apply (Ha evs e [] p).
Qed.

End Runs.

(** ** The agent *)

(** [fmt.Sprintf] of [worker-%s] with the first eight characters of a UUID. *)
Definition workerID (uuid : string) : string := String.append "worker-" (String.substring 0 8 uuid).

(** [main] of the agent: the capacity is converted to 32 bits. *)
Definition mainWorker (capacity : Z) (uuid : string) (dialled : bool) : option Worker :=
  if dialled then Some (NewWorker (workerID uuid) (int32 capacity)) else None.
