(* ===== verification/Page.v ===== *)
(** * The page of the dashboard

    The script of [dashboardHTML] (cmd/coordinator/dashboard.go): how a browser turns
    the answers of the dashboard into the page. The variables of the script and the
    parts of the document it writes are the fields of [Page]; its functions and event
    handlers are functions on them. A text is the sequence of its bytes in UTF-8; a
    number is an integer, with the arithmetic of the script on it done in IEEE double
    precision ([SpecFloat]). The text of the local time and date is an input. *)

From Stdlib Require Import Ascii.
From Stdlib Require Import Floats.SpecFloat.
From stdpp Require Import pretty.
From S2P Require Import Prelude Proto Codec Env RecordDB Store Heartbeat Dashboard.
Open Scope string_scope.
Open Scope list_scope.
Open Scope Z_scope.

(** ** Text *)

Definition dquote : ascii := ascii_of_nat 34.
Definition dash : string := "—".

(** A literal of the script. The page is a raw string of Go, which has no backquote;
    here a backquote stands for a double quote. *)
Fixpoint lit (s : string) : string :=
  match s with
  | EmptyString => EmptyString
  | String c s => String (if Ascii.eqb c "`" then dquote else c) (lit s)
  end.

(** [s.replace(/c/g, by)]. *)
Fixpoint replaceAll (c : ascii) (by_ s : string) : string :=
  match s with
  | EmptyString => EmptyString
  | String d s => (if Ascii.eqb d c then by_ else String d EmptyString) +:+ replaceAll c by_ s
  end.

Definition esc (s : string) : string :=
  replaceAll dquote "&quot;" (replaceAll ">" "&gt;" (replaceAll "<" "&lt;" (replaceAll "&" "&amp;" s))).

(** [s.includes(sub)]. *)
Fixpoint includes (s sub : string) : bool :=
  String.prefix sub s || match s with EmptyString => false | String _ s => includes s sub end.

(** [s.replace(sub, '')]: the first occurrence. *)
Fixpoint skip (n : nat) (s : string) : string :=
  match n, s with
  | S n, String _ s => skip n s
  | _, _ => s
  end.

Fixpoint removeFirst (s sub : string) : string :=
  if String.prefix sub s then skip (String.length sub) s
  else match s with EmptyString => EmptyString | String c s => String c (removeFirst s sub) end.

(** [toLowerCase] on the texts it is called with, names in ASCII. *)
Definition lowerASCII (c : ascii) : ascii :=
  let n := nat_of_ascii c in if ((65 <=? n) && (n <=? 90))%nat then ascii_of_nat (n + 32) else c.

Fixpoint toLowerCase (s : string) : string :=
  match s with
  | EmptyString => EmptyString
  | String c s => String (lowerASCII c) (toLowerCase s)
  end.

(** [l.join(sep)]. *)
Fixpoint join (sep : string) (l : list string) : string :=
  match l with
  | [] => EmptyString
  | [x] => x
  | x :: l => x +:+ sep +:+ join sep l
  end.

(** ** Numbers *)

Definition float (z : Z) : spec_float := binary_normalize 53 1024 z 0 false.
Definition divide (a b : Z) : spec_float := SFdiv 53 1024 (float a) (float b).
Definition percent (x : spec_float) : spec_float := SFmul 53 1024 x (float 100).

(** [Math.floor(n * x)] of a finite [x], exactly; the script has no other here. *)
Definition floorTimes (n : Z) (x : spec_float) : Z :=
  match x with
  | S754_finite s m e =>
      let v := n * (if s then Zneg m else Zpos m) in
      if 0 <=? e then v * 2 ^ e else v / 2 ^ (- e)
  | _ => 0
  end.

Definition mathFloor (x : spec_float) : Z := floorTimes 1 x.

(** [Math.round(x)]: the nearest integer, the greater one of two. *)
Definition mathRound (x : spec_float) : Z := (floorTimes 2 x + 1) / 2.

Definition fmtDuration (ms : Z) : string :=
  if ms <=? 0 then dash
  else
    let s := mathFloor (divide ms 1000) in
    let m := mathFloor (divide s 60) in
    let h := mathFloor (divide m 60) in
    if 0 <? h then pretty h +:+ "h " +:+ pretty (m mod 60) +:+ "m"
    else if 0 <? m then pretty m +:+ "m " +:+ pretty (s mod 60) +:+ "s"
    else pretty s +:+ "s".

Definition fmtAgo (s : Z) : string :=
  if s <? 60 then pretty s +:+ "s ago"
  else if s <? 3600 then pretty (mathFloor (divide s 60)) +:+ "m ago"
  else pretty (mathFloor (divide s 3600)) +:+ "h ago".

(** ** Labels *)

Definition stateClass (s : string) : string :=
  if String.eqb s EmptyString then "s-unknown" else
  let l := toLowerCase s in
  if includes l "running" then "s-running"
  else if includes l "complete" then "s-complete"
  else if includes l "failed" then "s-failed"
  else if includes l "queued" then "s-queued"
  else if includes l "pending" then "s-pending"
  else if includes l "skipped" then "s-cancelled"
  else if includes l "cancel" then "s-cancelled"
  else if includes l "unknown" then "s-unknown"
  else "s-unknown".

Definition stateLabel (s : string) : string :=
  if String.eqb s EmptyString then dash else
  let l := toLowerCase s in
  if includes l "running" then lit "<span class=`blink`>▶</span> RUNNING"
  else if includes l "complete" then "✓ DONE"
  else if includes l "failed" then "✗ FAILED"
  else if includes l "queued" then "· QUEUED"
  else if includes l "pending" then "· PENDING"
  else if includes l "skipped" then "⊘ SKIPPED"
  else if includes l "cancel" then "⊘ CANCELLED"
  else if includes l "unknown" then "? UNKNOWN"
  else s.

Definition taskStateLabel (s : string) : string :=
  if String.eqb s EmptyString then dash else
  let l := toLowerCase s in
  if includes l "running" then lit "<span class=`blink`>▶</span> running"
  else if includes l "complete" then "✓ done"
  else if includes l "failed" then "✗ failed"
  else if includes l "queued" then "· queued"
  else if includes l "pending" then "· pending"
  else if includes l "skipped" then "⊘ skipped"
  else if includes l "cancel" then "⊘ cancelled"
  else if includes l "unknown" then "? unknown"
  else s.

Definition policyLabel (p : string) : string :=
  if String.eqb p EmptyString then dash else
  let l := toLowerCase p in
  if includes l "fail_fast" || String.eqb l "fail_fast" then "FAIL_FAST"
  else if includes l "skip" then "SKIP_DOWNSTREAM"
  else if includes l "continue" then "CONTINUE_IND."
  else removeFirst p "FAILURE_POLICY_".

(** ** Tables *)

Section Render.
Context (localTime localDate : Z -> string).

Definition fmtTime (ms : Z) : string :=
  if ms =? 0 then dash else localTime ms +:+ " " +:+ localDate ms.

(** [wf.task_count > 0 ? Math.round((wf.done_count / wf.task_count) * 100) : 0]. *)
Definition progress (wf : WorkflowSummary.t) : Z :=
  if 0 <? WorkflowSummary.TaskCount wf
  then mathRound (percent (divide (WorkflowSummary.DoneCount wf) (WorkflowSummary.TaskCount wf))) else 0.

Definition isExpanded (expandedID : option string) (id : string) : bool :=
  match expandedID with Some e => String.eqb e id | None => false end.

(** The rows of one workflow. *)
Definition rowHTML (expandedID : option string) (wf : WorkflowSummary.t) : string :=
  let sc := stateClass (WorkflowSummary.State wf) in
  let sl := stateLabel (WorkflowSummary.State wf) in
  let id := esc (WorkflowSummary.ID wf) in
  let isExp := isExpanded expandedID (WorkflowSummary.ID wf) in
  lit "<tr data-id=`" +:+ id +:+ lit "`" +:+ (if isExp then lit " class=`expanded`" else EmptyString) +:+ lit ">" +:+
  lit "<td style=`font-weight:700`>" +:+ id +:+ lit "</td>" +:+
  lit "<td class=`" +:+ sc +:+ lit "`>" +:+ sl +:+ lit "</td>" +:+
  lit "<td style=`color:var(--muted);font-size:12px`>" +:+ fmtTime (WorkflowSummary.SubmittedAtMs wf) +:+ lit "</td>" +:+
  lit "<td style=`font-variant-numeric:tabular-nums`>" +:+ fmtDuration (WorkflowSummary.DurationMs wf) +:+ lit "</td>" +:+
  lit "<td>" +:+
  (if 0 <? WorkflowSummary.TaskCount wf
   then lit "<span style=`color:var(--muted);font-size:12px`>" +:+ pretty (WorkflowSummary.DoneCount wf) +:+ lit "/" +:+
          pretty (WorkflowSummary.TaskCount wf) +:+ lit "</span> " +:+
        lit "<span class=`prog-wrap`><span class=`prog-fill` style=`width:" +:+ pretty (progress wf) +:+ lit "%`></span></span>"
   else lit "<span style=`color:var(--muted)`>—</span>") +:+
  lit "</td>" +:+
  lit "<td style=`color:var(--muted);font-size:11px`>" +:+ policyLabel (WorkflowSummary.FailurePolicy wf) +:+ lit "</td>" +:+
  lit "</tr>" +:+
  (if isExp
   then lit "<tr class=`task-panel`><td colspan=`6`><div id=`task-detail-" +:+ id +:+ lit "`>Loading…</div></td></tr>"
   else EmptyString).

Definition tableHTML (expandedID : option string) (workflows : list WorkflowSummary.t) : string :=
  foldl (fun html wf => html +:+ rowHTML expandedID wf) EmptyString workflows.

(** The counters above the table: running, complete, failed. *)
Definition countStates (workflows : list WorkflowSummary.t) : Z * Z * Z :=
  foldl (fun '(running, complete, failed) wf =>
    let l := toLowerCase (WorkflowSummary.State wf) in
    if includes l "running" then (running + 1, complete, failed)
    else if includes l "complete" then (running, complete + 1, failed)
    else if includes l "failed" then (running, complete, failed + 1)
    else (running, complete, failed)) (0, 0, 0) workflows.

(** A row of the table of tasks. *)
Definition taskRowHTML (t : TaskDetail.t) : string :=
  let sc := stateClass (TaskDetail.State t) in
  let sl := taskStateLabel (TaskDetail.State t) in
  let deps := match TaskDetail.Dependencies t with [] => dash | l => join ", " l end in
  let retries :=
    if 1 <? TaskDetail.AttemptCount t
    then lit " <span style=`color:var(--muted);font-size:10px`>[" +:+ pretty (TaskDetail.AttemptCount t) +:+ lit " attempts]</span>"
    else EmptyString in
  lit "<tr>" +:+
  lit "<td class=`td-id`>" +:+ esc (TaskDetail.ID t) +:+ retries +:+ lit "</td>" +:+
  lit "<td class=`td-state " +:+ sc +:+ lit "`>" +:+ sl +:+ lit "</td>" +:+
  lit "<td class=`td-deps`>" +:+ esc deps +:+ lit "</td>" +:+
  lit "<td>" +:+
  (if negb (String.eqb (TaskDetail.Error t) EmptyString)
   then lit "<span class=`td-err`>✗ " +:+ esc (TaskDetail.Error t) +:+ lit "</span>"
   else if negb (String.eqb (TaskDetail.Command t) EmptyString)
   then lit "<span class=`td-cmd`>$ " +:+ esc (TaskDetail.Command t) +:+ lit "</span>"
   else lit "<span style=`color:var(--dim)`>—</span>") +:+
  lit "</td>" +:+
  lit "</tr>".

Definition taskHeadHTML : string :=
  lit "<table class=`subtbl`><thead><tr>" +:+
  lit "<td class=`td-id` style=`color:var(--muted);font-size:10px;text-transform:uppercase;letter-spacing:.1em;padding-bottom:6px`>Task</td>" +:+
  lit "<td class=`td-state` style=`color:var(--muted);font-size:10px;text-transform:uppercase;letter-spacing:.1em;padding-bottom:6px`>State</td>" +:+
  lit "<td class=`td-deps` style=`color:var(--muted);font-size:10px;text-transform:uppercase;letter-spacing:.1em;padding-bottom:6px`>Deps</td>" +:+
  lit "<td style=`color:var(--muted);font-size:10px;text-transform:uppercase;letter-spacing:.1em;padding-bottom:6px`>Command / Error</td>" +:+
  lit "</tr></thead><tbody>".

(** What [renderTaskDetail] writes into the panel. *)
Definition renderTaskDetail (detail : WorkflowDetail.t) : string :=
  match WorkflowDetail.Tasks detail with
  | [] => lit "<span style=`color:var(--muted);font-size:12px`>No task data available.</span>"
  | tasks => foldl (fun html t => html +:+ taskRowHTML t) taskHeadHTML tasks +:+ lit "</tbody></table>"
  end.

(** A row of the list of workers. *)
Definition workerHTML (wk : WorkerSummary.t) : string :=
  let alive := String.eqb (WorkerSummary.Status wk) "alive" in
  lit "<div class=`worker-row`>" +:+
  lit "<div class=`w-id`>" +:+ esc (WorkerSummary.ID wk) +:+ lit "</div>" +:+
  lit "<div class=`" +:+ (if alive then "w-status-alive" else "w-status-dead") +:+ lit "`>" +:+
    (if alive then lit "<span class=`blink`>●</span> alive" else "○ dead") +:+ lit "</div>" +:+
  lit "<div style=`color:var(--muted);font-size:12px`>" +:+ fmtAgo (WorkerSummary.SecondsSince wk) +:+ lit "</div>" +:+
  lit "<div class=`w-tasks`>" +:+
    match WorkerSummary.RunningTaskIDs wk with [] => dash | l => join ", " (esc <$> l) end +:+
  lit "</div>" +:+
  lit "</div>".

Definition workersHTML (workers : list WorkerSummary.t) : string :=
  foldl (fun html wk => html +:+ workerHTML wk) EmptyString workers.

End Render.

(** ** The page *)

(** What is in the element of a panel. *)
Inductive content :=
  | TextContent (s : string)
  | InnerHTML (s : string).

Definition loading : content := TextContent "Loading…".

(** [let expandedID, workflows, workers] and the elements the script writes: the body
    of the table, the counters (a dash at first), the list of workers, the notes that
    are shown when a table is empty, and the panel of the expanded row. An element of
    a panel is made whenever the table is written; [elements] counts them, and a
    panel has its number. [requests] are the calls of [loadTaskDetail] that wait for
    their answer, each with the element it looked up. *)
Record Page := mkPage {
  expandedID : option string;
  workflows : list WorkflowSummary.t;
  workers : list WorkerSummary.t;
  wf_body : string;
  wf_empty : bool;
  stats : option (Z * (Z * Z * Z));
  workers_list : string;
  workers_empty : bool;
  s_workers : option Z;
  panel : option (nat * string * content);
  elements : nat;
  requests : list (nat * string)
}.

Definition newPage : Page := mkPage None [] [] EmptyString false None EmptyString false None None 0 [].

Definition set_expandedID e p := mkPage e (workflows p) (workers p) (wf_body p) (wf_empty p) (stats p) (workers_list p)
  (workers_empty p) (s_workers p) (panel p) (elements p) (requests p).
Definition set_data wfs wks p := mkPage (expandedID p) wfs wks (wf_body p) (wf_empty p) (stats p) (workers_list p)
  (workers_empty p) (s_workers p) (panel p) (elements p) (requests p).
Definition set_table body empty st pan els p := mkPage (expandedID p) (workflows p) (workers p) body empty st (workers_list p)
  (workers_empty p) (s_workers p) pan els (requests p).
Definition set_workers html empty n p := mkPage (expandedID p) (workflows p) (workers p) (wf_body p) (wf_empty p) (stats p) html
  empty n (panel p) (elements p) (requests p).
Definition set_panel pan p := mkPage (expandedID p) (workflows p) (workers p) (wf_body p) (wf_empty p) (stats p) (workers_list p)
  (workers_empty p) (s_workers p) pan (elements p) (requests p).
Definition set_requests l p := mkPage (expandedID p) (workflows p) (workers p) (wf_body p) (wf_empty p) (stats p) (workers_list p)
  (workers_empty p) (s_workers p) (panel p) (elements p) l.

Section Script.
Context (localTime localDate : Z -> string).

(** [document.getElementById('task-detail-' + id)]. *)
Definition panelOf (id : string) (p : Page) : option nat :=
  match panel p with
  | Some (el, id', _) => if String.eqb id' id then Some el else None
  | None => None
  end.

(** [loadTaskDetail] up to its request; the rest is [answered]. *)
Definition loadTaskDetail (id : string) (p : Page) : Page :=
  match panelOf id p with
  | None => p
  | Some el => set_requests (requests p ++ [(el, id)]) p
  end.

(** [if (expandedID)]: neither null nor the empty text. *)
Definition truthy (e : option string) : option string :=
  match e with Some id => if String.eqb id EmptyString then None else Some id | None => None end.

(** The row of workflow [id] is in the table. *)
Definition listed (id : string) (wfs : list WorkflowSummary.t) : bool :=
  existsb (fun wf => String.eqb id (WorkflowSummary.ID wf)) wfs.

(** The panel of a table that was just written. *)
Definition newPanel (p : Page) : option (nat * string * content) :=
  match expandedID p with
  | Some id => if listed id (workflows p) then Some (elements p, id, loading) else None
  | None => None
  end.

Definition renderWorkflows (p : Page) : Page :=
  match workflows p with
  | [] => set_table EmptyString true (stats p) None (elements p) p
  | wfs =>
      let p := set_table (tableHTML localTime localDate (expandedID p) wfs) false
                 (Some (Z.of_nat (length wfs), countStates wfs)) (newPanel p) (S (elements p)) p in
      match truthy (expandedID p) with Some id => loadTaskDetail id p | None => p end
  end.

Definition renderWorkers (p : Page) : Page :=
  let n := Z.of_nat (length (filter (fun w => String.eqb (WorkerSummary.Status w) "alive" = true) (workers p))) in
  match workers p with
  | [] => set_workers EmptyString true (Some n) p
  | wks => set_workers (workersHTML wks) false (Some n) p
  end.

(** A click on the row of workflow [id]. *)
Definition click (id : string) (p : Page) : Page :=
  if listed id (workflows p) then
    if isExpanded (expandedID p) id then renderWorkflows (set_expandedID None p)
    else loadTaskDetail id (renderWorkflows (set_expandedID (Some id) p))
  else p.

(** [refresh] once its two answers are there, or one of them has failed. *)
Definition refreshed (answer : option (list WorkflowSummary.t * list WorkerSummary.t)) (p : Page) : Page :=
  match answer with
  | None => p
  | Some (wfs, wks) =>
      let p := renderWorkers (renderWorkflows (set_data wfs wks p)) in
      match truthy (expandedID p) with Some id => loadTaskDetail id p | None => p end
  end.

(** What [loadTaskDetail] does with its answer: an error has a message. *)
Definition detailContent (answer : string + WorkflowDetail.t) : content :=
  match answer with
  | inl message => TextContent ("Error: " +:+ message)
  | inr detail => InnerHTML (renderTaskDetail detail)
  end.

(** The answer to request [i], written into the element that was looked up; when the
    table was written since, that element is no longer on the page. *)
Definition answered (i : nat) (answer : string + WorkflowDetail.t) (p : Page) : Page :=
  match requests p !! i with
  | None => p
  | Some (el, id) =>
      let p := set_requests (delete i (requests p)) p in
      match panel p with
      | Some (el', id', _) => if (el =? el')%nat then set_panel (Some (el', id', detailContent answer)) p else p
      | None => p
      end
  end.

(** What happens to a page. *)
Inductive pageEvent :=
  | Click (id : string)
  | Refreshed (answer : option (list WorkflowSummary.t * list WorkerSummary.t))
  | Answered (i : nat) (answer : string + WorkflowDetail.t).

Definition pageStep (p : Page) (ev : pageEvent) : Page :=
  match ev with
  | Click id => click id p
  | Refreshed answer => refreshed answer p
  | Answered i answer => answered i answer p
  end.

End Script.

(** ** From the server to the page

    An answer travels as JSON. Encoder and decoder are library code: [wire] is what
    becomes of a text on the way, which is the text itself when it is valid UTF-8. *)

Section Wire.
Context (wire : string -> string).

Definition receiveSummary (w : WorkflowSummary.t) : WorkflowSummary.t :=
  WorkflowSummary.mk (wire (WorkflowSummary.ID w)) (wire (WorkflowSummary.State w)) (WorkflowSummary.SubmittedAtMs w)
    (WorkflowSummary.CompletedAtMs w) (WorkflowSummary.DurationMs w) (WorkflowSummary.TaskCount w)
    (WorkflowSummary.DoneCount w) (WorkflowSummary.FailedCount w) (wire (WorkflowSummary.FailurePolicy w)).

Definition receiveTask (t : TaskDetail.t) : TaskDetail.t :=
  TaskDetail.mk (wire (TaskDetail.ID t)) (wire (TaskDetail.State t)) (wire (TaskDetail.Command t))
    (wire <$> TaskDetail.Dependencies t) (TaskDetail.AttemptCount t) (TaskDetail.MaxRetries t)
    (wire (TaskDetail.Error t)) (wire (TaskDetail.Output t)).

Definition receiveDetail (d : WorkflowDetail.t) : WorkflowDetail.t :=
  WorkflowDetail.mk (receiveSummary (WorkflowDetail.summary d)) (receiveTask <$> WorkflowDetail.Tasks d).

Definition receiveWorker (w : WorkerSummary.t) : WorkerSummary.t :=
  WorkerSummary.mk (wire (WorkerSummary.ID w)) (WorkerSummary.LastHeartbeatMs w) (WorkerSummary.SecondsSince w)
    (wire <$> WorkerSummary.RunningTaskIDs w) (wire (WorkerSummary.Status w)).

End Wire.
