(* ===== verification/PageText.v ===== *)
(** * How a browser reads the page

    [lex] splits a text of HTML into the characters of its tags, of its attribute
    values and of the text between the tags, and resolves the four references [esc]
    writes. It is the part of HTML's tokenizer that the templates of the page use (tags,
    double-quoted attributes, text), without comments, scripts and other quoting, which
    they do not contain. A text that is built from templates, escaped data and inert data ([build])
    reads as its templates with the data in the holes ([doc]), whatever the data. *)

From Stdlib Require Import Ascii.
From stdpp Require Import pretty.
From S2P Require Import Prelude Proto Page.
Open Scope string_scope.
Open Scope list_scope.
Open Scope Z_scope.

(** ** Characters of texts *)

Lemma append_cons c s t : String c s +:+ t = String c (s +:+ t).
Proof. done. Qed.

Lemma append_assoc s t u : s +:+ t +:+ u = (s +:+ t) +:+ u.
Proof. induction s as [|c s IH]; [done |]. by rewrite !append_cons, IH. Qed.

Lemma append_nil s : s +:+ EmptyString = s.
Proof. induction s as [|c s IH]; [done |]. by rewrite append_cons, IH. Qed.

Fixpoint sall (P : ascii -> bool) (s : string) : bool :=
  match s with
  | EmptyString => true
  | String c s => P c && sall P s
  end.

Lemma sall_app P s t : sall P (s +:+ t) = sall P s && sall P t.
Proof. induction s as [|c s IH]; [done |]. rewrite append_cons. simpl. by rewrite IH, andb_assoc. Qed.

Lemma sall_impl (P Q : ascii -> bool) s : (forall c, P c = true -> Q c = true) -> sall P s = true -> sall Q s = true.
Proof. intros HPQ. induction s as [|c s IH]; simpl; [done |]. rewrite !andb_true_iff. intros [? ?]. auto. Qed.

Lemma sall_skip P n s : sall P s = true -> sall P (skip n s) = true.
Proof. revert n. induction s as [|c s IH]; intros [|n]; simpl; try done. rewrite andb_true_iff. intros [_ ?]. auto. Qed.

Lemma sall_removeFirst P s sub : sall P s = true -> sall P (removeFirst s sub) = true.
Proof.
  induction s as [|c s IH]; intros Hs; simpl; [by case_match; [apply sall_skip |] |].
  case_match; [by apply sall_skip |]. simpl in *. apply andb_true_iff in Hs as [-> ?]. auto.
Qed.

(** Digits and the sign. *)
Definition numeral (c : ascii) : bool := ((45 =? nat_of_ascii c) || (48 <=? nat_of_ascii c) && (nat_of_ascii c <=? 57))%nat.

Lemma sall_pretty_N x s : sall numeral s = true -> sall numeral (pretty_N_go x s) = true.
Proof.
  revert s. induction (N.lt_wf_0 x) as [x _ IH]. intros s Hs.
  assert (x = 0 \/ 0 < x)%N as [->|Hx] by lia; [by rewrite pretty_N_go_0 |].
  rewrite pretty_N_go_step by done. apply IH; [by apply N.div_lt |]. simpl. rewrite Hs, andb_true_r.
  unfold pretty_N_char. by repeat case_match.
Qed.

Lemma sall_pretty (z : Z) : sall numeral (pretty z) = true.
Proof.
  assert (forall n : N, sall numeral (pretty n) = true) as Hn.
  { intros n. unfold pretty, pretty_N. case_decide; [done |]. by apply sall_pretty_N. }
  unfold pretty, pretty_Z. destruct z; [done | apply Hn |]. simpl. apply Hn.
Qed.

(** No character that HTML treats specially. *)
Definition inert_char (c : ascii) : bool :=
  negb (Ascii.eqb c "&" || Ascii.eqb c "<" || Ascii.eqb c ">" || Ascii.eqb c dquote).
Abbreviation inert := (sall inert_char).
Definition ascii_char (c : ascii) : bool := (nat_of_ascii c <? 128)%nat.
Abbreviation is_ascii := (sall ascii_char).

Lemma numeral_inert c : numeral c = true -> inert_char c = true.
Proof. by destruct c as [[] [] [] [] [] [] [] []]. Qed.

Lemma inert_pretty (z : Z) : inert (pretty z) = true.
Proof. eapply sall_impl; [apply numeral_inert | apply sall_pretty]. Qed.

Lemma sall_enum P names n :
  Forall (fun s => sall P s = true) names -> (forall c, numeral c = true -> P c = true) -> sall P (enumString names n) = true.
Proof.
  intros Hn Hp. unfold enumString. destruct (if n <? 0 then None else names !! Z.to_nat n) as [s|] eqn:E.
  - destruct (n <? 0); [done |]. rewrite Forall_forall in Hn. by eapply Hn, list_elem_of_lookup_2.
  - eapply sall_impl; [exact Hp | apply sall_pretty].
Qed.

(** ** Reading *)

(** Between tags, in a tag, in the quoted value of an attribute. *)
Inductive mode := Data | Tag | Quoted.
#[export] Instance mode_eq_dec : EqDecision mode.
Proof. solve_decision. Defined.

(** What a character is in a mode, and the mode after it. *)
Definition kind (m : mode) (c : ascii) : mode :=
  match m with
  | Data => if Ascii.eqb c "<" then Tag else Data
  | Tag => Tag
  | Quoted => if Ascii.eqb c dquote then Tag else Quoted
  end.

Definition next (m : mode) (c : ascii) : mode :=
  match m with
  | Data => if Ascii.eqb c "<" then Tag else Data
  | Tag => if Ascii.eqb c ">" then Data else if Ascii.eqb c dquote then Quoted else Tag
  | Quoted => if Ascii.eqb c dquote then Tag else Quoted
  end.

Fixpoint lex (m : mode) (s : string) : list (mode * ascii) :=
  match m, s with
  | _, EmptyString => []
  | Tag, String c s => (Tag, c) :: lex (next Tag c) s
  | _, String "&" (String "a" (String "m" (String "p" (String ";" r)))) => (m, "&"%char) :: lex m r
  | _, String "&" (String "l" (String "t" (String ";" r))) => (m, "<"%char) :: lex m r
  | _, String "&" (String "g" (String "t" (String ";" r))) => (m, ">"%char) :: lex m r
  | _, String "&" (String "q" (String "u" (String "o" (String "t" (String ";" r))))) => (m, dquote) :: lex m r
  | _, String c s => (kind m c, c) :: lex (next m c) s
  end.

Fixpoint mode_after (m : mode) (s : string) : mode :=
  match s with
  | EmptyString => m
  | String c s => mode_after (next m c) s
  end.

Lemma lex_char m c s : Ascii.eqb c "&" = false -> lex m (String c s) = (kind m c, c) :: lex (next m c) s.
Proof. intros Hc. destruct m; [| done |]; by destruct c as [[] [] [] [] [] [] [] []]. Qed.

(** A text without references is read up to where it ends. *)
Lemma lex_app m s r :
  sall (fun c => negb (Ascii.eqb c "&")) s = true -> lex m (s +:+ r) = lex m s ++ lex (mode_after m s) r.
Proof.
  revert m. induction s as [|c s IH]; intros m Hs; [by destruct m |]. cbn [sall] in Hs.
  apply andb_true_iff in Hs as [Hc%negb_true_iff Hs]. rewrite append_cons.
  rewrite !lex_char by done. cbn [mode_after app]. by rewrite IH.
Qed.

(** Characters in mode [m]. *)
Fixpoint label (m : mode) (s : string) : list (mode * ascii) :=
  match s with
  | EmptyString => []
  | String c s => (m, c) :: label m s
  end.

Lemma lex_inert m s r : m <> Tag -> inert s = true -> lex m (s +:+ r) = label m s ++ lex m r.
Proof.
  intros Hm. induction s as [|c s IH]; intros Hs; [done |]. cbn [sall] in Hs. apply andb_true_iff in Hs as [Hc Hs].
  unfold inert_char in Hc. rewrite negb_true_iff, !orb_false_iff in Hc. destruct Hc as [[[H1 H2] H3] H4].
  rewrite append_cons. rewrite lex_char by done. cbn [label app]. rewrite <- IH by done.
  destruct m; [| done |]; cbn [kind next]; by rewrite ?H2, ?H4.
Qed.

(** [esc] replaces each special character by a reference. *)
Definition reference (c : ascii) : string :=
  if Ascii.eqb c "&" then "&amp;" else if Ascii.eqb c "<" then "&lt;" else if Ascii.eqb c ">" then "&gt;"
  else if Ascii.eqb c dquote then "&quot;" else String c EmptyString.

Lemma replaceAll_app c b s t : replaceAll c b (s +:+ t) = replaceAll c b s +:+ replaceAll c b t.
Proof. induction s as [|d s IH]; [done |]. rewrite append_cons. cbn [replaceAll]. by rewrite IH, append_assoc. Qed.

Lemma esc_char c s : esc (String c s) = reference c +:+ esc s.
Proof.
  unfold esc. change (String c s) with (String c EmptyString +:+ s). rewrite !replaceAll_app. f_equal.
  by destruct c as [[] [] [] [] [] [] [] []].
Qed.

Lemma lex_reference m c r : m <> Tag -> lex m (reference c +:+ r) = (m, c) :: lex m r.
Proof.
  intros Hm. unfold reference. destruct (Ascii.eqb_spec c "&") as [->|]; [by destruct m |].
  destruct (Ascii.eqb_spec c "<") as [->|]; [by destruct m |]. destruct (Ascii.eqb_spec c ">") as [->|]; [by destruct m |].
  destruct (Ascii.eqb_spec c dquote) as [->|]; [by destruct m |].
  apply (lex_inert m (String c EmptyString)); [done |]. simpl. unfold inert_char.
  by rewrite !(proj2 (Ascii.eqb_neq _ _)).
Qed.

(** Escaped data reads as the data. *)
Lemma lex_esc m s r : m <> Tag -> lex m (esc s +:+ r) = label m s ++ lex m r.
Proof.
  intros Hm. induction s as [|c s IH]; [done |]. rewrite esc_char, <- append_assoc, lex_reference by done.
  cbn [label app]. by rewrite IH.
Qed.

(** ** Pieces *)

(** A template of the script; data that is escaped; data that has nothing to escape. *)
Inductive piece :=
  | Template (s : string)
  | Escaped (s : string)
  | Plain (s : string).

Fixpoint build (l : list piece) : string :=
  match l with
  | [] => EmptyString
  | Template s :: l => lit s +:+ build l
  | Escaped s :: l => esc s +:+ build l
  | Plain s :: l => s +:+ build l
  end.

(** The document: templates as they read, data verbatim in the mode of its hole. *)
Fixpoint doc (m : mode) (l : list piece) : list (mode * ascii) :=
  match l with
  | [] => []
  | Template s :: l => lex m (lit s) ++ doc (mode_after m (lit s)) l
  | (Escaped s | Plain s) :: l => label m s ++ doc m l
  end.

Fixpoint ends (m : mode) (l : list piece) : mode :=
  match l with
  | [] => m
  | Template s :: l => ends (mode_after m (lit s)) l
  | _ :: l => ends m l
  end.

(** Templates are without references, no hole is in a tag, plain data is inert. *)
Fixpoint sound (m : mode) (l : list piece) : bool :=
  match l with
  | [] => true
  | Template s :: l => sall (fun c => negb (Ascii.eqb c "&")) (lit s) && sound (mode_after m (lit s)) l
  | Escaped s :: l => bool_decide (m <> Tag) && sound m l
  | Plain s :: l => bool_decide (m <> Tag) && inert s && sound m l
  end.

Lemma build_app l1 l2 : build (l1 ++ l2) = build l1 +:+ build l2.
Proof. induction l1 as [|[s|s|s] l1 IH]; simpl; [done |..]; by rewrite IH, append_assoc. Qed.

Lemma sound_app m l1 l2 : sound m (l1 ++ l2) = sound m l1 && sound (ends m l1) l2.
Proof. revert m. induction l1 as [|[s|s|s] l1 IH]; intros m; simpl; [done |..]; by rewrite IH, !andb_assoc. Qed.

Lemma lex_nil m : lex m EmptyString = [].
Proof. by destruct m. Qed.

Lemma lex_build m l : sound m l = true -> lex m (build l) = doc m l.
Proof.
  revert m. induction l as [|[s|s|s] l IH]; intros m Hl; cbn [build doc sound] in *; [apply lex_nil | ..].
  - apply andb_true_iff in Hl as [Hs Hl]. by rewrite lex_app, IH.
  - apply andb_true_iff in Hl as [Hm%bool_decide_eq_true Hl]. by rewrite lex_esc, IH.
  - rewrite !andb_true_iff in Hl. destruct Hl as [[Hm%bool_decide_eq_true Hs] Hl]. by rewrite lex_inert, IH.
Qed.

(** The characters of the tags. *)
Definition markup (d : list (mode * ascii)) : list ascii := (filter (fun p => p.1 = Tag) d).*2.

(** The template with its holes empty. *)
Definition blank (p : piece) : piece :=
  match p with
  | Template s => Template s
  | Escaped _ => Escaped EmptyString
  | Plain _ => Plain EmptyString
  end.

Lemma markup_label m s d : m <> Tag -> markup (label m s ++ d) = markup d.
Proof. intros Hm. unfold markup. induction s as [|c s IH]; [done |]. simpl. by rewrite filter_cons_False by done. Qed.

Lemma markup_app d d' : markup (d ++ d') = markup d ++ markup d'.
Proof. unfold markup. by rewrite filter_app, fmap_app. Qed.

(** No data changes the tags. *)
Lemma markup_doc m l : sound m l = true -> markup (doc m l) = markup (doc m (blank <$> l)).
Proof.
  revert m. induction l as [|[s|s|s] l IH]; intros m Hl; cbn [fmap list_fmap blank doc sound label] in *; [done | ..].
  - apply andb_true_iff in Hl as [_ Hl]. rewrite !markup_app. by rewrite (IH _ Hl).
  - apply andb_true_iff in Hl as [Hm%bool_decide_eq_true Hl]. rewrite markup_label by done. by apply IH.
  - rewrite !andb_true_iff in Hl. destruct Hl as [[Hm%bool_decide_eq_true _] Hl]. rewrite markup_label by done. by apply IH.
Qed.

(** Soundness of the template, and of the data in its holes. *)
Definition plain_inert (p : piece) : Prop := match p with Plain s => inert s = true | _ => True end.

Lemma sound_blank m l : sound m (blank <$> l) = true -> Forall plain_inert l -> sound m l = true.
Proof.
  intros Hb Hl. revert m Hb. induction Hl as [|[s|s|s] l Hp _ IH]; intros m Hb; cbn [fmap list_fmap blank sound] in *; [done | ..].
  - apply andb_true_iff in Hb as [-> Hb]. by apply IH.
  - apply andb_true_iff in Hb as [-> Hb]. by apply IH.
  - rewrite !andb_true_iff in Hb. destruct Hb as [[-> _] Hb]. simpl in Hp. rewrite Hp. by apply IH.
Qed.

Lemma ends_blank m l : ends m (blank <$> l) = ends m l.
Proof. revert m. induction l as [|[s|s|s] l IH]; intros m; cbn [fmap list_fmap blank ends]; [done | apply IH..]. Qed.
