(* ===== verification/PageProps.v ===== *)
(** * The page shows what the server sent

    The tables of the page as pieces, that nothing the server sends can change their
    markup, that the panel belongs to the expanded row whatever the order of the
    answers, and what the counters count. *)

From Stdlib Require Import Ascii.
From stdpp Require Import pretty.
From S2P Require Import Prelude Proto Codec Env RecordDB Store StoreRefinement StoreSpec NoFault Heartbeat Coordinator.
From S2P Require Import CoordinatorRefinement Invariant CoordinatorInv Dashboard DashboardProps Service System Sample Page PageText.
Open Scope string_scope.
Open Scope list_scope.
Open Scope Z_scope.

(** ** The tables in pieces *)

(** A label is a template when the state runs, plain text otherwise. *)
Definition label_pieces (running : string) (label : string -> string) (s : string) : list piece :=
  if negb (String.eqb s EmptyString) && includes (toLowerCase s) "running" then [Template running] else [Plain (label s)].

Section Pieces.
Context (localTime localDate : Z -> string).

Definition row_pieces (e : option string) (wf : WorkflowSummary.t) : list piece :=
  let id := WorkflowSummary.ID wf in
  [Template "<tr data-id=`"; Escaped id; Template "`"] ++
  (if isExpanded e id then [Template " class=`expanded`"] else []) ++
  [Template "><td style=`font-weight:700`>"; Escaped id; Template "</td><td class=`"; Plain (stateClass (WorkflowSummary.State wf));
   Template "`>"] ++ label_pieces "<span class=`blink`>▶</span> RUNNING" stateLabel (WorkflowSummary.State wf) ++
  [Template "</td><td style=`color:var(--muted);font-size:12px`>"; Plain (fmtTime localTime localDate (WorkflowSummary.SubmittedAtMs wf));
   Template "</td><td style=`font-variant-numeric:tabular-nums`>"; Plain (fmtDuration (WorkflowSummary.DurationMs wf)); Template "</td><td>"] ++
  (if 0 <? WorkflowSummary.TaskCount wf
   then [Template "<span style=`color:var(--muted);font-size:12px`>"; Plain (pretty (WorkflowSummary.DoneCount wf)); Template "/";
         Plain (pretty (WorkflowSummary.TaskCount wf));
         Template "</span> <span class=`prog-wrap`><span class=`prog-fill` style=`width:"; Plain (pretty (progress wf));
         Template "%`></span></span>"]
   else [Template "<span style=`color:var(--muted)`>—</span>"]) ++
  [Template "</td><td style=`color:var(--muted);font-size:11px`>"; Plain (policyLabel (WorkflowSummary.FailurePolicy wf)); Template "</td></tr>"] ++
  (if isExpanded e id
   then [Template "<tr class=`task-panel`><td colspan=`6`><div id=`task-detail-"; Escaped id; Template "`>Loading…</div></td></tr>"]
   else []).

Definition task_pieces (t : TaskDetail.t) : list piece :=
  [Template "<tr><td class=`td-id`>"; Escaped (TaskDetail.ID t)] ++
  (if 1 <? TaskDetail.AttemptCount t
   then [Template " <span style=`color:var(--muted);font-size:10px`>["; Plain (pretty (TaskDetail.AttemptCount t)); Template " attempts]</span>"]
   else []) ++
  [Template "</td><td class=`td-state "; Plain (stateClass (TaskDetail.State t)); Template "`>"] ++
  label_pieces "<span class=`blink`>▶</span> running" taskStateLabel (TaskDetail.State t) ++
  [Template "</td><td class=`td-deps`>"; Escaped (match TaskDetail.Dependencies t with [] => dash | l => join ", " l end); Template "</td><td>"] ++
  (if negb (String.eqb (TaskDetail.Error t) EmptyString)
   then [Template "<span class=`td-err`>✗ "; Escaped (TaskDetail.Error t); Template "</span>"]
   else if negb (String.eqb (TaskDetail.Command t) EmptyString)
   then [Template "<span class=`td-cmd`>$ "; Escaped (TaskDetail.Command t); Template "</span>"]
   else [Template "<span style=`color:var(--dim)`>—</span>"]) ++
  [Template "</td></tr>"].

Fixpoint ids_pieces (l : list string) : list piece :=
  match l with
  | [] => []
  | [x] => [Escaped x]
  | x :: l => Escaped x :: Plain ", " :: ids_pieces l
  end.

Definition worker_pieces (wk : WorkerSummary.t) : list piece :=
  let alive := String.eqb (WorkerSummary.Status wk) "alive" in
  [Template "<div class=`worker-row`><div class=`w-id`>"; Escaped (WorkerSummary.ID wk); Template "</div><div class=`";
   Plain (if alive then "w-status-alive" else "w-status-dead"); Template "`>";
   Template (if alive then "<span class=`blink`>●</span> alive" else "○ dead");
   Template "</div><div style=`color:var(--muted);font-size:12px`>"; Plain (fmtAgo (WorkerSummary.SecondsSince wk));
   Template "</div><div class=`w-tasks`>"] ++
  match WorkerSummary.RunningTaskIDs wk with [] => [Plain dash] | l => ids_pieces l end ++
  [Template "</div></div>"].

Definition head_pieces : list piece :=
  [Template "<table class=`subtbl`><thead><tr>";
   Template "<td class=`td-id` style=`color:var(--muted);font-size:10px;text-transform:uppercase;letter-spacing:.1em;padding-bottom:6px`>Task</td>";
   Template "<td class=`td-state` style=`color:var(--muted);font-size:10px;text-transform:uppercase;letter-spacing:.1em;padding-bottom:6px`>State</td>";
   Template "<td class=`td-deps` style=`color:var(--muted);font-size:10px;text-transform:uppercase;letter-spacing:.1em;padding-bottom:6px`>Deps</td>";
   Template "<td style=`color:var(--muted);font-size:10px;text-transform:uppercase;letter-spacing:.1em;padding-bottom:6px`>Command / Error</td>";
   Template "</tr></thead><tbody>"].

Definition detail_pieces (d : WorkflowDetail.t) : list piece :=
  match WorkflowDetail.Tasks d with
  | [] => [Template "<span style=`color:var(--muted);font-size:12px`>No task data available.</span>"]
  | tasks => head_pieces ++ concat (task_pieces <$> tasks) ++ [Template "</tbody></table>"]
  end.

(** *** They build the tables *)

Ltac pieces := cbn [build app]; rewrite <- ?append_assoc, ?append_nil; reflexivity.

Lemma row_build e wf : rowHTML localTime localDate e wf = build (row_pieces e wf).
Proof.
  unfold rowHTML, row_pieces, label_pieces, stateLabel. cbv zeta.
  destruct (isExpanded e _), (String.eqb (WorkflowSummary.State wf) _), (0 <? _); cbn [negb andb];
  try (destruct (includes _ "running")); pieces.
Qed.

Lemma task_build t : taskRowHTML t = build (task_pieces t).
Proof.
  unfold taskRowHTML, task_pieces, label_pieces, taskStateLabel. cbv zeta.
  destruct (1 <? _), (String.eqb (TaskDetail.State t) _), (negb (String.eqb (TaskDetail.Error t) EmptyString)),
    (negb (String.eqb (TaskDetail.Command t) EmptyString));
  cbn [negb andb]; try (destruct (includes _ "running")); pieces.
Qed.

Lemma ids_build l : join ", " (esc <$> l) = build (ids_pieces l).
Proof.
  induction l as [|x [|y l] IH]; [done | |]; [cbn; by rewrite append_nil |].
  change (esc x +:+ ", " +:+ join ", " (esc <$> y :: l) = esc x +:+ ", " +:+ build (ids_pieces (y :: l))). by rewrite IH.
Qed.

Lemma worker_build wk : workerHTML wk = build (worker_pieces wk).
Proof.
  unfold workerHTML, worker_pieces. cbv zeta. rewrite !build_app.
  destruct (WorkerSummary.RunningTaskIDs wk) as [|x l]; [|rewrite <- ids_build];
  destruct (String.eqb _ "alive"); pieces.
Qed.

Lemma foldl_build {A} (html : A -> string) (f : A -> list piece) l s :
  (forall x, html x = build (f x)) -> foldl (fun s x => s +:+ html x) s l = s +:+ build (concat (f <$> l)).
Proof.
  intros Hf. revert s. induction l as [|x l IH]; intros s; simpl; [by rewrite append_nil |].
  by rewrite IH, Hf, build_app, append_assoc.
Qed.

Lemma table_build e l : tableHTML localTime localDate e l = build (concat (row_pieces e <$> l)).
Proof. unfold tableHTML. by rewrite (foldl_build _ (row_pieces e)) by apply row_build. Qed.

Lemma workers_build l : workersHTML l = build (concat (worker_pieces <$> l)).
Proof. unfold workersHTML. by rewrite (foldl_build _ worker_pieces) by apply worker_build. Qed.

Lemma detail_build d : renderTaskDetail d = build (detail_pieces d).
Proof.
  unfold renderTaskDetail, detail_pieces. destruct (WorkflowDetail.Tasks d) as [|t l]; [by rewrite <- (append_nil (lit _)) |].
  rewrite (foldl_build _ task_pieces) by apply task_build. rewrite !build_app, <- append_assoc.
  f_equal.
Qed.

(** *** They are sound *)

(** Pieces that leave the reader between tags. *)
Definition closed_pieces (l : list piece) : Prop := sound Data l = true /\ ends Data l = Data.

Lemma closed_app l1 l2 : closed_pieces l1 -> closed_pieces l2 -> closed_pieces (l1 ++ l2).
Proof.
  intros [S1 E1] [S2 E2]. split; [by rewrite sound_app, S1, E1 |].
  assert (forall m, ends m (l1 ++ l2) = ends (ends m l1) l2) as -> by (clear; induction l1 as [|[] l1 IH]; intros m; simpl; auto).
  by rewrite E1.
Qed.

Lemma closed_concat {A} (f : A -> list piece) l : Forall (fun x => closed_pieces (f x)) l -> closed_pieces (concat (f <$> l)).
Proof. induction 1; simpl; [done | by apply closed_app]. Qed.

(** The texts between the templates have nothing to escape. *)
Lemma inert_stateClass s : inert (stateClass s) = true.
Proof. unfold stateClass. cbv zeta. by repeat case_match. Qed.

Lemma inert_stateLabel s : inert s = true -> includes (toLowerCase s) "running" = false -> inert (stateLabel s) = true.
Proof. intros Hs Hr. unfold stateLabel. cbv zeta. rewrite Hr. by repeat case_match. Qed.

Lemma inert_taskStateLabel s : inert s = true -> includes (toLowerCase s) "running" = false -> inert (taskStateLabel s) = true.
Proof. intros Hs Hr. unfold taskStateLabel. cbv zeta. rewrite Hr. by repeat case_match. Qed.

Lemma inert_policyLabel s : inert s = true -> inert (policyLabel s) = true.
Proof. intros Hs. unfold policyLabel. cbv zeta. repeat case_match; try done. by apply sall_removeFirst. Qed.

Lemma inert_fmtDuration ms : inert (fmtDuration ms) = true.
Proof. unfold fmtDuration. cbv zeta. repeat case_match; rewrite ?sall_app, ?inert_pretty; done. Qed.

Lemma inert_fmtAgo s : inert (fmtAgo s) = true.
Proof. unfold fmtAgo. repeat case_match; by rewrite sall_app, inert_pretty. Qed.

Context (Ht : forall z, inert (localTime z) = true) (Hd : forall z, inert (localDate z) = true).

Lemma inert_fmtTime ms : inert (fmtTime localTime localDate ms) = true.
Proof. unfold fmtTime. case_match; [done |]. by rewrite !sall_app, Ht, Hd. Qed.

(** A row is closed when its template is and its plain data is inert. *)
Lemma closed_by l : sound Data (blank <$> l) = true -> ends Data (blank <$> l) = Data -> Forall plain_inert l -> closed_pieces l.
Proof. intros Hs He Hl. split; [by apply sound_blank | by rewrite <- ends_blank]. Qed.

Lemma closed_row e wf :
  inert (WorkflowSummary.State wf) = true -> inert (WorkflowSummary.FailurePolicy wf) = true -> closed_pieces (row_pieces e wf).
Proof.
  intros Hs Hp. unfold row_pieces, label_pieces. cbv zeta.
  destruct (isExpanded e _), (String.eqb (WorkflowSummary.State wf) _) eqn:Es, (0 <? _); cbn [negb andb];
  try (destruct (includes _ "running") eqn:Er); (apply closed_by; [vm_compute; reflexivity.. |]);
  repeat constructor; cbn [plain_inert]; auto using inert_stateClass, inert_stateLabel, inert_policyLabel, inert_fmtTime, inert_fmtDuration, inert_pretty;
  apply String.eqb_eq in Es; by rewrite Es.
Qed.

Lemma closed_task t : inert (TaskDetail.State t) = true -> closed_pieces (task_pieces t).
Proof.
  intros Hs. unfold task_pieces, label_pieces.
  destruct (1 <? _), (String.eqb (TaskDetail.State t) _) eqn:Es, (negb (String.eqb (TaskDetail.Error t) EmptyString)),
    (negb (String.eqb (TaskDetail.Command t) EmptyString)); cbn [negb andb];
  try (destruct (includes _ "running") eqn:Er); (apply closed_by; [vm_compute; reflexivity.. |]);
  repeat constructor; cbn [plain_inert]; auto using inert_stateClass, inert_taskStateLabel, inert_pretty;
  apply String.eqb_eq in Es; by rewrite Es.
Qed.

Lemma closed_ids l : closed_pieces (ids_pieces l).
Proof.
  induction l as [|x [|y l] IH]; [done | done |].
  change (ids_pieces (x :: y :: l)) with ([Escaped x; Plain ", "] ++ ids_pieces (y :: l)). by apply closed_app.
Qed.

Lemma closed_worker wk : closed_pieces (worker_pieces wk).
Proof.
  unfold worker_pieces. cbv zeta. apply closed_app; [|apply closed_app; [|done]].
  - destruct (String.eqb _ "alive"); (apply closed_by; [vm_compute; reflexivity.. |]); repeat constructor; cbn [plain_inert]; auto using inert_fmtAgo.
  - destruct (WorkerSummary.RunningTaskIDs wk); [done | apply closed_ids].
Qed.

Lemma closed_detail d : Forall (fun t => inert (TaskDetail.State t) = true) (WorkflowDetail.Tasks d) -> closed_pieces (detail_pieces d).
Proof.
  intros Hd'. unfold detail_pieces. destruct (WorkflowDetail.Tasks d) as [|t l]; [done |].
  apply closed_app; [done |]. apply closed_app; [|done]. apply closed_concat. eapply Forall_impl; [exact Hd' |]. intros. by apply closed_task.
Qed.

End Pieces.

(** ** What the server sends *)

(** States are names or numbers of the enums, the list has no policies. *)
Definition named_states (resp : response) : Prop :=
  match resp with
  | WorkflowListJSON l => Forall (fun wf => (exists v, WorkflowSummary.State wf = WorkflowState_String v) /\
      WorkflowSummary.FailurePolicy wf = EmptyString) l
  | WorkflowDetailJSON d => Forall (fun t => TaskDetail.State t = EmptyString \/ exists v, TaskDetail.State t = TaskState_String v) (WorkflowDetail.Tasks d)
  | _ => True
  end.

Section Served.
Context `{Env} {D : Type} `{RecordDB D}.

Lemma rows_named now states acc (s : St D) :
  named_states (WorkflowListJSON acc) ->
  wp (foldM (fun result wf =>
        let! r := GetTaskStatusesForWorkflow (WR.WorkflowID wf) in
        ret (result ++ [workflowRow now wf r.1 EmptyString])) acc states) s (fun l _ => named_states (WorkflowListJSON l)) (fun _ => True).
Proof.
  revert acc s. induction states as [|wf states IH]; intros acc s Ha; simpl; [by apply wp_ret |].
  apply wp_bind, wp_bind, wp_any; [|done]. intros r s'. apply wp_ret, IH. apply Forall_app. split; [done |]. constructor; [|done].
  unfold workflowRow. destruct (countTaskDoneAndFailed r.1). simpl. eauto.
Qed.

Lemma serve_named path sd (s : St D) : wp (serveHTTP path sd) s (fun resp _ => named_states resp) (fun _ => True).
Proof.
  unfold serveHTTP. repeat case_match; try by apply wp_ret.
  - apply wp_bind, wp_any; [|done]. intros [states [e|]] s1; [by apply wp_ret |]. apply wp_bind, wp_any; [|done]. intros now s2.
    apply wp_bind. eapply wp_mono; [apply rows_named; constructor | | done]. intros l s3 Hl. apply wp_ret.
    eapply Permutation_Forall; [symmetry; apply sortSlice_perm | exact Hl].
  - apply wp_bind, wp_any; [|done]. intros [wks [e|]] s1; [by apply wp_ret |]. by apply wp_bind, wp_any; [intros; apply wp_ret |].
  - unfold handleAPIWorkflowDetail. cbv zeta. case_match; [by apply wp_ret |]. apply wp_bind, wp_any; [|done].
    intros [e|wf] s1; [by apply wp_ret |]. apply wp_bind, wp_any; [|done]. intros [sts [e|]] s2; [by apply wp_ret |].
    apply wp_bind, wp_any; [|done]. intros spec s3. destruct spec as [e|spec]; (apply wp_bind, wp_any; [|done]); intros now s4; apply wp_ret; simpl.
    + apply Forall_fmap, Forall_true. intros st. simpl. eauto.
    + apply Forall_fmap, Forall_true. intros t. unfold specDetail. simpl. destruct (_ !! TS.TaskId t); simpl; eauto.
Qed.

(** The HTML the script writes for an answer, and its pieces. *)
Context (wire : string -> string) (localTime localDate : Z -> string).

Definition pageHTML (e : option string) (resp : response) : option string :=
  match resp with
  | WorkflowListJSON l => Some (tableHTML localTime localDate e (receiveSummary wire <$> l))
  | WorkflowDetailJSON d => Some (renderTaskDetail (receiveDetail wire d))
  | WorkersJSON l => Some (workersHTML (receiveWorker wire <$> l))
  | _ => None
  end.

Definition pagePieces (e : option string) (resp : response) : list piece :=
  match resp with
  | WorkflowListJSON l => concat (row_pieces localTime localDate e <$> (receiveSummary wire <$> l))
  | WorkflowDetailJSON d => detail_pieces (receiveDetail wire d)
  | WorkersJSON l => concat (worker_pieces <$> (receiveWorker wire <$> l))
  | _ => []
  end.

Context (wire_ascii : forall s, is_ascii s = true -> wire s = s).
Context (Ht : forall z, inert (localTime z) = true) (Hd : forall z, inert (localDate z) = true).

Lemma numeral_ascii c : numeral c = true -> ascii_char c = true.
Proof. by destruct c as [[] [] [] [] [] [] [] []]. Qed.

Lemma wire_enum names n :
  Forall (fun s => is_ascii s = true) names -> Forall (fun s => inert s = true) names -> inert (wire (enumString names n)) = true.
Proof.
  intros Ha Hi. rewrite wire_ascii by (apply sall_enum; [done | apply numeral_ascii]). apply sall_enum; [done | apply numeral_inert].
Qed.

Lemma page_closed e resp : named_states resp -> closed_pieces (pagePieces e resp).
Proof.
  intros Hn. destruct resp as [| | |l|d|l]; simpl in *; try done.
  - apply closed_concat, Forall_fmap. eapply Forall_impl; [exact Hn |]. intros wf [[v Hv] Hp]. apply closed_row; simpl; [done | done | |].
    + rewrite Hv. apply wire_enum; by repeat constructor.
    + rewrite Hp. by rewrite wire_ascii.
  - apply closed_detail. simpl. apply Forall_fmap. eapply Forall_impl; [exact Hn |]. intros t [Hv|[v Hv]]; simpl; rewrite Hv.
    + by rewrite wire_ascii.
    + apply wire_enum; by repeat constructor.
  - apply closed_concat, Forall_true. intros wk. apply closed_worker.
Qed.

(** C37. No injection. Whatever identifiers, commands, errors and outputs are stored
    and whatever the server answers, the HTML the page builds from the answer reads
    as the templates of the script with the data in their holes, character by
    character: the data is in no tag, and the tags are those of the templates with
    their holes empty. *)
Theorem page_markup e path sd (st st' : St D) resp html :
  serveHTTP path sd st = Done st' resp -> pageHTML e resp = Some html ->
  lex Data html = doc Data (pagePieces e resp) /\
  markup (lex Data html) = markup (doc Data (blank <$> pagePieces e resp)).
Proof.
  intros E Hh. destruct (page_closed e resp (wp_done _ _ _ _ _ _ (serve_named path sd st) E)) as [Hs _].
  assert (html = build (pagePieces e resp)) as ->.
  { destruct resp; simpl in *; try done; injection Hh as <-; [apply table_build | apply detail_build | apply workers_build]. }
  rewrite lex_build by done. split; [done | by apply markup_doc].
Qed.

End Served.
