(* ===== verification/PageRun.v ===== *)
(** * The page over time

    A page that is clicked and refreshed and whose requests are answered in any order
    by the coordinator ([browsing]): the table is that of the last list, and the panel
    shows the expanded workflow. What the counters count. *)

From Stdlib Require Import Ascii.
From stdpp Require Import pretty.
From S2P Require Import Prelude Proto Codec Env RecordDB Store StoreRefinement StoreSpec NoFault Heartbeat Coordinator.
From S2P Require Import CoordinatorRefinement Invariant CoordinatorInv Dashboard DashboardProps Service System Sample Page PageText PageProps.
Open Scope string_scope.
Open Scope list_scope.
Open Scope Z_scope.

(** ** The panel *)

Section Panel.
Context (localTime localDate : Z -> string) (P : string -> (string + WorkflowDetail.t) -> Prop).

Definition shown_ids (p : Page) : list string := WorkflowSummary.ID <$> workflows p.

(** The table is that of the variables; the panel is there exactly when the expanded
    workflow is listed, and holds an answer [P] allows for it; a request whose
    element is the panel is for the workflow of the panel. *)
Record page_ok (p : Page) : Prop := {
  pk_table : wf_body p = tableHTML localTime localDate (expandedID p) (workflows p);
  pk_panel id : (exists el c, panel p = Some (el, id, c)) <-> expandedID p = Some id /\ id ∈ shown_ids p;
  pk_content el id c : panel p = Some (el, id, c) -> (el < elements p)%nat /\ (c = loading \/ exists answer, P id answer /\ c = detailContent answer);
  pk_requests el id : (el, id) ∈ requests p -> (el < elements p)%nat /\ forall id' c, panel p = Some (el, id', c) -> id' = id
}.

Lemma listed_spec id wfs : listed id wfs = true <-> id ∈ WorkflowSummary.ID <$> wfs.
Proof.
  unfold listed. rewrite existsb_exists, list_elem_of_fmap. split.
  - intros (wf & Hin%list_elem_of_In & E%String.eqb_eq). eauto.
  - intros (wf & -> & Hin%list_elem_of_In). exists wf. by rewrite String.eqb_refl.
Qed.

Lemma newPanel_spec p el id c :
  newPanel p = Some (el, id, c) <-> (expandedID p = Some id /\ id ∈ shown_ids p) /\ el = elements p /\ c = loading.
Proof.
  unfold newPanel, shown_ids. destruct (expandedID p) as [id'|]; [|by split; [|intros [[] _]]].
  pose proof (listed_spec id' (workflows p)) as Hl. destruct (listed id' (workflows p)).
  - split; [intros [= <- <- <-]; tauto | intros [[[= ->] _] [-> ->]]; done].
  - split; [done | intros [[[= ->] Hin] _]; apply Hl in Hin; done].
Qed.

Lemma loadTaskDetail_ok id p : page_ok p -> page_ok (loadTaskDetail id p).
Proof.
  intros [H1 H3 H4 H5]. unfold loadTaskDetail, panelOf. destruct (panel p) as [[[el id'] c]|] eqn:Ep; [|by split; rewrite ?Ep].
  destruct (String.eqb_spec id' id) as [->|]; [|by split; rewrite ?Ep]. split; simpl; rewrite ?Ep in *; [done | done | done |].
  intros el' id' [Hin|Hin]%elem_of_app; [by apply H5 |]. apply list_elem_of_singleton in Hin. injection Hin as -> ->.
  split; [by apply (H4 el id c) |]. intros id' c' [= <- <-]. done.
Qed.

(** Writing the table, whatever the variables are by then. *)
Lemma renderWorkflows_ok p :
  (forall el id, (el, id) ∈ requests p -> (el < elements p)%nat) -> page_ok (renderWorkflows localTime localDate p).
Proof.
  intros Hreq. unfold renderWorkflows. destruct (workflows p) as [|wf wfs] eqn:Ew.
  { split; unfold shown_ids; simpl; rewrite ?Ew; try done.
    - intros id. split; [by intros (? & ? & ?) |]. intros [_ []%elem_of_nil].
    - intros el id Hin. split; [by eapply Hreq | done]. }
  cbv zeta. set (p' := set_table _ _ _ _ _ p). assert (page_ok p') as Hok.
  { split; unfold p'; simpl; rewrite ?Ew; [done | | |].
    - intros id. setoid_rewrite newPanel_spec. unfold shown_ids. simpl. split; [by intros (? & ? & ? & _) | eauto].
    - intros el id c (_ & -> & ->)%newPanel_spec. split; [lia | by left].
    - intros el id Hin%Hreq. split; [lia |]. intros id' c (_ & -> & _)%newPanel_spec. lia. }
  destruct (truthy _); [by apply loadTaskDetail_ok | done].
Qed.

Lemma renderWorkers_ok p : page_ok p -> page_ok (renderWorkers p).
Proof. intros [H1 H3 H4 H5]. unfold renderWorkers. by destruct (workers p). Qed.

Lemma click_ok id p : page_ok p -> page_ok (click localTime localDate id p).
Proof.
  intros Hp. assert (forall e, page_ok (renderWorkflows localTime localDate (set_expandedID e p))) as Hr.
  { intros e. apply renderWorkflows_ok. intros el id' Hin. by apply (pk_requests _ Hp) in Hin as [? _]. }
  unfold click. destruct (listed _ _); [|done]. destruct (isExpanded _ _); [apply Hr | by apply loadTaskDetail_ok].
Qed.

Lemma refreshed_ok answer p : page_ok p -> page_ok (refreshed localTime localDate answer p).
Proof.
  intros Hp. unfold refreshed. destruct answer as [[wfs wks]|]; [|done]. cbv zeta.
  assert (page_ok (renderWorkers (renderWorkflows localTime localDate (set_data wfs wks p)))) as Hr.
  { apply renderWorkers_ok, renderWorkflows_ok. intros el id Hin. by apply (pk_requests _ Hp) in Hin as [? _]. }
  destruct (truthy _); [by apply loadTaskDetail_ok | done].
Qed.

Lemma answered_ok i answer p :
  (forall el id, requests p !! i = Some (el, id) -> P id answer) -> page_ok p -> page_ok (answered i answer p).
Proof.
  intros HP [H1 H3 H4 H5]. unfold answered. destruct (requests p !! i) as [[el id]|] eqn:Er; [|done]. cbv zeta. simpl.
  assert (forall x, x ∈ delete i (requests p) -> x ∈ requests p) as Hdel.
  { intros x Hx. rewrite (delete_Permutation _ _ _ Er). by right. }
  destruct (panel p) as [[[el' id'] c]|] eqn:Ep.
  2: { split; simpl; rewrite ?Ep; [done | done | done |]. intros el' id' Hin%Hdel. by apply H5. }
  destruct (Nat.eqb_spec el el') as [->|Hne]; simpl.
  2: { split; simpl; rewrite ?Ep; [done | done | done |]. intros el'' id'' Hin%Hdel. by apply H5. }
  destruct (H5 el' id) as [Hlt Hid]; [by eapply list_elem_of_lookup_2 |]. specialize (Hid id' c eq_refl). subst id'. split; simpl.
  - done.
  - intros id''. rewrite <- H3. split; intros (? & ? & [= <- <- <-]); eauto.
  - intros el'' id'' c' [= <- <- <-]. split; [done |]. right. eauto.
  - intros el'' id'' Hin%Hdel. destruct (H5 _ _ Hin) as [? Hid]. split; [done |]. intros id0 c' [= <- <- <-]. by eapply Hid.
Qed.

Lemma new_ok : page_ok newPage.
Proof. split; simpl; try done; [|by intros ? ? ?%elem_of_nil]. intros id. split; [by intros (? & ? & ?) | by intros [? _]]. Qed.

End Panel.

(** The list of workers is that of the last refresh. *)
Lemma load_workers id p : workers (loadTaskDetail id p) = workers p /\ workers_list (loadTaskDetail id p) = workers_list p.
Proof. unfold loadTaskDetail. by destruct (panelOf id p). Qed.

Lemma workflows_workers lt ld p :
  workers (renderWorkflows lt ld p) = workers p /\ workers_list (renderWorkflows lt ld p) = workers_list p.
Proof.
  unfold renderWorkflows. destruct (workflows p); [done |]. cbv zeta. destruct (truthy _); [|done].
  match goal with |- context [loadTaskDetail ?i ?q] => destruct (load_workers i q) as [-> ->] end. done.
Qed.

Lemma step_workers lt ld p ev :
  workers_list p = workersHTML (workers p) -> workers_list (pageStep lt ld p ev) = workersHTML (workers (pageStep lt ld p ev)).
Proof.
  intros Hp. destruct ev as [id | [[wfs wks]|] | i answer]; simpl.
  - unfold click. destruct (listed _ _); [|done]. destruct (isExpanded _ _).
    + by destruct (workflows_workers lt ld (set_expandedID None p)) as [-> ->].
    + destruct (load_workers id (renderWorkflows lt ld (set_expandedID (Some id) p))) as [-> ->].
      by destruct (workflows_workers lt ld (set_expandedID (Some id) p)) as [-> ->].
  - assert (forall q, workers_list (renderWorkers q) = workersHTML (workers (renderWorkers q))) as Hr.
    { intros q. unfold renderWorkers. destruct (workers q) eqn:E; simpl; by rewrite E. }
    unfold refreshed. cbv zeta. destruct (truthy _) as [id|]; [|apply Hr].
    match goal with |- context [loadTaskDetail ?i ?q] => destruct (load_workers i q) as [-> ->] end. apply Hr.
  - done.
  - unfold answered. destruct (requests p !! i) as [[el id]|]; [|done]. simpl. destruct (panel p) as [[[el' id'] c]|]; [|done].
    by destruct (_ =? _)%nat.
Qed.

(** ** With the coordinator *)

Section Browsing.
Context `{Env} {D : Type} `{RecordDBLaws D} (scan dead : Z).
Context (wire : string -> string) (localTime localDate : Z -> string).

(** An answer to the request for the details of [id]: an error, or what the
    coordinator answers in a state it can reach. *)
Definition genuine (id : string) (answer : string + WorkflowDetail.t) : Prop :=
  match answer with
  | inl _ => True
  | inr detail => exists c ss sd c' d, reachable scan dead (Up c ss) /\
      onStore (serveHTTP (String.append "/api/workflows/" id) sd) (c : Coordinator D) = Done c' (WorkflowDetailJSON d) /\
      detail = receiveDetail wire d
  end.

Inductive browsing : Page -> Prop :=
  | browse_new : browsing newPage
  | browse_step p ev : browsing p ->
      (forall i answer el id, ev = Answered i answer -> requests p !! i = Some (el, id) -> genuine id answer) ->
      browsing (pageStep localTime localDate p ev).

Lemma browsing_clicks evs p :
  Forall (fun ev => match ev with Answered _ _ => False | _ => True end) evs -> browsing p ->
  browsing (foldl (pageStep localTime localDate) p evs).
Proof.
  intros Hevs. revert p. induction Hevs as [|ev evs Hev _ IH]; intros p Hp; [done |]. apply IH, browse_step; [done |].
  intros i a el id ->. done.
Qed.

Lemma browsing_ok p : browsing p -> page_ok localTime localDate genuine p /\ workers_list p = workersHTML (workers p).
Proof.
  induction 1 as [|p ev _ [Hp Hw] Hev]; [split; [apply new_ok | done] |]. split; [|by apply step_workers].
  destruct ev as [id | answer | i answer]; simpl; [by apply click_ok | by apply refreshed_ok |].
  apply answered_ok; [|done]. intros el id. by apply Hev.
Qed.

Lemma genuine_detail id d : genuine id (inr d) ->
  exists c ss d0, reachable scan dead (Up (D := D) c ss) /\ detail_shown (adb (Up c ss)) id d0 /\ d = receiveDetail wire d0.
Proof.
  intros (c & ss & sd & c' & d0 & Hr & E & ->). exists c, ss, d0. split_and!; [done | | done].
  refine (request_said scan dead c ss (String.append "/api/workflows/" id) sd c' _
    (fun resp => forall det, resp = WorkflowDetailJSON det -> detail_shown (adb (Up c ss)) id det) Hr _ E d0 eq_refl).
  intros [Hdb _]. apply detail_shown_spec, Hdb.
Qed.

(** C38. The page. However rows are clicked, the tables are refreshed and the requests
    for details are answered, in any order, late or never, and whatever transactions
    of the coordinator fail: the tables are those of the last lists; there is a panel
    exactly when the expanded workflow is listed, under its row; and what a panel
    shows is what the coordinator answered for that workflow: the row of its record,
    and the tasks of its stored specification with the fields of their records (or
    the statuses of its records alone, which is the answer when reading the
    specification failed), in some state the coordinator reached. *)
Theorem page_panel p :
  browsing p ->
  wf_body p = tableHTML localTime localDate (expandedID p) (workflows p) /\ workers_list p = workersHTML (workers p) /\
  (forall id, (exists el c, panel p = Some (el, id, c)) <-> expandedID p = Some id /\ id ∈ shown_ids p) /\
  forall el id html, panel p = Some (el, id, InnerHTML html) ->
    exists c ss d, reachable scan dead (Up (D := D) c ss) /\ detail_shown (adb (Up c ss)) id d /\
      html = renderTaskDetail (receiveDetail wire d).
Proof.
  intros [[K1 K2 K3 _] Hw]%browsing_ok. split_and!; [done | done | done |]. intros el id html Hp.
  destruct (K3 el id _ Hp) as [_ [?|([m|d] & Hg & E)]]; [done | done |]. injection E as ->.
  destruct (genuine_detail id d Hg) as (c & ss & d0 & Hr & Ha & ->). by exists c, ss, d0.
Qed.

End Browsing.

(** ** The counters *)

Definition tally (v : string) (l : list string) : Z := Z.of_nat (length (filter (fun s => includes (toLowerCase s) v = true) l)).

(** No state matches two of the words. *)
Definition apart (s : string) : Prop :=
  (includes (toLowerCase s) "running" = true -> includes (toLowerCase s) "complete" = false /\ includes (toLowerCase s) "failed" = false) /\
  (includes (toLowerCase s) "complete" = true -> includes (toLowerCase s) "failed" = false).

Lemma countStates_tally l : Forall (fun wf => apart (WorkflowSummary.State wf)) l ->
  let ss := WorkflowSummary.State <$> l in countStates l = (tally "running" ss, tally "complete" ss, tally "failed" ss).
Proof.
  unfold countStates.
  assert (forall r c f, Forall (fun wf => apart (WorkflowSummary.State wf)) l ->
    foldl (fun '(running, complete, failed) wf =>
      let l := toLowerCase (WorkflowSummary.State wf) in
      if includes l "running" then (running + 1, complete, failed)
      else if includes l "complete" then (running, complete + 1, failed)
      else if includes l "failed" then (running, complete, failed + 1)
      else (running, complete, failed)) (r, c, f) l =
    (r + tally "running" (WorkflowSummary.State <$> l), c + tally "complete" (WorkflowSummary.State <$> l), f + tally "failed" (WorkflowSummary.State <$> l))) as Hf.
  { induction l as [|wf l IH]; intros r c f Ha; [by rewrite !Z.add_0_r |]. apply Forall_cons in Ha as [[A1 A2] Ha].
    cbn [foldl]. cbv zeta. unfold tally. rewrite fmap_cons, !filter_cons.
    destruct (includes _ "running"); [destruct (A1 eq_refl) as [-> ->] |
      destruct (includes _ "complete"); [rewrite (A2 eq_refl) | destruct (includes _ "failed")]];
    rewrite IH by done; unfold tally; simpl; f_equal; first [lia | f_equal; lia]. }
  intros Ha. by rewrite Hf.
Qed.

(** Words are not in numbers. *)
Lemma includes_numeral s c sub : sall numeral s = true -> numeral c = false -> includes s (String c sub) = false.
Proof.
  intros Hs Hc. induction s as [|d s IH]; [done |]. simpl in *. apply andb_true_iff in Hs as [Hd Hs]. rewrite (IH Hs), orb_false_r.
  destruct (ascii_dec c d) as [->|]; [congruence | done].
Qed.

Lemma lower_numeral s : sall numeral s = true -> toLowerCase s = s.
Proof.
  induction s as [|c s IH]; [done |]. simpl. rewrite andb_true_iff. intros [Hc Hs]. rewrite (IH Hs). f_equal.
  by destruct c as [[] [] [] [] [] [] [] []].
Qed.

Lemma state_words v :
  includes (toLowerCase (WorkflowState_String v)) "running" = (v =? WORKFLOW_RUNNING) /\
  includes (toLowerCase (WorkflowState_String v)) "complete" = (v =? WORKFLOW_COMPLETE) /\
  includes (toLowerCase (WorkflowState_String v)) "failed" = (v =? WORKFLOW_FAILED).
Proof.
  destruct (decide (v = 0 \/ v = 1 \/ v = 2 \/ v = 3)) as [Hv|Hv]; [by destruct_or! Hv; subst |].
  assert (WorkflowState_String v = pretty v) as ->.
  { unfold WorkflowState_String, enumString. destruct (Z.ltb_spec v 0); [done |]. rewrite lookup_ge_None_2; [done |]. simpl. lia. }
  rewrite lower_numeral by apply sall_pretty. rewrite !includes_numeral by first [apply sall_pretty | done].
  unfold WORKFLOW_RUNNING, WORKFLOW_COMPLETE, WORKFLOW_FAILED. split_and!; symmetry; apply Z.eqb_neq; lia.
Qed.

(** How many stored workflows are in state [v]. *)
Definition in_state (v : WorkflowState) (d : AbsDB) : Z :=
  Z.of_nat (length (filter (fun wf => WR.State wf = v) (sorted_entries (AbsDB.wstates d)).*2)).

Lemma apart_state v : apart (WorkflowState_String v).
Proof. destruct (state_words v) as (E1 & E2 & E3). unfold apart. rewrite E1, E2, E3. unfold WORKFLOW_RUNNING, WORKFLOW_COMPLETE, WORKFLOW_FAILED. lia. Qed.

Lemma tally_states word v (l : list WorkflowStateRecord) :
  (forall z, includes (toLowerCase (WorkflowState_String z)) word = (z =? v)) ->
  tally word ((fun wf => WorkflowState_String (WR.State wf)) <$> l) = Z.of_nat (length (filter (fun wf => WR.State wf = v) l)).
Proof.
  intros Hw. unfold tally. f_equal. induction l as [|wf l IH]; [done |]. rewrite fmap_cons, !filter_cons, Hw.
  destruct (Z.eqb_spec (WR.State wf) v) as [E|E]; [rewrite !decide_True by done | rewrite (decide_False (P := false = true)), (decide_False (P := WR.State wf = v)) by done];
  simpl; by rewrite IH.
Qed.

Section Counters.
Context `{Env} {D : Type} `{RecordDBLaws D} (scan dead : Z).
Context (wire : string -> string) (localTime localDate : Z -> string).
Context (wire_ascii : forall s, is_ascii s = true -> wire s = s).

Lemma wire_state v : wire (WorkflowState_String v) = WorkflowState_String v.
Proof. apply wire_ascii, sall_enum; [by repeat constructor | apply numeral_ascii]. Qed.

Lemma load_stats id p : stats (loadTaskDetail id p) = stats p.
Proof. unfold loadTaskDetail. by destruct (panelOf id p). Qed.

(** The counters after a refresh. *)
Lemma refreshed_stats wfs wks p :
  stats (refreshed localTime localDate (Some (wfs, wks)) p) =
    match wfs with [] => stats p | _ => Some (Z.of_nat (length wfs), countStates wfs) end.
Proof.
  unfold refreshed. cbv zeta.
  assert (stats (renderWorkers (renderWorkflows localTime localDate (set_data wfs wks p))) =
    match wfs with [] => stats p | _ => Some (Z.of_nat (length wfs), countStates wfs) end) as E.
  { transitivity (stats (renderWorkflows localTime localDate (set_data wfs wks p))); [unfold renderWorkers; by destruct (workers _) |].
    unfold renderWorkflows. simpl. destruct wfs; [done |]. destruct (truthy _); by rewrite ?load_stats. }
  destruct (truthy _); by rewrite ?load_stats.
Qed.

Abbreviation entries d := ((sorted_entries (AbsDB.wstates d)).*2).
Abbreviation states_of d := ((fun wf => WorkflowState_String (WR.State wf)) <$> entries d).

(** The states on the page are those of the store. *)
Lemma states_received d l :
  WorkflowSummary.State <$> l ≡ₚ states_of d -> WorkflowSummary.State <$> (receiveSummary wire <$> l) ≡ₚ states_of d.
Proof.
  intros Hp. assert (forall x, x ∈ (WorkflowSummary.State <$> l) -> wire x = x) as Hw.
  { intros x Hx. rewrite Hp in Hx. apply list_elem_of_fmap in Hx as (wf & -> & _). apply wire_state. }
  rewrite <- Hp. clear Hp. induction l as [|row l IH]; [done |]. rewrite !fmap_cons in *. simpl.
  rewrite Hw by (simpl; left). f_equiv. apply IH. intros x Hx. apply Hw. by right.
Qed.

Lemma counted d wfs :
  WorkflowSummary.State <$> wfs ≡ₚ states_of d ->
  length wfs = size (AbsDB.wstates d) /\
  countStates wfs = (in_state WORKFLOW_RUNNING d, in_state WORKFLOW_COMPLETE d, in_state WORKFLOW_FAILED d).
Proof.
  intros Hst. split.
  - rewrite <- (length_fmap WorkflowSummary.State), Hst, !length_fmap. by rewrite (Permutation_length (sorted_entries_perm _)), length_map_to_list.
  - rewrite countStates_tally.
    + assert (forall word, tally word (WorkflowSummary.State <$> wfs) = tally word (states_of d)) as Ht by (intros; unfold tally; by rewrite Hst).
      cbv zeta. rewrite !Ht. unfold in_state. f_equal; [f_equal |]; apply tally_states; intros z; apply state_words.
    + assert (Forall apart (WorkflowSummary.State <$> wfs)) as Hall; [|rewrite Forall_fmap in Hall; exact Hall].
      rewrite Hst. apply Forall_fmap, Forall_true. intros wf. apply apart_state.
Qed.

(** C39. The counters. Whatever transactions failed before and during the request,
    after a refresh with a list of workflows that the coordinator answers, the
    counters above the table are the number of stored workflows and of those that are
    RUNNING, COMPLETE and FAILED. When nothing is stored they are left as they were. *)
Theorem page_counters c ss sd p wks c' l :
  reachable scan dead (Up c ss) ->
  onStore (serveHTTP "/api/workflows" sd) (c : Coordinator D) = Done c' (WorkflowListJSON l) ->
  stats (refreshed localTime localDate (Some (receiveSummary wire <$> l, wks)) p) =
    (let d := adb (Up c ss) in
     if bool_decide (AbsDB.wstates d = ∅) then stats p
     else Some (Z.of_nat (size (AbsDB.wstates d)), (in_state WORKFLOW_RUNNING d, in_state WORKFLOW_COMPLETE d, in_state WORKFLOW_FAILED d))).
Proof.
  intros Hr E. cbv zeta.
  pose proof (request_said scan dead c ss "/api/workflows" sd c' _
    (fun resp => forall l, resp = WorkflowListJSON l -> WorkflowSummary.State <$> l ≡ₚ states_of (adb (Up c ss)))
    Hr (fun _ => list_states sd (state (coord_abs c))) E l eq_refl) as Hst.
  destruct (counted (adb (Up c ss)) (receiveSummary wire <$> l) (states_received _ _ Hst)) as [Hlen Hcount].
  rewrite refreshed_stats. destruct (receiveSummary wire <$> l) as [|wf wfs].
  - symmetry in Hlen. apply map_size_empty_iff in Hlen. by rewrite bool_decide_true.
  - rewrite bool_decide_false by (intros E0; by rewrite E0, map_size_empty in Hlen). by rewrite <- Hcount, <- Hlen.
Qed.

End Counters.
