(* ===== verification/PageWitness.v ===== *)
(** * The page on a concrete run

    The theorems about the page for a workflow whose identifiers and commands are
    full of markup, and a reader that expands its row. *)

From Stdlib Require Import Ascii.
From S2P Require Import Prelude Proto Codec Env RecordDB Store StoreRefinement StoreSpec NoFault Heartbeat Coordinator.
From S2P Require Import CoordinatorRefinement Invariant CoordinatorInv Dashboard DashboardProps Service System Sample Page PageText PageProps PageRun.
Open Scope string_scope.

(** A workflow that tries to leave its cells. *)
Definition hostile : WorkflowSpec :=
  WF.mk (lit "`><b>&lt;") [TS.mk "<i>" [] "echo </span><script>" ∅ 0 0] FAIL_FAST.
Definition hostile_run : list event := [EvBoot; EvSubmit hostile].
Definition hostile_c : Coordinator GDB := coord_of (sample_run hostile_run).
Definition hostile_ss : gmap nat string := streams_of (sample_run hostile_run).

(** The answer of the dashboard, and the wire and the clock of the sample. *)
Definition answer (path : string) (c : Coordinator GDB) : response :=
  match onStore (serveHTTP path []) c with Done _ r => r | Crashed _ => NotFound end.
Abbreviation same := (fun s : string => s).
Abbreviation clock := (fun _ : Z => "12:00:00").

Lemma answer_done path c :
  match onStore (serveHTTP path []) c with Done _ _ => true | Crashed _ => false end = true ->
  onStore (serveHTTP path []) c = Done (after (onStore (serveHTTP path [])) c) (answer path c).
Proof. unfold answer, after. by destruct (onStore (serveHTTP path []) c). Qed.

Definition returned {T A} (m : M T A) (t : T) : bool := match m t with Done _ _ => true | Crashed _ => false end.
Definition stored (path : string) : response :=
  match serveHTTP path [] (state hostile_c) with Done _ r => r | Crashed _ => NotFound end.

Lemma stored_done path :
  returned (serveHTTP path []) (state hostile_c) = true ->
  serveHTTP path [] (state hostile_c) = Done (after (serveHTTP path []) (state hostile_c)) (stored path).
Proof. unfold stored, after, returned. by destruct (serveHTTP path [] (state hostile_c)). Qed.

Definition written (resp : response) : string := default EmptyString (pageHTML same clock clock (Some (WF.WorkflowId hostile)) resp).

Lemma written_some resp :
  bool_decide (is_Some (pageHTML same clock clock (Some (WF.WorkflowId hostile)) resp)) = true ->
  pageHTML same clock clock (Some (WF.WorkflowId hostile)) resp = Some (written resp).
Proof. unfold written. by intros [x ->]%bool_decide_eq_true. Qed.

Lemma page_markup_witness :
  let resp := stored "/api/workflows" in let pieces := pagePieces same clock clock (Some (WF.WorkflowId hostile)) resp in
  lex Data (written resp) = doc Data pieces /\ markup (lex Data (written resp)) = markup (doc Data (blank <$> pieces)).
Proof.
  intros resp pieces. refine (page_markup (D := GDB) same clock clock (fun s _ => eq_refl) (fun _ => eq_refl) (fun _ => eq_refl)
    (Some (WF.WorkflowId hostile)) "/api/workflows" [] (state hostile_c) _ resp (written resp) (stored_done "/api/workflows" _) (written_some resp _)).
  - vm_refl.
  - vm_refl.
Defined.

(** The markup of the row in full: the identifier is in none of it. *)
Example hostile_table :
  String.string_of_list_ascii (markup (lex Data (written (stored "/api/workflows")))) =
  lit "<tr data-id=`` class=``><td style=``></td><td class=``><span class=``></span></td><td style=``></td><td style=``></td><td><span style=``></span><span class=``><span class=`` style=``></span></span></td><td style=``></td></tr><tr class=``><td colspan=``><div id=``></div></td></tr>".
Proof. vm_compute. reflexivity. Qed.

(** The list arrives, the row of the workflow is clicked, its details arrive. *)
Definition detail_of (r : response) : WorkflowDetail.t :=
  match r with WorkflowDetailJSON d => d | _ => WorkflowDetail.mk (workflowRow 0 (WR.mk EmptyString 0 0 0) [] EmptyString) [] end.
Definition is_detail (r : response) : bool := match r with WorkflowDetailJSON _ => true | _ => false end.

Lemma detail_of_spec r : is_detail r = true -> r = WorkflowDetailJSON (detail_of r).
Proof. by destruct r. Qed.

Definition details : WorkflowDetail.t := detail_of (answer (String.append "/api/workflows/" "w") shown_c).
Definition listed_rows : list WorkflowSummary.t :=
  match answer "/api/workflows" shown_c with WorkflowListJSON l => l | _ => [] end.
Lemma details_genuine : genuine (D := GDB) (5 * Second) (15 * Second) same "w" (inr (receiveDetail same details)).
Proof.
  exists shown_c, shown_ss, [], (after (onStore (serveHTTP (String.append "/api/workflows/" "w") [])) shown_c), details. split_and!.
  - apply sample_up. vm_refl.
  - refine (eq_trans (answer_done (String.append "/api/workflows/" "w") shown_c _) (f_equal _ (detail_of_spec _ _))); vm_refl.
  - reflexivity.
Qed.

Lemma receive_same d : receiveDetail same d = d.
Proof.
  destruct d as [[] l]. unfold receiveDetail, receiveSummary. simpl. f_equal. induction l as [|[] l IH]; [done |].
  rewrite fmap_cons, IH. unfold receiveTask. simpl. by rewrite list_fmap_id.
Qed.

Definition opened : Page := foldl (pageStep clock clock) newPage [Refreshed (Some (listed_rows, [])); Click "w"].

Lemma opened_requests : requests opened !! 0%nat = Some (1%nat, "w"). 
Proof. vm_compute. reflexivity. Qed.

Lemma reader_browsing : browsing (D := GDB) (5 * Second) (15 * Second) same clock clock (pageStep clock clock opened (Answered 0 (inr details))).
Proof.
  apply browse_step.
  - unfold opened. apply browsing_clicks; [by repeat constructor | apply browse_new].
  - intros i a el id [= <- <-] Hreq. rewrite opened_requests in Hreq. injection Hreq as <- <-. rewrite <- (receive_same details). apply details_genuine.
Qed.

Lemma page_panel_witness :
  exists c ss d, reachable (5 * Second) (15 * Second) (Up (D := GDB) c ss) /\
    detail_shown (adb (Up c ss)) "w" d /\ renderTaskDetail details = renderTaskDetail (receiveDetail same d).
Proof.
  destruct (page_panel (D := GDB) (5 * Second) (15 * Second) same clock clock _ reader_browsing) as (_ & _ & _ & Hpanel).
  apply (Hpanel 1%nat). vm_compute. reflexivity.
Defined.

(** The list, as the coordinator answers it. *)
Lemma listed_done :
  onStore (serveHTTP "/api/workflows" []) shown_c =
  Done (after (onStore (serveHTTP "/api/workflows" [])) shown_c) (WorkflowListJSON listed_rows).
Proof.
  refine (eq_trans (answer_done "/api/workflows" shown_c _) (f_equal _ _)); [vm_refl |].
  unfold listed_rows. assert (match answer "/api/workflows" shown_c with WorkflowListJSON _ => true | _ => false end = true) as Hl by vm_refl.
  by destruct (answer "/api/workflows" shown_c).
Qed.

Lemma page_counters_witness :
  stats (refreshed clock clock (Some (receiveSummary same <$> listed_rows, [])) newPage) = Some (1, (1, 0, 0))%Z.
Proof.
  refine (eq_trans (page_counters (D := GDB) (5 * Second) (15 * Second) same clock clock (fun s _ => eq_refl) shown_c shown_ss [] newPage []
    _ listed_rows _ listed_done) _); [apply sample_up; vm_refl | vm_compute; reflexivity].
Defined.
